(* ===== verification/_CoqProject ===== *)
-Q . S2P
Prelude.v
Heap.v
DeepCopies.v
Json.v
JsonText.v
GoError.v
LastApplied.v
ApiTypes.v
World.v
Sim.v
Logic.v
Url.v
HttpClient.v
AdminApi.v
FakeServer.v
FakeLaws.v
FakeClient.v
FakeSim.v
Provider.v
Threads.v
Concurrent.v
ConcurrentClient.v
DriverHelpers.v
Drivers.v
DriverLaws.v
DriverExact.v
Engine.v
PayloadMemory.v
PayloadWrites.v
EngineLaws.v
EngineTheorems.v
Convergence.v
Hosting.v
HostingScopes.v
HostingClients.v
FakeTheorems.v
Controllers.v
Flags.v
Main.v
MainTheorems.v
TestUtils.v
