(* ===== verification/Prelude.v ===== *)
(** * keycloak-operator: verification library

    The operator keeps Keycloak servers in the state that Kubernetes custom resources
    declare.  A [KeycloakConnection] names a server and a Secret with credentials; [Realm],
    [Client], [ClientScope], [RealmRole], [IdentityProvider] and [Group] objects each name a
    connection, a realm and the representation the server should hold.  One reconciliation of
    such an object resolves the connection to an Admin API client, reads the representation
    from the server, decides from the adoption policy whether it may write, computes the
    payload from the spec and the annotation of the last pass, updates the server when the
    drift test finds a difference, enforces what lives outside the representation (scopes,
    roles, mappers, exported Secrets) and records the result in annotation and status.

    ** Files

    - Prelude: generic lemmas, the hint database.
    - Heap: memory with pointers, slices and maps as references to cells; what a value of a
      type stands for and which cells it is made of; the statements deep copies are made of.
    - DeepCopies: api/v1alpha1/zz_generated.deepcopy.go: the declarations of the API types
      and every generated function.
    - Json, JsonText: the values of [map[string]any], and [encoding/json] on them with its
      round trip.  Numbers are integral float64 values; the parser takes as fuel the length
      of its input, which bounds its depth.
    - GoError: internal/keycloak/errors.go, wrapping, [errors.Is], [errors.As].
    - LastApplied: internal/controller/lastapplied.go: effective payload, overlay, drift test
      with the declarative relation [covers] it is measured against.
    - ApiTypes: api/v1alpha1: constants, the six specs with every field and its struct tag,
      accessors, and the class [Spec] (managed.go).
    - World: the Kubernetes objects, the interfaces to what is outside the program
      ([KubeLib], [Env], their laws, [Versions]) and the monad [M] of effects: a world in,
      a result or a panic and a world out, with a trace of all actions.
    - Sim: one concrete environment, for running the definitions and for witnesses.
    - Logic: the steps of the environment as a relation, [wp], [emits], [safe] and the
      tactics that follow a program.
    - Url: [url.PathEscape], [url.QueryEscape], [url.Values.Encode] and their inverses.
    - HttpClient: internal/keycloak/client.go: [Token], [invalidate], [doOnce], [Do],
      [observeRequest].
    - AdminApi: internal/keycloak/resources.go, all methods; where requests go.
    - FakeServer: internal/keycloak/fake/server.go: the state, every handler, the router, the
      accessors of the tests.
    - FakeLaws: the paths of AdminApi through the router; a request stays in its realm.
    - FakeClient: the class [FakeEnv] of environments whose transport is the fake server, and
      the client against it: tokens, revocation, delivery of calls.
    - FakeSim: a concrete [FakeEnv].
    - Provider: internal/keycloak/provider.go: [For], [clientConfig], the cache invariant.
    - Threads: pools of threads, their runs, invariants, bounds and the scheduler [exec].
    - Concurrent: parallel calls of [For] of provider.go.
    - ConcurrentClient: parallel calls of [Do] of client.go, with the mutex of the client.
    - DriverHelpers: internal/controller/driver_helpers.go.
    - Drivers: the [Driver] interface of engine.go and the six drivers of driver_realm.go,
      driver_client.go and driver_role_idp_group.go.
    - DriverLaws: the contract [DriverLaws] between drivers and engine, and its six instances.
    - DriverExact: the mappers of identity providers and the role mappings of groups, as
      PostApply of driver_role_idp_group.go enforces them.
    - Engine: internal/controller/engine.go: [Reconcile] and its handlers.
    - PayloadMemory, PayloadWrites: the maps of a payload as cells of a memory; the copies,
      writes and merges of lastapplied.go, driver_helpers.go, the drivers and engine.go on it.
    - EngineLaws: specifications of the engine's parts, against [DriverLaws].
    - EngineTheorems: the guarantees of a reconciliation.
    - Convergence: the interface [Hosted], what a server that stores an object promises its
      driver, and one reconciliation against it.
    - Hosting, HostingScopes, HostingClients: [Hosted] for realms, realm roles and groups, for
      client scopes, and for clients with their scope assignments, on the fake server.
    - FakeTheorems: the guarantees of operator and fake server together.
    - Controllers: the reconcilers of internal/controller/*_controller.go.
    - Flags: the packages flag, strconv, time and strings, as far as main.go uses them.
    - Main: cmd/main.go, internal/version/version.go, the registration of types
      (groupversion_info.go and the [init] of the types files), of controllers
      ([SetupWithManager]) and of metrics (metrics.go).
    - MainTheorems: the guarantees of the entry point.
    - TestUtils: test/utils/utils.go, over an operating system that may fail at any call.

    ** How the code is modelled

    A Go function that only computes is a function; one with effects is a computation of [M],
    written in the order of the code with its early returns.  An object that is changed in
    place is returned.  A map visited by [range] is visited in an order that the environment
    chooses, and the theorems hold for every order.  The clock, the HTTP transport and the
    Kubernetes API are functions of [Env], with a state of their own; they may answer
    anything, so that a theorem over all environments covers every failure.  The laws that
    some theorems use are documented behaviour: a map is visited once per entry, the API
    server returns the object that was asked for, a resource version names one state of an
    object, and the helpers for conditions, finalizers and owner references do what they say.
    Sim satisfies all of them.  Every computation is total: the loops of the source run over
    lists.  Fuel occurs in the JSON parser, in [ParseDuration] and in [TrimSpace], each time
    the length of the input, of which every step takes a byte, in [mem_deepCopyValue], where
    the theorem shows that the size of the document is enough, and in [alone], where the
    lemmas prove that seven and eleven moves are enough.

    Parallel runs are explicit: a function is a machine whose moves are its calls and its
    critical sections, a mutex is part of the shared state and a thread that finds it taken
    waits, a pool has any number of threads and a shared world, and a run is any
    interleaving, with the rest of the system changing what it may in between.  Run alone, a
    machine is the sequential function.  What controller-runtime and Prometheus do at start-up
    is the class [Runtime] of Main, whose calls may fail at any point; [RuntimeLaws] is what
    their documentation promises, and Sim_Runtime keeps it.

    ** What the theorems show

    - Safety of a reconciliation: foreign resources, protected realms and objects without a
      finalizer cause no write to the server; everything stays in one server, one realm and
      one namespace (only the realm kind creates a realm, the one it names); the finalizer
      goes only after the server-side delete is settled.
    - Convergence: one update brings the server to a state in which the next pass finds no
      drift, injected Secrets included, and a pass without drift only reads.  What was applied
      is recorded, and a field removed from the spec is reset.
    - Operator and server together: the fake server implements an abstract store for five
      kinds, one reconciliation brings it to the spec, the scope assignments of clients
      included, and the next ones only read, whatever was there before; under the Delete
      policy one reconciliation removes the resource and then the finalizer; calls survive a
      revoked token; what the client writes into a request is what the handler reads; other
      realms stay as they were.
    - The drift test is sound, and complete on lists of unmasked scalars; two theorems show
      where it is not (removed maps, greedy matching of list elements).
    - The client: at most two attempts with a fresh token for the second, the token cache and
      its int64 lifetimes, the mapping of status codes; the provider hands out the client of
      the current connection and Secret.
    - Parallel reconcilers: however calls of the provider interleave, each gets the client of
      the objects it has read, no two clients share a token and no two calls touch the cache
      at once; however requests of a client interleave, a rejected token is renewed before
      the second attempt and one refresh runs at a time; every schedule of both ends without
      a deadlock.
    - The drivers enforce scopes, roles, role mappings and identity-provider mappers exactly,
      write only Secrets they control and keep the contract; the connection probe reports
      what it found.
    - The entry point sets everything up in order or exits at the first error; under a
      runtime that keeps its documentation the operator starts; flags and namespace lists
      mean what they say.
    - Payloads are maps that are changed in place.  What the files on values say of them is
      what happens in memory: a marker or a secret written into the payload changes neither
      the spec snapshot that becomes the annotation nor the representation that was read.
    - The generated deep copies have the contents of the original and share no memory with
      it, so that the copy from which a patch is computed stays as it was.
    - Behaviour that differs from the documentation is proved where it occurs: deletion
      checks neither ownership nor protection, transient errors are counted as terminal, and
      the credentials of a deleted connection can stay cached.

    ** Not modelled

    TLS and HTTP transport details, logging, help texts and histogram buckets.  Parallel runs
    are those of the provider and of a client.  A reconciliation as a whole is a sequence of
    calls; between any two of them the environment may change everything, so that what holds
    in every environment holds beside other reconcilers too, and the memory they share, the
    cache of the provider and the token of a client, is what Concurrent and ConcurrentClient
    are about.  The fake server serves one request at a time, as its mutex has it, and its
    redirects, which only empty names and dot segments provoke, are not followed.  Three
    features are not part of its abstract store, because it does not behave as a store for
    them: it has no endpoint for identity-provider mappers, it answers the question for the
    role mappings of a group with the group, so that they never settle, and the composites of
    a role are kept apart from the field in which an update stores them.  DriverExact and
    DriverHelpers treat these features on any server.  JSON numbers with a fraction do not
    occur in the representations the specs describe and do not parse here; the bytes of a
    Secret that are no valid UTF-8 are sent as they are, where Go replaces them.  No part of the
    program is left for a later extension. *)

From Stdlib Require Import ZArith Lia.
From stdpp Require Import base gmap strings list sorting.

(** ** Generic lemmas *)

Section Lists.
Context {A : Type}.

Lemma Forall_perm (P : A → Prop) (l k : list A) : l ≡ₚ k → Forall P l → Forall P k.
Proof. by intros ->. Qed.

Lemma foldr_sum_elem (f : A → nat) (l : list A) (x : A) :
  x ∈ l → f x ≤ foldr (λ y a, f y + a) 0 l.
Proof. induction 1; simpl; lia. Qed.
End Lists.

Lemma map_fold_sum_lookup {V} (f : V → nat) (m : gmap string V) (k : string) (x : V) :
  m !! k = Some x → f x ≤ map_fold (λ _ y a, f y + a) 0 m.
Proof.
  intros Hk.
  rewrite (map_fold_delete_L (λ _ y a, f y + a) 0 k x m); [lia| |done].
  intros; lia.
Qed.

(** A boolean disjunction accumulated over a map, in any iteration order. *)
Lemma map_fold_orb {V} (f : string → V → bool) (m : gmap string V) :
  map_fold (λ k v acc, acc || f k v) false m = true ↔
  ∃ k v, m !! k = Some v ∧ f k v = true.
Proof.
  induction m as [|k v m Hk IH] using map_ind.
  - rewrite map_fold_empty. split; [done|]. intros (k & v & Hl & _).
    by rewrite lookup_empty in Hl.
  - rewrite map_fold_insert_L; [|by intros; destruct (f j1 z1), (f j2 z2), y|done].
    rewrite orb_true_iff, IH. split.
    + intros [(k' & v' & ? & ?)|?]; [|by exists k, v; rewrite lookup_insert_eq].
      exists k', v'. split; [|done]. rewrite lookup_insert_ne; [done|congruence].
    + intros (k' & v' & Hl & Hf). apply lookup_insert_Some in Hl as [[-> ->]|[_ ?]]; eauto.
Qed.

Lemma map_fold_andb {V} (f : string → V → bool) (m : gmap string V) :
  map_fold (λ k v acc, acc && f k v) true m = true ↔
  ∀ k v, m !! k = Some v → f k v = true.
Proof.
  induction m as [|k v m Hk IH] using map_ind.
  - rewrite map_fold_empty. split; [|done]. intros _ k v Hl. by rewrite lookup_empty in Hl.
  - rewrite map_fold_insert_L; [|by intros; destruct (f j1 z1), (f j2 z2), y|done].
    rewrite andb_true_iff, IH. split.
    + intros [Hm Hv] k' v' [[<- <-]|[_ ?]]%lookup_insert_Some; eauto.
    + intros H. split.
      * intros k' v' Hl. apply H. rewrite lookup_insert_ne; [done|congruence].
      * apply H. by rewrite lookup_insert_eq.
Qed.

(** The hints of the development. *)
Create HintDb operator.
