(* ===== verification/Heap.v ===== *)
(** * Memory with references

    The part of Go's memory that deep copies are about: scalars and structs are values;
    pointers, slices and maps are references to cells, which two values may share.  [view]
    reads a value of a type: the tree it stands for and the cells it is made of.  A deep
    copy is a new value with the same tree whose cells are all new ([copies]). *)

From Stdlib Require Import ZArith Lia.
From stdpp Require Import base gmap strings list fin_maps.
From S2P Require Import Prelude.

Local Open Scope string_scope.
Local Open Scope list_scope.

(** ** Types, values, memory *)

Inductive gotype :=
  | TScalar
  | TStruct (fields : list (string * gotype))
  | TPtr (t : gotype)
  | TSlice (t : gotype)
  | TMap (t : gotype).

Inductive scalar := SBool (b : bool) | SInt (z : Z) | SStr (s : string).

Abbreviation loc := positive.

Inductive val :=
  | VScalar (s : scalar)
  | VStruct (fields : gmap string val)
  | VNil
  | VRef (l : loc).

(** What a pointer, a slice and a map refer to. *)
Inductive cell :=
  | CVal (v : val)
  | CArr (vs : list val)
  | CMap (m : gmap string val).

Abbreviation heap := (gmap loc cell).

(** What a value stands for, wherever it is stored. *)
Inductive tree :=
  | LScalar (s : scalar)
  | LStruct (fields : gmap string tree)
  | LNil
  | LPtr (t : tree)
  | LSlice (ts : list tree)
  | LMap (ts : gmap string tree).

Section TypeInd.
Variable P : gotype → Prop.
Hypothesis HScalar : P TScalar.
Hypothesis HStruct : ∀ fields, Forall (λ f, P f.2) fields → P (TStruct fields).
Hypothesis HPtr : ∀ t, P t → P (TPtr t).
Hypothesis HSlice : ∀ t, P t → P (TSlice t).
Hypothesis HMap : ∀ t, P t → P (TMap t).

Fixpoint gotype_induction (t : gotype) : P t :=
  match t with
  | TScalar => HScalar
  | TStruct fields => HStruct fields ((fix go l : Forall (λ f, P f.2) l :=
      match l with
      | [] => Forall_nil_2 _
      | f :: l' => Forall_cons_2 _ f l' (gotype_induction f.2) (go l')
      end) fields)
  | TPtr t => HPtr t (gotype_induction t)
  | TSlice t => HSlice t (gotype_induction t)
  | TMap t => HMap t (gotype_induction t)
  end.
End TypeInd.

(** ** Reading *)

Abbreviation seen := (tree * gset loc)%type.

(** The views of the members of a map, when all have one. *)
Definition map_views (f : val → option seen) (m : gmap string val) : option (gmap string seen) :=
  if bool_decide (map_Forall (λ _ v, is_Some (f v)) m) then Some (omap f m) else None.

Definition seen_arr (l : list seen) : seen := (LSlice l.*1, ⋃ l.*2).
Definition seen_map (m : gmap string seen) : seen := (LMap (fst <$> m), ⋃ (map_to_list m).*2.*2).
Definition seen_at (l : loc) (x : seen) : seen := (x.1, {[l]} ∪ x.2).

(** The fields of a struct, in the order of the declaration. *)
Section Fields.
Variable view : gotype → val → option seen.
Fixpoint field_views (fields : list (string * gotype)) (m : gmap string val)
    : option (gmap string tree * gset loc) :=
  match fields with
  | [] => Some (∅, ∅)
  | (n, t) :: fields' =>
      v ← m !! n;
      x ← view t v;
      r ← field_views fields' m;
      Some (<[n := x.1]> r.1, x.2 ∪ r.2)
  end.
End Fields.

Fixpoint view (t : gotype) (h : heap) (v : val) : option seen :=
  match t, v with
  | TScalar, VScalar s => Some (LScalar s, ∅)
  | TStruct fields, VStruct m =>
      r ← field_views (λ t v, view t h v) fields m; Some (LStruct r.1, r.2)
  | TPtr _, VNil | TSlice _, VNil | TMap _, VNil => Some (LNil, ∅)
  | TPtr t, VRef l =>
      match h !! l with
      | Some (CVal v) => x ← view t h v; Some (seen_at l (LPtr x.1, x.2))
      | _ => None
      end
  | TSlice t, VRef l =>
      match h !! l with
      | Some (CArr vs) => xs ← mapM (view t h) vs; Some (seen_at l (seen_arr xs))
      | _ => None
      end
  | TMap t, VRef l =>
      match h !! l with
      | Some (CMap m) => xs ← map_views (view t h) m; Some (seen_at l (seen_map xs))
      | _ => None
      end
  | _, _ => None
  end.

(** *** What a view depends on *)

Section Views.
Implicit Types (h : heap) (v : val) (t : gotype) (fp : gset loc).

(** [g] sees what [f] sees, of what is made of cells in [fp]. *)
Definition sees fp (f g : val → option seen) : Prop := ∀ v x, f v = Some x → x.2 ⊆ fp → g v = Some x.

Lemma field_views_sees fp (f g : gotype → val → option seen) fields (m : gmap string val) r :
  Forall (λ n, sees fp (f n.2) (g n.2)) fields → r.2 ⊆ fp →
  field_views f fields m = Some r → field_views g fields m = Some r.
Proof.
  intros Hs. revert r. induction Hs as [|[n t] fields Hn Hs IH]; intros r Hr; [done|].
  cbn [snd] in Hn. cbn [field_views]. destruct (m !! n) as [v|]; [|done]. cbn [mbind option_bind].
  destruct (f t v) as [x|] eqn:Hx; [|done]. cbn [mbind option_bind].
  destruct (field_views f fields m) as [r'|]; [|done]. cbn [mbind option_bind].
  intros [= <-]. cbn [snd] in Hr. rewrite (Hn v x); [|done|cbn; set_solver]. cbn [mbind option_bind].
  rewrite (IH r'); [done|set_solver|done].
Qed.

Lemma mapM_sees fp (f g : val → option seen) (vs : list val) xs :
  sees fp f g → (seen_arr xs).2 ⊆ fp → mapM f vs = Some xs → mapM g vs = Some xs.
Proof.
  intros Hs. rewrite !mapM_Some. intros Hfp. induction 1 as [|v x vs xs Hv Hl IH]; constructor.
  - apply Hs; [done|]. cbn in *. set_solver.
  - apply IH. cbn in *. set_solver.
Qed.

Lemma seen_map_part (m : gmap string seen) (k : string) (x : seen) :
  m !! k = Some x → x.2 ⊆ (seen_map m).2.
Proof.
  intros Hk l Hl. cbn. apply elem_of_union_list. exists x.2. split; [|done].
  apply list_elem_of_fmap. exists x. split; [done|]. apply list_elem_of_fmap. exists (k, x).
  split; [done|]. by apply elem_of_map_to_list.
Qed.

Lemma map_views_Some (f : val → option seen) (m : gmap string val) (xs : gmap string seen) :
  map_views f m = Some xs ↔ ∀ k, match m !! k with
    | Some v => ∃ x, f v = Some x ∧ xs !! k = Some x
    | None => xs !! k = None
    end.
Proof.
  unfold map_views. split.
  - case_bool_decide as Hm; [|done]. intros [= <-] k. rewrite lookup_omap.
    destruct (m !! k) as [v|] eqn:Hk; [|done]. destruct (Hm k v Hk) as [x Hx]. by exists x.
  - intros Hk. rewrite bool_decide_eq_true_2.
    + f_equal. apply map_eq. intros k. rewrite lookup_omap. specialize (Hk k).
      destruct (m !! k) as [v|]; cbn; [|done]. destruct Hk as (x & -> & ->). done.
    + intros k v Hv. specialize (Hk k). rewrite Hv in Hk. destruct Hk as (x & Hx & _). by exists x.
Qed.

Lemma map_views_sees fp (f g : val → option seen) (m : gmap string val) xs :
  sees fp f g → (seen_map xs).2 ⊆ fp → map_views f m = Some xs → map_views g m = Some xs.
Proof.
  intros Hs Hfp. rewrite !map_views_Some. intros Hk k. specialize (Hk k).
  destruct (m !! k) as [v|]; [|done]. destruct Hk as (x & Hx & Hxs). exists x. split; [|done].
  apply Hs; [done|]. etrans; [|exact Hfp]. by eapply seen_map_part.
Qed.

(** A view depends on the cells it is made of, which exist. *)
Lemma view_sees h h' fp t :
  (∀ l, l ∈ fp → h' !! l = h !! l) → sees fp (view t h) (view t h').
Proof.
  intros Hh. induction t as [|fields IH|t IH|t IH|t IH] using gotype_induction; intros [s|m| |l] x;
    cbn [view]; try done.
  - destruct (field_views _ fields m) as [r|] eqn:E; [|done]. cbn [mbind option_bind].
    intros [= <-] Hfp. cbn [snd] in Hfp. by rewrite (field_views_sees fp _ _ _ _ _ IH Hfp E).
  - destruct (h !! l) as [[v| |]|] eqn:Hl; try done.
    destruct (view t h v) as [y|] eqn:E; [|done]. intros [= <-] Hfp. cbn in Hfp.
    rewrite Hh, Hl by set_solver. rewrite (IH v y E) by set_solver. done.
  - destruct (h !! l) as [[|vs|]|] eqn:Hl; try done.
    destruct (mapM (view t h) vs) as [ys|] eqn:E; [|done]. intros [= <-] Hfp. cbn in Hfp.
    rewrite Hh, Hl by set_solver. rewrite (mapM_sees fp (view t h) _ _ ys IH); [done|cbn; set_solver|done].
  - destruct (h !! l) as [[| |m]|] eqn:Hl; try done.
    destruct (map_views (view t h) m) as [ys|] eqn:E; [|done]. intros [= <-] Hfp. cbn in Hfp.
    rewrite Hh, Hl by set_solver.
    rewrite (map_views_sees fp (view t h) _ _ ys IH); [done|cbn; set_solver|done].
Qed.

Lemma field_views_dom (P : gset loc) (f : gotype → val → option seen) fields m r :
  Forall (λ n, ∀ v x, f n.2 v = Some x → x.2 ⊆ P) fields → field_views f fields m = Some r → r.2 ⊆ P.
Proof.
  intros Hs. revert r. induction Hs as [|[n t] fields Hn Hs IH]; intros r; cbn [field_views].
  { intros [= <-]. set_solver. }
  destruct (m !! n) as [v|]; [|done]. cbn [mbind option_bind].
  destruct (f t v) as [x|] eqn:Hx; [|done]. cbn [mbind option_bind].
  destruct (field_views f fields m) as [r'|]; [|done]. intros [= <-]. cbn [snd].
  cbn [snd] in Hn. specialize (Hn v x Hx). specialize (IH r' eq_refl). set_solver.
Qed.

Lemma view_dom h t v x : view t h v = Some x → x.2 ⊆ dom h.
Proof.
  revert v x. induction t as [|fields IH|t IH|t IH|t IH] using gotype_induction; intros [s|m| |l] x;
    cbn [view]; try done; try (intros [= <-]; set_solver).
  - destruct (field_views _ fields m) as [r|] eqn:E; [|done]. intros [= <-]. cbn [snd].
    eapply field_views_dom; [|exact E]. done.
  - destruct (h !! l) as [[v| |]|] eqn:Hl; try done. apply elem_of_dom_2 in Hl.
    destruct (view t h v) as [y|] eqn:E; [|done]. intros [= <-]. cbn. apply IH in E. set_solver.
  - destruct (h !! l) as [[|vs|]|] eqn:Hl; try done. apply elem_of_dom_2 in Hl.
    destruct (mapM (view t h) vs) as [ys|] eqn:E; [|done]. intros [= <-]. cbn.
    apply mapM_Some in E. apply union_subseteq. split; [set_solver|]. clear Hl.
    induction E as [|v y vs ys Hv _ IHl]; cbn; [set_solver|]. apply IH in Hv. set_solver.
  - destruct (h !! l) as [[| |m]|] eqn:Hl; try done. apply elem_of_dom_2 in Hl.
    destruct (map_views (view t h) m) as [ys|] eqn:E; [|done]. intros [= <-]. cbn.
    apply union_subseteq. split; [set_solver|]. intros a (X & HX & Ha)%elem_of_union_list.
    apply list_elem_of_fmap in HX as (y & -> & Hy). apply list_elem_of_fmap in Hy as ([k y'] & -> & Hy).
    apply elem_of_map_to_list in Hy. rewrite map_views_Some in E. specialize (E k).
    destruct (m !! k) as [v|]; [|congruence]. destruct E as (z & Hz & Ez). apply IH in Hz.
    assert (z = y') as -> by congruence. by apply Hz.
Qed.

Lemma view_mono h h' t v x : view t h v = Some x → h ⊆ h' → view t h' v = Some x.
Proof.
  intros Hv Hsub. apply (view_sees h h' x.2 t); [|done..]. intros l Hl.
  apply (view_dom _ _ _ _ Hv) in Hl. apply elem_of_dom in Hl as [c Hc].
  rewrite Hc. by eapply lookup_weaken.
Qed.

(** A write outside the cells of a view is not seen. *)
Lemma view_frame h t v x (l : loc) (c : cell) :
  view t h v = Some x → l ∉ x.2 → view t (<[l := c]> h) v = Some x.
Proof.
  intros Hv Hl. apply (view_sees h _ x.2 t); [|done..]. intros k Hk.
  rewrite lookup_insert_ne; [done|]. congruence.
Qed.
End Views.

(** ** Copying *)

(** A statement that fills [out] from [in]: the new value and the memory after it; [None]
    when memory is not as the types say.  A cell is allocated once its contents are
    copied; in the source it is allocated before, and only addresses depend on that. *)
Definition copier : Type := val → heap → option (val * heap).

Definition alloc (c : cell) (h : heap) : val * heap :=
  let l := fresh (dom h) in (VRef l, <[l := c]> h).

(** [out.F = in.F]. *)
Definition assign : copier := λ v h, Some (v, h).

(** [if in.F != nil { *out = new(T); ... }]. *)
Definition copy_ptr (c : copier) : copier := λ v h,
  match v with
  | VNil => Some (VNil, h)
  | VRef l =>
      match h !! l with
      | Some (CVal x) => r ← c x h; Some (alloc (CVal r.1) r.2)
      | _ => None
      end
  | _ => None
  end.

(** [if in.F != nil { *out = make([]T, len(in)); for i := range *in { ... } }]. *)
Fixpoint copy_list (c : copier) (vs : list val) (h : heap) : option (list val * heap) :=
  match vs with
  | [] => Some ([], h)
  | v :: vs' => r ← c v h; rs ← copy_list c vs' r.2; Some (r.1 :: rs.1, rs.2)
  end.
Definition copy_slice (c : copier) : copier := λ v h,
  match v with
  | VNil => Some (VNil, h)
  | VRef l =>
      match h !! l with
      | Some (CArr vs) => r ← copy_list c vs h; Some (alloc (CArr r.1) r.2)
      | _ => None
      end
  | _ => None
  end.

(** [if in.F != nil { *out = make(map[string]T, len(in)); for key, val := range *in { ... } }]. *)
Fixpoint copy_entries (c : copier) (es : list (string * val)) (h : heap)
    : option (list (string * val) * heap) :=
  match es with
  | [] => Some ([], h)
  | (k, v) :: es' => r ← c v h; rs ← copy_entries c es' r.2; Some ((k, r.1) :: rs.1, rs.2)
  end.
Definition copy_map (c : copier) : copier := λ v h,
  match v with
  | VNil => Some (VNil, h)
  | VRef l =>
      match h !! l with
      | Some (CMap m) => r ← copy_entries c (map_to_list m) h; Some (alloc (CMap (list_to_map r.1)) r.2)
      | _ => None
      end
  | _ => None
  end.

(** [*out = *in] and one statement for each field that is listed. *)
Fixpoint copy_fields (l : list (string * copier)) (m out : gmap string val) (h : heap)
    : option (gmap string val * heap) :=
  match l with
  | [] => Some (out, h)
  | (n, c) :: l' => v ← m !! n; r ← c v h; copy_fields l' m (<[n := r.1]> out) r.2
  end.
Definition copy_struct (l : list (string * copier)) : copier := λ v h,
  match v with
  | VStruct m => r ← copy_fields l m m h; Some (VStruct r.1, r.2)
  | _ => None
  end.

(** ** Correct copies *)

(** [v'] in [h'] is a copy of [v] in [h]: the same tree, of cells that [h] has not. *)
Definition copied (t : gotype) (h h' : heap) (v v' : val) : Prop :=
  ∃ x x', view t h v = Some x ∧ view t h' v' = Some x' ∧ x'.1 = x.1 ∧ x'.2 ## dom h.

(** The statement copies every value of the type, and changes no cell. *)
Definition copies (t : gotype) (c : copier) : Prop := ∀ h v,
  is_Some (view t h v) → ∃ v' h', c v h = Some (v', h') ∧ h ⊆ h' ∧ copied t h h' v v'.

(** Values without references. *)
Fixpoint flat (t : gotype) : bool :=
  match t with
  | TScalar => true
  | TStruct fields => (fix go l := match l with [] => true | (_, t) :: l' => flat t && go l' end) fields
  | _ => false
  end.

Section Copies.
Implicit Types (h : heap) (v : val) (t : gotype) (c : copier).

Lemma copied_weaken t h h1 h2 h3 v v' :
  h ⊆ h1 → is_Some (view t h v) → copied t h1 h2 v v' → h2 ⊆ h3 → copied t h h3 v v'.
Proof.
  intros Hs [x Hx] (y & y' & Hy & Hy' & E & Hd) Hs2. exists x, y'.
  assert (x = y) as -> by (apply (view_mono _ h1) in Hx; [congruence|done]).
  split; [done|]. split; [by eapply view_mono|]. split; [done|].
  apply subseteq_dom in Hs. set_solver.
Qed.

Lemma alloc_fresh h (x : cell) : ∃ l, alloc x h = (VRef l, <[l := x]> h) ∧ l ∉ dom h ∧ h ⊆ <[l := x]> h.
Proof.
  exists (fresh (dom h)). pose proof (is_fresh (dom h)) as Hl. split; [done|]. split; [done|].
  apply insert_subseteq. by apply not_elem_of_dom.
Qed.

Lemma assign_copies t : flat t = true → copies t assign.
Proof.
  intros Hf h v [x Hx]. exists v, h. split; [done|]. split; [done|].
  enough (x.2 = ∅) as He by (exists x, x; split_and!; [done..|set_solver]).
  revert v x Hf Hx. induction t as [|fields IH|t IH|t IH|t IH] using gotype_induction;
    intros [s|m| |l] x Hf; cbn [view]; try done.
  { by intros [= <-]. }
  destruct (field_views _ fields m) as [r|] eqn:E; [|done]. intros [= <-]. cbn [snd].
  enough (r.2 ⊆ ∅) by set_solver. eapply field_views_dom; [|exact E].
  clear E. cbn [flat] in Hf. induction IH as [|[n t] l Ht _ IHl]; constructor.
  - apply andb_true_iff in Hf as [Hf _]. intros v y Hy. by rewrite (Ht v y Hf Hy).
  - apply IHl. by apply andb_true_iff in Hf as [_ ?].
Qed.

Lemma copy_ptr_copies t c : copies t c → copies (TPtr t) (copy_ptr c).
Proof.
  intros Hc h v [x Hx]. destruct v as [| | |l]; try done.
  { exists VNil, h. split; [done|]. split; [done|]. exists (LNil, ∅), (LNil, ∅). split_and!; [done..|set_solver]. }
  cbn [view] in Hx. unfold copy_ptr. destruct (h !! l) as [[v| |]|] eqn:Hl; try done.
  destruct (Hc h v) as (v' & h' & -> & Hs & y & y' & Hy & Hy' & E & Hd).
  { by destruct (view t h v); [eexists|]. }
  cbn [mbind option_bind fst snd]. destruct (alloc_fresh h' (CVal v')) as (a & -> & Ha & Hs').
  exists (VRef a), (<[a := CVal v']> h'). split; [done|]. split; [by etrans|].
  eexists _, (seen_at a (LPtr y'.1, y'.2)). cbn [view]. rewrite Hl, Hy, lookup_insert_eq.
  rewrite (view_mono _ _ _ _ _ Hy' Hs'). split_and!; [done..|by cbn; rewrite E|].
  cbn. apply subseteq_dom in Hs. set_solver.
Qed.

Lemma copy_list_copies t c (vs : list val) h xs :
  copies t c → mapM (view t h) vs = Some xs →
  ∃ vs' h', copy_list c vs h = Some (vs', h') ∧ h ⊆ h' ∧ Forall2 (copied t h h') vs vs'.
Proof.
  intros Hc. rewrite mapM_Some. revert h xs. induction vs as [|v vs IH]; intros h xs Hxs.
  { by exists [], h. }
  inversion Hxs as [|? x ? xs' Hx Hxs']; subst. cbn [copy_list].
  destruct (Hc h v) as (v' & h1 & -> & Hs1 & Hv); [by eexists|]. cbn [mbind option_bind fst snd].
  destruct (IH h1 xs') as (vs' & h2 & -> & Hs2 & Hvs).
  { eapply Forall2_impl; [exact Hxs'|]. intros u y Hu. exact (view_mono _ _ _ _ _ Hu Hs1). }
  exists (v' :: vs'), h2. split; [done|]. split; [by etrans|]. constructor.
  - apply (copied_weaken t h h h1 h2); [done|by eexists|done|done].
  - clear -Hs1 Hxs' Hvs. revert vs' Hvs. induction Hxs'; inversion 1; subst; constructor; auto.
    apply (copied_weaken t h h1 h2 h2); [done|by eexists|done|done].
Qed.

(** The views of a list and of its copy. *)
Lemma copied_list t h h' (vs vs' : list val) xs :
  mapM (view t h) vs = Some xs → Forall2 (copied t h h') vs vs' →
  ∃ xs', mapM (view t h') vs' = Some xs' ∧ xs'.*1 = xs.*1 ∧ (seen_arr xs').2 ## dom h.
Proof.
  rewrite mapM_Some. intros Hxs Hvs. revert xs Hxs.
  induction Hvs as [|v v' vs vs' (y & y' & Hy & Hy' & E & Hd) _ IH]; intros xs Hxs.
  { inversion Hxs; subst. exists []. split_and!; [done..|set_solver]. }
  inversion Hxs as [|? x ? xs0 Hx Hxs0]; subst. destruct (IH xs0 Hxs0) as (xs' & Hm & E' & Hd').
  exists (y' :: xs'). cbn [mapM]. rewrite Hy', Hm. split; [done|]. cbn [fmap list_fmap].
  assert (y = x) as -> by congruence. split; [by rewrite E, E'|]. cbn in *. set_solver.
Qed.

Lemma copy_slice_copies t c : copies t c → copies (TSlice t) (copy_slice c).
Proof.
  intros Hc h v [x Hx]. destruct v as [| | |l]; try done.
  { exists VNil, h. split; [done|]. split; [done|]. exists (LNil, ∅), (LNil, ∅). split_and!; [done..|set_solver]. }
  cbn [view] in Hx. unfold copy_slice. destruct (h !! l) as [[|vs|]|] eqn:Hl; try done.
  destruct (mapM (view t h) vs) as [xs|] eqn:Hxs; [|done].
  destruct (copy_list_copies t c vs h xs Hc Hxs) as (vs' & h' & -> & Hs & Hvs).
  cbn [mbind option_bind fst snd]. destruct (alloc_fresh h' (CArr vs')) as (a & -> & Ha & Hs').
  exists (VRef a), (<[a := CArr vs']> h'). split; [done|]. split; [by etrans|].
  destruct (copied_list t h (<[a := CArr vs']> h') vs vs' xs Hxs) as (xs' & Hm & E & Hd).
  { eapply Forall2_impl; [exact Hvs|]. intros u u' Hu. apply (copied_weaken t h h h'); [done| |done|done].
    destruct Hu as (? & ? & ? & _). by eexists. }
  exists (seen_at l (seen_arr xs)), (seen_at a (seen_arr xs')). cbn [view]. rewrite Hl, Hxs, lookup_insert_eq, Hm.
  split_and!; [done..|exact (f_equal LSlice E)|]. cbn in *. apply subseteq_dom in Hs. set_solver.
Qed.

Lemma copy_entries_copies t c (es : list (string * val)) h :
  copies t c → Forall (λ e, is_Some (view t h e.2)) es →
  ∃ es' h', copy_entries c es h = Some (es', h') ∧ h ⊆ h' ∧
    Forall2 (λ e e', e'.1 = e.1 ∧ copied t h h' e.2 e'.2) es es'.
Proof.
  intros Hc. revert h. induction es as [|[k v] es IH]; intros h Hes.
  { by exists [], h. }
  apply Forall_cons in Hes as [Hv Hes]. cbn [snd] in Hv. cbn [copy_entries].
  destruct (Hc h v Hv) as (v' & h1 & -> & Hs1 & Hv'). cbn [mbind option_bind fst snd].
  destruct (IH h1) as (es' & h2 & -> & Hs2 & Hes').
  { eapply Forall_impl; [exact Hes|]. intros e [x Hx]. exists x. by eapply view_mono. }
  exists ((k, v') :: es'), h2. split; [done|]. split; [by etrans|]. constructor.
  - split; [done|]. by apply (copied_weaken t h h h1 h2).
  - clear -Hs1 Hes Hes'. revert es' Hes'. induction Hes; inversion 1 as [|? ? ? ? [? ?]]; subst;
      constructor; auto. split; [done|]. by apply (copied_weaken t h h1 h2 h2).
Qed.

(** An entry of a map has its copy under its key. *)
Lemma copied_entry t h h' (m : gmap string val) (es' : list (string * val)) (k : string) :
  Forall2 (λ e e', e'.1 = e.1 ∧ copied t h h' e.2 e'.2) (map_to_list m) es' →
  match m !! k with
  | Some v => ∃ v', (list_to_map es' : gmap string val) !! k = Some v' ∧ copied t h h' v v'
  | None => (list_to_map es' : gmap string val) !! k = None
  end.
Proof.
  intros Hes. assert (es'.*1 = (map_to_list m).*1) as Hk.
  { clear k. induction Hes as [|e e' l l' [E _] _ IH]; [done|]. cbn [fmap list_fmap]. by rewrite E, IH. }
  assert (NoDup es'.*1) as Hn by (rewrite Hk; apply NoDup_fst_map_to_list).
  destruct (m !! k) as [v|] eqn:Hv.
  - apply elem_of_map_to_list, list_elem_of_lookup in Hv as [i Hi].
    destruct (Forall2_lookup_l _ _ _ _ _ Hes Hi) as ([k' v'] & Hi' & E & Hc). cbn [fst snd] in *. subst k'.
    exists v'. split; [|done]. apply elem_of_list_to_map_1; [done|]. by eapply list_elem_of_lookup_2.
  - apply not_elem_of_list_to_map_1. rewrite Hk. intros Hin%list_elem_of_fmap.
    destruct Hin as ([k' v] & -> & Hin). apply elem_of_map_to_list in Hin. cbn [fst] in *. congruence.
Qed.

Lemma copied_map t h h' (m : gmap string val) (es' : list (string * val)) xs :
  map_views (view t h) m = Some xs →
  Forall2 (λ e e', e'.1 = e.1 ∧ copied t h h' e.2 e'.2) (map_to_list m) es' →
  ∃ xs', map_views (view t h') (list_to_map es') = Some xs' ∧
    (seen_map xs').1 = (seen_map xs).1 ∧ (seen_map xs').2 ## dom h.
Proof.
  intros Hxs Hes. set (m' := list_to_map es' : gmap string val).
  assert (map_views (view t h') m' = Some (omap (view t h') m')) as Hm.
  { apply map_views_Some. intros k. pose proof (copied_entry t h h' m es' k Hes) as Hk. fold m' in Hk.
    rewrite lookup_omap. destruct (m !! k) as [v|]; [|by rewrite Hk].
    destruct Hk as (v' & -> & x & x' & _ & Hx & _). exists x'. by rewrite Hx. }
  assert (∀ k, match m !! k with
    | Some v => ∃ x x', xs !! k = Some x ∧ omap (view t h') m' !! k = Some x' ∧ x'.1 = x.1 ∧ x'.2 ## dom h
    | None => xs !! k = None ∧ omap (view t h') m' !! k = None end) as Hall.
  { intros k. pose proof (copied_entry t h h' m es' k Hes) as Hk. fold m' in Hk.
    rewrite map_views_Some in Hxs. specialize (Hxs k). rewrite lookup_omap.
    destruct (m !! k) as [v|]; [|by rewrite Hk]. destruct Hxs as (x & Hx & Hxk).
    destruct Hk as (v' & -> & y & y' & Hy & Hy' & E & Hd). exists x, y'. cbn [mbind option_bind].
    assert (x = y) as -> by congruence. done. }
  exists (omap (view t h') m'). split; [done|]. split.
  - unfold seen_map. cbn [fst]. f_equal. apply map_eq. intros k. rewrite !lookup_fmap. specialize (Hall k).
    destruct (m !! k); [|by destruct Hall as [-> ->]].
    destruct Hall as (x & x' & -> & -> & E & _). cbn. by rewrite E.
  - unfold seen_map. cbn [snd]. intros a (X & HX & Ha)%elem_of_union_list.
    apply list_elem_of_fmap in HX as (y & -> & Hy). apply list_elem_of_fmap in Hy as ([k y'] & -> & Hy).
    apply elem_of_map_to_list in Hy. specialize (Hall k). cbn [snd] in Ha. destruct (m !! k).
    + destruct Hall as (x & x' & _ & Hx' & _ & Hd). assert (x' = y') as -> by congruence. by apply Hd.
    + destruct Hall as [_ Hn]. congruence.
Qed.

Lemma copy_map_copies t c : copies t c → copies (TMap t) (copy_map c).
Proof.
  intros Hc h v [x Hx]. destruct v as [| | |l]; try done.
  { exists VNil, h. split; [done|]. split; [done|]. exists (LNil, ∅), (LNil, ∅). split_and!; [done..|set_solver]. }
  cbn [view] in Hx. unfold copy_map. destruct (h !! l) as [[| |m]|] eqn:Hl; try done.
  destruct (map_views (view t h) m) as [xs|] eqn:Hxs; [|done].
  destruct (copy_entries_copies t c (map_to_list m) h Hc) as (es' & h' & -> & Hs & Hes).
  { apply Forall_forall. intros [k v] Hin%elem_of_map_to_list. rewrite map_views_Some in Hxs.
    specialize (Hxs k). rewrite Hin in Hxs. destruct Hxs as (y & Hy & _). by exists y. }
  cbn [mbind option_bind fst snd].
  destruct (alloc_fresh h' (CMap (list_to_map es'))) as (a & -> & Ha & Hs').
  eexists (VRef a), _. split; [done|]. split; [by etrans|].
  set (h2 := <[a := CMap (list_to_map es')]> h') in *.
  destruct (copied_map t h h2 m es' xs Hxs) as (xs' & Hm & E & Hd).
  { eapply Forall2_impl; [exact Hes|]. intros u u' [Hk Hu]. split; [done|].
    apply (copied_weaken t h h h'); [done| |done|done]. destruct Hu as (? & ? & ? & _). by eexists. }
  exists (seen_at l (seen_map xs)), (seen_at a (seen_map xs')). cbn [view].
  unfold h2 at 1. rewrite Hl, Hxs, lookup_insert_eq, Hm.
  split_and!; [done..|exact E|]. unfold seen_at. cbn [snd]. apply subseteq_dom in Hs. set_solver.
Qed.

(** The statements of a struct: each field has the statement its type needs. *)
Fixpoint field_copier (l : list (string * copier)) (n : string) : option copier :=
  match l with
  | [] => None
  | (k, c) :: l' => if String.eqb k n then Some c else field_copier l' n
  end.

Definition field_copies (l : list (string * copier)) (f : string * gotype) : Prop :=
  match field_copier l f.1 with
  | Some c => copies f.2 c
  | None => flat f.2 = true
  end.

Definition fields_covered (l : list (string * copier)) (fields : list (string * gotype)) : bool :=
  bool_decide (NoDup l.*1) && bool_decide (Forall (λ n, n ∈ fields.*1) l.*1).

Lemma field_copier_Some l n c : NoDup l.*1 → (n, c) ∈ l → field_copier l n = Some c.
Proof.
  induction l as [|[k d] l IH]; [set_solver|]. cbn [fmap list_fmap field_copier]. intros [Hk Hn]%NoDup_cons.
  intros [[= -> ->]|Hin]%elem_of_cons; [by rewrite String.eqb_refl|].
  destruct (String.eqb_spec k n) as [-> |_]; [|by apply IH].
  exfalso. apply Hk. apply list_elem_of_fmap. by exists (n, c).
Qed.

Lemma field_copier_None l n : field_copier l n = None → n ∉ l.*1.
Proof.
  induction l as [|[k d] l IH]; cbn [fmap list_fmap field_copier]; [set_solver|].
  destruct (String.eqb_spec k n); [done|]. intros Hn%IH. set_solver.
Qed.

(** The statements, one after the other; a field not yet reached is as it was assigned. *)
Lemma copy_fields_copies (fields : list (string * gotype)) l (m out : gmap string val) h0 h :
  h0 ⊆ h → (∀ n t, (n, t) ∈ fields → ∃ v, m !! n = Some v ∧ is_Some (view t h0 v)) →
  (∀ n c t, (n, c) ∈ l → (n, t) ∈ fields → copies t c) → Forall (λ n, n ∈ fields.*1) l.*1 →
  ∃ out' h', copy_fields l m out h = Some (out', h') ∧ h ⊆ h' ∧
    (∀ n, n ∉ l.*1 → out' !! n = out !! n) ∧
    ∀ n t, n ∈ l.*1 → (n, t) ∈ fields → ∃ v v', m !! n = Some v ∧ out' !! n = Some v' ∧
      copied t h0 h' v v'.
Proof.
  intros Hs Hm Hc Hl. revert out h Hs Hc Hl. induction l as [|[k c] l IH]; intros out h Hs Hc Hl.
  { exists out, h. split_and!; [done..|]. set_solver. }
  cbn [fmap list_fmap] in *. apply Forall_cons in Hl as [Hk Hl]. cbn [copy_fields].
  apply list_elem_of_fmap in Hk as ([k' t0] & E & Hk). cbn [fst] in E. subst k'.
  destruct (Hm k t0 Hk) as (v & Hv & x & Hx).
  cbn [fst] in *. rewrite Hv. cbn [mbind option_bind].
  destruct (Hc k c t0 (list_elem_of_here _ _) Hk h v) as (v' & h1 & Hrun & Hs1 & Hcv).
  { exists x. by eapply view_mono. }
  rewrite Hrun. cbn [mbind option_bind fst snd].
  destruct (IH (<[k := v']> out) h1) as (out' & h2 & -> & Hs2 & Hsame & Hdone); [by etrans| |done|].
  { intros n c' t Hin. apply Hc. by right. }
  exists out', h2. split; [done|]. split; [by etrans|]. split.
  - intros n [Hne Hn]%not_elem_of_cons. rewrite (Hsame n Hn). by rewrite lookup_insert_ne.
  - intros n t Hn Hf. destruct (decide (n ∈ l.*1)) as [Hin|Hnin]; [by apply Hdone|].
    assert (n = k) as -> by set_solver. exists v, v'. split; [done|].
    rewrite (Hsame k Hnin), lookup_insert_eq. split; [done|].
    destruct (Hm k t Hf) as (v2 & Hv2 & Hx2). assert (v2 = v) as -> by congruence.
    destruct (Hc k c t (list_elem_of_here _ _) Hf h v) as (v3 & h3 & Hrun3 & _ & Hcv3).
    { destruct Hx2 as [y Hy]. exists y. by eapply view_mono. }
    assert (v3 = v' ∧ h3 = h1) as [-> ->] by (split; congruence).
    by apply (copied_weaken t h0 h h1).
Qed.

Lemma copied_fields (fields : list (string * gotype)) (m out : gmap string val) h h' r :
  field_views (λ t v, view t h v) fields m = Some r →
  (∀ n t, (n, t) ∈ fields → ∃ v v', m !! n = Some v ∧ out !! n = Some v' ∧ copied t h h' v v') →
  ∃ r', field_views (λ t v, view t h' v) fields out = Some r' ∧ r'.1 = r.1 ∧ r'.2 ## dom h.
Proof.
  revert r. induction fields as [|[n t] fields IH]; intros r; cbn [field_views].
  { intros [= <-] _. exists (∅, ∅). split_and!; [done..|set_solver]. }
  intros Hr Hall. destruct (Hall n t) as (v & v' & Hv & Hv' & x & x' & Hx & Hx' & E & Hd); [set_solver|].
  rewrite Hv in Hr. cbn [mbind option_bind] in Hr. rewrite Hx in Hr. cbn [mbind option_bind] in Hr.
  destruct (field_views _ fields m) as [r1|] eqn:Hr1; [|done]. simplify_eq/=.
  destruct (IH r1 eq_refl) as (r2 & Hr2 & E2 & Hd2); [set_solver|].
  rewrite Hv'. cbn [mbind option_bind]. rewrite Hx'. cbn [mbind option_bind]. rewrite Hr2.
  eexists. split; [done|]. cbn [fst snd]. split; [by rewrite E, E2|]. set_solver.
Qed.

Lemma field_views_has (f : gotype → val → option seen) fields (m : gmap string val) r n t :
  field_views f fields m = Some r → (n, t) ∈ fields → ∃ v, m !! n = Some v ∧ is_Some (f t v).
Proof.
  revert r. induction fields as [|[k u] fields IH]; intros r; [set_solver|]. cbn [field_views].
  destruct (m !! k) as [v|] eqn:Hv; [|done]. cbn [mbind option_bind].
  destruct (f u v) as [x|] eqn:Hx; [|done]. cbn [mbind option_bind].
  destruct (field_views f fields m) as [r'|] eqn:Hr; [|done]. intros _ [[= -> ->]|Hin]%elem_of_cons.
  - exists v. split; [done|]. by exists x.
  - by eapply IH.
Qed.

Lemma copy_struct_copies fields l :
  fields_covered l fields = true → Forall (field_copies l) fields →
  copies (TStruct fields) (copy_struct l).
Proof.
  intros [Hnd%bool_decide_eq_true Hin%bool_decide_eq_true]%andb_true_iff Hf h v [x Hx].
  destruct v as [|m| |]; try done. cbn [view] in Hx.
  destruct (field_views (λ t v, view t h v) fields m) as [r|] eqn:Hr; [|done].
  rewrite Forall_forall in Hf.
  destruct (copy_fields_copies fields l m m h h) as (out & h' & Hrun & Hs & Hsame & Hdone); [done| | |done|].
  { intros n t Hn. by eapply (field_views_has (λ t v, view t h v)). }
  { intros n c t Hc Ht. specialize (Hf (n, t) Ht). unfold field_copies in Hf. cbn [fst snd] in Hf.
    by rewrite (field_copier_Some l n c Hnd Hc) in Hf. }
  destruct (copied_fields fields m out h h' r Hr) as (r' & Hr' & E & Hd).
  { intros n t Hn. destruct (field_views_has _ _ _ _ n t Hr Hn) as (v & Hv & Hy).
    destruct (decide (n ∈ l.*1)) as [Hl|Hl]; [by apply Hdone|].
    exists v, v. rewrite (Hsame n Hl). split; [done|]. split; [done|].
    specialize (Hf (n, t) Hn). unfold field_copies in Hf. cbn [fst snd] in Hf.
    destruct (field_copier l n) as [c|] eqn:Hc.
    { exfalso. apply Hl. clear -Hc. induction l as [|[k d] l IH]; [done|]. cbn in *.
      destruct (String.eqb_spec k n); set_solver. }
    destruct (assign_copies t Hf h v Hy) as (v' & h1 & [= <- <-] & _ & Hcv).
    by apply (copied_weaken t h h h). }
  exists (VStruct out), h'. unfold copy_struct. rewrite Hrun. split; [done|]. split; [done|].
  exists (LStruct r.1, r.2), (LStruct r'.1, r'.2). cbn [view]. rewrite Hr, Hr'.
  split_and!; [done..|by cbn; rewrite E|done].
Qed.

(** [DeepCopy]: [if in == nil { return nil }; out := new(T); in.DeepCopyInto(out)]. *)
Definition DeepCopy c : copier := copy_ptr c.
(** [DeepCopyObject]: [if c := in.DeepCopy(); c != nil { return c }; return nil]. *)
Definition DeepCopyObject c : copier := λ v h,
  r ← c v h;
  match r.1 with
  | VNil => Some (VNil, r.2)
  | p => Some (p, r.2)
  end.

(** A copy changes no cell that existed, and the copy and the object are apart: a write to a
    cell of one is not seen through the other. *)
Definition separate t c : Prop := ∀ h p x, view (TPtr t) h p = Some x →
  ∃ p' h' x', c p h = Some (p', h') ∧ h ⊆ h' ∧ view (TPtr t) h' p = Some x ∧
    view (TPtr t) h' p' = Some x' ∧ x'.1 = x.1 ∧
    (∀ l cl, l ∈ x'.2 → view (TPtr t) (<[l := cl]> h') p = Some x) ∧
    (∀ l cl, l ∈ x.2 → view (TPtr t) (<[l := cl]> h') p' = Some x').

Lemma copies_separate t c : copies t c → separate t (DeepCopy c).
Proof.
  intros Hc h p x Hx. destruct (copy_ptr_copies t c Hc h p) as (p' & h' & Hrun & Hs & y & y' & Hy & Hy' & E & Hd).
  { by exists x. }
  assert (y = x) as -> by congruence. exists p', h', y'. pose proof (view_mono _ _ _ _ _ Hx Hs) as Hx'.
  pose proof (view_dom _ _ _ _ Hx) as Hdom. split_and!; [done..| |].
  - intros l cl Hl. apply view_frame; [done|]. set_solver.
  - intros l cl Hl. apply view_frame; [done|]. set_solver.
Qed.

Lemma object_separate t c : separate t c → separate t (DeepCopyObject c).
Proof.
  intros Hc h p x Hx. destruct (Hc h p x Hx) as (p' & h' & x' & Hrun & Hrest).
  exists p', h', x'. split; [|done]. unfold DeepCopyObject. rewrite Hrun. by destruct p'.
Qed.
End Copies.

Create HintDb copies.
#[export] Hint Resolve assign_copies copy_ptr_copies copy_slice_copies copy_map_copies : copies.
#[export] Hint Extern 1 (flat _ = true) => reflexivity : copies.
