(* ===== verification/DeepCopies.v ===== *)
(** * Generated deep copies (api/v1alpha1/zz_generated.deepcopy.go)

    The declarations of the API types as Go types, one definition per generated function,
    and that no copy shares memory with its original.  The engine and the connection
    controller keep such a copy of an object while they change it, and send the difference.

    The metadata types are apimachinery's: their declarations and copy functions are
    parameters ([MetaTypes]), of which a copy function is to copy ([MetaLaws]). *)

From Stdlib Require Import ZArith Lia.
From stdpp Require Import base gmap strings list.
From S2P Require Import Prelude Heap.

Local Open Scope string_scope.
Local Open Scope list_scope.

(** ** apimachinery *)

Class MetaTypes := {
  TypeMeta_type : gotype;
  ObjectMeta_type : gotype;
  ListMeta_type : gotype;
  Condition_type : gotype;
  ObjectMeta_DeepCopyInto : copier;
  ListMeta_DeepCopyInto : copier;
  Condition_DeepCopyInto : copier;
}.

Class MetaLaws `{MetaTypes} := {
  TypeMeta_flat : flat TypeMeta_type = true;
  ObjectMeta_copies : copies ObjectMeta_type ObjectMeta_DeepCopyInto;
  ListMeta_copies : copies ListMeta_type ListMeta_DeepCopyInto;
  Condition_copies : copies Condition_type Condition_DeepCopyInto;
}.

Section Generated.
Context `{MetaTypes}.

(** ** Declarations *)

Definition ProtocolMapper_type : gotype := TStruct [
    ("Name", TPtr TScalar); ("Protocol", TPtr TScalar); ("ProtocolMapper", TPtr TScalar);
    ("ConsentRequired", TPtr TScalar); ("Config", TMap TScalar)].
Definition IdentityProviderMapper_type : gotype := TStruct [
    ("Name", TScalar); ("IdentityProviderMapper", TPtr TScalar); ("Config", TMap TScalar)].
Definition KeycloakRef_type : gotype := TStruct [
    ("Name", TScalar)].
Definition SecretKeySelector_type : gotype := TStruct [
    ("Name", TScalar); ("Key", TScalar)].
Definition ClientSpec_type : gotype := TStruct [
    ("KeycloakRef", KeycloakRef_type); ("Realm", TScalar); ("ClientID", TScalar);
    ("AdoptionPolicy", TPtr TScalar); ("DeletionPolicy", TPtr TScalar);
    ("SecretRef", TPtr SecretKeySelector_type); ("SecretOutput", TPtr SecretKeySelector_type);
    ("Name", TPtr TScalar); ("Description", TPtr TScalar); ("Enabled", TPtr TScalar);
    ("Protocol", TPtr TScalar); ("PublicClient", TPtr TScalar); ("BearerOnly", TPtr TScalar);
    ("StandardFlowEnabled", TPtr TScalar); ("ImplicitFlowEnabled", TPtr TScalar);
    ("DirectAccessGrantsEnabled", TPtr TScalar); ("ServiceAccountsEnabled", TPtr TScalar);
    ("AuthorizationServicesEnabled", TPtr TScalar); ("FrontchannelLogout", TPtr TScalar);
    ("FullScopeAllowed", TPtr TScalar); ("ConsentRequired", TPtr TScalar);
    ("DisplayOnConsentScreen", TPtr TScalar); ("ConsentScreenText", TPtr TScalar);
    ("AlwaysDisplayInConsole", TPtr TScalar); ("SurrogateAuthRequired", TPtr TScalar);
    ("RootURL", TPtr TScalar); ("BaseURL", TPtr TScalar); ("AdminURL", TPtr TScalar);
    ("RedirectUris", TSlice TScalar); ("WebOrigins", TSlice TScalar);
    ("NodeReRegistrationTimeout", TPtr TScalar); ("ClientAuthenticatorType", TPtr TScalar);
    ("ProtocolMappers", TSlice ProtocolMapper_type);
    ("DefaultClientScopes", TPtr (TSlice TScalar));
    ("OptionalClientScopes", TPtr (TSlice TScalar)); ("Attributes", TMap TScalar);
    ("AuthenticationFlowBindingOverrides", TMap TScalar)].
Definition ResourceStatus_type : gotype := TStruct [
    ("Conditions", TSlice Condition_type); ("ObservedGeneration", TScalar)].
Definition ClientStatus_type : gotype := TStruct [
    ("ResourceStatus", ResourceStatus_type); ("SecretName", TScalar)].
Definition Client_type : gotype := TStruct [
    ("TypeMeta", TypeMeta_type); ("ObjectMeta", ObjectMeta_type); ("Spec", ClientSpec_type);
    ("Status", ClientStatus_type)].
Definition ClientList_type : gotype := TStruct [
    ("TypeMeta", TypeMeta_type); ("ListMeta", ListMeta_type); ("Items", TSlice Client_type)].
Definition ClientScopeSpec_type : gotype := TStruct [
    ("KeycloakRef", KeycloakRef_type); ("Realm", TScalar); ("Name", TScalar);
    ("AdoptionPolicy", TPtr TScalar); ("DeletionPolicy", TPtr TScalar);
    ("Description", TPtr TScalar); ("Protocol", TPtr TScalar); ("Attributes", TMap TScalar);
    ("ProtocolMappers", TSlice ProtocolMapper_type); ("DisplayOnConsentScreen", TPtr TScalar);
    ("ConsentScreenText", TPtr TScalar)].
Definition ClientScope_type : gotype := TStruct [
    ("TypeMeta", TypeMeta_type); ("ObjectMeta", ObjectMeta_type); ("Spec", ClientScopeSpec_type);
    ("Status", ResourceStatus_type)].
Definition ClientScopeList_type : gotype := TStruct [
    ("TypeMeta", TypeMeta_type); ("ListMeta", ListMeta_type); ("Items", TSlice ClientScope_type)].
Definition SecretKeysSelector_type : gotype := TStruct [
    ("Name", TScalar); ("Keys", TMap TScalar)].
Definition GroupSpec_type : gotype := TStruct [
    ("KeycloakRef", KeycloakRef_type); ("Realm", TScalar); ("Name", TScalar);
    ("AdoptionPolicy", TPtr TScalar); ("DeletionPolicy", TPtr TScalar);
    ("Attributes", TMap (TSlice TScalar)); ("RealmRoles", TPtr (TSlice TScalar));
    ("ClientRoles", TPtr (TMap (TSlice TScalar)))].
Definition Group_type : gotype := TStruct [
    ("TypeMeta", TypeMeta_type); ("ObjectMeta", ObjectMeta_type); ("Spec", GroupSpec_type);
    ("Status", ResourceStatus_type)].
Definition GroupList_type : gotype := TStruct [
    ("TypeMeta", TypeMeta_type); ("ListMeta", ListMeta_type); ("Items", TSlice Group_type)].
Definition IdentityProviderSpec_type : gotype := TStruct [
    ("KeycloakRef", KeycloakRef_type); ("Realm", TScalar); ("Alias", TScalar);
    ("ProviderID", TScalar); ("AdoptionPolicy", TPtr TScalar); ("DeletionPolicy", TPtr TScalar);
    ("DisplayName", TPtr TScalar); ("Enabled", TPtr TScalar); ("TrustEmail", TPtr TScalar);
    ("StoreToken", TPtr TScalar); ("AddReadTokenRoleOnCreate", TPtr TScalar);
    ("LinkOnly", TPtr TScalar); ("FirstBrokerLoginFlowAlias", TPtr TScalar);
    ("PostBrokerLoginFlowAlias", TPtr TScalar); ("Config", TMap TScalar);
    ("ConfigSecretRef", TPtr SecretKeysSelector_type);
    ("Mappers", TSlice IdentityProviderMapper_type)].
Definition IdentityProvider_type : gotype := TStruct [
    ("TypeMeta", TypeMeta_type); ("ObjectMeta", ObjectMeta_type);
    ("Spec", IdentityProviderSpec_type); ("Status", ResourceStatus_type)].
Definition IdentityProviderList_type : gotype := TStruct [
    ("TypeMeta", TypeMeta_type); ("ListMeta", ListMeta_type);
    ("Items", TSlice IdentityProvider_type)].
Definition TLSConfig_type : gotype := TStruct [
    ("InsecureSkipVerify", TPtr TScalar)].
Definition KeycloakConnectionSpec_type : gotype := TStruct [
    ("URL", TScalar); ("CredentialsSecretRef", TScalar); ("Auth", TPtr TScalar);
    ("AdminRealm", TPtr TScalar); ("TLS", TPtr TLSConfig_type)].
Definition KeycloakConnectionStatus_type : gotype := TStruct [
    ("Conditions", TSlice Condition_type); ("ObservedGeneration", TScalar);
    ("ServerVersion", TScalar)].
Definition KeycloakConnection_type : gotype := TStruct [
    ("TypeMeta", TypeMeta_type); ("ObjectMeta", ObjectMeta_type);
    ("Spec", KeycloakConnectionSpec_type); ("Status", KeycloakConnectionStatus_type)].
Definition KeycloakConnectionList_type : gotype := TStruct [
    ("TypeMeta", TypeMeta_type); ("ListMeta", ListMeta_type);
    ("Items", TSlice KeycloakConnection_type)].
Definition RealmSpec_type : gotype := TStruct [
    ("KeycloakRef", KeycloakRef_type); ("Realm", TScalar); ("AdoptionPolicy", TPtr TScalar);
    ("DeletionPolicy", TPtr TScalar); ("Enabled", TPtr TScalar); ("DisplayName", TPtr TScalar);
    ("DisplayNameHTML", TPtr TScalar); ("SSLRequired", TPtr TScalar);
    ("NotBefore", TPtr TScalar); ("RegistrationAllowed", TPtr TScalar);
    ("RegistrationEmailAsUsername", TPtr TScalar); ("LoginWithEmailAllowed", TPtr TScalar);
    ("DuplicateEmailsAllowed", TPtr TScalar); ("ResetPasswordAllowed", TPtr TScalar);
    ("RememberMe", TPtr TScalar); ("VerifyEmail", TPtr TScalar);
    ("UserManagedAccessAllowed", TPtr TScalar); ("SSOSessionIdleTimeout", TPtr TScalar);
    ("SSOSessionMaxLifespan", TPtr TScalar); ("SSOSessionIdleTimeoutRememberMe", TPtr TScalar);
    ("SSOSessionMaxLifespanRememberMe", TPtr TScalar);
    ("ClientSessionIdleTimeout", TPtr TScalar); ("ClientSessionMaxLifespan", TPtr TScalar);
    ("ClientOfflineSessionIdleTimeout", TPtr TScalar);
    ("ClientOfflineSessionMaxLifespan", TPtr TScalar); ("AccessTokenLifespan", TPtr TScalar);
    ("AccessTokenLifespanForImplicitFlow", TPtr TScalar);
    ("OfflineSessionIdleTimeout", TPtr TScalar);
    ("OfflineSessionMaxLifespanEnabled", TPtr TScalar);
    ("OfflineSessionMaxLifespan", TPtr TScalar); ("AccessCodeLifespan", TPtr TScalar);
    ("AccessCodeLifespanUserAction", TPtr TScalar); ("AccessCodeLifespanLogin", TPtr TScalar);
    ("ActionTokenGeneratedByAdminLifespan", TPtr TScalar);
    ("ActionTokenGeneratedByUserLifespan", TPtr TScalar);
    ("OAuth2DeviceCodeLifespan", TPtr TScalar); ("OAuth2DevicePollingInterval", TPtr TScalar);
    ("RevokeRefreshToken", TPtr TScalar); ("RefreshTokenMaxReuse", TPtr TScalar);
    ("LoginTheme", TPtr TScalar); ("AccountTheme", TPtr TScalar); ("AdminTheme", TPtr TScalar);
    ("EmailTheme", TPtr TScalar); ("SMTPServer", TMap TScalar);
    ("SMTPServerSecretRef", TPtr SecretKeysSelector_type); ("EventsEnabled", TPtr TScalar);
    ("EventsExpiration", TPtr TScalar); ("EventsListeners", TSlice TScalar);
    ("EnabledEventTypes", TSlice TScalar); ("AdminEventsEnabled", TPtr TScalar);
    ("AdminEventsDetailsEnabled", TPtr TScalar); ("PasswordPolicy", TPtr TScalar);
    ("BruteForceProtected", TPtr TScalar); ("PermanentLockout", TPtr TScalar);
    ("MaxFailureWaitSeconds", TPtr TScalar); ("MinimumQuickLoginWaitSeconds", TPtr TScalar);
    ("WaitIncrementSeconds", TPtr TScalar); ("QuickLoginCheckMilliSeconds", TPtr TScalar);
    ("MaxDeltaTimeSeconds", TPtr TScalar); ("FailureFactor", TPtr TScalar);
    ("OTPPolicyType", TPtr TScalar); ("OTPPolicyAlgorithm", TPtr TScalar);
    ("OTPPolicyInitialCounter", TPtr TScalar); ("OTPPolicyDigits", TPtr TScalar);
    ("OTPPolicyLookAheadWindow", TPtr TScalar); ("OTPPolicyPeriod", TPtr TScalar);
    ("OTPPolicyCodeReusable", TPtr TScalar); ("WebAuthnPolicyRpEntityName", TPtr TScalar);
    ("WebAuthnPolicySignatureAlgorithms", TSlice TScalar); ("WebAuthnPolicyRpID", TPtr TScalar);
    ("WebAuthnPolicyAttestationConveyancePreference", TPtr TScalar);
    ("WebAuthnPolicyAuthenticatorAttachment", TPtr TScalar);
    ("WebAuthnPolicyRequireResidentKey", TPtr TScalar);
    ("WebAuthnPolicyUserVerificationRequirement", TPtr TScalar);
    ("WebAuthnPolicyCreateTimeout", TPtr TScalar);
    ("WebAuthnPolicyAvoidSameAuthenticatorRegister", TPtr TScalar);
    ("WebAuthnPolicyAcceptableAaguids", TSlice TScalar);
    ("WebAuthnPolicyPasswordlessRpEntityName", TPtr TScalar);
    ("WebAuthnPolicyPasswordlessSignatureAlgorithms", TSlice TScalar);
    ("WebAuthnPolicyPasswordlessRpID", TPtr TScalar);
    ("WebAuthnPolicyPasswordlessAttestationConveyancePreference", TPtr TScalar);
    ("WebAuthnPolicyPasswordlessAuthenticatorAttachment", TPtr TScalar);
    ("WebAuthnPolicyPasswordlessRequireResidentKey", TPtr TScalar);
    ("WebAuthnPolicyPasswordlessUserVerificationRequirement", TPtr TScalar);
    ("WebAuthnPolicyPasswordlessCreateTimeout", TPtr TScalar);
    ("WebAuthnPolicyPasswordlessAvoidSameAuthenticatorRegister", TPtr TScalar);
    ("WebAuthnPolicyPasswordlessAcceptableAaguids", TSlice TScalar);
    ("InternationalizationEnabled", TPtr TScalar); ("SupportedLocales", TSlice TScalar);
    ("DefaultLocale", TPtr TScalar); ("DefaultDefaultClientScopes", TSlice TScalar);
    ("DefaultOptionalClientScopes", TSlice TScalar); ("DefaultSignatureAlgorithm", TPtr TScalar);
    ("Attributes", TMap TScalar); ("BrowserSecurityHeaders", TMap TScalar);
    ("OrganizationsEnabled", TPtr TScalar)].
Definition Realm_type : gotype := TStruct [
    ("TypeMeta", TypeMeta_type); ("ObjectMeta", ObjectMeta_type); ("Spec", RealmSpec_type);
    ("Status", ResourceStatus_type)].
Definition RealmList_type : gotype := TStruct [
    ("TypeMeta", TypeMeta_type); ("ListMeta", ListMeta_type); ("Items", TSlice Realm_type)].
Definition RoleComposites_type : gotype := TStruct [
    ("RealmRoles", TSlice TScalar); ("ClientRoles", TMap (TSlice TScalar))].
Definition RealmRoleSpec_type : gotype := TStruct [
    ("KeycloakRef", KeycloakRef_type); ("Realm", TScalar); ("Name", TScalar);
    ("AdoptionPolicy", TPtr TScalar); ("DeletionPolicy", TPtr TScalar);
    ("Description", TPtr TScalar); ("Composite", TPtr TScalar);
    ("Composites", TPtr RoleComposites_type); ("Attributes", TMap (TSlice TScalar))].
Definition RealmRole_type : gotype := TStruct [
    ("TypeMeta", TypeMeta_type); ("ObjectMeta", ObjectMeta_type); ("Spec", RealmRoleSpec_type);
    ("Status", ResourceStatus_type)].
Definition RealmRoleList_type : gotype := TStruct [
    ("TypeMeta", TypeMeta_type); ("ListMeta", ListMeta_type); ("Items", TSlice RealmRole_type)].

(** ** Functions *)

Definition ProtocolMapper_DeepCopyInto : copier := copy_struct [
    ("Name", copy_ptr assign); ("Protocol", copy_ptr assign);
    ("ProtocolMapper", copy_ptr assign); ("ConsentRequired", copy_ptr assign);
    ("Config", copy_map assign)].
Definition ProtocolMapper_DeepCopy : copier := DeepCopy ProtocolMapper_DeepCopyInto.
Definition IdentityProviderMapper_DeepCopyInto : copier := copy_struct [
    ("IdentityProviderMapper", copy_ptr assign); ("Config", copy_map assign)].
Definition IdentityProviderMapper_DeepCopy : copier := DeepCopy IdentityProviderMapper_DeepCopyInto.
Definition KeycloakRef_DeepCopyInto : copier := copy_struct [].
Definition KeycloakRef_DeepCopy : copier := DeepCopy KeycloakRef_DeepCopyInto.
Definition SecretKeySelector_DeepCopyInto : copier := copy_struct [].
Definition SecretKeySelector_DeepCopy : copier := DeepCopy SecretKeySelector_DeepCopyInto.
Definition ClientSpec_copy_flows : list (string * copier) := [
    ("KeycloakRef", assign); ("AdoptionPolicy", copy_ptr assign); ("DeletionPolicy", copy_ptr
    assign); ("SecretRef", copy_ptr assign); ("SecretOutput", copy_ptr assign); ("Name",
    copy_ptr assign); ("Description", copy_ptr assign); ("Enabled", copy_ptr assign);
    ("Protocol", copy_ptr assign); ("PublicClient", copy_ptr assign); ("BearerOnly", copy_ptr
    assign); ("StandardFlowEnabled", copy_ptr assign); ("ImplicitFlowEnabled", copy_ptr assign);
    ("DirectAccessGrantsEnabled", copy_ptr assign); ("ServiceAccountsEnabled", copy_ptr assign);
    ("AuthorizationServicesEnabled", copy_ptr assign); ("FrontchannelLogout", copy_ptr assign);
    ("FullScopeAllowed", copy_ptr assign); ("ConsentRequired", copy_ptr assign)].
Definition ClientSpec_copy_urls : list (string * copier) := [
    ("DisplayOnConsentScreen", copy_ptr assign); ("ConsentScreenText", copy_ptr assign);
    ("AlwaysDisplayInConsole", copy_ptr assign); ("SurrogateAuthRequired", copy_ptr assign);
    ("RootURL", copy_ptr assign); ("BaseURL", copy_ptr assign); ("AdminURL", copy_ptr assign);
    ("RedirectUris", copy_slice assign); ("WebOrigins", copy_slice assign);
    ("NodeReRegistrationTimeout", copy_ptr assign); ("ClientAuthenticatorType", copy_ptr
    assign); ("ProtocolMappers", copy_slice ProtocolMapper_DeepCopyInto);
    ("DefaultClientScopes", copy_ptr (copy_slice assign)); ("OptionalClientScopes", copy_ptr
    (copy_slice assign)); ("Attributes", copy_map assign);
    ("AuthenticationFlowBindingOverrides", copy_map assign)].
Definition ClientSpec_DeepCopyInto : copier :=
  copy_struct (ClientSpec_copy_flows ++ ClientSpec_copy_urls).
Definition ClientSpec_DeepCopy : copier := DeepCopy ClientSpec_DeepCopyInto.
Definition ResourceStatus_DeepCopyInto : copier := copy_struct [
    ("Conditions", copy_slice Condition_DeepCopyInto)].
Definition ResourceStatus_DeepCopy : copier := DeepCopy ResourceStatus_DeepCopyInto.
Definition ClientStatus_DeepCopyInto : copier := copy_struct [
    ("ResourceStatus", ResourceStatus_DeepCopyInto)].
Definition ClientStatus_DeepCopy : copier := DeepCopy ClientStatus_DeepCopyInto.
Definition Client_DeepCopyInto : copier := copy_struct [
    ("TypeMeta", assign); ("ObjectMeta", ObjectMeta_DeepCopyInto);
    ("Spec", ClientSpec_DeepCopyInto); ("Status", ClientStatus_DeepCopyInto)].
Definition Client_DeepCopy : copier := DeepCopy Client_DeepCopyInto.
Definition Client_DeepCopyObject : copier := DeepCopyObject Client_DeepCopy.
Definition ClientList_DeepCopyInto : copier := copy_struct [
    ("TypeMeta", assign); ("ListMeta", ListMeta_DeepCopyInto);
    ("Items", copy_slice Client_DeepCopyInto)].
Definition ClientList_DeepCopy : copier := DeepCopy ClientList_DeepCopyInto.
Definition ClientList_DeepCopyObject : copier := DeepCopyObject ClientList_DeepCopy.
Definition ClientScopeSpec_DeepCopyInto : copier := copy_struct [
    ("KeycloakRef", assign); ("AdoptionPolicy", copy_ptr assign);
    ("DeletionPolicy", copy_ptr assign); ("Description", copy_ptr assign);
    ("Protocol", copy_ptr assign); ("Attributes", copy_map assign);
    ("ProtocolMappers", copy_slice ProtocolMapper_DeepCopyInto);
    ("DisplayOnConsentScreen", copy_ptr assign); ("ConsentScreenText", copy_ptr assign)].
Definition ClientScopeSpec_DeepCopy : copier := DeepCopy ClientScopeSpec_DeepCopyInto.
Definition ClientScope_DeepCopyInto : copier := copy_struct [
    ("TypeMeta", assign); ("ObjectMeta", ObjectMeta_DeepCopyInto);
    ("Spec", ClientScopeSpec_DeepCopyInto); ("Status", ResourceStatus_DeepCopyInto)].
Definition ClientScope_DeepCopy : copier := DeepCopy ClientScope_DeepCopyInto.
Definition ClientScope_DeepCopyObject : copier := DeepCopyObject ClientScope_DeepCopy.
Definition ClientScopeList_DeepCopyInto : copier := copy_struct [
    ("TypeMeta", assign); ("ListMeta", ListMeta_DeepCopyInto);
    ("Items", copy_slice ClientScope_DeepCopyInto)].
Definition ClientScopeList_DeepCopy : copier := DeepCopy ClientScopeList_DeepCopyInto.
Definition ClientScopeList_DeepCopyObject : copier := DeepCopyObject ClientScopeList_DeepCopy.
Definition SecretKeysSelector_DeepCopyInto : copier := copy_struct [
    ("Keys", copy_map assign)].
Definition SecretKeysSelector_DeepCopy : copier := DeepCopy SecretKeysSelector_DeepCopyInto.
Definition GroupSpec_DeepCopyInto : copier := copy_struct [
    ("KeycloakRef", assign); ("AdoptionPolicy", copy_ptr assign);
    ("DeletionPolicy", copy_ptr assign); ("Attributes", copy_map (copy_slice assign));
    ("RealmRoles", copy_ptr (copy_slice assign));
    ("ClientRoles", copy_ptr (copy_map (copy_slice assign)))].
Definition GroupSpec_DeepCopy : copier := DeepCopy GroupSpec_DeepCopyInto.
Definition Group_DeepCopyInto : copier := copy_struct [
    ("TypeMeta", assign); ("ObjectMeta", ObjectMeta_DeepCopyInto);
    ("Spec", GroupSpec_DeepCopyInto); ("Status", ResourceStatus_DeepCopyInto)].
Definition Group_DeepCopy : copier := DeepCopy Group_DeepCopyInto.
Definition Group_DeepCopyObject : copier := DeepCopyObject Group_DeepCopy.
Definition GroupList_DeepCopyInto : copier := copy_struct [
    ("TypeMeta", assign); ("ListMeta", ListMeta_DeepCopyInto);
    ("Items", copy_slice Group_DeepCopyInto)].
Definition GroupList_DeepCopy : copier := DeepCopy GroupList_DeepCopyInto.
Definition GroupList_DeepCopyObject : copier := DeepCopyObject GroupList_DeepCopy.
Definition IdentityProviderSpec_DeepCopyInto : copier := copy_struct [
    ("KeycloakRef", assign); ("AdoptionPolicy", copy_ptr assign);
    ("DeletionPolicy", copy_ptr assign); ("DisplayName", copy_ptr assign);
    ("Enabled", copy_ptr assign); ("TrustEmail", copy_ptr assign);
    ("StoreToken", copy_ptr assign); ("AddReadTokenRoleOnCreate", copy_ptr assign);
    ("LinkOnly", copy_ptr assign); ("FirstBrokerLoginFlowAlias", copy_ptr assign);
    ("PostBrokerLoginFlowAlias", copy_ptr assign); ("Config", copy_map assign);
    ("ConfigSecretRef", copy_ptr SecretKeysSelector_DeepCopyInto);
    ("Mappers", copy_slice IdentityProviderMapper_DeepCopyInto)].
Definition IdentityProviderSpec_DeepCopy : copier := DeepCopy IdentityProviderSpec_DeepCopyInto.
Definition IdentityProvider_DeepCopyInto : copier := copy_struct [
    ("TypeMeta", assign); ("ObjectMeta", ObjectMeta_DeepCopyInto);
    ("Spec", IdentityProviderSpec_DeepCopyInto); ("Status", ResourceStatus_DeepCopyInto)].
Definition IdentityProvider_DeepCopy : copier := DeepCopy IdentityProvider_DeepCopyInto.
Definition IdentityProvider_DeepCopyObject : copier := DeepCopyObject IdentityProvider_DeepCopy.
Definition IdentityProviderList_DeepCopyInto : copier := copy_struct [
    ("TypeMeta", assign); ("ListMeta", ListMeta_DeepCopyInto);
    ("Items", copy_slice IdentityProvider_DeepCopyInto)].
Definition IdentityProviderList_DeepCopy : copier := DeepCopy IdentityProviderList_DeepCopyInto.
Definition IdentityProviderList_DeepCopyObject : copier := DeepCopyObject IdentityProviderList_DeepCopy.
Definition TLSConfig_DeepCopyInto : copier := copy_struct [
    ("InsecureSkipVerify", copy_ptr assign)].
Definition TLSConfig_DeepCopy : copier := DeepCopy TLSConfig_DeepCopyInto.
Definition KeycloakConnectionSpec_DeepCopyInto : copier := copy_struct [
    ("Auth", copy_ptr assign); ("AdminRealm", copy_ptr assign);
    ("TLS", copy_ptr TLSConfig_DeepCopyInto)].
Definition KeycloakConnectionSpec_DeepCopy : copier := DeepCopy KeycloakConnectionSpec_DeepCopyInto.
Definition KeycloakConnectionStatus_DeepCopyInto : copier := copy_struct [
    ("Conditions", copy_slice Condition_DeepCopyInto)].
Definition KeycloakConnectionStatus_DeepCopy : copier := DeepCopy KeycloakConnectionStatus_DeepCopyInto.
Definition KeycloakConnection_DeepCopyInto : copier := copy_struct [
    ("TypeMeta", assign); ("ObjectMeta", ObjectMeta_DeepCopyInto);
    ("Spec", KeycloakConnectionSpec_DeepCopyInto);
    ("Status", KeycloakConnectionStatus_DeepCopyInto)].
Definition KeycloakConnection_DeepCopy : copier := DeepCopy KeycloakConnection_DeepCopyInto.
Definition KeycloakConnection_DeepCopyObject : copier := DeepCopyObject KeycloakConnection_DeepCopy.
Definition KeycloakConnectionList_DeepCopyInto : copier := copy_struct [
    ("TypeMeta", assign); ("ListMeta", ListMeta_DeepCopyInto);
    ("Items", copy_slice KeycloakConnection_DeepCopyInto)].
Definition KeycloakConnectionList_DeepCopy : copier := DeepCopy KeycloakConnectionList_DeepCopyInto.
Definition KeycloakConnectionList_DeepCopyObject : copier := DeepCopyObject KeycloakConnectionList_DeepCopy.
Definition RealmSpec_copy_login : list (string * copier) := [
    ("KeycloakRef", assign); ("AdoptionPolicy", copy_ptr assign); ("DeletionPolicy", copy_ptr
    assign); ("Enabled", copy_ptr assign); ("DisplayName", copy_ptr assign); ("DisplayNameHTML",
    copy_ptr assign); ("SSLRequired", copy_ptr assign); ("NotBefore", copy_ptr assign);
    ("RegistrationAllowed", copy_ptr assign); ("RegistrationEmailAsUsername", copy_ptr assign);
    ("LoginWithEmailAllowed", copy_ptr assign); ("DuplicateEmailsAllowed", copy_ptr assign);
    ("ResetPasswordAllowed", copy_ptr assign); ("RememberMe", copy_ptr assign); ("VerifyEmail",
    copy_ptr assign); ("UserManagedAccessAllowed", copy_ptr assign); ("SSOSessionIdleTimeout",
    copy_ptr assign); ("SSOSessionMaxLifespan", copy_ptr assign);
    ("SSOSessionIdleTimeoutRememberMe", copy_ptr assign); ("SSOSessionMaxLifespanRememberMe",
    copy_ptr assign); ("ClientSessionIdleTimeout", copy_ptr assign);
    ("ClientSessionMaxLifespan", copy_ptr assign); ("ClientOfflineSessionIdleTimeout", copy_ptr
    assign); ("ClientOfflineSessionMaxLifespan", copy_ptr assign)].
Definition RealmSpec_copy_tokens : list (string * copier) := [
    ("AccessTokenLifespan", copy_ptr assign); ("AccessTokenLifespanForImplicitFlow", copy_ptr
    assign); ("OfflineSessionIdleTimeout", copy_ptr assign);
    ("OfflineSessionMaxLifespanEnabled", copy_ptr assign); ("OfflineSessionMaxLifespan",
    copy_ptr assign); ("AccessCodeLifespan", copy_ptr assign); ("AccessCodeLifespanUserAction",
    copy_ptr assign); ("AccessCodeLifespanLogin", copy_ptr assign);
    ("ActionTokenGeneratedByAdminLifespan", copy_ptr assign);
    ("ActionTokenGeneratedByUserLifespan", copy_ptr assign); ("OAuth2DeviceCodeLifespan",
    copy_ptr assign); ("OAuth2DevicePollingInterval", copy_ptr assign); ("RevokeRefreshToken",
    copy_ptr assign); ("RefreshTokenMaxReuse", copy_ptr assign); ("LoginTheme", copy_ptr
    assign); ("AccountTheme", copy_ptr assign); ("AdminTheme", copy_ptr assign); ("EmailTheme",
    copy_ptr assign); ("SMTPServer", copy_map assign); ("SMTPServerSecretRef", copy_ptr
    SecretKeysSelector_DeepCopyInto); ("EventsEnabled", copy_ptr assign); ("EventsExpiration",
    copy_ptr assign); ("EventsListeners", copy_slice assign); ("EnabledEventTypes", copy_slice
    assign); ("AdminEventsEnabled", copy_ptr assign); ("AdminEventsDetailsEnabled", copy_ptr
    assign)].
Definition RealmSpec_copy_security : list (string * copier) := [
    ("PasswordPolicy", copy_ptr assign); ("BruteForceProtected", copy_ptr assign);
    ("PermanentLockout", copy_ptr assign); ("MaxFailureWaitSeconds", copy_ptr assign);
    ("MinimumQuickLoginWaitSeconds", copy_ptr assign); ("WaitIncrementSeconds", copy_ptr
    assign); ("QuickLoginCheckMilliSeconds", copy_ptr assign); ("MaxDeltaTimeSeconds", copy_ptr
    assign); ("FailureFactor", copy_ptr assign); ("OTPPolicyType", copy_ptr assign);
    ("OTPPolicyAlgorithm", copy_ptr assign); ("OTPPolicyInitialCounter", copy_ptr assign);
    ("OTPPolicyDigits", copy_ptr assign); ("OTPPolicyLookAheadWindow", copy_ptr assign);
    ("OTPPolicyPeriod", copy_ptr assign); ("OTPPolicyCodeReusable", copy_ptr assign)].
Definition RealmSpec_copy_webauthn : list (string * copier) := [
    ("WebAuthnPolicyRpEntityName", copy_ptr assign); ("WebAuthnPolicySignatureAlgorithms",
    copy_slice assign); ("WebAuthnPolicyRpID", copy_ptr assign);
    ("WebAuthnPolicyAttestationConveyancePreference", copy_ptr assign);
    ("WebAuthnPolicyAuthenticatorAttachment", copy_ptr assign);
    ("WebAuthnPolicyRequireResidentKey", copy_ptr assign);
    ("WebAuthnPolicyUserVerificationRequirement", copy_ptr assign);
    ("WebAuthnPolicyCreateTimeout", copy_ptr assign);
    ("WebAuthnPolicyAvoidSameAuthenticatorRegister", copy_ptr assign);
    ("WebAuthnPolicyAcceptableAaguids", copy_slice assign);
    ("WebAuthnPolicyPasswordlessRpEntityName", copy_ptr assign);
    ("WebAuthnPolicyPasswordlessSignatureAlgorithms", copy_slice assign);
    ("WebAuthnPolicyPasswordlessRpID", copy_ptr assign);
    ("WebAuthnPolicyPasswordlessAttestationConveyancePreference", copy_ptr assign);
    ("WebAuthnPolicyPasswordlessAuthenticatorAttachment", copy_ptr assign);
    ("WebAuthnPolicyPasswordlessRequireResidentKey", copy_ptr assign);
    ("WebAuthnPolicyPasswordlessUserVerificationRequirement", copy_ptr assign);
    ("WebAuthnPolicyPasswordlessCreateTimeout", copy_ptr assign);
    ("WebAuthnPolicyPasswordlessAvoidSameAuthenticatorRegister", copy_ptr assign);
    ("WebAuthnPolicyPasswordlessAcceptableAaguids", copy_slice assign);
    ("InternationalizationEnabled", copy_ptr assign); ("SupportedLocales", copy_slice assign);
    ("DefaultLocale", copy_ptr assign); ("DefaultDefaultClientScopes", copy_slice assign);
    ("DefaultOptionalClientScopes", copy_slice assign); ("DefaultSignatureAlgorithm", copy_ptr
    assign); ("Attributes", copy_map assign); ("BrowserSecurityHeaders", copy_map assign);
    ("OrganizationsEnabled", copy_ptr assign)].
Definition RealmSpec_DeepCopyInto : copier :=
  copy_struct (RealmSpec_copy_login ++ RealmSpec_copy_tokens ++ RealmSpec_copy_security ++ RealmSpec_copy_webauthn).
Definition RealmSpec_DeepCopy : copier := DeepCopy RealmSpec_DeepCopyInto.
Definition Realm_DeepCopyInto : copier := copy_struct [
    ("TypeMeta", assign); ("ObjectMeta", ObjectMeta_DeepCopyInto);
    ("Spec", RealmSpec_DeepCopyInto); ("Status", ResourceStatus_DeepCopyInto)].
Definition Realm_DeepCopy : copier := DeepCopy Realm_DeepCopyInto.
Definition Realm_DeepCopyObject : copier := DeepCopyObject Realm_DeepCopy.
Definition RealmList_DeepCopyInto : copier := copy_struct [
    ("TypeMeta", assign); ("ListMeta", ListMeta_DeepCopyInto);
    ("Items", copy_slice Realm_DeepCopyInto)].
Definition RealmList_DeepCopy : copier := DeepCopy RealmList_DeepCopyInto.
Definition RealmList_DeepCopyObject : copier := DeepCopyObject RealmList_DeepCopy.
Definition RoleComposites_DeepCopyInto : copier := copy_struct [
    ("RealmRoles", copy_slice assign); ("ClientRoles", copy_map (copy_slice assign))].
Definition RoleComposites_DeepCopy : copier := DeepCopy RoleComposites_DeepCopyInto.
Definition RealmRoleSpec_DeepCopyInto : copier := copy_struct [
    ("KeycloakRef", assign); ("AdoptionPolicy", copy_ptr assign);
    ("DeletionPolicy", copy_ptr assign); ("Description", copy_ptr assign);
    ("Composite", copy_ptr assign); ("Composites", copy_ptr RoleComposites_DeepCopyInto);
    ("Attributes", copy_map (copy_slice assign))].
Definition RealmRoleSpec_DeepCopy : copier := DeepCopy RealmRoleSpec_DeepCopyInto.
Definition RealmRole_DeepCopyInto : copier := copy_struct [
    ("TypeMeta", assign); ("ObjectMeta", ObjectMeta_DeepCopyInto);
    ("Spec", RealmRoleSpec_DeepCopyInto); ("Status", ResourceStatus_DeepCopyInto)].
Definition RealmRole_DeepCopy : copier := DeepCopy RealmRole_DeepCopyInto.
Definition RealmRole_DeepCopyObject : copier := DeepCopyObject RealmRole_DeepCopy.
Definition RealmRoleList_DeepCopyInto : copier := copy_struct [
    ("TypeMeta", assign); ("ListMeta", ListMeta_DeepCopyInto);
    ("Items", copy_slice RealmRole_DeepCopyInto)].
Definition RealmRoleList_DeepCopy : copier := DeepCopy RealmRoleList_DeepCopyInto.
Definition RealmRoleList_DeepCopyObject : copier := DeepCopyObject RealmRoleList_DeepCopy.

(** Every copy the file defines, with the type it copies. *)
Definition generated : list (gotype * copier) := [
    (ProtocolMapper_type, ProtocolMapper_DeepCopy);
    (IdentityProviderMapper_type, IdentityProviderMapper_DeepCopy);
    (KeycloakRef_type, KeycloakRef_DeepCopy);
    (SecretKeySelector_type, SecretKeySelector_DeepCopy); (ClientSpec_type, ClientSpec_DeepCopy);
    (ResourceStatus_type, ResourceStatus_DeepCopy); (ClientStatus_type, ClientStatus_DeepCopy);
    (Client_type, Client_DeepCopy); (ClientList_type, ClientList_DeepCopy);
    (ClientScopeSpec_type, ClientScopeSpec_DeepCopy); (ClientScope_type, ClientScope_DeepCopy);
    (ClientScopeList_type, ClientScopeList_DeepCopy);
    (SecretKeysSelector_type, SecretKeysSelector_DeepCopy); (GroupSpec_type, GroupSpec_DeepCopy);
    (Group_type, Group_DeepCopy); (GroupList_type, GroupList_DeepCopy);
    (IdentityProviderSpec_type, IdentityProviderSpec_DeepCopy);
    (IdentityProvider_type, IdentityProvider_DeepCopy);
    (IdentityProviderList_type, IdentityProviderList_DeepCopy);
    (TLSConfig_type, TLSConfig_DeepCopy);
    (KeycloakConnectionSpec_type, KeycloakConnectionSpec_DeepCopy);
    (KeycloakConnectionStatus_type, KeycloakConnectionStatus_DeepCopy);
    (KeycloakConnection_type, KeycloakConnection_DeepCopy);
    (KeycloakConnectionList_type, KeycloakConnectionList_DeepCopy);
    (RealmSpec_type, RealmSpec_DeepCopy); (Realm_type, Realm_DeepCopy);
    (RealmList_type, RealmList_DeepCopy); (RoleComposites_type, RoleComposites_DeepCopy);
    (RealmRoleSpec_type, RealmRoleSpec_DeepCopy); (RealmRole_type, RealmRole_DeepCopy);
    (RealmRoleList_type, RealmRoleList_DeepCopy); (Client_type, Client_DeepCopyObject);
    (ClientList_type, ClientList_DeepCopyObject); (ClientScope_type, ClientScope_DeepCopyObject);
    (ClientScopeList_type, ClientScopeList_DeepCopyObject); (Group_type, Group_DeepCopyObject);
    (GroupList_type, GroupList_DeepCopyObject);
    (IdentityProvider_type, IdentityProvider_DeepCopyObject);
    (IdentityProviderList_type, IdentityProviderList_DeepCopyObject);
    (KeycloakConnection_type, KeycloakConnection_DeepCopyObject);
    (KeycloakConnectionList_type, KeycloakConnectionList_DeepCopyObject);
    (Realm_type, Realm_DeepCopyObject); (RealmList_type, RealmList_DeepCopyObject);
    (RealmRole_type, RealmRole_DeepCopyObject);
    (RealmRoleList_type, RealmRoleList_DeepCopyObject)].

(** ** Every statement copies *)

Context `{!MetaLaws}.

(** The statements of a struct that is copied in several groups, as one list. *)
Ltac one_list :=
  try unfold ClientSpec_DeepCopyInto, ClientSpec_copy_flows, ClientSpec_copy_urls;
  try unfold RealmSpec_DeepCopyInto, RealmSpec_copy_login, RealmSpec_copy_tokens,
    RealmSpec_copy_security, RealmSpec_copy_webauthn;
  cbn [app].

Ltac solve_copies :=
  one_list; apply copy_struct_copies;
  [ vm_compute; reflexivity
  | repeat (apply Forall_cons_2;
      [ unfold field_copies; cbn [field_copier fst snd String.eqb Ascii.eqb Bool.eqb];
        eauto 7 using TypeMeta_flat, ObjectMeta_copies, ListMeta_copies, Condition_copies with copies |]);
    apply Forall_nil_2 ].

Lemma ProtocolMapper_copies : copies ProtocolMapper_type ProtocolMapper_DeepCopyInto.
Proof. solve_copies. Qed.
#[local] Hint Resolve ProtocolMapper_copies : copies.
Lemma IdentityProviderMapper_copies : copies IdentityProviderMapper_type IdentityProviderMapper_DeepCopyInto.
Proof. solve_copies. Qed.
#[local] Hint Resolve IdentityProviderMapper_copies : copies.
Lemma KeycloakRef_copies : copies KeycloakRef_type KeycloakRef_DeepCopyInto.
Proof. solve_copies. Qed.
#[local] Hint Resolve KeycloakRef_copies : copies.
Lemma SecretKeySelector_copies : copies SecretKeySelector_type SecretKeySelector_DeepCopyInto.
Proof. solve_copies. Qed.
#[local] Hint Resolve SecretKeySelector_copies : copies.
Lemma ClientSpec_copies : copies ClientSpec_type ClientSpec_DeepCopyInto.
Proof. solve_copies. Qed.
#[local] Hint Resolve ClientSpec_copies : copies.
Lemma ResourceStatus_copies : copies ResourceStatus_type ResourceStatus_DeepCopyInto.
Proof. solve_copies. Qed.
#[local] Hint Resolve ResourceStatus_copies : copies.
Lemma ClientStatus_copies : copies ClientStatus_type ClientStatus_DeepCopyInto.
Proof. solve_copies. Qed.
#[local] Hint Resolve ClientStatus_copies : copies.
Lemma Client_copies : copies Client_type Client_DeepCopyInto.
Proof. solve_copies. Qed.
#[local] Hint Resolve Client_copies : copies.
Lemma ClientList_copies : copies ClientList_type ClientList_DeepCopyInto.
Proof. solve_copies. Qed.
#[local] Hint Resolve ClientList_copies : copies.
Lemma ClientScopeSpec_copies : copies ClientScopeSpec_type ClientScopeSpec_DeepCopyInto.
Proof. solve_copies. Qed.
#[local] Hint Resolve ClientScopeSpec_copies : copies.
Lemma ClientScope_copies : copies ClientScope_type ClientScope_DeepCopyInto.
Proof. solve_copies. Qed.
#[local] Hint Resolve ClientScope_copies : copies.
Lemma ClientScopeList_copies : copies ClientScopeList_type ClientScopeList_DeepCopyInto.
Proof. solve_copies. Qed.
#[local] Hint Resolve ClientScopeList_copies : copies.
Lemma SecretKeysSelector_copies : copies SecretKeysSelector_type SecretKeysSelector_DeepCopyInto.
Proof. solve_copies. Qed.
#[local] Hint Resolve SecretKeysSelector_copies : copies.
Lemma GroupSpec_copies : copies GroupSpec_type GroupSpec_DeepCopyInto.
Proof. solve_copies. Qed.
#[local] Hint Resolve GroupSpec_copies : copies.
Lemma Group_copies : copies Group_type Group_DeepCopyInto.
Proof. solve_copies. Qed.
#[local] Hint Resolve Group_copies : copies.
Lemma GroupList_copies : copies GroupList_type GroupList_DeepCopyInto.
Proof. solve_copies. Qed.
#[local] Hint Resolve GroupList_copies : copies.
Lemma IdentityProviderSpec_copies : copies IdentityProviderSpec_type IdentityProviderSpec_DeepCopyInto.
Proof. solve_copies. Qed.
#[local] Hint Resolve IdentityProviderSpec_copies : copies.
Lemma IdentityProvider_copies : copies IdentityProvider_type IdentityProvider_DeepCopyInto.
Proof. solve_copies. Qed.
#[local] Hint Resolve IdentityProvider_copies : copies.
Lemma IdentityProviderList_copies : copies IdentityProviderList_type IdentityProviderList_DeepCopyInto.
Proof. solve_copies. Qed.
#[local] Hint Resolve IdentityProviderList_copies : copies.
Lemma TLSConfig_copies : copies TLSConfig_type TLSConfig_DeepCopyInto.
Proof. solve_copies. Qed.
#[local] Hint Resolve TLSConfig_copies : copies.
Lemma KeycloakConnectionSpec_copies : copies KeycloakConnectionSpec_type KeycloakConnectionSpec_DeepCopyInto.
Proof. solve_copies. Qed.
#[local] Hint Resolve KeycloakConnectionSpec_copies : copies.
Lemma KeycloakConnectionStatus_copies : copies KeycloakConnectionStatus_type KeycloakConnectionStatus_DeepCopyInto.
Proof. solve_copies. Qed.
#[local] Hint Resolve KeycloakConnectionStatus_copies : copies.
Lemma KeycloakConnection_copies : copies KeycloakConnection_type KeycloakConnection_DeepCopyInto.
Proof. solve_copies. Qed.
#[local] Hint Resolve KeycloakConnection_copies : copies.
Lemma KeycloakConnectionList_copies : copies KeycloakConnectionList_type KeycloakConnectionList_DeepCopyInto.
Proof. solve_copies. Qed.
#[local] Hint Resolve KeycloakConnectionList_copies : copies.
Lemma RealmSpec_copies : copies RealmSpec_type RealmSpec_DeepCopyInto.
Proof. solve_copies. Qed.
#[local] Hint Resolve RealmSpec_copies : copies.
Lemma Realm_copies : copies Realm_type Realm_DeepCopyInto.
Proof. solve_copies. Qed.
#[local] Hint Resolve Realm_copies : copies.
Lemma RealmList_copies : copies RealmList_type RealmList_DeepCopyInto.
Proof. solve_copies. Qed.
#[local] Hint Resolve RealmList_copies : copies.
Lemma RoleComposites_copies : copies RoleComposites_type RoleComposites_DeepCopyInto.
Proof. solve_copies. Qed.
#[local] Hint Resolve RoleComposites_copies : copies.
Lemma RealmRoleSpec_copies : copies RealmRoleSpec_type RealmRoleSpec_DeepCopyInto.
Proof. solve_copies. Qed.
#[local] Hint Resolve RealmRoleSpec_copies : copies.
Lemma RealmRole_copies : copies RealmRole_type RealmRole_DeepCopyInto.
Proof. solve_copies. Qed.
#[local] Hint Resolve RealmRole_copies : copies.
Lemma RealmRoleList_copies : copies RealmRoleList_type RealmRoleList_DeepCopyInto.
Proof. solve_copies. Qed.
#[local] Hint Resolve RealmRoleList_copies : copies.
End Generated.

(** ** Theorems *)

(** C24.  Deep copies are copies, and apart.  Every generated [DeepCopy] and [DeepCopyObject]
    returns, for each object that memory holds as its type is declared, nil pointers, slices
    and maps included, an object with the same contents; nothing that existed is changed, and
    no later write to any cell of the copy is seen through the original, nor the other way
    round. *)
Theorem deep_copies_separate `{MetaTypes, !MetaLaws} :
  Forall (λ g, separate g.1 g.2) generated.
Proof.
  assert (∀ t c, copies t c → separate t (DeepCopy c)) as Hd by apply copies_separate.
  assert (∀ t c, copies t c → separate t (DeepCopyObject (DeepCopy c))) as Ho
    by (intros; by apply object_separate, copies_separate).
  unfold generated. repeat first [apply Forall_nil_2 | apply Forall_cons_2]; cbn [fst snd];
  [exact (Hd _ _ ProtocolMapper_copies)| exact (Hd _ _ IdentityProviderMapper_copies)|
   exact (Hd _ _ KeycloakRef_copies)| exact (Hd _ _ SecretKeySelector_copies)|
   exact (Hd _ _ ClientSpec_copies)| exact (Hd _ _ ResourceStatus_copies)|
   exact (Hd _ _ ClientStatus_copies)| exact (Hd _ _ Client_copies)|
   exact (Hd _ _ ClientList_copies)| exact (Hd _ _ ClientScopeSpec_copies)|
   exact (Hd _ _ ClientScope_copies)| exact (Hd _ _ ClientScopeList_copies)|
   exact (Hd _ _ SecretKeysSelector_copies)| exact (Hd _ _ GroupSpec_copies)|
   exact (Hd _ _ Group_copies)| exact (Hd _ _ GroupList_copies)|
   exact (Hd _ _ IdentityProviderSpec_copies)| exact (Hd _ _ IdentityProvider_copies)|
   exact (Hd _ _ IdentityProviderList_copies)| exact (Hd _ _ TLSConfig_copies)|
   exact (Hd _ _ KeycloakConnectionSpec_copies)| exact (Hd _ _ KeycloakConnectionStatus_copies)|
   exact (Hd _ _ KeycloakConnection_copies)| exact (Hd _ _ KeycloakConnectionList_copies)|
   exact (Hd _ _ RealmSpec_copies)| exact (Hd _ _ Realm_copies)| exact (Hd _ _ RealmList_copies)|
   exact (Hd _ _ RoleComposites_copies)| exact (Hd _ _ RealmRoleSpec_copies)|
   exact (Hd _ _ RealmRole_copies)| exact (Hd _ _ RealmRoleList_copies)|
   exact (Ho _ _ Client_copies)| exact (Ho _ _ ClientList_copies)|
   exact (Ho _ _ ClientScope_copies)| exact (Ho _ _ ClientScopeList_copies)|
   exact (Ho _ _ Group_copies)| exact (Ho _ _ GroupList_copies)|
   exact (Ho _ _ IdentityProvider_copies)| exact (Ho _ _ IdentityProviderList_copies)|
   exact (Ho _ _ KeycloakConnection_copies)| exact (Ho _ _ KeycloakConnectionList_copies)|
   exact (Ho _ _ Realm_copies)| exact (Ho _ _ RealmList_copies)| exact (Ho _ _ RealmRole_copies)|
   exact (Ho _ _ RealmRoleList_copies)].
Qed.

(** Metadata with the fields the operator uses. *)
Definition sim_MetaTypes : MetaTypes :=
  let meta := TStruct [("Name", TScalar); ("Annotations", TMap TScalar); ("Finalizers", TSlice TScalar)] in
  let meta_copy := copy_struct [("Annotations", copy_map assign); ("Finalizers", copy_slice assign)] in
  let flat_type := TStruct [("Kind", TScalar); ("APIVersion", TScalar)] in
  {| TypeMeta_type := flat_type; ObjectMeta_type := meta; ListMeta_type := flat_type;
     Condition_type := flat_type; ObjectMeta_DeepCopyInto := meta_copy;
     ListMeta_DeepCopyInto := assign; Condition_DeepCopyInto := assign |}.

Lemma sim_MetaLaws : @MetaLaws sim_MetaTypes.
Proof.
  split; [done| |by apply assign_copies..]. apply copy_struct_copies; [vm_compute; reflexivity|].
  repeat (apply Forall_cons_2; [unfold field_copies; cbn; eauto 7 with copies|]). apply Forall_nil_2.
Qed.

(** Two roles in memory, of a composite with one client. *)
Definition sim_heap : heap := {[
  1%positive := CVal (VStruct {["RealmRoles" := VRef 2; "ClientRoles" := VRef 3]});
  2%positive := CArr [VScalar (SStr "a"); VScalar (SStr "b")];
  3%positive := CMap {["app" := VRef 4; "none" := VNil]};
  4%positive := CArr [VScalar (SStr "r")] ]}.

Lemma deep_copies_separate_witness :
  let t := TPtr RoleComposites_type in
  ∃ x p' h' x', view t sim_heap (VRef 1) = Some x ∧
    RoleComposites_DeepCopy (VRef 1) sim_heap = Some (p', h') ∧ sim_heap ⊆ h' ∧ view t h' (VRef 1) = Some x ∧
    view t h' p' = Some x' ∧ x'.1 = x.1 ∧
    (∀ l cl, l ∈ x'.2 → view t (<[l := cl]> h') (VRef 1) = Some x) ∧
    (∀ l cl, l ∈ x.2 → view t (<[l := cl]> h') p' = Some x').
Proof.
  intros t. assert (∃ x, view t sim_heap (VRef 1) = Some x) as [x Hx].
  { eexists. vm_compute. reflexivity. }
  assert (@generated sim_MetaTypes !! 27%nat = Some (RoleComposites_type, RoleComposites_DeepCopy)) as Hg by reflexivity.
  destruct (Forall_lookup_1 _ _ _ _ (@deep_copies_separate sim_MetaTypes sim_MetaLaws) Hg
    sim_heap (VRef 1) x Hx) as (p' & h' & x' & Hrest).
  exists x, p', h', x'. exact (conj Hx Hrest).
Defined.
