(* ===== verification/Json.v ===== *)
(** * JSON documents as Go's [any] holds them

    The operator works on representations decoded by [encoding/json] into
    [map[string]any]: null, booleans, numbers, strings, [[]any] and
    [map[string]any].  This file holds the value type [json], its size and
    induction principle, and the numbers.

    [encoding/json] decodes every number into a float64.  The specs and the
    Keycloak representations carry integers only, so a number is modelled as an
    integral float64: an integer with at most 53 significant bits
    ([f64]); [f64_of_Z] is the rounding of a decimal literal, to nearest and ties
    to even, as [strconv.ParseFloat] does. *)

From Stdlib Require Import ZArith Lia Eqdep_dec.
From stdpp Require Import base gmap strings list.
From S2P Require Import Prelude.

Local Open Scope Z_scope.

(** ** Integral float64 values *)

(** Rounds an integer to 53 significant bits, ties to even. *)
Definition round53 (n : Z) : Z :=
  let a := Z.abs n in
  let e := Z.max 0 (Z.log2 a - 52) in
  let q := a / 2 ^ e in
  let r := a mod 2 ^ e in
  let q' := if 2 ^ e <? 2 * r then q + 1
            else if (2 * r =? 2 ^ e) && Z.odd q then q + 1 else q in
  Z.sgn n * (q' * 2 ^ e).

Definition exactb (n : Z) : bool := (round53 n =? n) && (Z.abs n <? 2 ^ 1024).

Record f64 := F64 { f64_val : Z; f64_exact : exactb f64_val = true }.

(** The float64 of an integer literal; [None] when it is out of range. *)
Definition f64_of_Z (n : Z) : option f64 :=
  let m := round53 n in
  match exactb m as b return exactb m = b → option f64 with
  | true => λ H, Some (F64 m H)
  | false => λ _, None
  end eq_refl.

Definition f64_zero : f64 := F64 0 eq_refl.

Lemma f64_eq (x y : f64) : f64_val x = f64_val y → x = y.
Proof.
  destruct x as [x Hx], y as [y Hy]; simpl; intros ->. f_equal.
  apply UIP_dec, Bool.bool_dec.
Qed.

#[export] Instance f64_eq_dec : EqDecision f64.
Proof.
  intros x y. destruct (decide (f64_val x = f64_val y)) as [?|Hne].
  - left. by apply f64_eq.
  - right. intros ->. by apply Hne.
Defined.

(** A value that is already a float64 is unchanged by the rounding. *)
Lemma f64_of_val (x : f64) : f64_of_Z (f64_val x) = Some x.
Proof.
  destruct x as [n Hn]; simpl. unfold f64_of_Z.
  assert (round53 n = n) as Hr by (unfold exactb in Hn; lia).
  generalize (eq_refl (exactb (round53 n))).
  generalize (exactb (round53 n)) at 2 3. intros [|] Hb.
  - f_equal. by apply f64_eq.
  - rewrite Hr in Hb. congruence.
Qed.

(** Integers of at most 53 bits are represented exactly. *)
Lemma round53_small (n : Z) : Z.abs n < 2 ^ 53 → round53 n = n.
Proof.
  intros Hn. unfold round53.
  assert (Z.log2 (Z.abs n) <= 52) as Hl.
  { destruct (decide (Z.abs n = 0)) as [->|]; [done|].
    apply Z.lt_succ_r. apply Z.log2_lt_pow2; lia. }
  rewrite Z.max_l by lia. change (2 ^ 0) with 1.
  rewrite Z.mod_1_r, Z.div_1_r. simpl. rewrite Z.mul_1_r. lia.
Qed.

Lemma f64_of_Z_small (n : Z) :
  Z.abs n < 2 ^ 53 → ∃ x, f64_of_Z n = Some x ∧ f64_val x = n.
Proof.
  intros Hn. assert (exactb n = true) as He.
  { unfold exactb. rewrite round53_small by done. apply andb_true_iff; split; [lia|].
    apply Z.ltb_lt. etrans; [exact Hn|]. apply Z.pow_lt_mono_r; lia. }
  exists (F64 n He). split; [|done]. exact (f64_of_val (F64 n He)).
Qed.

(** A multiple of a power of two that has at most 53 significant bits is left alone. *)
Lemma round53_fixed (s q e : Z) :
  0 <= q <= 2 ^ 53 → 0 <= e → (s = 1 ∨ s = -1) → round53 (s * (q * 2 ^ e)) = s * (q * 2 ^ e).
Proof.
  intros Hq He Hs. set (x := q * 2 ^ e).
  assert (0 < 2 ^ e) by (apply Z.pow_pos_nonneg; lia).
  assert (0 <= x) as Hx by (unfold x; nia).
  assert (Z.abs (s * x) = x) as Habs by (destruct Hs; subst s; lia).
  unfold round53. rewrite Habs. set (e' := Z.max 0 (Z.log2 x - 52)).
  assert (∃ y, x = y * 2 ^ e') as [y Hy].
  { destruct (Z.le_gt_cases e' e) as [Hle|Hgt].
    - exists (q * 2 ^ (e - e')). unfold x. rewrite <- Z.mul_assoc, <- Z.pow_add_r by lia.
      do 2 f_equal. lia.
    - assert (53 + e <= Z.log2 x) as Hlog by lia.
      assert (0 < x) as Hpos.
      { destruct (Z.eq_dec x 0) as [H0|]; [|lia]. rewrite H0 in Hlog. simpl in Hlog. lia. }
      apply Z.log2_le_pow2 in Hlog; [|done]. rewrite Z.pow_add_r in Hlog by lia.
      assert (q = 2 ^ 53) as Hq' by (unfold x in Hlog; nia).
      assert (Z.log2 x = 53 + e) as Hl.
      { unfold x. rewrite Hq', <- Z.pow_add_r by lia. apply Z.log2_pow2. lia. }
      exists (2 ^ 52). unfold x, e'. rewrite Hq', Hl, <- !Z.pow_add_r by lia. f_equal. lia. }
  assert (0 < 2 ^ e') by (apply Z.pow_pos_nonneg; lia).
  rewrite Hy, Z.div_mul, Z.mod_mul by lia.
  replace (2 ^ e' <? 2 * 0) with false by (symmetry; apply Z.ltb_ge; lia).
  replace (2 * 0 =? 2 ^ e') with false by (symmetry; apply Z.eqb_neq; lia). simpl.
  destruct Hs; subst s; rewrite <- Hy in *; destruct (Z.eq_dec x 0) as [->|]; lia.
Qed.

(** The rounding of an integer is such a multiple, at most twice as large. *)
Lemma round53_form (n : Z) :
  ∃ s q e, round53 n = s * (q * 2 ^ e) ∧ 0 <= q <= 2 ^ 53 ∧ 0 <= e ∧ (s = 1 ∨ s = -1) ∧
    Z.abs (round53 n) <= 2 * Z.abs n.
Proof.
  destruct (Z.eq_dec n 0) as [->|Hn].
  { exists 1, 0, 0. repeat split; try done; by left. }
  unfold round53. set (a := Z.abs n). assert (0 < a) as Ha by lia.
  set (e := Z.max 0 (Z.log2 a - 52)).
  assert (0 < 2 ^ e) as He by (apply Z.pow_pos_nonneg; lia).
  pose proof (Z.div_mod a (2 ^ e) ltac:(lia)) as Hdm.
  pose proof (Z.mod_pos_bound a (2 ^ e) He) as Hmod.
  set (q := a / 2 ^ e) in *. set (r := a mod 2 ^ e) in *.
  assert (0 <= q) as Hq0 by (apply Z.div_pos; lia).
  assert (q < 2 ^ 53) as Hq.
  { assert (a < 2 ^ (Z.log2 a + 1)) as Hlt by (apply Z.log2_spec; lia).
    assert (a < 2 ^ 53 * 2 ^ e) as Hlt'.
    { rewrite <- Z.pow_add_r by lia. eapply Z.lt_le_trans; [exact Hlt|].
      apply Z.pow_le_mono_r; lia. }
    nia. }
  assert (2 ^ e <= a) as Hle.
  { destruct (Z.le_gt_cases (Z.log2 a) 52).
    - unfold e. rewrite Z.max_l by lia. simpl. lia.
    - etrans; [|apply (Z.log2_spec a Ha)]. apply Z.pow_le_mono_r; lia. }
  set (q' := if 2 ^ e <? 2 * r then q + 1 else _).
  assert (q <= q' <= q + 1) as Hq' by (unfold q'; repeat case_match; lia).
  exists (Z.sgn n), q', e. split; [done|]. split; [lia|]. split; [lia|]. split; [lia|].
  assert (Z.abs (Z.sgn n * (q' * 2 ^ e)) = q' * 2 ^ e) as -> by (rewrite Z.abs_mul; nia). nia.
Qed.

(** Every int64 is encoded: to the float64 nearest to it. *)
Lemma f64_of_int64 (n : Z) :
  - 2 ^ 63 <= n < 2 ^ 63 → ∃ x, f64_of_Z n = Some x ∧ f64_val x = round53 n.
Proof.
  intros Hn. destruct (round53_form n) as (s & q & e & Hr & Hq & He & Hs & Hb).
  assert (exactb (round53 n) = true) as Hx.
  { unfold exactb. rewrite Hr at 1 2. rewrite round53_fixed by done.
    apply andb_true_iff. split; [lia|]. apply Z.ltb_lt. eapply Z.le_lt_trans; [exact Hb|].
    apply Z.le_lt_trans with (2 ^ 64); [lia|]. apply Z.pow_lt_mono_r; lia. }
  exists (F64 _ Hx). split; [|done]. unfold f64_of_Z. generalize (eq_refl (exactb (round53 n))).
  generalize (exactb (round53 n)) at 2 3. intros [|] Hb'; [by f_equal; apply f64_eq|congruence].
Qed.

(** ** Values *)

Inductive json :=
  | JNull
  | JBool (b : bool)
  | JNum (n : f64)
  | JStr (s : string)
  | JArr (l : list json)
  | JObj (m : gmap string json).

(** A decoded object, the [map[string]any] of a representation. *)
Abbreviation rep := (gmap string json).

Local Open Scope nat_scope.

Fixpoint jsize (j : json) : nat :=
  match j with
  | JArr l => S (foldr (λ x a, jsize x + a) 0 l)
  | JObj m => S (map_fold (λ _ x a, jsize x + a) 0 m)
  | _ => 1
  end.

Lemma json_ind' (P : json → Prop) :
  P JNull → (∀ b, P (JBool b)) → (∀ n, P (JNum n)) → (∀ s, P (JStr s)) →
  (∀ l, Forall P l → P (JArr l)) →
  (∀ m, map_Forall (λ _, P) m → P (JObj m)) →
  ∀ j, P j.
Proof.
  intros H1 H2 H3 H4 H5 H6 j. remember (jsize j) as n eqn:Hn. revert j Hn.
  induction (lt_wf n) as [n _ IH]. intros j ->. destruct j as [| | | |l|m]; auto.
  - apply H5, Forall_forall. intros x Hx. eapply IH; [|done].
    apply (foldr_sum_elem jsize) in Hx. simpl. lia.
  - apply H6. intros k x Hx. eapply IH; [|done].
    apply (map_fold_sum_lookup jsize) in Hx. simpl. lia.
Qed.

(** ** Type assertions, [v, ok := x.(T)] *)

Definition as_string (j : json) : option string :=
  match j with JStr s => Some s | _ => None end.
Definition as_map (j : json) : option rep :=
  match j with JObj m => Some m | _ => None end.
Definition as_list (j : json) : option (list json) :=
  match j with JArr l => Some l | _ => None end.

(** [m[key].(T)] on a decoded object. *)
Definition field_string (m : rep) (k : string) : option string := m !! k ≫= as_string.
Definition field_map (m : rep) (k : string) : option rep := m !! k ≫= as_map.
Definition field_list (m : rep) (k : string) : option (list json) := m !! k ≫= as_list.

(** [rep["k"] == s]: an [any] compared with a string. *)
Definition field_is (m : rep) (k s : string) : bool := bool_decide (field_string m k = Some s).

(** [v, _ := rep["k"].(string)]: the empty string when the assertion fails. *)
Definition field_or_empty (m : rep) (k : string) : string := default "" (field_string m k).

Lemma field_is_spec (m : rep) (k s : string) :
  field_is m k s = true ↔ m !! k = Some (JStr s).
Proof.
  unfold field_is, field_string. rewrite bool_decide_eq_true.
  destruct (m !! k) as [[]|]; simpl; naive_solver.
Qed.
