(* ===== verification/JsonText.v ===== *)
(** * JSON text: [json.Marshal] and [json.Unmarshal]

    The last-applied annotation, the HTTP bodies and [jsonEqual] go through JSON
    text.  [marshal] prints a value as [json.Marshal] does (object keys sorted,
    control characters and [<], [>], [&] escaped, no white space), [unmarshal]
    reads a document as [json.Unmarshal] into [any] does, and [unmarshal_marshal]
    is the round trip.

    Two things are outside the model: bytes above 0x7f are copied (Go also escapes
    U+2028 and U+2029, which changes the text and not the value read back, and replaces
    invalid UTF-8, which the API server keeps out of specs and annotations but not out of
    the data of Secrets), and a number literal with a fraction or an exponent is refused,
    since [json] holds integral numbers. *)

From Stdlib Require Import ZArith Lia Ascii DecimalString DecimalZ DecimalFacts.
From stdpp Require Import base gmap strings list sorting.
From S2P Require Import Prelude Json.

Local Open Scope string_scope.
Local Open Scope nat_scope.

(** ** Characters *)

Definition dquote : ascii := "034".
Definition backslash : ascii := "092".

Definition hex_digit (n : nat) : ascii :=
  ascii_of_nat (if Nat.ltb n 10 then 48 + n else 87 + n).

Definition hex_value (c : ascii) : option nat :=
  let n := nat_of_ascii c in
  if Nat.leb 48 n && Nat.leb n 57 then Some (n - 48)
  else if Nat.leb 97 n && Nat.leb n 102 then Some (n - 87)
  else if Nat.leb 65 n && Nat.leb n 70 then Some (n - 55)
  else None.

(** The escape of one byte in a JSON string, with HTML escaping on. *)
Definition escape_char (c : ascii) : string :=
  let n := nat_of_ascii c in
  if Nat.eqb n 34 || Nat.eqb n 92 then String backslash (String c "")
  else if Nat.eqb n 8 then String backslash "b"
  else if Nat.eqb n 12 then String backslash "f"
  else if Nat.eqb n 10 then String backslash "n"
  else if Nat.eqb n 13 then String backslash "r"
  else if Nat.eqb n 9 then String backslash "t"
  else if Nat.ltb n 32 || Nat.eqb n 60 || Nat.eqb n 62 || Nat.eqb n 38 then
    String backslash ("u00" +:+ String (hex_digit (n / 16)) (String (hex_digit (n mod 16)) ""))
  else String c "".

Fixpoint escape (s : string) : string :=
  match s with
  | "" => ""
  | String c s' => escape_char c +:+ escape s'
  end.

Definition quote (s : string) : string := String dquote (escape s +:+ String dquote "").

(** ** Printing *)

Definition print_Z (n : Z) : string := NilZero.string_of_int (Z.to_int n).

(** Byte-wise order on keys, as [sort.Strings]. *)
Definition key_le (p q : string * string) : Prop := String.leb p.1 q.1 = true.
#[export] Instance key_le_dec : RelDecision key_le := λ p q, decide (String.leb p.1 q.1 = true).

Definition print_member (p : string * string) : string := quote p.1 +:+ ":" +:+ p.2.

Fixpoint join (l : list string) : string :=
  match l with
  | [] => ""
  | [x] => x
  | x :: l' => x +:+ "," +:+ join l'
  end.

Fixpoint marshal (j : json) : string :=
  match j with
  | JNull => "null"
  | JBool true => "true"
  | JBool false => "false"
  | JNum n => print_Z (f64_val n)
  | JStr s => quote s
  | JArr l => "[" +:+ join (map marshal l) +:+ "]"
  | JObj m =>
      "{" +:+ join (map print_member
        (merge_sort key_le (map_fold (λ k v acc, (k, marshal v) :: acc) [] m))) +:+ "}"
  end.

(** ** Reading *)

Definition is_space (c : ascii) : bool :=
  let n := nat_of_ascii c in
  Nat.eqb n 32 || Nat.eqb n 9 || Nat.eqb n 10 || Nat.eqb n 13.

Fixpoint skip_space (s : string) : string :=
  match s with
  | String c s' => if is_space c then skip_space s' else s
  | "" => ""
  end.

Fixpoint strip_prefix (p s : string) : option string :=
  match p, s with
  | "", _ => Some s
  | String a p', String b s' => if ascii_dec a b then strip_prefix p' s' else None
  | String _ _, "" => None
  end.

(** Characters a number literal may contain. *)
Definition is_numchar (c : ascii) : bool :=
  let n := nat_of_ascii c in
  (Nat.leb 48 n && Nat.leb n 57) || Nat.eqb n 45 || Nat.eqb n 43 || Nat.eqb n 46
  || Nat.eqb n 101 || Nat.eqb n 69.

Fixpoint span_num (s : string) : string * string :=
  match s with
  | String c s' =>
      if is_numchar c then let '(a, b) := span_num s' in (String c a, b) else ("", s)
  | "" => ("", "")
  end.

(** An integer literal in canonical form (no leading zero, no plus sign). *)
Definition read_int (tok : string) : option Z :=
  d ← NilZero.int_of_string tok;
  if String.eqb (print_Z (Z.of_int d)) tok then Some (Z.of_int d)
  else if String.eqb tok "-0" then Some 0%Z else None.

(** UTF-8 of a code point, for [\u] escapes. *)
Definition utf8 (n : nat) : string :=
  let b k := String (ascii_of_nat k) "" in
  if Nat.ltb n 128 then b n
  else if Nat.ltb n 2048 then b (192 + n / 64) +:+ b (128 + n mod 64)
  else if N.ltb (N.of_nat n) 65536 then
    b (224 + n / 4096) +:+ b (128 + (n / 64) mod 64) +:+ b (128 + n mod 64)
  else b (240 + n / (64 * 4096)) +:+ b (128 + (n / 4096) mod 64)
       +:+ b (128 + (n / 64) mod 64) +:+ b (128 + n mod 64).

Definition hex4 (s : string) : option (nat * string) :=
  match s with
  | String a (String b (String c (String d s'))) =>
      x ← hex_value a; y ← hex_value b; z ← hex_value c; w ← hex_value d;
      Some (((x * 16 + y) * 16 + z) * 16 + w, s')
  | _ => None
  end.

Definition replacement : string := utf8 (N.to_nat 65533).
Definition is_high (n : nat) : bool := N.leb 55296 (N.of_nat n) && N.ltb (N.of_nat n) 56320.
Definition is_low (n : nat) : bool := N.leb 56320 (N.of_nat n) && N.ltb (N.of_nat n) 57344.

(** The code point of a [\u] escape, with surrogate pairs; an unpaired surrogate is
    the replacement character. *)
Definition read_u (s : string) : option (string * string) :=
  '(n, s') ← hex4 s;
  if is_high n then
    match strip_prefix (String backslash "u") s' with
    | Some s'' =>
        '(m, s3) ← hex4 s'';
        if is_low m then
          Some (utf8 (N.to_nat (65536 + (N.of_nat n - 55296) * 1024 + (N.of_nat m - 56320))), s3)
        else Some (replacement, s')
    | None => Some (replacement, s')
    end
  else if is_low n then Some (replacement, s')
  else Some (utf8 n, s').

(** One escape sequence after the backslash: the bytes it denotes and the rest. *)
Definition read_escape (s : string) : option (string * string) :=
  match s with
  | String c s' =>
      if ascii_dec c dquote then Some (String dquote "", s')
      else if ascii_dec c backslash then Some (String backslash "", s')
      else if ascii_dec c "/" then Some ("/", s')
      else if ascii_dec c "b" then Some (String "008" "", s')
      else if ascii_dec c "f" then Some (String "012" "", s')
      else if ascii_dec c "n" then Some (String "010" "", s')
      else if ascii_dec c "r" then Some (String "013" "", s')
      else if ascii_dec c "t" then Some (String "009" "", s')
      else if ascii_dec c "u" then read_u s'
      else None
  | "" => None
  end.

(** The rest of a string literal, after the opening quote. *)
Fixpoint read_string (n : nat) (s : string) : option (string * string) :=
  match n, s with
  | S n, String c s' =>
      if ascii_dec c dquote then Some ("", s')
      else if ascii_dec c backslash then
        '(bytes, r) ← read_escape s'; '(t, r') ← read_string n r; Some (bytes +:+ t, r')
      else if Nat.ltb (nat_of_ascii c) 32 then None
      else '(t, r) ← read_string n s'; Some (String c t, r)
  | _, _ => None
  end.

Definition read_quoted (s : string) : option (string * string) :=
  r ← strip_prefix (String dquote "") s; read_string (S (String.length r)) r.

Definition read_number (s : string) : option (json * string) :=
  let '(tok, r) := span_num s in
  z ← read_int tok; x ← f64_of_Z z; Some (JNum x, r).

Fixpoint parse_value (n : nat) (s : string) {struct n} : option (json * string) :=
  match n with
  | 0 => None
  | S n =>
      let s := skip_space s in
      if strip_prefix "null" s is Some r then Some (JNull, r)
      else if strip_prefix "true" s is Some r then Some (JBool true, r)
      else if strip_prefix "false" s is Some r then Some (JBool false, r)
      else if strip_prefix (String dquote "") s is Some _ then
        '(t, r) ← read_quoted s; Some (JStr t, r)
      else if strip_prefix "[" s is Some r then
        if strip_prefix "]" (skip_space r) is Some r' then Some (JArr [], r')
        else '(l, r') ← parse_elements n r; Some (JArr l, r')
      else if strip_prefix "{" s is Some r then
        if strip_prefix "}" (skip_space r) is Some r' then Some (JObj ∅, r')
        else '(m, r') ← parse_members n r; Some (JObj m, r')
      else read_number s
  end
with parse_elements (n : nat) (s : string) {struct n} : option (list json * string) :=
  match n with
  | 0 => None
  | S n =>
      '(v, r) ← parse_value n s;
      let r := skip_space r in
      if strip_prefix "," r is Some r1 then
        '(l, r2) ← parse_elements n r1; Some (v :: l, r2)
      else r1 ← strip_prefix "]" r; Some ([v], r1)
  end
with parse_members (n : nat) (s : string) {struct n} : option (gmap string json * string) :=
  match n with
  | 0 => None
  | S n =>
      '(k, r) ← read_quoted (skip_space s);
      r ← strip_prefix ":" (skip_space r);
      '(v, r) ← parse_value n r;
      let r := skip_space r in
      if strip_prefix "," r is Some r1 then
        '(m, r2) ← parse_members n r1; Some (m ∪ {[k := v]}, r2)
      else r1 ← strip_prefix "}" r; Some ({[k := v]}, r1)
  end.

(** [json.NewDecoder(r).Decode]: the first document of a text, and what follows. *)
Definition decode_first (s : string) : option (json * string) :=
  parse_value (S (S (String.length s))) s.

(** [json.Unmarshal]: one document and nothing but white space after it. *)
Definition unmarshal (s : string) : option json :=
  '(j, r) ← decode_first s; if String.eqb (skip_space r) "" then Some j else None.

(** ** The round trip *)

#[local] Arguments String.append !_ _ / : simpl nomatch.

Lemma append_assoc (a b c : string) : (a +:+ b) +:+ c = a +:+ (b +:+ c).
Proof. induction a; simpl; congruence. Qed.

Lemma length_append (a b : string) :
  String.length (a +:+ b) = String.length a + String.length b.
Proof. induction a; simpl; lia. Qed.

Lemma append_nil_r (a : string) : a +:+ "" = a.
Proof. induction a; simpl; congruence. Qed.

(** A finite case analysis: every one of the 256 bytes, by computation. *)
Ltac all_bytes c := destruct c as [[] [] [] [] [] [] [] []].

Lemma escape_char_length (c : ascii) : 1 ≤ String.length (escape_char c).
Proof. all_bytes c; vm_compute; lia. Qed.

(** Reading one escaped byte gives it back. *)
Lemma read_escape_char (c : ascii) (n : nat) (rest : string) :
  read_string (S n) (escape_char c +:+ rest) =
    ('(t, r) ← read_string n rest; Some (String c t, r)).
Proof. all_bytes c; simpl; destruct (read_string n rest) as [[]|]; reflexivity. Qed.

Lemma read_string_escape (s : string) : ∀ (n : nat) (rest : string),
  String.length (escape s) < n →
  read_string n (escape s +:+ String dquote rest) = Some (s, rest).
Proof.
  induction s as [|c s IH]; intros n rest Hn; simpl in *.
  - destruct n; [lia|]. reflexivity.
  - rewrite length_append in Hn. pose proof (escape_char_length c).
    destruct n as [|n]; [lia|].
    rewrite append_assoc, read_escape_char, IH by lia. reflexivity.
Qed.

Lemma strip_prefix_app (p s : string) : strip_prefix p (p +:+ s) = Some s.
Proof. induction p as [|c p IH]; simpl; [done|]. by destruct (ascii_dec c c). Qed.

Lemma read_quoted_quote (s rest : string) : read_quoted (quote s +:+ rest) = Some (s, rest).
Proof.
  unfold read_quoted, quote.
  change (String dquote (escape s +:+ String dquote "") +:+ rest)
    with (String dquote "" +:+ ((escape s +:+ String dquote "") +:+ rest)).
  rewrite strip_prefix_app, append_assoc.
  change (String dquote "" +:+ rest) with (String dquote rest). cbn [mbind option_bind].
  apply read_string_escape. rewrite length_append. simpl. lia.
Qed.

(** What may follow a number in a document. *)
Definition num_stop (s : string) : Prop :=
  match s with "" => True | String c _ => is_numchar c = false end.

Fixpoint str_all (P : ascii → bool) (s : string) : bool :=
  match s with "" => true | String c s' => P c && str_all P s' end.

Lemma span_num_app (a b : string) :
  str_all is_numchar a = true → num_stop b → span_num (a +:+ b) = (a, b).
Proof.
  induction a as [|c a IH]; simpl.
  - intros _ Hb. destruct b as [|c b]; simpl in *; [done|]. by rewrite Hb.
  - intros [-> Ha]%andb_true_iff Hb. by rewrite IH.
Qed.

Lemma uint_numchars (d : Decimal.uint) : str_all is_numchar (NilEmpty.string_of_uint d) = true.
Proof. induction d; simpl; auto. Qed.

Lemma print_Z_numchars (z : Z) : str_all is_numchar (print_Z z) = true.
Proof.
  unfold print_Z. destruct (Z.to_int z) as [d|d]; simpl; destruct d;
    try reflexivity; apply (uint_numchars (Decimal.D0 _)) || idtac;
    exact (uint_numchars _).
Qed.

Lemma int_of_print (z : Z) : NilZero.int_of_string (print_Z z) = Some (Z.to_int z).
Proof.
  unfold print_Z. apply NilZero.isi; destruct z as [|p|p]; simpl; try done;
    intros [= H]; by apply (DecimalPos.Unsigned.to_uint_nonnil p).
Qed.

Lemma read_int_print (z : Z) : read_int (print_Z z) = Some z.
Proof.
  unfold read_int. rewrite int_of_print. cbn [mbind option_bind].
  by rewrite DecimalZ.of_to, String.eqb_refl.
Qed.

Lemma read_number_print (x : f64) (rest : string) :
  num_stop rest → read_number (print_Z (f64_val x) +:+ rest) = Some (JNum x, rest).
Proof.
  intros Hr. unfold read_number.
  rewrite span_num_app by (done || apply print_Z_numchars).
  rewrite read_int_print. simpl. by rewrite f64_of_val.
Qed.

Lemma parse_value_num (n : nat) (c : ascii) (t : string) :
  is_numchar c = true → parse_value (S n) (String c t) = read_number (String c t).
Proof. all_bytes c; intros H; try discriminate H; reflexivity. Qed.

Lemma print_Z_cons (z : Z) : ∃ c t, print_Z z = String c t ∧ is_numchar c = true.
Proof.
  pose proof (read_int_print z) as Hr. pose proof (print_Z_numchars z) as Hc.
  destruct (print_Z z) as [|c t]; [done|]. simpl in Hc. exists c, t.
  split; [done|]. by destruct (is_numchar c).
Qed.

(** How a printed value starts: neither a space nor a closing bracket. *)
Lemma marshal_head (j : json) :
  ∃ c t, marshal j = String c t ∧ is_space c = false ∧ c ≠ "]"%char ∧ c ≠ "}"%char.
Proof.
  destruct j as [|[]|x|s|l|m]; try (eexists _, _; split; [reflexivity|done]).
  destruct (print_Z_cons (f64_val x)) as (c & t & Heq & Hc). exists c, t.
  split; [exact Heq|]. clear Heq. all_bytes c; by try discriminate Hc.
Qed.

Lemma strip_prefix_head (a c : ascii) (t : string) :
  c ≠ a → strip_prefix (String a "") (String c t) = None.
Proof. intros. simpl. by destruct (ascii_dec a c). Qed.

(** A value is read back whatever follows it, given fuel for its text. *)
Definition reads_back (j : json) : Prop := ∀ (n : nat) (rest : string),
  String.length (marshal j) < n → num_stop rest →
  parse_value n (marshal j +:+ rest) = Some (j, rest).

Lemma parse_elements_join (l : list json) : l ≠ [] → Forall reads_back l →
  ∀ n rest, String.length (join (map marshal l)) + 1 < n →
  parse_elements n (join (map marshal l) +:+ "]" +:+ rest) = Some (l, rest).
Proof.
  intros Hne Hl. induction Hl as [|x l Hx Hl IH]; [done|]. intros [|n] rest Hn; [lia|].
  destruct l as [|y l].
  - cbn [map join] in *. cbn [parse_elements].
    rewrite Hx by (done || lia). reflexivity.
  - change (join (map marshal (x :: y :: l)))
      with (marshal x +:+ "," +:+ join (map marshal (y :: l))) in *.
    rewrite !length_append in Hn. change (String.length ",") with 1 in Hn.
    rewrite !append_assoc. cbn [parse_elements].
    rewrite Hx by (done || lia). cbn [mbind option_bind].
    change (skip_space ("," +:+ ?s)) with ("," +:+ s). rewrite strip_prefix_app.
    rewrite IH by (done || lia). reflexivity.
Qed.

Definition print_pair (p : string * json) : string := print_member (p.1, marshal p.2).

Lemma print_pair_length (p : string * json) :
  String.length (print_pair p) = String.length (quote p.1) + 1 + String.length (marshal p.2).
Proof. unfold print_pair, print_member. simpl. rewrite !length_append. simpl. lia. Qed.

Lemma parse_members_step (n : nat) (k : string) (v : json) (rest : string) :
  reads_back v → num_stop rest → String.length (marshal v) < n →
  parse_members (S n) (print_pair (k, v) +:+ rest) =
    (if strip_prefix "," (skip_space rest) is Some r1 then
       '(m, r2) ← parse_members n r1; Some (m ∪ {[k := v]}, r2)
     else r1 ← strip_prefix "}" (skip_space rest); Some ({[k := v]}, r1)).
Proof.
  intros Hv Hr Hn. unfold print_pair, print_member. simpl fst. simpl snd.
  rewrite !append_assoc. cbn [parse_members].
  assert (∀ s, skip_space (quote k +:+ s) = quote k +:+ s) as -> by done.
  rewrite read_quoted_quote. cbn [mbind option_bind].
  assert (∀ s, skip_space (":" +:+ s) = ":" +:+ s) as -> by done.
  rewrite strip_prefix_app. cbn [mbind option_bind]. rewrite Hv by done. reflexivity.
Qed.

Lemma parse_members_join (l : list (string * json)) :
  l ≠ [] → NoDup l.*1 → Forall (λ p, reads_back p.2) l →
  ∀ n rest, String.length (join (map print_pair l)) + 1 < n →
  parse_members n (join (map print_pair l) +:+ "}" +:+ rest) = Some (list_to_map l, rest).
Proof.
  intros Hne Hnd Hl. induction Hl as [|[k v] l Hx Hl IH]; [done|].
  intros [|n] rest Hn; [lia|]. apply NoDup_cons in Hnd as [Hk Hnd]. simpl in Hx, Hk.
  destruct l as [|q l].
  - cbn [map join] in *. rewrite print_pair_length in Hn. simpl snd in Hn.
    rewrite parse_members_step by (done || lia). simpl.
    by rewrite insert_empty.
  - change (join (map print_pair ((k, v) :: q :: l)))
      with (print_pair (k, v) +:+ "," +:+ join (map print_pair (q :: l))) in *.
    rewrite !length_append, print_pair_length in Hn. change (String.length ",") with 1 in Hn.
    simpl snd in Hn. rewrite !append_assoc.
    rewrite parse_members_step by (done || lia).
    assert (∀ s, skip_space ("," +:+ s) = "," +:+ s) as -> by done.
    rewrite strip_prefix_app, IH by (done || lia). cbn [mbind option_bind].
    do 2 f_equal. change (list_to_map ((k, v) :: q :: l)) with (<[k:=v]> (list_to_map (M:=gmap string json) (q :: l))).
    rewrite insert_union_singleton_r; [done|]. by apply not_elem_of_list_to_map.
Qed.

(** The printed members of an object are some enumeration of it. *)
Lemma marshal_entries (m : gmap string json) :
  map_fold (λ k v acc, (k, marshal v) :: acc) [] m ≡ₚ
  map (λ p, (p.1, marshal p.2)) (map_to_list m).
Proof.
  induction m as [|k v m Hk IH] using map_ind.
  - by rewrite map_fold_empty, map_to_list_empty.
  - rewrite (map_fold_insert (≡ₚ)); [|by intros ?? ?? ->| |done].
    + rewrite map_to_list_insert by done. simpl. by rewrite IH.
    + intros. apply Permutation_swap.
Qed.

Lemma marshal_obj (m : gmap string json) :
  ∃ l, l ≡ₚ map_to_list m ∧
       marshal (JObj m) = "{" +:+ join (map print_pair l) +:+ "}".
Proof.
  set (e := map_fold (λ k v acc, (k, marshal v) :: acc) [] m).
  assert (merge_sort key_le e ≡ₚ map (λ p, (p.1, marshal p.2)) (map_to_list m)) as Hp.
  { rewrite merge_sort_Permutation. apply marshal_entries. }
  apply Permutation_map_inv in Hp as (l & Hs & Hl). exists l. split; [done|].
  cbn [marshal]. fold e. rewrite Hs, map_map. reflexivity.
Qed.

Lemma reads_back_arr (l : list json) : Forall reads_back l → reads_back (JArr l).
Proof.
  intros IH [|n] rest Hn Hr; [lia|]. destruct l as [|x l]; [reflexivity|].
  cbn [marshal] in *. rewrite !length_append in Hn.
  change (String.length "[") with 1 in Hn. change (String.length "]") with 1 in Hn.
  rewrite !append_assoc.
  change (parse_value (S n) ("[" +:+ ?s)) with
    (if strip_prefix "]" (skip_space s) is Some r' then Some (JArr [], r')
     else '(l, r') ← parse_elements n s; Some (JArr l, r')).
  destruct (marshal_head x) as (c & t & Hc & Hsp & Hb & _).
  assert (∃ t', join (map marshal (x :: l)) +:+ "]" +:+ rest = String c t') as [t' Ht].
  { destruct l; cbn [map join]; rewrite Hc; eauto. }
  rewrite Ht. cbn [skip_space]. rewrite Hsp, strip_prefix_head by done. rewrite <-Ht.
  by rewrite parse_elements_join by (done || lia).
Qed.

Lemma reads_back_obj (m : gmap string json) :
  map_Forall (λ _, reads_back) m → reads_back (JObj m).
Proof.
  intros IH [|n] rest Hn Hr; [lia|]. destruct (marshal_obj m) as (l & Hl & Hm).
  rewrite Hm in Hn |- *. rewrite !length_append in Hn.
  change (String.length "{") with 1 in Hn. change (String.length "}") with 1 in Hn.
  rewrite !append_assoc.
  assert (list_to_map l = m) as Hlm.
  { rewrite <-(list_to_map_to_list m). symmetry. apply list_to_map_proper; [|done].
    apply NoDup_fst_map_to_list. }
  destruct l as [|[k v] l]; [by rewrite <-Hlm|].
  change (parse_value (S n) ("{" +:+ ?s)) with
    (if strip_prefix "}" (skip_space s) is Some r' then Some (JObj ∅, r')
     else '(m, r') ← parse_members n s; Some (JObj m, r')).
  assert (∃ t', join (map print_pair ((k, v) :: l)) +:+ "}" +:+ rest = String dquote t')
    as [t' Ht] by (destruct l; cbn [map join]; eexists; reflexivity).
  rewrite Ht. change (skip_space (String dquote t')) with (String dquote t').
  rewrite strip_prefix_head, <-Ht by done.
  rewrite parse_members_join; [by rewrite Hlm|done| | |lia]; rewrite Hl.
  - apply NoDup_fst_map_to_list.
  - apply Forall_forall. intros [k' v'] Hin%elem_of_map_to_list. by apply (IH k').
Qed.

Lemma parse_marshal (j : json) : reads_back j.
Proof.
  induction j as [|b|x|s|l IH|m IH] using json_ind';
    [..|by apply reads_back_arr|by apply reads_back_obj];
    intros [|n] rest Hn Hr; try lia.
  - done.
  - by destruct b.
  - cbn [marshal]. destruct (print_Z_cons (f64_val x)) as (c & t & Heq & Hc).
    rewrite <-(read_number_print x rest Hr), Heq. by apply parse_value_num.
  - change (parse_value (S n) (marshal (JStr s) +:+ rest))
      with ('(t, r) ← read_quoted (quote s +:+ rest); Some (JStr t, r)).
    by rewrite read_quoted_quote.
Qed.

Lemma decode_first_marshal (j : json) (rest : string) :
  num_stop rest → decode_first (marshal j +:+ rest) = Some (j, rest).
Proof.
  intros Hr. unfold decode_first. apply parse_marshal; [|done]. rewrite length_append. lia.
Qed.

Lemma unmarshal_marshal (j : json) : unmarshal (marshal j) = Some j.
Proof.
  unfold unmarshal. rewrite <-(append_nil_r (marshal j)).
  by rewrite decode_first_marshal.
Qed.

#[export] Instance marshal_inj : Inj (=) (=) marshal.
Proof.
  intros j k H. apply (inj Some). by rewrite <-!unmarshal_marshal, H.
Qed.

#[export] Instance json_eq_dec : EqDecision json.
Proof.
  intros j k. destruct (decide (marshal j = marshal k)) as [Heq|Hne].
  - left. by apply (inj marshal).
  - right. intros ->. by apply Hne.
Defined.
