(* ===== verification/GoError.v ===== *)
(** * Go errors

    Errors are values: the sentinels of [internal/keycloak/errors.go], [*APIError],
    the errors of the Kubernetes client and of the Go libraries, and what
    [fmt.Errorf] with [%w] wraps around them.  [errors_Is] and [errors_As_API] walk the
    chain as [errors.Is] and [errors.As] do. *)

From Stdlib Require Import ZArith Lia.
From stdpp Require Import base gmap strings list.
From S2P Require Import Prelude Json JsonText.

Local Open Scope string_scope.
Local Open Scope list_scope.

(** The sentinel errors the reconcilers branch on. *)
Inductive Sentinel := SNotFound | SConflict | SAuth.

#[export] Instance Sentinel_eq_dec : EqDecision Sentinel.
Proof. solve_decision. Defined.

Inductive GoError :=
  | ErrSentinel (s : Sentinel)
  | APIError (StatusCode : Z) (Method Path Body : string)
  | KubeError (is_not_found : bool) (text : string)
  | JSONError
  | PlainError (text : string)
  | Wrapped (pre : string) (err : GoError) (post : string).

#[export] Instance GoError_eq_dec : EqDecision GoError.
Proof. solve_decision. Defined.

Definition ErrNotFound : GoError := ErrSentinel SNotFound.
Definition ErrConflict : GoError := ErrSentinel SConflict.
Definition ErrAuth : GoError := ErrSentinel SAuth.

(** [fmt.Sprintf] of a double-quoted string, for text without characters that need
    an escape. *)
Definition q (s : string) : string := String dquote (s +:+ String dquote "").

Definition sentinel_text (s : Sentinel) : string :=
  match s with
  | SNotFound => "resource not found"
  | SConflict => "resource conflict"
  | SAuth => "authentication failed"
  end.

Definition APIError_Error (code : Z) (method path body : string) : string :=
  "keycloak admin api " +:+ method +:+ " " +:+ path +:+ ": status " +:+ print_Z code
  +:+ ": " +:+ body.

(** [err.Error()].  The text of a decoding error is a fixed one. *)
Fixpoint Error (e : GoError) : string :=
  match e with
  | ErrSentinel s => sentinel_text s
  | APIError c m p b => APIError_Error c m p b
  | KubeError _ t => t
  | JSONError => "invalid JSON document"
  | PlainError t => t
  | Wrapped a e b => a +:+ Error e +:+ b
  end.

Fixpoint errors_Is (e : GoError) (s : Sentinel) : bool :=
  match e with
  | ErrSentinel s' => bool_decide (s' = s)
  | Wrapped _ e _ => errors_Is e s
  | _ => false
  end.

(** [errors.As(err, &apiErr)]: the status code of the wrapped [*APIError]. *)
Fixpoint errors_As_API (e : GoError) : option Z :=
  match e with
  | APIError c _ _ _ => Some c
  | Wrapped _ e _ => errors_As_API e
  | _ => None
  end.

(** [apierrors.IsNotFound]. *)
Fixpoint IsNotFound (e : GoError) : bool :=
  match e with
  | KubeError b _ => b
  | Wrapped _ e _ => IsNotFound e
  | _ => false
  end.

(** A sentinel is recognised at most once: no error is both. *)
Lemma errors_Is_unique (e : GoError) (s t : Sentinel) :
  errors_Is e s = true → errors_Is e t = true → s = t.
Proof.
  induction e as [s'| | | | |a e IH b]; simpl; try done.
  intros ->%bool_decide_eq_true ->%bool_decide_eq_true. done.
Qed.

(** An error that is a sentinel is no [*APIError]. *)
Lemma errors_Is_not_API (e : GoError) (s : Sentinel) :
  errors_Is e s = true → errors_As_API e = None.
Proof. by induction e. Qed.
