(* ===== verification/LastApplied.v ===== *)
(** * Payload computation (internal/controller/lastapplied.go)

    The payload the operator enforces ([EffectivePayload]), the overlay onto the
    remote representation ([MergePayload]) and the drift test ([PayloadDiffers],
    [managedValueEqual]).  Go iterates over the maps in no fixed order; every one of
    these functions is insensitive to it, so a map is folded over in the order of
    [map_fold]. *)

From Stdlib Require Import ZArith Lia.
From stdpp Require Import base gmap strings list.
From S2P Require Import Prelude Json JsonText GoError.

Local Open Scope string_scope.
Local Open Scope list_scope.

(** ** Definitions *)

Definition keycloakMaskedValue : string := "**********".

Fixpoint deepCopyValue (v : json) : json :=
  match v with
  | JObj m => JObj (deepCopyValue <$> m)
  | JArr l => JArr (map deepCopyValue l)
  | _ => v
  end.

Definition deepCopyMap (m : rep) : rep := deepCopyValue <$> m.

Definition zeroFor (previous : json) : option json :=
  match previous with
  | JStr _ => Some (JStr "")
  | JBool _ => Some (JBool false)
  | JArr _ => Some (JArr [])
  | JObj _ => Some (JObj ∅)
  | _ => None
  end.

(** [json.Unmarshal] into a [map[string]any]: an object, or null for the nil map. *)
Definition unmarshal_map (s : string) : option rep :=
  match unmarshal s with
  | Some (JObj m) => Some m
  | Some JNull => Some ∅
  | _ => None
  end.

Definition EffectivePayload (specMap : rep) (lastAppliedJSON : string) : GoError + rep :=
  let payload := deepCopyMap specMap in
  if String.eqb lastAppliedJSON "" then inr payload
  else match unmarshal_map lastAppliedJSON with
       | None => inl (Wrapped "decode last-applied annotation: " JSONError "")
       | Some last =>
           inr (map_fold (λ k previous payload,
             match payload !! k with
             | Some _ => payload
             | None => match zeroFor previous with
                       | Some zero => <[k := zero]> payload
                       | None => payload
                       end
             end) payload last)
       end.

Definition MergePayload (remote payload : rep) : rep :=
  map_fold (λ k v remote,
    match v with
    | JNull => delete k remote
    | _ => <[k := v]> remote
    end) remote payload.

Definition isZeroValue (v : json) : bool :=
  match v with
  | JStr s => String.eqb s ""
  | JBool b => negb b
  | JArr l => match l with [] => true | _ => false end
  | JObj m => bool_decide (m = ∅)
  | _ => false
  end.

Definition deepEqualJSON (a b : json) : bool := String.eqb (marshal a) (marshal b).

Definition jsonEqual (a b : json) : bool :=
  let aRaw := marshal a in
  let bRaw := marshal b in
  match unmarshal aRaw, unmarshal bRaw with
  | Some aNorm, Some bNorm => String.eqb aRaw bRaw || deepEqualJSON aNorm bNorm
  | _, _ => false
  end.

(** The inner loop of the list comparison: the first unused remote element that
    matches is marked used. *)
Fixpoint match_one (eqv : json → bool) (gotList : list json) (used : list bool)
    : option (list bool) :=
  match gotList, used with
  | gotItem :: gotList, u :: used =>
      if u then cons u <$> match_one eqv gotList used
      else if eqv gotItem then Some (true :: used)
      else cons u <$> match_one eqv gotList used
  | _, _ => None
  end.

Fixpoint match_items (eqv : json → json → bool) (wantList gotList : list json)
    (used : list bool) : bool :=
  match wantList with
  | [] => true
  | wantItem :: wantList =>
      match match_one (eqv wantItem) gotList used with
      | Some used => match_items eqv wantList gotList used
      | None => false
      end
  end.

(** The test of one payload key against the remote map. *)
Definition key_differs (eqv : json → json → bool) (got : option json) (want : json) : bool :=
  match want with
  | JNull => match got with None | Some JNull => false | Some _ => true end
  | _ =>
      if isZeroValue want then
        match got with None | Some JNull => false | Some got => negb (eqv want got) end
      else
        match got with None | Some JNull => true | Some got => negb (eqv want got) end
  end.

Definition payload_differs (eqv : json → json → bool) (remote payload : rep) : bool :=
  map_fold (λ k want acc, acc || key_differs eqv (remote !! k) want) false payload.

Fixpoint managedValueEqual (want got : json) {struct want} : bool :=
  match want with
  | JObj wantMap =>
      match got with
      | JObj gotMap => negb (payload_differs managedValueEqual gotMap wantMap)
      | _ => false
      end
  | JArr wantList =>
      match got with
      | JArr gotList =>
          Nat.eqb (length wantList) (length gotList) &&
          match_items managedValueEqual wantList gotList (replicate (length gotList) false)
      | _ => false
      end
  | _ =>
      match got with
      | JStr gotStr => String.eqb gotStr keycloakMaskedValue || jsonEqual want got
      | _ => jsonEqual want got
      end
  end.

Definition PayloadDiffers (remote payload : rep) : bool :=
  payload_differs managedValueEqual remote payload.

(** ** Copies and comparisons *)

Lemma deepCopyValue_id (v : json) : deepCopyValue v = v.
Proof.
  induction v as [| | | |l IH|m IH] using json_ind'; simpl; try done.
  - f_equal. induction IH; simpl; congruence.
  - f_equal. apply map_eq. intros k. rewrite lookup_fmap.
    destruct (m !! k) eqn:Hk; simpl; [|done]. f_equal. by apply (IH k).
Qed.

Lemma deepCopyMap_id (m : rep) : deepCopyMap m = m.
Proof.
  apply map_eq. intros k. unfold deepCopyMap. rewrite lookup_fmap.
  destruct (m !! k); simpl; [by rewrite deepCopyValue_id|done].
Qed.

Lemma jsonEqual_eq (a b : json) : jsonEqual a b = bool_decide (a = b).
Proof.
  unfold jsonEqual, deepEqualJSON. rewrite !unmarshal_marshal, orb_diag.
  apply eq_bool_prop_intro. rewrite bool_decide_spec, Is_true_true, String.eqb_eq.
  split; [apply (inj marshal)|by intros ->].
Qed.

Lemma jsonEqual_spec (a b : json) : jsonEqual a b = true ↔ a = b.
Proof. rewrite jsonEqual_eq. apply bool_decide_eq_true. Qed.

(** ** The payload of a spec *)

(** Folding a key-wise reset over the last-applied map. *)
Lemma reset_lookup (payload last : rep) (k : string) :
  map_fold (λ k previous payload,
    match payload !! k with
    | Some _ => payload
    | None => match zeroFor previous with
              | Some zero => <[k := zero]> payload
              | None => payload
              end
    end) payload last !! k =
  match payload !! k with Some v => Some v | None => last !! k ≫= zeroFor end.
Proof.
  induction last as [|k' v last Hk' IH] using map_ind.
  - rewrite map_fold_empty, lookup_empty. by destruct (payload !! k).
  - rewrite map_fold_insert_L; [| |done].
    + set (p := map_fold _ payload last) in *.
      destruct (decide (k = k')) as [->|Hne].
      * rewrite lookup_insert_eq. simpl. rewrite Hk' in IH. simpl in IH.
        destruct (payload !! k') eqn:Hp; rewrite ?IH; [done|].
        by destruct (zeroFor v); rewrite ?lookup_insert_eq.
      * rewrite lookup_insert_ne by done. rewrite <-IH.
        by destruct (p !! k'), (zeroFor v); rewrite ?lookup_insert_ne by done.
    + intros j1 j2 z1 z2 y Hj _ _. apply map_eq. intros i.
      destruct (y !! j1) eqn:?, (y !! j2) eqn:?, (zeroFor z1) eqn:?, (zeroFor z2) eqn:?;
        repeat (simplify_map_eq; try done);
        by rewrite insert_insert_ne.
Qed.

Lemma EffectivePayload_fresh (specMap : rep) : EffectivePayload specMap "" = inr specMap.
Proof. unfold EffectivePayload. simpl. by rewrite deepCopyMap_id. Qed.

Lemma EffectivePayload_ok (specMap last : rep) (s : string) :
  s ≠ "" → unmarshal_map s = Some last →
  ∃ payload, EffectivePayload specMap s = inr payload ∧
    ∀ k, payload !! k =
      match specMap !! k with Some v => Some v | None => last !! k ≫= zeroFor end.
Proof.
  intros Hs Hl. unfold EffectivePayload.
  rewrite (proj2 (String.eqb_neq _ _) Hs), Hl, deepCopyMap_id.
  eexists; split; [done|]. intros k. apply reset_lookup.
Qed.

(** ** The overlay *)

Lemma MergePayload_lookup (remote payload : rep) (k : string) :
  MergePayload remote payload !! k =
  match payload !! k with
  | None => remote !! k
  | Some JNull => None
  | Some v => Some v
  end.
Proof.
  unfold MergePayload. induction payload as [|k' v payload Hk' IH] using map_ind.
  - by rewrite map_fold_empty, lookup_empty.
  - rewrite map_fold_insert_L; [| |done].
    + destruct (decide (k = k')) as [->|Hne].
      * rewrite lookup_insert_eq. destruct v; by rewrite ?lookup_insert_eq, ?lookup_delete_eq.
      * rewrite lookup_insert_ne by done. rewrite <-IH.
        destruct v; by rewrite ?lookup_insert_ne, ?lookup_delete_ne by done.
    + intros j1 j2 z1 z2 y Hj _ _.
      destruct z1, z2; first
        [ apply delete_delete | by rewrite delete_insert_ne | by rewrite <-delete_insert_ne
        | by apply insert_insert_ne ].
Qed.

(** ** The drift test, key by key *)

Lemma payload_differs_true (eqv : json → json → bool) (remote payload : rep) :
  payload_differs eqv remote payload = true ↔
  ∃ k want, payload !! k = Some want ∧ key_differs eqv (remote !! k) want = true.
Proof. apply (map_fold_orb (λ k want, key_differs eqv (remote !! k) want)). Qed.

Lemma payload_differs_false (eqv : json → json → bool) (remote payload : rep) :
  payload_differs eqv remote payload = false ↔
  ∀ k want, payload !! k = Some want → key_differs eqv (remote !! k) want = false.
Proof.
  rewrite <-not_true_iff_false, payload_differs_true. split.
  - intros H k want Hk. apply not_true_iff_false. intros Hd. apply H. eauto.
  - intros H (k & want & Hk & Hd). rewrite (H k want Hk) in Hd. done.
Qed.

(** ** The list comparison *)

(** The remote elements no desired element has taken yet. *)
Fixpoint unused (gotList : list json) (used : list bool) : list json :=
  match gotList, used with
  | g :: gotList, u :: used => if u then unused gotList used else g :: unused gotList used
  | _, _ => []
  end.

Lemma unused_replicate (l : list json) : unused l (replicate (length l) false) = l.
Proof. induction l; simpl; congruence. Qed.

Lemma match_one_Some (eqv : json → bool) (l : list json) : ∀ (used used' : list bool),
  match_one eqv l used = Some used' →
  ∃ g, eqv g = true ∧ unused l used ≡ₚ g :: unused l used'.
Proof.
  induction l as [|g l IH]; intros [|u used] used'; simpl; try done.
  destruct u; [|destruct (eqv g) eqn:Hg].
  - intros (us & H & ->)%fmap_Some_1. by apply IH in H.
  - intros [= <-]. eauto.
  - intros (us & H & ->)%fmap_Some_1. apply IH in H as (g' & Hg' & Hp).
    exists g'. split; [done|]. rewrite Hp. apply Permutation_swap.
Qed.

Lemma match_items_Forall2 (eqv : json → json → bool) (wl gl : list json) : ∀ (used : list bool),
  match_items eqv wl gl used = true →
  ∃ l rest, unused gl used ≡ₚ l ++ rest ∧ Forall2 (λ w g, eqv w g = true) wl l.
Proof.
  induction wl as [|w wl IH]; intros used; simpl.
  - intros _. by exists [], (unused gl used).
  - destruct (match_one (eqv w) gl used) as [used'|] eqn:Hm; [|done].
    intros (l & rest & Hp & Hl)%IH. apply match_one_Some in Hm as (g & Hg & Hu).
    exists (g :: l), rest. split; [by rewrite Hu, Hp|by constructor].
Qed.

(** A successful comparison of lists pairs every desired element with a distinct
    remote element, and no remote element is left over. *)
Lemma list_match_sound (eqv : json → json → bool) (wl gl : list json) :
  Nat.eqb (length wl) (length gl) &&
    match_items eqv wl gl (replicate (length gl) false) = true →
  ∃ l, gl ≡ₚ l ∧ Forall2 (λ w g, eqv w g = true) wl l.
Proof.
  intros [Hlen%Nat.eqb_eq (l & rest & Hp & Hl)%match_items_Forall2]%andb_true_iff.
  rewrite unused_replicate in Hp. exists l. split; [|done].
  apply Permutation_length in Hp as Hpl. rewrite length_app, <-Hlen in Hpl.
  apply Forall2_length in Hl. rewrite Hl in Hpl.
  destruct rest; simpl in *; [by rewrite app_nil_r in Hp|lia].
Qed.

Lemma match_one_diag (eqv : json → bool) (pre suf : list json) (g : json) (us : list bool) :
  eqv g = true →
  match_one eqv (pre ++ g :: suf) (replicate (length pre) true ++ false :: us) =
    Some (replicate (length pre) true ++ true :: us).
Proof. intros Hg. induction pre as [|p pre IH]; simpl; [by rewrite Hg|by rewrite IH]. Qed.

(** A list matches itself element by element when the test is reflexive on it. *)
Lemma match_items_refl (eqv : json → json → bool) (suf pre : list json) :
  Forall (λ x, eqv x x = true) suf →
  match_items eqv suf (pre ++ suf) (replicate (length pre) true ++ replicate (length suf) false)
    = true.
Proof.
  intros Hl. revert pre. induction Hl as [|x suf Hx Hl IH]; intros pre; simpl; [done|].
  rewrite match_one_diag by done.
  specialize (IH (pre ++ [x])). rewrite <-app_assoc in IH. simpl in IH.
  by rewrite length_app, Nat.add_1_r, replicate_S_end, <-app_assoc in IH.
Qed.

Lemma managedValueEqual_refl (v : json) : managedValueEqual v v = true.
Proof.
  induction v as [| | |s|l IH|m IH] using json_ind'; simpl;
    try (by apply jsonEqual_spec).
  - apply orb_true_iff. right. by apply jsonEqual_spec.
  - rewrite Nat.eqb_refl. by apply (match_items_refl _ l []).
  - apply negb_true_iff, payload_differs_false. intros k want Hk.
    rewrite Hk. specialize (IH k want Hk). simpl in IH.
    destruct want; unfold key_differs; try done; rewrite IH; by destruct (isZeroValue _).
Qed.

(** ** What the drift test means

    [covers want got]: the remote value satisfies the desired one.  Scalars agree, or
    the server masks the value; the keys of a desired map are satisfied, whatever else
    the remote map holds; the elements of a desired list are satisfied by distinct
    elements that make up the remote list.  [entry_ok] is the case of one key. *)

Definition scalar (v : json) : bool :=
  match v with JArr _ | JObj _ => false | _ => true end.

Definition absent (got : option json) : Prop := got = None ∨ got = Some JNull.

Inductive covers : json → json → Prop :=
  | covers_scalar v : scalar v = true → covers v v
  | covers_masked want : scalar want = true → covers want (JStr keycloakMaskedValue)
  | covers_list wl gl l : gl ≡ₚ l → Forall2 covers wl l → covers (JArr wl) (JArr gl)
  | covers_map wm gm :
      (∀ k want, wm !! k = Some want → entry_ok (gm !! k) want) →
      covers (JObj wm) (JObj gm)
with entry_ok : option json → json → Prop :=
  | entry_unset got : absent got → entry_ok got JNull
  | entry_zero got want : isZeroValue want = true → absent got → entry_ok got want
  | entry_value got want :
      want ≠ JNull → got ≠ JNull → covers want got → entry_ok (Some got) want.

#[local] Hint Constructors covers entry_ok : operator.

Lemma key_differs_absent (eqv : json → json → bool) (got : option json) (want : json) :
  absent got →
  key_differs eqv got want = false ↔ want = JNull ∨ isZeroValue want = true.
Proof.
  intros Ha.
  destruct want; [by destruct Ha as [-> | ->]; split; auto|..];
    unfold key_differs; (destruct (isZeroValue _) eqn:Hz; destruct Ha as [-> | ->];
      split; [by auto|done|by auto|done|done|by intros []|done|by intros []]).
Qed.

Lemma key_differs_present (eqv : json → json → bool) (g want : json) :
  g ≠ JNull →
  key_differs eqv (Some g) want = false ↔ want ≠ JNull ∧ eqv want g = true.
Proof.
  intros Hg. destruct (decide (want = JNull)) as [->|Hw].
  - split; [by destruct g|by intros []].
  - transitivity (negb (eqv want g) = false); [|rewrite negb_false_iff; naive_solver].
    destruct want; try done; unfold key_differs;
      destruct (isZeroValue _), g; done.
Qed.

Lemma absent_dec (got : option json) : absent got ∨ ∃ g, got = Some g ∧ g ≠ JNull.
Proof. destruct got as [g|]; [|by left; left]. destruct g; [by left; right|right; eauto..]. Qed.

Lemma key_differs_sound (got : option json) (want : json) :
  (∀ g, managedValueEqual want g = true → covers want g) →
  key_differs managedValueEqual got want = false → entry_ok got want.
Proof.
  intros IH Hk. destruct (absent_dec got) as [Ha|(g & -> & Hg)].
  - apply key_differs_absent in Hk as [-> |?]; auto with operator.
  - apply key_differs_present in Hk as [??]; auto with operator.
Qed.

Lemma managedValueEqual_scalar (want got : json) :
  scalar want = true →
  managedValueEqual want got = true ↔ want = got ∨ got = JStr keycloakMaskedValue.
Proof.
  assert (∀ v, match v with
    | JStr s => String.eqb s keycloakMaskedValue || jsonEqual want v
    | _ => jsonEqual want v end = true ↔ want = v ∨ v = JStr keycloakMaskedValue) as H.
  { intros v. destruct v; rewrite ?orb_true_iff, ?String.eqb_eq, jsonEqual_spec; naive_solver. }
  destruct want; try done; intros _; apply H.
Qed.

Lemma managedValueEqual_covers (want got : json) :
  managedValueEqual want got = true → covers want got.
Proof.
  revert got. induction want as [|b|n|s|l IH|m IH] using json_ind'; intros got H;
    try (apply managedValueEqual_scalar in H as [<- | ->]; by auto with operator).
  - destruct got as [| | | |gl|]; try done. apply list_match_sound in H as (l' & Hp & Hl).
    eapply covers_list; [exact Hp|]. clear Hp gl. induction Hl as [|w g l l' Hw Hl IHl]; [done|].
    apply Forall_cons in IH as [IH1 IH2]. constructor; auto.
  - destruct got as [| | | | |gm]; try done.
    simpl in H. apply negb_true_iff in H. rewrite payload_differs_false in H.
    apply covers_map. intros k want Hk. apply key_differs_sound; [by apply (IH k)|].
    by apply H.
Qed.

(** *** Where the greedy search is complete *)

(** Every list inside the value holds scalars. *)
Fixpoint flat_lists (v : json) : bool :=
  match v with
  | JArr l => forallb scalar l
  | JObj m => map_fold (λ _ x acc, acc && flat_lists x) true m
  | _ => true
  end.

(** No list inside the value holds a masked string. *)
Fixpoint unmasked_lists (v : json) : bool :=
  match v with
  | JArr l => forallb (λ x, negb (bool_decide (x = JStr keycloakMaskedValue))) l
  | JObj m => map_fold (λ _ x acc, acc && unmasked_lists x) true m
  | _ => true
  end.

Lemma match_one_is_Some (eqv : json → bool) (l : list json) : ∀ (used : list bool) (g : json),
  g ∈ unused l used → eqv g = true → is_Some (match_one eqv l used).
Proof.
  induction l as [|x l IH]; intros [|u used] g Hin Hg; simpl in *; try by inversion Hin.
  destruct u; [apply fmap_is_Some; eauto|]. destruct (eqv x) eqn:Hx; [eauto|].
  apply fmap_is_Some. apply elem_of_cons in Hin as [-> |Hin]; [congruence|eauto].
Qed.

Lemma match_items_complete (eqv : json → json → bool) (wl gl rest : list json) :
  ∀ (used : list bool),
  (∀ w g, w ∈ wl → g ∈ unused gl used → eqv w g = true ↔ w = g) →
  unused gl used ≡ₚ wl ++ rest → match_items eqv wl gl used = true.
Proof.
  induction wl as [|w wl IH]; intros used Heq Hp; simpl; [done|].
  assert (w ∈ unused gl used) as Hw by (rewrite Hp; left).
  destruct (match_one_is_Some (eqv w) gl used w Hw) as [used' Hm];
    [apply Heq; [left|done..]|].
  rewrite Hm. apply match_one_Some in Hm as (g & Hg & Hu).
  apply Heq in Hg as <-; [|left|rewrite Hu; left].
  apply IH.
  - intros w' g' ??. apply Heq; [by right|]. rewrite Hu. by right.
  - rewrite Hu in Hp. by apply Permutation_cons_inv in Hp.
Qed.

Lemma covers_scalar_inv (want got : json) :
  scalar want = true → covers want got → want = got ∨ got = JStr keycloakMaskedValue.
Proof. intros Hs H. inversion H; subst; auto; done. Qed.

Lemma covers_scalar_list (wl l : list json) :
  Forall2 covers wl l → forallb scalar wl = true →
  forallb (λ x, negb (bool_decide (x = JStr keycloakMaskedValue))) l = true → wl = l.
Proof.
  induction 1 as [|w g wl l Hw Hl IH]; [done|]. simpl.
  intros [Hs ?]%andb_true_iff [Hm%negb_true_iff ?]%andb_true_iff.
  apply bool_decide_eq_false in Hm. rewrite IH by done. f_equal.
  by destruct (covers_scalar_inv w g).
Qed.

Lemma covers_managedValueEqual (want got : json) :
  flat_lists want = true → unmasked_lists got = true →
  covers want got → managedValueEqual want got = true.
Proof.
  revert got. induction want as [|b|n|s|wl _|wm IH] using json_ind'; intros got Hf Hu H;
    try (apply managedValueEqual_scalar, covers_scalar_inv; done).
  - inversion H as [| |? gl l Hp Hl|]; subst; [done..|]. simpl in Hf, Hu |- *.
    assert (forallb (λ x, negb (bool_decide (x = JStr keycloakMaskedValue))) l = true) as Hu'.
    { apply forallb_forall. intros x Hx. eapply forallb_forall in Hu; [exact Hu|].
      apply list_elem_of_In. rewrite Hp. by apply list_elem_of_In. }
    pose proof (covers_scalar_list _ _ Hl Hf Hu') as ->.
    apply andb_true_iff. split; [apply Nat.eqb_eq; by rewrite Hp|].
    apply (match_items_complete _ l gl []); rewrite unused_replicate;
      [|by rewrite app_nil_r].
    intros w g Hw Hg. rewrite forallb_forall in Hf, Hu.
    rewrite managedValueEqual_scalar by (apply Hf; by apply list_elem_of_In).
    specialize (Hu g). rewrite negb_true_iff, bool_decide_eq_false in Hu.
    rewrite <-list_elem_of_In in Hu. naive_solver.
  - inversion H as [| | |? gm Hm]; subst; [done..|]. simpl in Hf, Hu |- *.
    rewrite map_fold_andb in Hf, Hu.
    apply negb_true_iff, payload_differs_false. intros k want Hk.
    specialize (Hm k want Hk). inversion Hm as [? Ha|? ? Hz Ha|g ? Hw Hg Hc Hgk]; subst;
      [apply key_differs_absent; by auto..|].
    apply key_differs_present; [done|]. split; [done|].
    apply (IH k); [done|by apply (Hf k)|by apply (Hu k)|done].
Qed.

(** ** Consequences used by the properties *)

Lemma key_differs_refl (v : json) : key_differs managedValueEqual (Some v) v = false.
Proof.
  destruct (decide (v = JNull)) as [->|Hv]; [done|].
  apply key_differs_present; [done|]. split; [done|apply managedValueEqual_refl].
Qed.

Lemma unmarshal_map_marshal (m : rep) : unmarshal_map (marshal (JObj m)) = Some m.
Proof. unfold unmarshal_map. by rewrite unmarshal_marshal. Qed.

Lemma marshal_nonempty (j : json) : marshal j ≠ "".
Proof. destruct (marshal_head j) as (c & t & -> & _). done. Qed.

(** The payload computed from the annotation the previous pass recorded. *)
Lemma EffectivePayload_marshal (specMap last : rep) :
  ∃ payload, EffectivePayload specMap (marshal (JObj last)) = inr payload ∧
    ∀ k, payload !! k =
      match specMap !! k with Some v => Some v | None => last !! k ≫= zeroFor end.
Proof.
  apply EffectivePayload_ok; [apply marshal_nonempty|apply unmarshal_map_marshal].
Qed.

(** What an update sent satisfies every part of it. *)
Lemma merge_covers_part (remote payload part : rep) :
  part ⊆ payload → PayloadDiffers (MergePayload remote payload) part = false.
Proof.
  intros Hsub. apply payload_differs_false. intros k want Hk.
  rewrite MergePayload_lookup, (lookup_weaken _ _ _ _ Hk Hsub).
  destruct want; try apply key_differs_refl. by apply key_differs_absent; left.
Qed.

(** The payload extends the spec by resets. *)
Lemma EffectivePayload_inv (specMap payload : rep) (s : string) :
  EffectivePayload specMap s = inr payload →
  ∃ last : rep, ∀ k, payload !! k =
    match specMap !! k with Some v => Some v | None => last !! k ≫= zeroFor end.
Proof.
  intros Hp. destruct (decide (s = "")) as [->|Hs].
  - rewrite EffectivePayload_fresh in Hp. simplify_eq. exists ∅. intros k. rewrite lookup_empty.
    by destruct (payload !! k).
  - destruct (unmarshal_map s) as [last|] eqn:Hl.
    + destruct (EffectivePayload_ok specMap last s Hs Hl) as (p & Hp' & Hk). exists last. rewrite Hp in Hp'. by simplify_eq.
    + unfold EffectivePayload in Hp. by rewrite (proj2 (String.eqb_neq _ _) Hs), Hl in Hp.
Qed.

(** ** Properties *)

(** Drift correction converges.  After [MergePayload] overlays a payload onto a
    remote representation, the drift test no longer reports a difference, and every key
    the payload does not manage keeps its remote value. *)
Lemma merge_payload_converges (remote payload : rep) :
  PayloadDiffers (MergePayload remote payload) payload = false ∧
  ∀ k, payload !! k = None → MergePayload remote payload !! k = remote !! k.
Proof.
  split; [by apply merge_covers_part|]. intros k Hk. by rewrite MergePayload_lookup, Hk.
Qed.

(** C6.  The drift test against its specification.  When [managedValueEqual] answers
    true the remote value satisfies the desired one ([covers]); and it answers true on
    every satisfied value whose desired lists hold scalars and whose remote lists hold no
    masked string. *)
Theorem drift_test_correct (want got : json) :
  (managedValueEqual want got = true → covers want got) ∧
  (flat_lists want = true → unmasked_lists got = true →
   covers want got → managedValueEqual want got = true).
Proof. split; [apply managedValueEqual_covers|apply covers_managedValueEqual]. Qed.

(** C38.  Field removal.  A string, boolean or list field that the last-applied annotation
    holds and the spec no longer has is detected as drift while the server keeps a value
    other than the zero one (and does not mask it), and the overlay writes the zero
    value. *)
Theorem removed_field_reset (specMap last remote : rep) (k : string) (previous zero got : json) :
  specMap !! k = None → last !! k = Some previous →
  (∃ s, previous = JStr s) ∧ zero = JStr "" ∨ (∃ b, previous = JBool b) ∧ zero = JBool false ∨
    (∃ l, previous = JArr l) ∧ zero = JArr [] →
  remote !! k = Some got → got ≠ JNull → got ≠ zero → got ≠ JStr keycloakMaskedValue →
  ∃ payload, EffectivePayload specMap (marshal (JObj last)) = inr payload ∧
    PayloadDiffers remote payload = true ∧
    MergePayload remote payload !! k = Some zero.
Proof.
  intros Hs Hl Hprev Hr Hnull Hne Hmask.
  assert (zeroFor previous = Some zero ∧ ∀ m, zero ≠ JObj m) as [Hz Hm]
    by (destruct Hprev as [[[? ->] ->]|[[[? ->] ->]|[[? ->] ->]]]; done).
  destruct (EffectivePayload_marshal specMap last) as (payload & Hp & Hk).
  specialize (Hk k). rewrite Hs, Hl in Hk. simpl in Hk. rewrite Hz in Hk.
  exists payload. split; [done|]. split.
  - apply payload_differs_true. exists k, zero. split; [done|]. rewrite Hr.
    apply not_false_iff_true. rewrite key_differs_present by done. intros [_ He].
    destruct previous; simpl in Hz; simplify_eq; try by apply (Hm ∅).
    + apply managedValueEqual_scalar in He as [?|?]; done.
    + apply managedValueEqual_scalar in He as [?|?]; done.
    + destruct got as [| | | |[]|]; done.
  - rewrite MergePayload_lookup, Hk. by destruct previous; simplify_eq/=.
Qed.

Lemma removed_field_reset_witness :
  ∃ payload,
    EffectivePayload {["realm" := JStr "demo"]}
      (marshal (JObj {["realm" := JStr "demo"; "displayName" := JStr "Old"]})) = inr payload ∧
    PayloadDiffers {["realm" := JStr "demo"; "displayName" := JStr "Old"]} payload = true ∧
    MergePayload {["realm" := JStr "demo"; "displayName" := JStr "Old"]} payload
      !! "displayName" = Some (JStr "").
Proof.
  apply (removed_field_reset _ {["realm" := JStr "demo"; "displayName" := JStr "Old"]} _
           "displayName" (JStr "Old") (JStr "") (JStr "Old")); try reflexivity; try discriminate.
  left. split; [by eexists|reflexivity].
Defined.

(** A removed map field is never detected.  When the spec drops a map-valued field,
    the payload resets it to the empty map, but the drift test accepts any remote map for
    it: a server that otherwise agrees with the spec is reported in sync and keeps the old
    map. *)
Lemma removed_map_undetected (specMap : rep) (k : string) (previous got : rep) :
  specMap !! k = None →
  ∃ payload,
    EffectivePayload specMap (marshal (JObj (<[k := JObj previous]> specMap))) = inr payload ∧
    payload !! k = Some (JObj ∅) ∧
    PayloadDiffers (<[k := JObj got]> specMap) payload = false.
Proof.
  intros Hs.
  destruct (EffectivePayload_marshal specMap (<[k := JObj previous]> specMap))
    as (payload & Hp & Hk).
  exists payload. split; [done|]. split; [by rewrite Hk, Hs, lookup_insert_eq|].
  apply payload_differs_false. intros k' want Hw. rewrite Hk in Hw.
  destruct (decide (k' = k)) as [->|Hne].
  - rewrite Hs, lookup_insert_eq in Hw. simpl in Hw. simplify_eq. rewrite lookup_insert_eq.
    apply key_differs_present; [done|]. split; [done|]. simpl.
    by apply negb_true_iff, payload_differs_false.
  - rewrite lookup_insert_ne in Hw |- * by done.
    destruct (specMap !! k') eqn:Hk'; simpl in Hw; simplify_eq. apply key_differs_refl.
Qed.

Lemma removed_map_undetected_witness :
  ∃ payload,
    EffectivePayload {["realm" := JStr "demo"]}
      (marshal (JObj (<["smtpServer" := JObj {["host" := JStr "smtp"]}]> {["realm" := JStr "demo"]})))
      = inr payload ∧
    payload !! "smtpServer" = Some (JObj ∅) ∧
    PayloadDiffers (<["smtpServer" := JObj {["host" := JStr "smtp"]}]> {["realm" := JStr "demo"]})
      payload = false.
Proof.
  apply (removed_map_undetected {["realm" := JStr "demo"]} "smtpServer"
           {["host" := JStr "smtp"]} {["host" := JStr "smtp"]}). reflexivity.
Defined.

(** The list comparison is greedy: it takes the first remote element that satisfies a
    desired one, so a remote list that satisfies the desired list can still be reported as
    different when the server returns it in another order. *)
Lemma greedy_list_match_incomplete :
  ∃ a b : json,
    managedValueEqual (JArr [a; b]) (JArr [a; b]) = true ∧
    covers (JArr [a; b]) (JArr [b; a]) ∧
    managedValueEqual (JArr [a; b]) (JArr [b; a]) = false.
Proof.
  exists (JObj {["name" := JStr "m"]}), (JObj {["name" := JStr "m"; "config" := JStr "c"]}).
  split; [by vm_compute|]. split; [|by vm_compute].
  eapply covers_list; [apply Permutation_swap|].
  apply Forall2_cons; split; [|apply Forall2_cons; split; [|by constructor]];
    apply managedValueEqual_covers; by vm_compute.
Qed.

(** C30.  The payload of a spec, on every branch: without an annotation it is the spec
    itself; an annotation that is no JSON object (or null) is an error; otherwise a spec
    field keeps its value, a field only the annotation has is reset to the zero value of
    its type, and numbers and nulls are left out. *)
Theorem effective_payload_correct (specMap : rep) (annotation : string) :
  match EffectivePayload specMap annotation with
  | inr payload =>
      (annotation = "" ∧ payload = specMap) ∨
      ∃ last, unmarshal_map annotation = Some last ∧
        ∀ k, payload !! k =
          match specMap !! k with
          | Some v => Some v
          | None => last !! k ≫= zeroFor
          end
  | inl e => annotation ≠ "" ∧ unmarshal_map annotation = None ∧
             ∀ s, errors_Is e s = false
  end.
Proof.
  destruct (decide (annotation = "")) as [->|Hne].
  { rewrite EffectivePayload_fresh. by left. }
  destruct (unmarshal_map annotation) as [last|] eqn:Hl.
  - destruct (EffectivePayload_ok specMap last annotation Hne Hl) as (p & -> & Hk). eauto.
  - unfold EffectivePayload. rewrite (proj2 (String.eqb_neq _ _) Hne), Hl. done.
Qed.

(** JSON text round trip: a document printed by [json.Marshal], which is what the
    last-applied annotation stores, is read back unchanged, so two values compare equal
    through [jsonEqual] exactly when they are equal. *)
Lemma json_compare_correct (a b : json) :
  unmarshal (marshal a) = Some a ∧ jsonEqual a b = bool_decide (a = b).
Proof. split; [apply unmarshal_marshal|apply jsonEqual_eq]. Qed.
