(* ===== verification/ApiTypes.v ===== *)
(** * API types (api/v1alpha1)

    The custom resources: the shared constants and blocks of [common.go], the six specs
    with the accessors of [methods.go], and the JSON encoding that the struct tags give
    each spec ([<Spec>_fields]: one entry per field, [None] when [omitempty] leaves it
    out).  A pointer field is an option, a slice a list and a map a [gmap]; the kinds share
    the metadata and status blocks of [ManagedObject].  Each spec is in a module of its
    own, since the field names repeat.

    [toJSONMap] of engine.go encodes a spec and decodes the text into [map[string]any]; that
    it always decodes, to the fields as they are listed, is proved.  The integers of a spec
    are listed as the float64 values they come back as. *)

From Stdlib Require Import ZArith Lia.
From stdpp Require Import base gmap strings list.
From S2P Require Import Prelude Json JsonText GoError LastApplied.

Local Open Scope string_scope.
Local Open Scope list_scope.

(** ** Constants (common.go) *)

Definition GroupName : string := "keycloak.ctn-solutions.io".
Definition ManagedAnnotation : string := "keycloak.ctn-solutions.io/managed".
Definition ManagedValue : string := "true".
Definition LastAppliedAnnotation : string := "keycloak.ctn-solutions.io/last-applied".
Definition AllowProtectedAnnotation : string := "keycloak.ctn-solutions.io/allow-protected".
Definition FinalizerName : string := "keycloak.ctn-solutions.io/finalizer".
Definition ClientSecretKey : string := "clientSecret".

Definition ProtectedRealmNames : gset string := {["master"]}.

Definition AdoptionCreateOnly : string := "CreateOnly".
Definition AdoptionAdopt : string := "Adopt".
Definition AdoptionFailIfExists : string := "FailIfExists".

Definition DeletionOrphan : string := "Orphan".
Definition DeletionDelete : string := "Delete".

Definition ConditionReady : string := "Ready".
Definition ConditionSynced : string := "Synced".

Definition ReasonSucceeded : string := "Succeeded".
Definition ReasonRetrying : string := "Retrying".
Definition ReasonFailed : string := "Failed".
Definition ReasonConnectionUnavailable : string := "ConnectionUnavailable".
Definition ReasonAlreadyExists : string := "AlreadyExists".
Definition ReasonSecretMissing : string := "SecretMissing".
Definition ReasonProtectedRealm : string := "ProtectedRealm".

(** The authentication types of a connection (keycloakconnection_types.go). *)
Definition AuthPassword : string := "password".
Definition AuthClient : string := "client".

(** ** Shared blocks (common.go) *)

Record KeycloakRef := mkKeycloakRef { KeycloakRef_Name : string }.

Record SecretKeySelector := mkSecretKeySelector {
  SecretKeySelector_Name : string;
  SecretKeySelector_Key : string;
}.

Record SecretKeysSelector := mkSecretKeysSelector {
  SecretKeysSelector_Name : string;
  SecretKeysSelector_Keys : gmap string string;
}.

(** ** Encoding of struct fields *)

(** An object from its fields; an omitted field is [None]. *)
Definition obj (fs : list (string * option json)) : rep :=
  list_to_map (omap (λ p, pair p.1 <$> p.2) fs).

(** [json.Marshal] prints the digits of an [int], [json.Unmarshal] into [any] reads
    them as a float64. *)
Definition int_json (n : Z) : json := JNum (default f64_zero (f64_of_Z n)).

Definition strings_json (l : list string) : json := JArr (JStr <$> l).

Definition omit_empty_string (s : string) : option json :=
  if String.eqb s "" then None else Some (JStr s).
Definition omit_empty_list (l : list json) : option json :=
  match l with [] => None | _ => Some (JArr l) end.
Definition omit_empty_map (m : rep) : option json :=
  if bool_decide (m = ∅) then None else Some (JObj m).

Definition KeycloakRef_json (r : KeycloakRef) : json :=
  JObj (obj [("name", Some (JStr (KeycloakRef_Name r)))]).

Definition SecretKeySelector_json (r : SecretKeySelector) : json :=
  JObj (obj [("name", Some (JStr (SecretKeySelector_Name r)));
             ("key", omit_empty_string (SecretKeySelector_Key r))]).

Definition SecretKeysSelector_json (r : SecretKeysSelector) : json :=
  JObj (obj [("name", Some (JStr (SecretKeysSelector_Name r)));
             ("keys", Some (JObj (JStr <$> SecretKeysSelector_Keys r)))]).

(** A policy field, with the default that replaces an unset or empty one. *)
Definition policy_or (policy : option string) (dflt : string) : string :=
  match policy with
  | Some p => if String.eqb p "" then dflt else p
  | None => dflt
  end.


(** ** Nested representations *)

Module ProtocolMapperTypes.

Record ProtocolMapper := mkProtocolMapper {
  Name : option string;
  Protocol : option string;
  ProtocolMapper_ : option string;
  ConsentRequired : option bool;
  Config : gmap string string;
}.

Definition ProtocolMapper_fields (s : ProtocolMapper) : list (string * option json) := [
  ("name", JStr <$> Name s);
  ("protocol", JStr <$> Protocol s);
  ("protocolMapper", JStr <$> ProtocolMapper_ s);
  ("consentRequired", JBool <$> ConsentRequired s);
  ("config", omit_empty_map (JStr <$> Config s))].

Definition ProtocolMapper_json (s : ProtocolMapper) : json := JObj (obj (ProtocolMapper_fields s)).

End ProtocolMapperTypes.

Abbreviation ProtocolMapper := ProtocolMapperTypes.ProtocolMapper.
Abbreviation ProtocolMapper_json := ProtocolMapperTypes.ProtocolMapper_json.

Module IdentityProviderMapperTypes.

Record IdentityProviderMapper := mkIdentityProviderMapper {
  Name : string;
  IdentityProviderMapper_ : option string;
  Config : gmap string string;
}.

Definition IdentityProviderMapper_fields (s : IdentityProviderMapper) : list (string * option json) := [
  ("name", Some (JStr (Name s)));
  ("identityProviderMapper", JStr <$> IdentityProviderMapper_ s);
  ("config", omit_empty_map (JStr <$> Config s))].

Definition IdentityProviderMapper_json (s : IdentityProviderMapper) : json := JObj (obj (IdentityProviderMapper_fields s)).

End IdentityProviderMapperTypes.

Abbreviation IdentityProviderMapper := IdentityProviderMapperTypes.IdentityProviderMapper.
Abbreviation IdentityProviderMapper_json := IdentityProviderMapperTypes.IdentityProviderMapper_json.

Module RoleCompositesTypes.

Record RoleComposites := mkRoleComposites {
  RealmRoles : list string;
  ClientRoles : gmap string (list string);
}.

Definition RoleComposites_fields (s : RoleComposites) : list (string * option json) := [
  ("realmRoles", omit_empty_list (JStr <$> RealmRoles s));
  ("clientRoles", omit_empty_map (strings_json <$> ClientRoles s))].

Definition RoleComposites_json (s : RoleComposites) : json := JObj (obj (RoleComposites_fields s)).

End RoleCompositesTypes.

Abbreviation RoleComposites := RoleCompositesTypes.RoleComposites.
Abbreviation RoleComposites_json := RoleCompositesTypes.RoleComposites_json.

(** ** The specs and their accessors (methods.go) *)

Module RealmTypes.

Record RealmSpec := mkRealmSpec {
  KeycloakRef : KeycloakRef;
  Realm : string;
  AdoptionPolicy : option string;
  DeletionPolicy : option string;
  Enabled : option bool;
  DisplayName : option string;
  DisplayNameHTML : option string;
  SSLRequired : option string;
  NotBefore : option Z;
  RegistrationAllowed : option bool;
  RegistrationEmailAsUsername : option bool;
  LoginWithEmailAllowed : option bool;
  DuplicateEmailsAllowed : option bool;
  ResetPasswordAllowed : option bool;
  RememberMe : option bool;
  VerifyEmail : option bool;
  UserManagedAccessAllowed : option bool;
  SSOSessionIdleTimeout : option Z;
  SSOSessionMaxLifespan : option Z;
  SSOSessionIdleTimeoutRememberMe : option Z;
  SSOSessionMaxLifespanRememberMe : option Z;
  ClientSessionIdleTimeout : option Z;
  ClientSessionMaxLifespan : option Z;
  ClientOfflineSessionIdleTimeout : option Z;
  ClientOfflineSessionMaxLifespan : option Z;
  AccessTokenLifespan : option Z;
  AccessTokenLifespanForImplicitFlow : option Z;
  OfflineSessionIdleTimeout : option Z;
  OfflineSessionMaxLifespanEnabled : option bool;
  OfflineSessionMaxLifespan : option Z;
  AccessCodeLifespan : option Z;
  AccessCodeLifespanUserAction : option Z;
  AccessCodeLifespanLogin : option Z;
  ActionTokenGeneratedByAdminLifespan : option Z;
  ActionTokenGeneratedByUserLifespan : option Z;
  OAuth2DeviceCodeLifespan : option Z;
  OAuth2DevicePollingInterval : option Z;
  RevokeRefreshToken : option bool;
  RefreshTokenMaxReuse : option Z;
  LoginTheme : option string;
  AccountTheme : option string;
  AdminTheme : option string;
  EmailTheme : option string;
  SMTPServer : gmap string string;
  SMTPServerSecretRef : option SecretKeysSelector;
  EventsEnabled : option bool;
  EventsExpiration : option Z;
  EventsListeners : list string;
  EnabledEventTypes : list string;
  AdminEventsEnabled : option bool;
  AdminEventsDetailsEnabled : option bool;
  PasswordPolicy : option string;
  BruteForceProtected : option bool;
  PermanentLockout : option bool;
  MaxFailureWaitSeconds : option Z;
  MinimumQuickLoginWaitSeconds : option Z;
  WaitIncrementSeconds : option Z;
  QuickLoginCheckMilliSeconds : option Z;
  MaxDeltaTimeSeconds : option Z;
  FailureFactor : option Z;
  OTPPolicyType : option string;
  OTPPolicyAlgorithm : option string;
  OTPPolicyInitialCounter : option Z;
  OTPPolicyDigits : option Z;
  OTPPolicyLookAheadWindow : option Z;
  OTPPolicyPeriod : option Z;
  OTPPolicyCodeReusable : option bool;
  WebAuthnPolicyRpEntityName : option string;
  WebAuthnPolicySignatureAlgorithms : list string;
  WebAuthnPolicyRpID : option string;
  WebAuthnPolicyAttestationConveyancePreference : option string;
  WebAuthnPolicyAuthenticatorAttachment : option string;
  WebAuthnPolicyRequireResidentKey : option string;
  WebAuthnPolicyUserVerificationRequirement : option string;
  WebAuthnPolicyCreateTimeout : option Z;
  WebAuthnPolicyAvoidSameAuthenticatorRegister : option bool;
  WebAuthnPolicyAcceptableAaguids : list string;
  WebAuthnPolicyPasswordlessRpEntityName : option string;
  WebAuthnPolicyPasswordlessSignatureAlgorithms : list string;
  WebAuthnPolicyPasswordlessRpID : option string;
  WebAuthnPolicyPasswordlessAttestationConveyancePreference : option string;
  WebAuthnPolicyPasswordlessAuthenticatorAttachment : option string;
  WebAuthnPolicyPasswordlessRequireResidentKey : option string;
  WebAuthnPolicyPasswordlessUserVerificationRequirement : option string;
  WebAuthnPolicyPasswordlessCreateTimeout : option Z;
  WebAuthnPolicyPasswordlessAvoidSameAuthenticatorRegister : option bool;
  WebAuthnPolicyPasswordlessAcceptableAaguids : list string;
  InternationalizationEnabled : option bool;
  SupportedLocales : list string;
  DefaultLocale : option string;
  DefaultDefaultClientScopes : list string;
  DefaultOptionalClientScopes : list string;
  DefaultSignatureAlgorithm : option string;
  Attributes : gmap string string;
  BrowserSecurityHeaders : gmap string string;
  OrganizationsEnabled : option bool;
}.

Definition RealmSpec_fields (s : RealmSpec) : list (string * option json) := [
  ("keycloakRef", Some (KeycloakRef_json (KeycloakRef s)));
  ("realm", Some (JStr (Realm s)));
  ("adoptionPolicy", JStr <$> AdoptionPolicy s);
  ("deletionPolicy", JStr <$> DeletionPolicy s);
  ("enabled", JBool <$> Enabled s);
  ("displayName", JStr <$> DisplayName s);
  ("displayNameHtml", JStr <$> DisplayNameHTML s);
  ("sslRequired", JStr <$> SSLRequired s);
  ("notBefore", int_json <$> NotBefore s);
  ("registrationAllowed", JBool <$> RegistrationAllowed s);
  ("registrationEmailAsUsername", JBool <$> RegistrationEmailAsUsername s);
  ("loginWithEmailAllowed", JBool <$> LoginWithEmailAllowed s);
  ("duplicateEmailsAllowed", JBool <$> DuplicateEmailsAllowed s);
  ("resetPasswordAllowed", JBool <$> ResetPasswordAllowed s);
  ("rememberMe", JBool <$> RememberMe s);
  ("verifyEmail", JBool <$> VerifyEmail s);
  ("userManagedAccessAllowed", JBool <$> UserManagedAccessAllowed s);
  ("ssoSessionIdleTimeout", int_json <$> SSOSessionIdleTimeout s);
  ("ssoSessionMaxLifespan", int_json <$> SSOSessionMaxLifespan s);
  ("ssoSessionIdleTimeoutRememberMe", int_json <$> SSOSessionIdleTimeoutRememberMe s);
  ("ssoSessionMaxLifespanRememberMe", int_json <$> SSOSessionMaxLifespanRememberMe s);
  ("clientSessionIdleTimeout", int_json <$> ClientSessionIdleTimeout s);
  ("clientSessionMaxLifespan", int_json <$> ClientSessionMaxLifespan s);
  ("clientOfflineSessionIdleTimeout", int_json <$> ClientOfflineSessionIdleTimeout s);
  ("clientOfflineSessionMaxLifespan", int_json <$> ClientOfflineSessionMaxLifespan s);
  ("accessTokenLifespan", int_json <$> AccessTokenLifespan s);
  ("accessTokenLifespanForImplicitFlow", int_json <$> AccessTokenLifespanForImplicitFlow s);
  ("offlineSessionIdleTimeout", int_json <$> OfflineSessionIdleTimeout s);
  ("offlineSessionMaxLifespanEnabled", JBool <$> OfflineSessionMaxLifespanEnabled s);
  ("offlineSessionMaxLifespan", int_json <$> OfflineSessionMaxLifespan s);
  ("accessCodeLifespan", int_json <$> AccessCodeLifespan s);
  ("accessCodeLifespanUserAction", int_json <$> AccessCodeLifespanUserAction s);
  ("accessCodeLifespanLogin", int_json <$> AccessCodeLifespanLogin s);
  ("actionTokenGeneratedByAdminLifespan", int_json <$> ActionTokenGeneratedByAdminLifespan s);
  ("actionTokenGeneratedByUserLifespan", int_json <$> ActionTokenGeneratedByUserLifespan s);
  ("oauth2DeviceCodeLifespan", int_json <$> OAuth2DeviceCodeLifespan s);
  ("oauth2DevicePollingInterval", int_json <$> OAuth2DevicePollingInterval s);
  ("revokeRefreshToken", JBool <$> RevokeRefreshToken s);
  ("refreshTokenMaxReuse", int_json <$> RefreshTokenMaxReuse s);
  ("loginTheme", JStr <$> LoginTheme s);
  ("accountTheme", JStr <$> AccountTheme s);
  ("adminTheme", JStr <$> AdminTheme s);
  ("emailTheme", JStr <$> EmailTheme s);
  ("smtpServer", omit_empty_map (JStr <$> SMTPServer s));
  ("smtpServerSecretRef", SecretKeysSelector_json <$> SMTPServerSecretRef s);
  ("eventsEnabled", JBool <$> EventsEnabled s);
  ("eventsExpiration", int_json <$> EventsExpiration s);
  ("eventsListeners", omit_empty_list (JStr <$> EventsListeners s));
  ("enabledEventTypes", omit_empty_list (JStr <$> EnabledEventTypes s));
  ("adminEventsEnabled", JBool <$> AdminEventsEnabled s);
  ("adminEventsDetailsEnabled", JBool <$> AdminEventsDetailsEnabled s);
  ("passwordPolicy", JStr <$> PasswordPolicy s);
  ("bruteForceProtected", JBool <$> BruteForceProtected s);
  ("permanentLockout", JBool <$> PermanentLockout s);
  ("maxFailureWaitSeconds", int_json <$> MaxFailureWaitSeconds s);
  ("minimumQuickLoginWaitSeconds", int_json <$> MinimumQuickLoginWaitSeconds s);
  ("waitIncrementSeconds", int_json <$> WaitIncrementSeconds s);
  ("quickLoginCheckMilliSeconds", int_json <$> QuickLoginCheckMilliSeconds s);
  ("maxDeltaTimeSeconds", int_json <$> MaxDeltaTimeSeconds s);
  ("failureFactor", int_json <$> FailureFactor s);
  ("otpPolicyType", JStr <$> OTPPolicyType s);
  ("otpPolicyAlgorithm", JStr <$> OTPPolicyAlgorithm s);
  ("otpPolicyInitialCounter", int_json <$> OTPPolicyInitialCounter s);
  ("otpPolicyDigits", int_json <$> OTPPolicyDigits s);
  ("otpPolicyLookAheadWindow", int_json <$> OTPPolicyLookAheadWindow s);
  ("otpPolicyPeriod", int_json <$> OTPPolicyPeriod s);
  ("otpPolicyCodeReusable", JBool <$> OTPPolicyCodeReusable s);
  ("webAuthnPolicyRpEntityName", JStr <$> WebAuthnPolicyRpEntityName s);
  ("webAuthnPolicySignatureAlgorithms", omit_empty_list (JStr <$> WebAuthnPolicySignatureAlgorithms s));
  ("webAuthnPolicyRpId", JStr <$> WebAuthnPolicyRpID s);
  ("webAuthnPolicyAttestationConveyancePreference", JStr <$> WebAuthnPolicyAttestationConveyancePreference s);
  ("webAuthnPolicyAuthenticatorAttachment", JStr <$> WebAuthnPolicyAuthenticatorAttachment s);
  ("webAuthnPolicyRequireResidentKey", JStr <$> WebAuthnPolicyRequireResidentKey s);
  ("webAuthnPolicyUserVerificationRequirement", JStr <$> WebAuthnPolicyUserVerificationRequirement s);
  ("webAuthnPolicyCreateTimeout", int_json <$> WebAuthnPolicyCreateTimeout s);
  ("webAuthnPolicyAvoidSameAuthenticatorRegister", JBool <$> WebAuthnPolicyAvoidSameAuthenticatorRegister s);
  ("webAuthnPolicyAcceptableAaguids", omit_empty_list (JStr <$> WebAuthnPolicyAcceptableAaguids s));
  ("webAuthnPolicyPasswordlessRpEntityName", JStr <$> WebAuthnPolicyPasswordlessRpEntityName s);
  ("webAuthnPolicyPasswordlessSignatureAlgorithms", omit_empty_list (JStr <$> WebAuthnPolicyPasswordlessSignatureAlgorithms s));
  ("webAuthnPolicyPasswordlessRpId", JStr <$> WebAuthnPolicyPasswordlessRpID s);
  ("webAuthnPolicyPasswordlessAttestationConveyancePreference", JStr <$> WebAuthnPolicyPasswordlessAttestationConveyancePreference s);
  ("webAuthnPolicyPasswordlessAuthenticatorAttachment", JStr <$> WebAuthnPolicyPasswordlessAuthenticatorAttachment s);
  ("webAuthnPolicyPasswordlessRequireResidentKey", JStr <$> WebAuthnPolicyPasswordlessRequireResidentKey s);
  ("webAuthnPolicyPasswordlessUserVerificationRequirement", JStr <$> WebAuthnPolicyPasswordlessUserVerificationRequirement s);
  ("webAuthnPolicyPasswordlessCreateTimeout", int_json <$> WebAuthnPolicyPasswordlessCreateTimeout s);
  ("webAuthnPolicyPasswordlessAvoidSameAuthenticatorRegister", JBool <$> WebAuthnPolicyPasswordlessAvoidSameAuthenticatorRegister s);
  ("webAuthnPolicyPasswordlessAcceptableAaguids", omit_empty_list (JStr <$> WebAuthnPolicyPasswordlessAcceptableAaguids s));
  ("internationalizationEnabled", JBool <$> InternationalizationEnabled s);
  ("supportedLocales", omit_empty_list (JStr <$> SupportedLocales s));
  ("defaultLocale", JStr <$> DefaultLocale s);
  ("defaultDefaultClientScopes", omit_empty_list (JStr <$> DefaultDefaultClientScopes s));
  ("defaultOptionalClientScopes", omit_empty_list (JStr <$> DefaultOptionalClientScopes s));
  ("defaultSignatureAlgorithm", JStr <$> DefaultSignatureAlgorithm s);
  ("attributes", omit_empty_map (JStr <$> Attributes s));
  ("browserSecurityHeaders", omit_empty_map (JStr <$> BrowserSecurityHeaders s));
  ("organizationsEnabled", JBool <$> OrganizationsEnabled s)].

Definition RealmSpec_ConnectionName (s : RealmSpec) : string := KeycloakRef_Name (KeycloakRef s).
Definition RealmSpec_TargetRealm (s : RealmSpec) : string := Realm s.
Definition RealmSpec_Adoption (s : RealmSpec) : string := policy_or (AdoptionPolicy s) AdoptionCreateOnly.
Definition RealmSpec_Deletion (s : RealmSpec) : string := policy_or (DeletionPolicy s) DeletionOrphan.

End RealmTypes.

Module ClientTypes.

Record ClientSpec := mkClientSpec {
  KeycloakRef : KeycloakRef;
  Realm : string;
  ClientID : string;
  AdoptionPolicy : option string;
  DeletionPolicy : option string;
  SecretRef : option SecretKeySelector;
  SecretOutput : option SecretKeySelector;
  Name : option string;
  Description : option string;
  Enabled : option bool;
  Protocol : option string;
  PublicClient : option bool;
  BearerOnly : option bool;
  StandardFlowEnabled : option bool;
  ImplicitFlowEnabled : option bool;
  DirectAccessGrantsEnabled : option bool;
  ServiceAccountsEnabled : option bool;
  AuthorizationServicesEnabled : option bool;
  FrontchannelLogout : option bool;
  FullScopeAllowed : option bool;
  ConsentRequired : option bool;
  DisplayOnConsentScreen : option bool;
  ConsentScreenText : option string;
  AlwaysDisplayInConsole : option bool;
  SurrogateAuthRequired : option bool;
  RootURL : option string;
  BaseURL : option string;
  AdminURL : option string;
  RedirectUris : list string;
  WebOrigins : list string;
  NodeReRegistrationTimeout : option Z;
  ClientAuthenticatorType : option string;
  ProtocolMappers : list ProtocolMapper;
  DefaultClientScopes : option (list string);
  OptionalClientScopes : option (list string);
  Attributes : gmap string string;
  AuthenticationFlowBindingOverrides : gmap string string;
}.

Definition ClientSpec_fields (s : ClientSpec) : list (string * option json) := [
  ("keycloakRef", Some (KeycloakRef_json (KeycloakRef s)));
  ("realm", Some (JStr (Realm s)));
  ("clientId", Some (JStr (ClientID s)));
  ("adoptionPolicy", JStr <$> AdoptionPolicy s);
  ("deletionPolicy", JStr <$> DeletionPolicy s);
  ("secretRef", SecretKeySelector_json <$> SecretRef s);
  ("secretOutput", SecretKeySelector_json <$> SecretOutput s);
  ("name", JStr <$> Name s);
  ("description", JStr <$> Description s);
  ("enabled", JBool <$> Enabled s);
  ("protocol", JStr <$> Protocol s);
  ("publicClient", JBool <$> PublicClient s);
  ("bearerOnly", JBool <$> BearerOnly s);
  ("standardFlowEnabled", JBool <$> StandardFlowEnabled s);
  ("implicitFlowEnabled", JBool <$> ImplicitFlowEnabled s);
  ("directAccessGrantsEnabled", JBool <$> DirectAccessGrantsEnabled s);
  ("serviceAccountsEnabled", JBool <$> ServiceAccountsEnabled s);
  ("authorizationServicesEnabled", JBool <$> AuthorizationServicesEnabled s);
  ("frontchannelLogout", JBool <$> FrontchannelLogout s);
  ("fullScopeAllowed", JBool <$> FullScopeAllowed s);
  ("consentRequired", JBool <$> ConsentRequired s);
  ("displayOnConsentScreen", JBool <$> DisplayOnConsentScreen s);
  ("consentScreenText", JStr <$> ConsentScreenText s);
  ("alwaysDisplayInConsole", JBool <$> AlwaysDisplayInConsole s);
  ("surrogateAuthRequired", JBool <$> SurrogateAuthRequired s);
  ("rootUrl", JStr <$> RootURL s);
  ("baseUrl", JStr <$> BaseURL s);
  ("adminUrl", JStr <$> AdminURL s);
  ("redirectUris", omit_empty_list (JStr <$> RedirectUris s));
  ("webOrigins", omit_empty_list (JStr <$> WebOrigins s));
  ("nodeReRegistrationTimeout", int_json <$> NodeReRegistrationTimeout s);
  ("clientAuthenticatorType", JStr <$> ClientAuthenticatorType s);
  ("protocolMappers", omit_empty_list (ProtocolMapper_json <$> ProtocolMappers s));
  ("defaultClientScopes", strings_json <$> DefaultClientScopes s);
  ("optionalClientScopes", strings_json <$> OptionalClientScopes s);
  ("attributes", omit_empty_map (JStr <$> Attributes s));
  ("authenticationFlowBindingOverrides", omit_empty_map (JStr <$> AuthenticationFlowBindingOverrides s))].

Definition ClientSpec_ConnectionName (s : ClientSpec) : string := KeycloakRef_Name (KeycloakRef s).
Definition ClientSpec_TargetRealm (s : ClientSpec) : string := Realm s.
Definition ClientSpec_Adoption (s : ClientSpec) : string := policy_or (AdoptionPolicy s) AdoptionCreateOnly.
Definition ClientSpec_Deletion (s : ClientSpec) : string := policy_or (DeletionPolicy s) DeletionDelete.

End ClientTypes.

Module ClientScopeTypes.

Record ClientScopeSpec := mkClientScopeSpec {
  KeycloakRef : KeycloakRef;
  Realm : string;
  Name : string;
  AdoptionPolicy : option string;
  DeletionPolicy : option string;
  Description : option string;
  Protocol : option string;
  Attributes : gmap string string;
  ProtocolMappers : list ProtocolMapper;
  DisplayOnConsentScreen : option bool;
  ConsentScreenText : option string;
}.

Definition ClientScopeSpec_fields (s : ClientScopeSpec) : list (string * option json) := [
  ("keycloakRef", Some (KeycloakRef_json (KeycloakRef s)));
  ("realm", Some (JStr (Realm s)));
  ("name", Some (JStr (Name s)));
  ("adoptionPolicy", JStr <$> AdoptionPolicy s);
  ("deletionPolicy", JStr <$> DeletionPolicy s);
  ("description", JStr <$> Description s);
  ("protocol", JStr <$> Protocol s);
  ("attributes", omit_empty_map (JStr <$> Attributes s));
  ("protocolMappers", omit_empty_list (ProtocolMapper_json <$> ProtocolMappers s));
  ("displayOnConsentScreen", JBool <$> DisplayOnConsentScreen s);
  ("consentScreenText", JStr <$> ConsentScreenText s)].

Definition ClientScopeSpec_ConnectionName (s : ClientScopeSpec) : string := KeycloakRef_Name (KeycloakRef s).
Definition ClientScopeSpec_TargetRealm (s : ClientScopeSpec) : string := Realm s.
Definition ClientScopeSpec_Adoption (s : ClientScopeSpec) : string := policy_or (AdoptionPolicy s) AdoptionCreateOnly.
Definition ClientScopeSpec_Deletion (s : ClientScopeSpec) : string := policy_or (DeletionPolicy s) DeletionDelete.

End ClientScopeTypes.

Module RealmRoleTypes.

Record RealmRoleSpec := mkRealmRoleSpec {
  KeycloakRef : KeycloakRef;
  Realm : string;
  Name : string;
  AdoptionPolicy : option string;
  DeletionPolicy : option string;
  Description : option string;
  Composite : option bool;
  Composites : option RoleComposites;
  Attributes : gmap string (list string);
}.

Definition RealmRoleSpec_fields (s : RealmRoleSpec) : list (string * option json) := [
  ("keycloakRef", Some (KeycloakRef_json (KeycloakRef s)));
  ("realm", Some (JStr (Realm s)));
  ("name", Some (JStr (Name s)));
  ("adoptionPolicy", JStr <$> AdoptionPolicy s);
  ("deletionPolicy", JStr <$> DeletionPolicy s);
  ("description", JStr <$> Description s);
  ("composite", JBool <$> Composite s);
  ("composites", RoleComposites_json <$> Composites s);
  ("attributes", omit_empty_map (strings_json <$> Attributes s))].

Definition RealmRoleSpec_ConnectionName (s : RealmRoleSpec) : string := KeycloakRef_Name (KeycloakRef s).
Definition RealmRoleSpec_TargetRealm (s : RealmRoleSpec) : string := Realm s.
Definition RealmRoleSpec_Adoption (s : RealmRoleSpec) : string := policy_or (AdoptionPolicy s) AdoptionCreateOnly.
Definition RealmRoleSpec_Deletion (s : RealmRoleSpec) : string := policy_or (DeletionPolicy s) DeletionDelete.

End RealmRoleTypes.

Module IdentityProviderTypes.

Record IdentityProviderSpec := mkIdentityProviderSpec {
  KeycloakRef : KeycloakRef;
  Realm : string;
  Alias : string;
  ProviderID : string;
  AdoptionPolicy : option string;
  DeletionPolicy : option string;
  DisplayName : option string;
  Enabled : option bool;
  TrustEmail : option bool;
  StoreToken : option bool;
  AddReadTokenRoleOnCreate : option bool;
  LinkOnly : option bool;
  FirstBrokerLoginFlowAlias : option string;
  PostBrokerLoginFlowAlias : option string;
  Config : gmap string string;
  ConfigSecretRef : option SecretKeysSelector;
  Mappers : list IdentityProviderMapper;
}.

Definition IdentityProviderSpec_fields (s : IdentityProviderSpec) : list (string * option json) := [
  ("keycloakRef", Some (KeycloakRef_json (KeycloakRef s)));
  ("realm", Some (JStr (Realm s)));
  ("alias", Some (JStr (Alias s)));
  ("providerId", Some (JStr (ProviderID s)));
  ("adoptionPolicy", JStr <$> AdoptionPolicy s);
  ("deletionPolicy", JStr <$> DeletionPolicy s);
  ("displayName", JStr <$> DisplayName s);
  ("enabled", JBool <$> Enabled s);
  ("trustEmail", JBool <$> TrustEmail s);
  ("storeToken", JBool <$> StoreToken s);
  ("addReadTokenRoleOnCreate", JBool <$> AddReadTokenRoleOnCreate s);
  ("linkOnly", JBool <$> LinkOnly s);
  ("firstBrokerLoginFlowAlias", JStr <$> FirstBrokerLoginFlowAlias s);
  ("postBrokerLoginFlowAlias", JStr <$> PostBrokerLoginFlowAlias s);
  ("config", omit_empty_map (JStr <$> Config s));
  ("configSecretRef", SecretKeysSelector_json <$> ConfigSecretRef s);
  ("mappers", omit_empty_list (IdentityProviderMapper_json <$> Mappers s))].

Definition IdentityProviderSpec_ConnectionName (s : IdentityProviderSpec) : string := KeycloakRef_Name (KeycloakRef s).
Definition IdentityProviderSpec_TargetRealm (s : IdentityProviderSpec) : string := Realm s.
Definition IdentityProviderSpec_Adoption (s : IdentityProviderSpec) : string := policy_or (AdoptionPolicy s) AdoptionCreateOnly.
Definition IdentityProviderSpec_Deletion (s : IdentityProviderSpec) : string := policy_or (DeletionPolicy s) DeletionDelete.

End IdentityProviderTypes.

Module GroupTypes.

Record GroupSpec := mkGroupSpec {
  KeycloakRef : KeycloakRef;
  Realm : string;
  Name : string;
  AdoptionPolicy : option string;
  DeletionPolicy : option string;
  Attributes : gmap string (list string);
  RealmRoles : option (list string);
  ClientRoles : option (gmap string (list string));
}.

Definition GroupSpec_fields (s : GroupSpec) : list (string * option json) := [
  ("keycloakRef", Some (KeycloakRef_json (KeycloakRef s)));
  ("realm", Some (JStr (Realm s)));
  ("name", Some (JStr (Name s)));
  ("adoptionPolicy", JStr <$> AdoptionPolicy s);
  ("deletionPolicy", JStr <$> DeletionPolicy s);
  ("attributes", omit_empty_map (strings_json <$> Attributes s));
  ("realmRoles", strings_json <$> RealmRoles s);
  ("clientRoles", (λ m, JObj (strings_json <$> m)) <$> ClientRoles s)].

Definition GroupSpec_ConnectionName (s : GroupSpec) : string := KeycloakRef_Name (KeycloakRef s).
Definition GroupSpec_TargetRealm (s : GroupSpec) : string := Realm s.
Definition GroupSpec_Adoption (s : GroupSpec) : string := policy_or (AdoptionPolicy s) AdoptionCreateOnly.
Definition GroupSpec_Deletion (s : GroupSpec) : string := policy_or (DeletionPolicy s) DeletionDelete.

End GroupTypes.

(** ** The structural view of a spec (managed.go) *)

Class Spec (S : Type) := {
  ConnectionName : S → string;
  TargetRealm : S → string;
  Adoption : S → string;
  Deletion : S → string;
  spec_fields : S → list (string * option json);
}.

#[export] Instance RealmSpec_Spec : Spec RealmTypes.RealmSpec := {|
  ConnectionName := RealmTypes.RealmSpec_ConnectionName;
  TargetRealm := RealmTypes.RealmSpec_TargetRealm;
  Adoption := RealmTypes.RealmSpec_Adoption;
  Deletion := RealmTypes.RealmSpec_Deletion;
  spec_fields := RealmTypes.RealmSpec_fields;
|}.

#[export] Instance ClientSpec_Spec : Spec ClientTypes.ClientSpec := {|
  ConnectionName := ClientTypes.ClientSpec_ConnectionName;
  TargetRealm := ClientTypes.ClientSpec_TargetRealm;
  Adoption := ClientTypes.ClientSpec_Adoption;
  Deletion := ClientTypes.ClientSpec_Deletion;
  spec_fields := ClientTypes.ClientSpec_fields;
|}.

#[export] Instance ClientScopeSpec_Spec : Spec ClientScopeTypes.ClientScopeSpec := {|
  ConnectionName := ClientScopeTypes.ClientScopeSpec_ConnectionName;
  TargetRealm := ClientScopeTypes.ClientScopeSpec_TargetRealm;
  Adoption := ClientScopeTypes.ClientScopeSpec_Adoption;
  Deletion := ClientScopeTypes.ClientScopeSpec_Deletion;
  spec_fields := ClientScopeTypes.ClientScopeSpec_fields;
|}.

#[export] Instance RealmRoleSpec_Spec : Spec RealmRoleTypes.RealmRoleSpec := {|
  ConnectionName := RealmRoleTypes.RealmRoleSpec_ConnectionName;
  TargetRealm := RealmRoleTypes.RealmRoleSpec_TargetRealm;
  Adoption := RealmRoleTypes.RealmRoleSpec_Adoption;
  Deletion := RealmRoleTypes.RealmRoleSpec_Deletion;
  spec_fields := RealmRoleTypes.RealmRoleSpec_fields;
|}.

#[export] Instance IdentityProviderSpec_Spec : Spec IdentityProviderTypes.IdentityProviderSpec := {|
  ConnectionName := IdentityProviderTypes.IdentityProviderSpec_ConnectionName;
  TargetRealm := IdentityProviderTypes.IdentityProviderSpec_TargetRealm;
  Adoption := IdentityProviderTypes.IdentityProviderSpec_Adoption;
  Deletion := IdentityProviderTypes.IdentityProviderSpec_Deletion;
  spec_fields := IdentityProviderTypes.IdentityProviderSpec_fields;
|}.

#[export] Instance GroupSpec_Spec : Spec GroupTypes.GroupSpec := {|
  ConnectionName := GroupTypes.GroupSpec_ConnectionName;
  TargetRealm := GroupTypes.GroupSpec_TargetRealm;
  Adoption := GroupTypes.GroupSpec_Adoption;
  Deletion := GroupTypes.GroupSpec_Deletion;
  spec_fields := GroupTypes.GroupSpec_fields;
|}.

(** [toJSONMap] of engine.go applied to a spec: the text of [json.Marshal], decoded again. *)
Definition spec_text {S : Type} `{Spec S} (s : S) : string := marshal (JObj (obj (spec_fields s))).
Definition toJSONMap {S : Type} `{Spec S} (s : S) : rep := default ∅ (unmarshal_map (spec_text s)).

(** The error branch is not taken, and the fields arrive as they are listed. *)
Lemma toJSONMap_decodes {S : Type} `{Spec S} (s : S) :
  unmarshal_map (spec_text s) = Some (obj (spec_fields s)).
Proof. apply unmarshal_map_marshal. Qed.

Lemma toJSONMap_fields {S : Type} `{Spec S} (s : S) : toJSONMap s = obj (spec_fields s).
Proof. unfold toJSONMap. by rewrite toJSONMap_decodes. Qed.

(** ** Lemmas on the encoding *)

Lemma obj_keys (fs : list (string * option json)) (k : string) (v : json) :
  obj fs !! k = Some v → (k, Some v) ∈ fs.
Proof.
  intros H%elem_of_list_to_map_2. apply list_elem_of_omap in H as ([k' o] & Hin & Ho).
  simpl in Ho. destruct o; simplify_eq/=. done.
Qed.

Lemma obj_fst (fs : list (string * option json)) (k : string) :
  k ∈ (omap (λ p, pair p.1 <$> p.2) fs : list (string * json)).*1 → k ∈ fs.*1.
Proof.
  intros ([k' v] & -> & ([k'' o] & Hin & Ho)%list_elem_of_omap)%list_elem_of_fmap.
  destruct o; simplify_eq/=. apply list_elem_of_fmap. by eexists (_, _).
Qed.

Lemma obj_nodup (fs : list (string * option json)) :
  NoDup fs.*1 → NoDup (omap (λ p, pair p.1 <$> p.2) fs : list (string * json)).*1.
Proof.
  induction fs as [|[k o] fs IH]; simpl; [done|].
  intros [Hk Hnd]%NoDup_cons. destruct o as [v|]; simpl; [|by apply IH].
  apply NoDup_cons. split; [|by apply IH]. intros Hin. apply Hk. by apply obj_fst.
Qed.

(** Each field has exactly the value its struct tag gives it. *)
Lemma obj_lookup (fs : list (string * option json)) (k : string) (o : option json) :
  NoDup fs.*1 → (k, o) ∈ fs → obj fs !! k = o.
Proof.
  intros Hnd Hin. destruct o as [v|].
  - apply elem_of_list_to_map_1; [by apply obj_nodup|].
    apply list_elem_of_omap. by exists (k, Some v).
  - destruct (obj fs !! k) as [v|] eqn:Hk; [|done].
    apply obj_keys in Hk. exfalso. clear -Hnd Hin Hk.
    induction fs as [|[k' o'] fs IH]; [by inversion Hin|].
    simpl in Hnd. apply NoDup_cons in Hnd as [Hk' Hnd].
    apply elem_of_cons in Hin as [Hin|Hin], Hk as [Hk|Hk]; simplify_eq; eauto;
      apply Hk', list_elem_of_fmap; by eexists (_, _).
Qed.

(** ** What every spec satisfies *)

Class SpecLaws (S : Type) `{Spec S} := {
  (** The tags of a spec are distinct. *)
  spec_tags_nodup (s : S) : NoDup (spec_fields s).*1;
  (** No field is encoded as null. *)
  spec_no_null (s : S) : Forall (λ p, p.2 ≠ Some JNull) (spec_fields s);
  (** The id of a representation is the server's. *)
  spec_no_id (s : S) : "id" ∉ (spec_fields s).*1;
}.

Lemma JStr_not_null (o : option string) : JStr <$> o ≠ Some JNull.
Proof. by destruct o. Qed.
Lemma JBool_not_null (o : option bool) : JBool <$> o ≠ Some JNull.
Proof. by destruct o. Qed.
Lemma int_not_null (o : option Z) : int_json <$> o ≠ Some JNull.
Proof. by destruct o. Qed.
Lemma omit_list_not_null (l : list json) : omit_empty_list l ≠ Some JNull.
Proof. by destruct l. Qed.
Lemma omit_map_not_null (m : rep) : omit_empty_map m ≠ Some JNull.
Proof. unfold omit_empty_map. by case_bool_decide. Qed.
Lemma strings_not_null (o : option (list string)) : strings_json <$> o ≠ Some JNull.
Proof. by destruct o. Qed.

#[export] Hint Resolve JStr_not_null JBool_not_null int_not_null omit_list_not_null
  omit_map_not_null strings_not_null : operator.

(** Closes the laws for a spec with literal tags. *)
Ltac solve_spec_laws :=
  split; intros s;
  [ apply (bool_decide_eq_true_1 _); vm_compute; reflexivity
  | repeat (apply Forall_cons; split); try apply Forall_nil_2; simpl;
    first [ done | by auto with operator | by destruct (_ s) ]
  | apply (bool_decide_eq_true_1 _); vm_compute; reflexivity ].

#[export] Instance RealmSpec_SpecLaws : SpecLaws RealmTypes.RealmSpec.
Proof. solve_spec_laws. Qed.
#[export] Instance ClientSpec_SpecLaws : SpecLaws ClientTypes.ClientSpec.
Proof. solve_spec_laws. Qed.
#[export] Instance ClientScopeSpec_SpecLaws : SpecLaws ClientScopeTypes.ClientScopeSpec.
Proof. solve_spec_laws. Qed.
#[export] Instance RealmRoleSpec_SpecLaws : SpecLaws RealmRoleTypes.RealmRoleSpec.
Proof. solve_spec_laws. Qed.
#[export] Instance IdentityProviderSpec_SpecLaws : SpecLaws IdentityProviderTypes.IdentityProviderSpec.
Proof. solve_spec_laws. Qed.
#[export] Instance GroupSpec_SpecLaws : SpecLaws GroupTypes.GroupSpec.
Proof. solve_spec_laws. Qed.
