(* ===== verification/World.v ===== *)
(** * The runtime: objects, environment, effects

    The Kubernetes objects the operator handles, what it calls outside its own code
    ([KubeLib], [Env]), and the monad [M] its functions run in.

    [KubeLib] holds the pure helpers of apimachinery and controller-runtime
    (conditions, finalizers, owner references), with their documented behaviour as
    [KubeLibLaws].  [Env] holds everything whose answer comes from outside: the clock,
    the HTTP transport, the Kubernetes API, and the order in which Go visits a map.  The
    environment has a state of its own and may answer anything; a theorem that holds for
    every [Env] holds for every server, every failure and every iteration order.

    A function of type [M A] reads and changes a [World] and either returns or panics
    ([None]).  Every call that leaves the operator is recorded in [trace], so ordering and
    "no request is sent" are statements about traces; [wp m Q] says that each run of [m]
    appends a trace [l] and ends with a result [o] such that [Q o l]. *)

From Stdlib Require Import ZArith Lia.
From stdpp Require Import base gmap strings list.
From S2P Require Import Prelude Json JsonText GoError ApiTypes.

Local Open Scope string_scope.
Local Open Scope list_scope.

(** ** Kubernetes objects *)

Record OwnerReference := mkOwnerReference {
  Ref_UID : string;
  Ref_Controller : option bool;
}.

Record ObjectMeta := mkObjectMeta {
  GetName : string;
  GetNamespace : string;
  GetUID : string;
  GetResourceVersion : string;
  GetGeneration : Z;
  GetDeletionTimestamp : option Z;
  GetFinalizers : list string;
  GetAnnotations : gmap string string;
}.

Definition SetFinalizers (fs : list string) (m : ObjectMeta) : ObjectMeta :=
  mkObjectMeta (GetName m) (GetNamespace m) (GetUID m) (GetResourceVersion m)
    (GetGeneration m) (GetDeletionTimestamp m) fs (GetAnnotations m).

Definition SetAnnotations (a : gmap string string) (m : ObjectMeta) : ObjectMeta :=
  mkObjectMeta (GetName m) (GetNamespace m) (GetUID m) (GetResourceVersion m)
    (GetGeneration m) (GetDeletionTimestamp m) (GetFinalizers m) a.

(** [metav1.Condition], less the transition time the library maintains. *)
Record Condition := mkCondition {
  cond_Type : string;
  cond_Status : string;
  cond_ObservedGeneration : Z;
  cond_Reason : string;
  cond_Message : string;
}.

Definition ConditionTrue : string := "True".
Definition ConditionFalse : string := "False".

Record ResourceStatus := mkResourceStatus {
  Conditions : list Condition;
  ObservedGeneration : Z;
}.

(** A managed resource: the shared metadata and status blocks around a spec.
    [SecretName] is the extra status field of the Client kind. *)
Record ManagedObject (S : Type) := mkManagedObject {
  Kind : string;
  Meta : ObjectMeta;
  GetSpec : S;
  Status : ResourceStatus;
  SecretName : string;
}.
Arguments mkManagedObject {S}.
Arguments Kind {S}.
Arguments Meta {S}.
Arguments GetSpec {S}.
Arguments Status {S}.
Arguments SecretName {S}.

Definition set_Meta {S} (m : ObjectMeta) (o : ManagedObject S) : ManagedObject S :=
  mkManagedObject (Kind o) m (GetSpec o) (Status o) (SecretName o).
Definition set_Status {S} (st : ResourceStatus) (o : ManagedObject S) : ManagedObject S :=
  mkManagedObject (Kind o) (Meta o) (GetSpec o) st (SecretName o).
Definition set_SecretName {S} (n : string) (o : ManagedObject S) : ManagedObject S :=
  mkManagedObject (Kind o) (Meta o) (GetSpec o) (Status o) n.

Record Secret := mkSecret {
  Secret_Meta : ObjectMeta;
  Secret_Data : gmap string string;
  Secret_OwnerReferences : list OwnerReference;
}.

(** The connection resource (keycloakconnection_types.go). *)
Record TLSConfig := mkTLSConfig { InsecureSkipVerify : option bool }.

Record KeycloakConnectionSpec := mkKeycloakConnectionSpec {
  Conn_URL : string;
  CredentialsSecretRef : string;
  Conn_Auth : option string;
  Conn_AdminRealm : option string;
  TLS : option TLSConfig;
}.

Record KeycloakConnectionStatus := mkKeycloakConnectionStatus {
  Conn_Conditions : list Condition;
  Conn_ObservedGeneration : Z;
  ServerVersion : string;
}.

Record KeycloakConnection := mkKeycloakConnection {
  Conn_Meta : ObjectMeta;
  Conn_Spec : KeycloakConnectionSpec;
  Conn_Status : KeycloakConnectionStatus;
}.

(** ** Kubernetes libraries *)

Class KubeLib := {
  FindStatusCondition : list Condition → string → option Condition;
  SetStatusCondition : list Condition → Condition → list Condition;
  ContainsFinalizer : list string → string → bool;
  AddFinalizer : list string → string → list string;
  RemoveFinalizer : list string → string → list string;
  SetControllerReference : ObjectMeta → Secret → GoError + Secret;
}.

Class KubeLibLaws `{KubeLib} := {
  find_set_eq (cs : list Condition) (c : Condition) :
    FindStatusCondition (SetStatusCondition cs c) (cond_Type c) = Some c;
  find_set_ne (cs : list Condition) (c : Condition) (t : string) :
    t ≠ cond_Type c →
    FindStatusCondition (SetStatusCondition cs c) t = FindStatusCondition cs t;
  contains_spec (fs : list string) (f : string) : ContainsFinalizer fs f = true ↔ f ∈ fs;
  add_spec (fs : list string) (f g : string) : g ∈ AddFinalizer fs f ↔ g = f ∨ g ∈ fs;
  remove_spec (fs : list string) (f g : string) : g ∈ RemoveFinalizer fs f ↔ g ∈ fs ∧ g ≠ f;
  controller_reference (m : ObjectMeta) (s s' : Secret) :
    SetControllerReference m s = inr s' →
    Secret_Meta s' = Secret_Meta s ∧ Secret_Data s' = Secret_Data s ∧
    mkOwnerReference (GetUID m) (Some true) ∈ Secret_OwnerReferences s';
}.

(** ** HTTP *)

Record HttpRequest := mkHttpRequest {
  rq_method : string;
  rq_base : string;
  rq_path : string;
  rq_authorization : string;
  rq_content_type : string;
  rq_body : string;
}.

(** The URL the request goes to. *)
Definition rq_url (r : HttpRequest) : string := rq_base r +:+ rq_path r.

Record HttpResponse := mkHttpResponse { rs_status : Z; rs_body : string }.

(** ** Traces *)

(** A metric of internal/metrics/metrics.go: its name and its label names. *)
Record MetricVec := mkMetricVec { mv_name : string; mv_labels : list string }.

Definition ReconciliationsTotal : MetricVec :=
  mkMetricVec "keycloak_operator_reconciliations_total" ["kind"; "outcome"].
Definition ReconcileDuration : MetricVec :=
  mkMetricVec "keycloak_operator_reconcile_duration_seconds" ["kind"].
Definition DriftCorrectionsTotal : MetricVec :=
  mkMetricVec "keycloak_operator_drift_corrections_total" ["kind"].
Definition ConnectionUp : MetricVec :=
  mkMetricVec "keycloak_operator_connection_up" ["namespace"; "connection"].
Definition metrics_ServerInfo : MetricVec :=
  mkMetricVec "keycloak_operator_server_info" ["namespace"; "connection"; "version"].
Definition AdminRequestsTotal : MetricVec :=
  mkMetricVec "keycloak_operator_admin_requests_total" ["connection"; "method"; "code"].
Definition AdminRequestDuration : MetricVec :=
  mkMetricVec "keycloak_operator_admin_request_duration_seconds" ["connection"; "method"].

Definition OutcomeSuccess : string := "success".
Definition OutcomeError : string := "error".
Definition OutcomeTerminal : string := "terminal".

Inductive MetricCall :=
  | Inc
  | Observe (nanoseconds : Z)
  | Set_ (v : Z).

Inductive Action :=
  | Http (r : HttpRequest)
  | KubeGet (resource namespace name : string)
  | KubeUpdate (m : ObjectMeta) (st : ResourceStatus)
  | KubePatch (m : ObjectMeta) (st : ResourceStatus)
  | KubePatchStatus (m : ObjectMeta) (st : ResourceStatus)
  | SecretCreate (s : Secret)
  | SecretUpdate (s : Secret)
  | ConnectionPatchStatus (c : KeycloakConnection)
  | Event (etype reason message : string)
  | Metric (v : MetricVec) (labels : list string) (c : MetricCall)
  | MetricDelete (v : MetricVec) (labels : list (string * string)).

(** ** Environment *)

Class Env (St : Type) := {
  env_now : St → Z * St;
  env_range {A : Type} : list A → St → list A * St;
  (** What [http.NewRequest] says of a URL it refuses. *)
  env_bad_url : string → option string;
  env_http : HttpRequest → St → (string + HttpResponse) * St;
  env_get_connection : string → string → St → (GoError + KeycloakConnection) * St;
  env_get_secret : string → string → St → (GoError + Secret) * St;
  env_create_secret : Secret → St → option GoError * St;
  env_update_secret : Secret → St → option GoError * St;
  env_update {S : Type} : ManagedObject S → St → (option GoError * ManagedObject S) * St;
  env_patch {S : Type} : ManagedObject S → ManagedObject S → St →
    (option GoError * ManagedObject S) * St;
  env_patch_status {S : Type} : ManagedObject S → ManagedObject S → St →
    (option GoError * ManagedObject S) * St;
  env_patch_connection_status : KeycloakConnection → KeycloakConnection → St →
    option GoError * St;
}.

Class EnvLaws (St : Type) `{Env St} := {
  (** A map is visited once per entry, in some order. *)
  range_perm {A : Type} (l : list A) (s : St) : (env_range l s).1 ≡ₚ l;
  (** The API server answers with the object asked for. *)
  get_connection_key (ns name : string) (s s' : St) (c : KeycloakConnection) :
    env_get_connection ns name s = (inr c, s') →
    GetNamespace (Conn_Meta c) = ns ∧ GetName (Conn_Meta c) = name;
  get_secret_key (ns name : string) (s s' : St) (x : Secret) :
    env_get_secret ns name s = (inr x, s') →
    GetNamespace (Secret_Meta x) = ns ∧ GetName (Secret_Meta x) = name;
}.

(** A resource version names one state of an object: the connection and the Secret a
    version denotes, and that every answer is what its version denotes. *)
Class Versions (St : Type) `{Env St} := {
  connection_at : string → string → string → KeycloakConnection;
  secret_at : string → string → string → Secret;
  connection_version (ns name : string) (s s' : St) (c : KeycloakConnection) :
    env_get_connection ns name s = (inr c, s') →
    c = connection_at ns name (GetResourceVersion (Conn_Meta c));
  secret_version (ns name : string) (s s' : St) (x : Secret) :
    env_get_secret ns name s = (inr x, s') →
    x = secret_at ns name (GetResourceVersion (Secret_Meta x));
}.

(** ** The world and its monad *)

(** Configuration of an Admin API client (client.go), and the client itself: the
    configuration and the identity of the token cell it shares with its copies. *)
Record Config := mkConfig {
  cfg_ConnectionName : string;
  cfg_URL : string;
  cfg_AdminRealm : string;
  cfg_Auth : string;
  cfg_Username : string;
  cfg_Password : string;
  cfg_ClientID : string;
  cfg_ClientSecret : string;
  cfg_InsecureSkipVerify : bool;
}.

Record Client := mkClient { cl_cfg : Config; cl_cell : nat }.

(** The mutable token fields of a client; [zero_token] is the zero value. *)
Record TokenCell := mkTokenCell { accessToken : string; tokenExpri : Z }.
Definition zero_token : TokenCell := mkTokenCell "" 0.

Record cachedClient := mkCachedClient {
  cc_kc : Client;
  cc_connVersion : string;
  cc_secretVer : string;
}.

Record World (St : Type) := mkWorld {
  env : St;
  byName : gmap string cachedClient;
  cells : gmap nat TokenCell;
  next_cell : nat;
  trace : list Action;
}.
Arguments mkWorld {St}.
Arguments env {St}.
Arguments byName {St}.
Arguments cells {St}.
Arguments next_cell {St}.
Arguments trace {St}.

Definition M (St A : Type) : Type := World St → option A * World St.

#[export] Instance M_ret {St} : MRet (M St) := λ A a w, (Some a, w).
#[export] Instance M_bind {St} : MBind (M St) := λ A B f m w,
  match m w with
  | (Some a, w') => f a w'
  | (None, w') => (None, w')
  end.

Section Operations.
Context {St : Type} `{Env St}.

Definition panic {A} : M St A := λ w, (None, w).

Definition emit (a : Action) : M St () := λ w,
  (Some (), mkWorld (env w) (byName w) (cells w) (next_cell w) (trace w ++ [a])).

Definition call_env {A} (f : St → A * St) : M St A := λ w,
  let '(a, s) := f (env w) in
  (Some a, mkWorld s (byName w) (cells w) (next_cell w) (trace w)).

Definition get_cell (l : nat) : M St TokenCell := λ w,
  (Some (default zero_token (cells w !! l)), w).

Definition set_cell (l : nat) (t : TokenCell) : M St () := λ w,
  (Some (), mkWorld (env w) (byName w) (<[l := t]> (cells w)) (next_cell w) (trace w)).

(** A fresh client: a cell that holds the zero token. *)
Definition new_cell : M St nat := λ w,
  (Some (next_cell w),
   mkWorld (env w) (byName w) (<[next_cell w := zero_token]> (cells w)) (S (next_cell w))
     (trace w)).

Definition get_cache : M St (gmap string cachedClient) := λ w, (Some (byName w), w).

Definition set_cache (c : gmap string cachedClient) : M St () := λ w,
  (Some (), mkWorld (env w) c (cells w) (next_cell w) (trace w)).

Definition now : M St Z := call_env env_now.

(** [for k, v := range m]: the entries of a map, in the order of this run. *)
Definition range {V} (m : gmap string V) : M St (list (string * V)) :=
  call_env (env_range (map_to_list m)).

Definition http_do (r : HttpRequest) : M St (string + HttpResponse) :=
  _ ← emit (Http r); call_env (env_http r).

Definition kube_get_connection (ns name : string) : M St (GoError + KeycloakConnection) :=
  _ ← emit (KubeGet "keycloakconnections" ns name); call_env (env_get_connection ns name).

Definition kube_get_secret (ns name : string) : M St (GoError + Secret) :=
  _ ← emit (KubeGet "secrets" ns name); call_env (env_get_secret ns name).

Definition kube_create_secret (s : Secret) : M St (option GoError) :=
  _ ← emit (SecretCreate s); call_env (env_create_secret s).

Definition kube_update_secret (s : Secret) : M St (option GoError) :=
  _ ← emit (SecretUpdate s); call_env (env_update_secret s).

Definition kube_update {S} (o : ManagedObject S) : M St (option GoError * ManagedObject S) :=
  _ ← emit (KubeUpdate (Meta o) (Status o)); call_env (env_update o).

Definition kube_patch {S} (o base : ManagedObject S) : M St (option GoError * ManagedObject S) :=
  _ ← emit (KubePatch (Meta o) (Status o)); call_env (env_patch o base).

Definition kube_patch_status {S} (o base : ManagedObject S)
    : M St (option GoError * ManagedObject S) :=
  _ ← emit (KubePatchStatus (Meta o) (Status o)); call_env (env_patch_status o base).

Definition kube_patch_connection_status (c base : KeycloakConnection) : M St (option GoError) :=
  _ ← emit (ConnectionPatchStatus c); call_env (env_patch_connection_status c base).

(** [v.WithLabelValues(labels...)] panics when the number of labels is wrong. *)
Definition metric (v : MetricVec) (labels : list string) (c : MetricCall) : M St () :=
  if Nat.eqb (length labels) (length (mv_labels v)) then emit (Metric v labels c) else panic.

Definition metric_delete (v : MetricVec) (labels : list (string * string)) : M St () :=
  emit (MetricDelete v labels).

(** [defer f()]: [f] runs whether [m] returns or panics. *)
Definition deferred {A} (m : M St A) (f : option A → M St ()) : M St A := λ w,
  let '(o, w') := m w in (o, (f o w').2).
End Operations.

(** [if err != nil { return err }]: the error of a step ends the function. *)
Definition try_bind {St A B} (m : M St (GoError + A)) (f : A → M St (GoError + B))
    : M St (GoError + B) :=
  r ← m; match r with inl e => mret (inl e) | inr a => f a end.

Notation "'try' x ← m ; k" := (try_bind m (λ x, k))
  (at level 20, x pattern, m at level 100, k at level 200, only parsing).

(** [errors] of a step that returns only an error. *)
Definition as_result {St} (m : M St (option GoError)) : M St (GoError + ()) :=
  r ← m; mret (match r with Some e => inl e | None => inr () end).

(** [fmt.Errorf] around the error of a step. *)
Definition wrap_err {St A} (f : GoError → GoError) (m : M St (GoError + A)) : M St (GoError + A) :=
  r ← m; mret (match r with inl e => inl (f e) | inr a => inr a end).

Definition lift_result {St A} (r : GoError + A) : M St (GoError + A) := mret r.
