(* ===== verification/Sim.v ===== *)
(** * A concrete environment

    One instance of the interfaces of World.v, for running the definitions on concrete
    inputs and for showing that the laws the theorems assume can hold: a cluster with one
    connection and its Secrets, an HTTP transport that plays back a list of answers, a clock
    that ticks, maps visited in key order, and an API server that accepts every write.
    The helpers of apimachinery and controller-runtime do what their documentation says. *)

From Stdlib Require Import ZArith Lia.
From stdpp Require Import base gmap strings list.
From S2P Require Import Prelude Json JsonText GoError ApiTypes World.

Local Open Scope string_scope.
Local Open Scope list_scope.

(** ** Libraries *)

Definition sim_find (cs : list Condition) (t : string) : option Condition :=
  snd <$> list_find (λ c, cond_Type c = t) cs.

Fixpoint sim_set (cs : list Condition) (c : Condition) : list Condition :=
  match cs with
  | [] => [c]
  | d :: cs' => if decide (cond_Type d = cond_Type c) then c :: cs' else d :: sim_set cs' c
  end.

Definition sim_add (fs : list string) (f : string) : list string :=
  if decide (f ∈ fs) then fs else fs ++ [f].

Definition sim_controller (m : ObjectMeta) (s : Secret) : GoError + Secret :=
  inr (mkSecret (Secret_Meta s) (Secret_Data s)
    (Secret_OwnerReferences s ++ [mkOwnerReference (GetUID m) (Some true)])).

#[export] Instance Sim_KubeLib : KubeLib := {|
  FindStatusCondition := sim_find;
  SetStatusCondition := sim_set;
  ContainsFinalizer := λ fs f, bool_decide (f ∈ fs);
  AddFinalizer := sim_add;
  RemoveFinalizer := λ fs f, filter (λ g, g ≠ f) fs;
  SetControllerReference := sim_controller;
|}.

Lemma sim_find_cons (d : Condition) (cs : list Condition) (t : string) :
  sim_find (d :: cs) t = if decide (cond_Type d = t) then Some d else sim_find cs t.
Proof.
  unfold sim_find. simpl. case_decide; [done|].
  by destruct (list_find _ cs) as [[??]|].
Qed.

#[export] Instance Sim_KubeLibLaws : KubeLibLaws.
Proof.
  split; simpl.
  - intros cs c. induction cs as [|d cs IH]; simpl.
    + rewrite sim_find_cons. by rewrite decide_True.
    + case_decide; rewrite sim_find_cons; [by rewrite decide_True|by rewrite decide_False].
  - intros cs c t Hne. induction cs as [|d cs IH]; simpl.
    + rewrite sim_find_cons. by rewrite decide_False.
    + case_decide as Hd; rewrite !sim_find_cons; [|by rewrite IH].
      rewrite !decide_False; congruence.
  - intros fs f. apply bool_decide_eq_true.
  - intros fs f g. unfold sim_add. case_decide; set_solver.
  - intros fs f g. rewrite list_elem_of_filter. tauto.
  - intros m s s' [= <-]. simpl. set_solver.
Qed.

(** ** The cluster *)

Definition sim_meta (ns name version : string) : ObjectMeta :=
  mkObjectMeta name ns ("uid-" +:+ name) version 1 None [] ∅.

Definition sim_connection : KeycloakConnection :=
  mkKeycloakConnection (sim_meta "team" "kc" "7")
    (mkKeycloakConnectionSpec "https://kc.example" "kc-admin" None None None)
    (mkKeycloakConnectionStatus [] 0 "").

Definition sim_secrets : list Secret := [
  mkSecret (sim_meta "team" "kc-admin" "3") {["username" := "admin"; "password" := "s3cret"]} [];
  mkSecret (sim_meta "team" "foreign" "4") {["data" := "x"]} [];
  mkSecret (sim_meta "team" "app-secret" "5") {["clientSecret" := "old"]}
    [mkOwnerReference "uid-app" (Some true)]
].

(** The state: the clock and the answers still to be played back. *)
Record Sim := mkSim { sim_time : Z; sim_answers : list (string + HttpResponse) }.

Definition sim_http (s : Sim) : (string + HttpResponse) * Sim :=
  match sim_answers s with
  | [] => (inl "connection refused", s)
  | a :: l => (a, mkSim (sim_time s) l)
  end.

Definition sim_get_connection (ns name : string) : GoError + KeycloakConnection :=
  if decide (GetNamespace (Conn_Meta sim_connection) = ns ∧
             GetName (Conn_Meta sim_connection) = name)
  then inr sim_connection
  else inl (KubeError true ("keycloakconnection " +:+ q name +:+ " not found")).

Definition sim_get_secret (ns name : string) : GoError + Secret :=
  match list_find (λ x, GetNamespace (Secret_Meta x) = ns ∧ GetName (Secret_Meta x) = name)
          sim_secrets with
  | Some (_, x) => inr x
  | None => inl (KubeError true ("secrets " +:+ q name +:+ " not found"))
  end.

#[export] Instance Sim_Env : Env Sim := {|
  env_now := λ s, (sim_time s, mkSim (sim_time s + 1) (sim_answers s));
  env_range := λ A l s, (l, s);
  env_bad_url := λ _, None;
  env_http := λ _ s, sim_http s;
  env_get_connection := λ ns name s, (sim_get_connection ns name, s);
  env_get_secret := λ ns name s, (sim_get_secret ns name, s);
  env_create_secret := λ _ s, (None, s);
  env_update_secret := λ _ s, (None, s);
  env_update := λ S o s, ((None, o), s);
  env_patch := λ S o _ s, ((None, o), s);
  env_patch_status := λ S o _ s, ((None, o), s);
  env_patch_connection_status := λ _ _ s, (None, s);
|}.

Lemma sim_get_connection_Some (ns name : string) (c : KeycloakConnection) :
  sim_get_connection ns name = inr c →
  c = sim_connection ∧ GetNamespace (Conn_Meta c) = ns ∧ GetName (Conn_Meta c) = name.
Proof. unfold sim_get_connection. case_decide; naive_solver. Qed.

Lemma sim_get_secret_Some (ns name : string) (x : Secret) :
  sim_get_secret ns name = inr x →
  GetNamespace (Secret_Meta x) = ns ∧ GetName (Secret_Meta x) = name.
Proof.
  unfold sim_get_secret. destruct (list_find _ _) as [[i y]|] eqn:E; [|done].
  apply list_find_Some in E as (_ & Hy & _). naive_solver.
Qed.

#[export] Instance Sim_EnvLaws : EnvLaws Sim.
Proof.
  split; simpl; [done| |].
  - intros ns name s s' c [= E _]. by apply sim_get_connection_Some in E as [_ ?].
  - intros ns name s s' x [= E _]. by apply sim_get_secret_Some in E.
Qed.

(** Each object has one version. *)
#[export, program] Instance Sim_Versions : Versions Sim := {|
  connection_at _ _ _ := sim_connection;
  secret_at ns name _ :=
    match sim_get_secret ns name with
    | inr x => x
    | inl _ => mkSecret (sim_meta ns name "") ∅ []
    end;
|}.
Next Obligation. intros ns name s s' c [= E _]. by apply sim_get_connection_Some in E as [? _]. Qed.
Next Obligation. simpl. intros ns name s s' x [= E _]. by rewrite E. Qed.

(** A world at time 0, before anything happened, with the answers it will play back. *)
Definition sim_world (answers : list (string + HttpResponse)) : World Sim :=
  mkWorld (mkSim 0 answers) ∅ ∅ 0 [].

Definition ok (body : string) : string + HttpResponse := inr (mkHttpResponse 200 body).
Definition status (code : Z) : string + HttpResponse := inr (mkHttpResponse code "").
Definition ok_json (j : json) : string + HttpResponse := ok (marshal j).
Definition ok_token : string + HttpResponse :=
  ok_json (JObj {["access_token" := JStr "tok";
                  "expires_in" := JNum (default f64_zero (f64_of_Z 60))]}).

(** ** Sample resources *)

Definition sim_ref : KeycloakRef := mkKeycloakRef "kc".

(** A realm, with its policies. *)
Definition sim_realm (realm : string) (adoption deletion : option string) : RealmTypes.RealmSpec :=
  RealmTypes.mkRealmSpec
    sim_ref realm adoption deletion None None None None None None None None None None None None
    None None None None None None None None None None None None None None None None None None
    None None None None None None None None None ∅ None None None [] [] None None None None
    None None None None None None None None None None None None None None None [] None None
    None None None None None [] None [] None None None None None None None [] None [] None []
    [] None ∅ ∅ None.

Definition sim_client (id : string) (adoption deletion : option string)
    (output : option SecretKeySelector) : ClientTypes.ClientSpec :=
  ClientTypes.mkClientSpec
    sim_ref "acme" id adoption deletion None output None None None None None None None None
    None None None None None None None None None None None None None [] [] None None [] None
    None ∅ ∅.

Definition sim_scope (name : string) : ClientScopeTypes.ClientScopeSpec :=
  ClientScopeTypes.mkClientScopeSpec sim_ref "acme" name None None None None ∅ [] None None.

Definition sim_group (name : string) (adoption deletion : option string)
    (roles : option (list string)) : GroupTypes.GroupSpec :=
  GroupTypes.mkGroupSpec
    sim_ref "acme" name adoption deletion ∅ roles None.

(** An object of a kind, live or being deleted, with the given finalizers. *)
Definition sim_object {S} (kind name : string) (deleted : option Z) (finalizers : list string)
    (annotations : gmap string string) (spec : S) : ManagedObject S :=
  mkManagedObject kind (mkObjectMeta name "team" ("uid-" +:+ name) "9" 1 deleted finalizers annotations)
    spec (mkResourceStatus [] 0) "".
