(* ===== verification/Logic.v ===== *)
(** * A program logic for the operator's monad

    [wp m Q w]: the run of [m] from [w] extends the trace by some [l] and ends with an
    outcome [o] ([None] is a panic) in a world [w'] such that [Q o w' l].  A run of [M] is
    deterministic once the environment is given, so [wp] states total correctness: every
    [m] ends.  [emits P m] is the part of it that needs no state: each action [m] performs,
    from any world, satisfies [P].

    [wp] also ties the trace to the environment: [env_run s l s'] says that the environment
    went from [s] to [s'] by answering exactly the calls of [l], in that order, and reading
    the clock and choosing iteration orders in between.  What a trace theorem says about
    the actions of a run therefore bounds what the run can have done to a server. *)

From Stdlib Require Import ZArith Lia.
From stdpp Require Import base gmap strings list.
From S2P Require Import Prelude Json JsonText GoError ApiTypes World.

Local Open Scope string_scope.
Local Open Scope list_scope.

(** A run, from its outcome. *)
Lemma run_eq {St A} (m : M St A) (w : World St) (a : A) :
  (m w).1 = Some a → m w = (Some a, (m w).2).
Proof. intros <-. by destruct (m w). Qed.

Lemma bind_eq {St A B} (m : M St A) (f : A → M St B) (w w' : World St) (a : A) :
  m w = (Some a, w') → (m ≫= f) w = f a w'.
Proof. intros E. unfold mbind, M_bind. by rewrite E. Qed.

(** ** Steps of the environment *)

(** An action that does not leave the operator. *)
Definition log_action (a : Action) : Prop :=
  match a with Event _ _ _ | Metric _ _ _ | MetricDelete _ _ => True | _ => False end.

Inductive env_step {St} `{Env St} : option Action → St → St → Prop :=
  | step_now (s : St) : env_step None s (env_now s).2
  | step_range {A : Type} (l : list A) (s : St) : env_step None s (env_range l s).2
  | step_log (a : Action) (s : St) : log_action a → env_step (Some a) s s
  | step_http (r : HttpRequest) (s : St) : env_step (Some (Http r)) s (env_http r s).2
  | step_get_connection (ns name : string) (s : St) :
      env_step (Some (KubeGet "keycloakconnections" ns name)) s (env_get_connection ns name s).2
  | step_get_secret (ns name : string) (s : St) :
      env_step (Some (KubeGet "secrets" ns name)) s (env_get_secret ns name s).2
  | step_create_secret (x : Secret) (s : St) :
      env_step (Some (SecretCreate x)) s (env_create_secret x s).2
  | step_update_secret (x : Secret) (s : St) :
      env_step (Some (SecretUpdate x)) s (env_update_secret x s).2
  | step_update {S : Type} (o : ManagedObject S) (s : St) :
      env_step (Some (KubeUpdate (Meta o) (Status o))) s (env_update o s).2
  | step_patch {S : Type} (o base : ManagedObject S) (s : St) :
      env_step (Some (KubePatch (Meta o) (Status o))) s (env_patch o base s).2
  | step_patch_status {S : Type} (o base : ManagedObject S) (s : St) :
      env_step (Some (KubePatchStatus (Meta o) (Status o))) s (env_patch_status o base s).2
  | step_patch_connection (c base : KeycloakConnection) (s : St) :
      env_step (Some (ConnectionPatchStatus c)) s (env_patch_connection_status c base s).2.

Inductive env_run {St} `{Env St} : St → list Action → St → Prop :=
  | run_nil (s : St) : env_run s [] s
  | run_cons (a : option Action) (s s1 s2 : St) (l : list Action) :
      env_step a s s1 → env_run s1 l s2 → env_run s (option_list a ++ l) s2.

(** A function of the environment that is not recorded, and one recorded as [a]. *)
Class Silent {St A} `{Env St} (f : St → A * St) : Prop :=
  silent_step (s : St) : env_step None s (f s).2.
Class Calls {St A} `{Env St} (a : Action) (f : St → A * St) : Prop :=
  calls_step (s : St) : env_step (Some a) s (f s).2.
Class LogAction (a : Action) : Prop := is_log : log_action a.

Section EnvRun.
Context {St : Type} `{Env St}.

#[export] Instance Silent_now : Silent (env_now (St := St)).
Proof. constructor. Qed.
#[export] Instance Silent_range {A} (l : list A) : Silent (env_range (St := St) l).
Proof. constructor. Qed.
#[export] Instance Calls_http (r : HttpRequest) : Calls (Http r) (env_http (St := St) r).
Proof. constructor. Qed.
#[export] Instance Calls_get_connection (ns name : string) :
  Calls (KubeGet "keycloakconnections" ns name) (env_get_connection (St := St) ns name).
Proof. constructor. Qed.
#[export] Instance Calls_get_secret (ns name : string) :
  Calls (KubeGet "secrets" ns name) (env_get_secret (St := St) ns name).
Proof. constructor. Qed.
#[export] Instance Calls_create_secret (x : Secret) :
  Calls (SecretCreate x) (env_create_secret (St := St) x).
Proof. constructor. Qed.
#[export] Instance Calls_update_secret (x : Secret) :
  Calls (SecretUpdate x) (env_update_secret (St := St) x).
Proof. constructor. Qed.
#[export] Instance Calls_update {S} (o : ManagedObject S) :
  Calls (KubeUpdate (Meta o) (Status o)) (env_update (St := St) o).
Proof. constructor. Qed.
#[export] Instance Calls_patch {S} (o base : ManagedObject S) :
  Calls (KubePatch (Meta o) (Status o)) (env_patch (St := St) o base).
Proof. constructor. Qed.
#[export] Instance Calls_patch_status {S} (o base : ManagedObject S) :
  Calls (KubePatchStatus (Meta o) (Status o)) (env_patch_status (St := St) o base).
Proof. constructor. Qed.
#[export] Instance Calls_patch_connection (c base : KeycloakConnection) :
  Calls (ConnectionPatchStatus c) (env_patch_connection_status (St := St) c base).
Proof. constructor. Qed.

Lemma env_run_app (s1 s2 s3 : St) (l k : list Action) :
  env_run s1 l s2 → env_run s2 k s3 → env_run s1 (l ++ k) s3.
Proof. induction 1 as [|a s s1 s2 l Hs _ IH]; intros Hk; [done|]. rewrite <- app_assoc. econstructor; eauto. Qed.

Lemma env_run_step (a : option Action) (s s' : St) :
  env_step a s s' → env_run s (option_list a) s'.
Proof. intros Hs. rewrite <- (app_nil_r (option_list a)). econstructor; [done|constructor]. Qed.

(** Rule induction: what every step of a run preserves, the run preserves. *)
Lemma env_run_preserves (I : St → Prop) (P : Action → Prop) (s s' : St) (l : list Action) :
  (∀ a t t', env_step a t t' → (∀ x, a = Some x → P x) → I t → I t') →
  env_run s l s' → Forall P l → I s → I s'.
Proof.
  intros Hstep. induction 1 as [|a s s1 s2 l Hs _ IH]; [done|]. intros [Ha Hl]%Forall_app HI.
  apply IH; [done|]. eapply Hstep; [exact Hs| |done]. intros x ->. by apply Forall_cons in Ha as [? _].
Qed.
End EnvRun.

#[export] Instance Log_event (t r m : string) : LogAction (Event t r m) := I.
#[export] Instance Log_metric (v : MetricVec) (ls : list string) (c : MetricCall) :
  LogAction (Metric v ls c) := I.
#[export] Instance Log_metric_delete (v : MetricVec) (ls : list (string * string)) :
  LogAction (MetricDelete v ls) := I.

(** ** Weakest preconditions *)

Definition wp {St A} `{Env St} (m : M St A) (Q : option A → World St → list Action → Prop)
    (w : World St) : Prop :=
  ∃ l, trace (m w).2 = trace w ++ l ∧ env_run (env w) l (env (m w).2) ∧ Q (m w).1 (m w).2 l.

(** The actions a run adds to the trace. *)
Definition emits {St A} `{Env St} (P : Action → Prop) (m : M St A) : Prop :=
  ∀ w, wp m (λ _ _ l, Forall P l) w.

(** The same for a run that also returns: no panic. *)
Definition safe_at {St A} `{Env St} (P : Action → Prop) (m : M St A) (w : World St) : Prop :=
  wp m (λ o _ l, is_Some o ∧ Forall P l) w.
Definition safe {St A} `{Env St} (P : Action → Prop) (m : M St A) : Prop := ∀ w, safe_at P m w.

(** The postcondition of a bind, given that of its first step. *)
Definition wp_then {St A B} `{Env St} (f : A → M St B) (Q : option B → World St → list Action → Prop)
    : option A → World St → list Action → Prop :=
  λ o w l, match o with
           | Some a => wp (f a) (λ o' w' l', Q o' w' (l ++ l')) w
           | None => Q None w l
           end.

Section Rules.
Context {St : Type} `{Env St}.

Lemma wp_mono {A} (m : M St A) (Q R : option A → World St → list Action → Prop) (w : World St) :
  wp m Q w → (∀ o w' l, Q o w' l → R o w' l) → wp m R w.
Proof. intros (l & ? & ? & ?) HQR. exists l. eauto. Qed.

Lemma wp_ret {A} (a : A) (Q : option A → World St → list Action → Prop) (w : World St) :
  Q (Some a) w [] → wp (mret a) Q w.
Proof. intros. exists []. rewrite app_nil_r. split; [done|]. by split; [constructor|]. Qed.

Lemma wp_panic {A} (Q : option A → World St → list Action → Prop) (w : World St) :
  Q None w [] → wp panic Q w.
Proof. intros. exists []. rewrite app_nil_r. split; [done|]. by split; [constructor|]. Qed.

Lemma wp_bind {A B} (m : M St A) (f : A → M St B) (Q : option B → World St → list Action → Prop)
    (w : World St) :
  wp m (wp_then f Q) w → wp (m ≫= f) Q w.
Proof.
  intros (l & Hl & Hr & HQ). unfold wp, mbind, M_bind, wp_then in *.
  destruct (m w) as [[a|] w']; simpl in *; [|by exists l].
  destruct HQ as (l' & Hl' & Hr' & HQ). exists (l ++ l').
  split; [by rewrite Hl', Hl, app_assoc|]. split; [by eapply env_run_app|done].
Qed.

(** A program that runs like another. *)
Lemma wp_run {A} (m m' : M St A) (Q : option A → World St → list Action → Prop) (w : World St) :
  m w = m' w → wp m' Q w → wp m Q w.
Proof. intros E. unfold wp. by rewrite E. Qed.

Lemma wp_bind_run {A B} (m : M St A) (f : A → M St B) (a : A)
    (Q : option B → World St → list Action → Prop) (w : World St) :
  m w = (Some a, w) → wp (f a) Q w → wp (m ≫= f) Q w.
Proof. intros E. unfold wp, mbind, M_bind. by rewrite E. Qed.

Lemma wp_try {A B} (m : M St (GoError + A)) (f : A → M St (GoError + B))
    (Q : option (GoError + B) → World St → list Action → Prop) (w : World St) :
  wp m (λ o w' l,
    match o with
    | Some (inr a) => wp (f a) (λ o' w'' l', Q o' w'' (l ++ l')) w'
    | Some (inl e) => Q (Some (inl e)) w' l
    | None => Q None w' l
    end) w → wp (try_bind m f) Q w.
Proof.
  intros Hm. apply wp_bind. eapply wp_mono; [exact Hm|].
  intros [[e|a]|] w' l HQ; simpl; [|done|done].
  apply wp_ret. by rewrite app_nil_r.
Qed.

Lemma wp_emit (a : Action) `{!LogAction a} (Q : option () → World St → list Action → Prop)
    (w : World St) :
  Q (Some ()) (emit a w).2 [a] → wp (emit a) Q w.
Proof.
  intros. exists [a]. split; [done|]. split; [|done].
  apply (env_run_step (Some a)). by constructor.
Qed.

Lemma wp_metric (v : MetricVec) (labels : list string) (c : MetricCall)
    (Q : option () → World St → list Action → Prop) (w : World St) :
  length labels = length (mv_labels v) →
  Q (Some ()) (emit (Metric v labels c) w).2 [Metric v labels c] → wp (metric v labels c) Q w.
Proof. intros Hl HQ. unfold metric. rewrite Hl, Nat.eqb_refl. by apply wp_emit; [apply _|]. Qed.

(** A call of the environment changes the environment's state and nothing else. *)
Definition set_env (s : St) (w : World St) : World St :=
  mkWorld s (byName w) (cells w) (next_cell w) (trace w).

Lemma wp_call_env {A} (f : St → A * St) `{!Silent f} (Q : option A → World St → list Action → Prop)
    (w : World St) :
  Q (Some (f (env w)).1) (set_env (f (env w)).2 w) [] → wp (call_env f) Q w.
Proof.
  intros HQ. pose proof (env_run_step _ _ _ (silent_step (env w))) as Hr.
  exists []. rewrite app_nil_r. unfold call_env, set_env in *.
  by destruct (f (env w)).
Qed.

(** A step that performs [a] and then asks the environment. *)
Lemma wp_call {A} (a : Action) (f : St → A * St) `{!Calls a f}
    (Q : option A → World St → list Action → Prop) (w : World St) :
  (∀ r s, f (env w) = (r, s) → Q (Some r) (set_env s (emit a w).2) [a]) →
  wp (_ ← emit a; call_env f) Q w.
Proof.
  intros HQ. pose proof (env_run_step _ _ _ (calls_step (env w))) as Hr.
  exists [a]. unfold mbind, M_bind, call_env, emit, set_env in *. simpl in *.
  destruct (f (env w)) as [r s] eqn:E. split; [done|]. split; [done|]. by apply HQ.
Qed.

Lemma wp_get_cell (n : nat) (Q : option TokenCell → World St → list Action → Prop) (w : World St) :
  Q (Some (default zero_token (cells w !! n))) w [] → wp (get_cell n) Q w.
Proof. intros. exists []. rewrite app_nil_r. split; [done|]. by split; [constructor|]. Qed.

Lemma wp_set_cell (n : nat) (t : TokenCell) (Q : option () → World St → list Action → Prop)
    (w : World St) :
  Q (Some ()) (set_cell n t w).2 [] → wp (set_cell n t) Q w.
Proof. intros. exists []. rewrite app_nil_r. split; [done|]. by split; [constructor|]. Qed.

Lemma wp_new_cell (Q : option nat → World St → list Action → Prop) (w : World St) :
  Q (Some (next_cell w)) (new_cell w).2 [] → wp new_cell Q w.
Proof. intros. exists []. rewrite app_nil_r. split; [done|]. by split; [constructor|]. Qed.

Lemma wp_get_cache (Q : option (gmap string cachedClient) → World St → list Action → Prop)
    (w : World St) :
  Q (Some (byName w)) w [] → wp get_cache Q w.
Proof. intros. exists []. rewrite app_nil_r. split; [done|]. by split; [constructor|]. Qed.

Lemma wp_set_cache (c : gmap string cachedClient) (Q : option () → World St → list Action → Prop)
    (w : World St) :
  Q (Some ()) (set_cache c w).2 [] → wp (set_cache c) Q w.
Proof. intros. exists []. rewrite app_nil_r. split; [done|]. by split; [constructor|]. Qed.

(** [for k, v := range m] visits exactly the entries of [m]. *)
Lemma wp_range `{!EnvLaws St} {V} (m : gmap string V)
    (Q : option (list (string * V)) → World St → list Action → Prop) (w : World St) :
  (∀ es s, es ≡ₚ map_to_list m → Q (Some es) (set_env s w) []) → wp (range m) Q w.
Proof. intros HQ. apply wp_call_env; [apply _|]. apply HQ, range_perm. Qed.

(** ** Actions only *)

Lemma emits_mono {A} (P R : Action → Prop) (m : M St A) :
  emits P m → (∀ a, P a → R a) → emits R m.
Proof.
  intros Hm HPR w. eapply wp_mono; [apply Hm|]. simpl. intros _ _ l ?. by eapply Forall_impl.
Qed.

Lemma emits_ret {A} (P : Action → Prop) (a : A) : emits P (mret (M := M St) a).
Proof. intros w. by apply wp_ret. Qed.

Lemma emits_panic {A} (P : Action → Prop) : emits P (panic (St := St) (A := A)).
Proof. intros w. by apply wp_panic. Qed.

Lemma emits_bind {A B} (P : Action → Prop) (m : M St A) (f : A → M St B) :
  emits P m → (∀ a, emits P (f a)) → emits P (m ≫= f).
Proof.
  intros Hm Hf w. apply wp_bind. eapply wp_mono; [apply Hm|].
  intros [a|] w' l Hl; simpl in *; [|done].
  eapply wp_mono; [apply Hf|]. simpl. intros _ _ l' Hl'. by apply Forall_app.
Qed.

Lemma emits_try {A B} (P : Action → Prop) (m : M St (GoError + A)) (f : A → M St (GoError + B)) :
  emits P m → (∀ a, emits P (f a)) → emits P (try_bind m f).
Proof. intros Hm Hf. apply emits_bind; [done|]. intros [e|a]; [apply emits_ret|done]. Qed.

Lemma emits_emit (P : Action → Prop) (a : Action) `{!LogAction a} : P a → emits P (emit (St := St) a).
Proof. intros ? w. apply wp_emit; [done|]. by constructor. Qed.

Lemma emits_metric (P : Action → Prop) (v : MetricVec) (labels : list string) (c : MetricCall) :
  P (Metric v labels c) → emits P (metric (St := St) v labels c).
Proof. intros. unfold metric. case_match; [apply emits_emit; [apply _|done]|apply emits_panic]. Qed.

Lemma emits_call_env {A} (P : Action → Prop) (f : St → A * St) `{!Silent f} : emits P (call_env f).
Proof. intros w. by apply wp_call_env. Qed.

Lemma emits_call {A} (P : Action → Prop) (a : Action) (f : St → A * St) `{!Calls a f} :
  P a → emits P (_ ← emit a; call_env f).
Proof. intros ? w. apply wp_call; [done|]. intros. by constructor. Qed.


Lemma emits_deferred {A} (P : Action → Prop) (m : M St A) (f : option A → M St ()) :
  emits P m → (∀ o, emits P (f o)) → emits P (deferred m f).
Proof.
  intros Hm Hf w. destruct (Hm w) as (l & Hl & Hr & HP). unfold wp, deferred.
  destruct (m w) as [o w'] eqn:E; simpl in *.
  destruct (Hf o w') as (l' & Hl' & Hr' & HP'). exists (l ++ l'). simpl.
  split; [by rewrite Hl', Hl, app_assoc|]. split; [by eapply env_run_app|by apply Forall_app].
Qed.

(** Reading the actions of a run back. *)
Lemma emits_trace {A} (P : Action → Prop) (m : M St A) (w : World St) :
  emits P m → ∃ l, trace (m w).2 = trace w ++ l ∧ Forall P l.
Proof. intros Hm. destruct (Hm w) as (l & ? & _ & ?). eauto. Qed.

(** A run with more than one specification satisfies them together. *)
Lemma wp_and {A} (m : M St A) (Q R : option A → World St → list Action → Prop) (w : World St) :
  wp m Q w → wp m R w → wp m (λ o w' l, Q o w' l ∧ R o w' l) w.
Proof.
  intros (l & Hl & Hr & HQ) (l' & Hl' & _ & HR). exists l. split; [done|]. split; [done|].
  rewrite Hl in Hl'. apply app_inv_head in Hl' as <-. done.
Qed.

Lemma wp_emits {A} (P : Action → Prop) (m : M St A)
    (Q : option A → World St → list Action → Prop) (w : World St) :
  emits P m → (∀ o w' l, Forall P l → Q o w' l) → wp m Q w.
Proof. intros Hm HQ. eapply wp_mono; [apply Hm|]. eauto. Qed.

(** ** Actions of runs that return *)

Lemma safe_emits {A} (P : Action → Prop) (m : M St A) : safe P m → emits P m.
Proof. intros Hm w. eapply wp_mono; [apply Hm|]. simpl. naive_solver. Qed.

Lemma safe_mono {A} (P R : Action → Prop) (m : M St A) :
  safe P m → (∀ a, P a → R a) → safe R m.
Proof.
  intros Hm HPR w. eapply wp_mono; [apply Hm|]. simpl. intros o _ l [? ?].
  split; [done|]. by eapply Forall_impl.
Qed.

Lemma safe_ret {A} (P : Action → Prop) (a : A) : safe P (mret (M := M St) a).
Proof. intros w. apply wp_ret. by split; [eexists|]. Qed.

Lemma safe_bind {A B} (P : Action → Prop) (m : M St A) (f : A → M St B) :
  safe P m → (∀ a, safe P (f a)) → safe P (m ≫= f).
Proof.
  intros Hm Hf w. apply wp_bind. eapply wp_mono; [apply Hm|].
  intros o w' l [[a ->] Hl]; simpl in *.
  eapply wp_mono; [apply Hf|]. simpl. intros o _ l' [Ho Hl']. split; [done|]. by apply Forall_app.
Qed.

Lemma safe_try {A B} (P : Action → Prop) (m : M St (GoError + A)) (f : A → M St (GoError + B)) :
  safe P m → (∀ a, safe P (f a)) → safe P (try_bind m f).
Proof. intros Hm Hf. apply safe_bind; [done|]. intros [e|a]; [apply safe_ret|done]. Qed.

Lemma safe_emit (P : Action → Prop) (a : Action) `{!LogAction a} : P a → safe P (emit (St := St) a).
Proof. intros ? w. apply wp_emit; [done|]. by split; [eexists|constructor]. Qed.

Lemma safe_metric (P : Action → Prop) (v : MetricVec) (labels : list string) (c : MetricCall) :
  length labels = length (mv_labels v) → P (Metric v labels c) →
  safe P (metric (St := St) v labels c).
Proof. intros Hl ?. unfold metric. rewrite Hl, Nat.eqb_refl. apply safe_emit; [apply _|done]. Qed.

Lemma safe_call_env {A} (P : Action → Prop) (f : St → A * St) `{!Silent f} : safe P (call_env f).
Proof. intros w. apply wp_call_env; [done|]. by split; [eexists|]. Qed.

Lemma safe_call {A} (P : Action → Prop) (a : Action) (f : St → A * St) `{!Calls a f} :
  P a → safe P (_ ← emit a; call_env f).
Proof. intros ? w. apply wp_call; [done|]. intros. by split; [eexists|constructor]. Qed.

Lemma safe_get_cell (P : Action → Prop) (n : nat) : safe P (get_cell (St := St) n).
Proof. intros w. apply wp_get_cell. by split; [eexists|]. Qed.
Lemma safe_set_cell (P : Action → Prop) (n : nat) (t : TokenCell) :
  safe P (set_cell (St := St) n t).
Proof. intros w. apply wp_set_cell. by split; [eexists|]. Qed.
Lemma safe_new_cell (P : Action → Prop) : safe P (new_cell (St := St)).
Proof. intros w. apply wp_new_cell. by split; [eexists|]. Qed.
Lemma safe_get_cache (P : Action → Prop) : safe P (get_cache (St := St)).
Proof. intros w. apply wp_get_cache. by split; [eexists|]. Qed.
Lemma safe_set_cache (P : Action → Prop) (c : gmap string cachedClient) :
  safe P (set_cache (St := St) c).
Proof. intros w. apply wp_set_cache. by split; [eexists|]. Qed.

(** One run: the continuation starts where the first step ended. *)
Lemma safe_at_bind {A B} (P : Action → Prop) (m : M St A) (f : A → M St B) (w : World St) :
  safe_at P m w → (∀ a w', m w = (Some a, w') → safe_at P (f a) w') → safe_at P (m ≫= f) w.
Proof.
  intros (l & Hl & Hr & [a Ha] & HP) Hf. unfold safe_at, wp, mbind, M_bind.
  destruct (m w) as [o w'] eqn:E; simpl in *. subst o.
  destruct (Hf a w' eq_refl) as (l' & Hl' & Hr' & Ho & HP'). exists (l ++ l').
  split; [by rewrite Hl', Hl, app_assoc|]. split; [by eapply env_run_app|].
  split; [done|by apply Forall_app].
Qed.

Lemma wp_deferred {A} (m : M St A) (f : option A → M St ())
    (Q : option A → World St → list Action → Prop) (w : World St) :
  wp m (λ o w' l, wp (f o) (λ _ w'' l', Q o w'' (l ++ l')) w') w → wp (deferred m f) Q w.
Proof.
  intros (l & Hl & Hr & l' & Hl' & Hr' & HQ). unfold wp, deferred.
  destruct (m w) as [o w'] eqn:E; simpl in *. exists (l ++ l').
  split; [by rewrite Hl', Hl, app_assoc|]. split; [by eapply env_run_app|done].
Qed.

Lemma safe_at_deferred {A} (P : Action → Prop) (m : M St A) (f : option A → M St ())
    (w : World St) :
  safe_at P m w → (∀ o, safe P (f o)) → safe_at P (deferred m f) w.
Proof.
  intros Hm Hf. apply wp_deferred. eapply wp_mono; [exact Hm|]. simpl.
  intros o w' l [Ho Hl]. eapply wp_mono; [apply Hf|]. simpl. intros _ _ l' [_ Hl'].
  split; [done|by apply Forall_app].
Qed.

Lemma safe_at_trace {A} (P : Action → Prop) (m : M St A) (w : World St) :
  safe_at P m w → ∃ a w' l, m w = (Some a, w') ∧ trace w' = trace w ++ l ∧ Forall P l.
Proof.
  intros (l & Hl & _ & [a Ha] & HP). destruct (m w) as [o w'] eqn:E; simpl in *. subst o. eauto 6.
Qed.

Lemma safe_returns {A} (P : Action → Prop) (m : M St A) (w : World St) :
  safe P m → is_Some (m w).1.
Proof. intros Hm. by destruct (Hm w) as (l & _ & _ & ? & _). Qed.
End Rules.

#[export] Hint Resolve safe_get_cell safe_set_cell safe_new_cell safe_get_cache
  safe_set_cache : operator.

(** Decompose an [emits] or a [safe] goal along the program: binds, branches and known
    operations; what is left are the conditions on the actions. *)
Ltac safe_step :=
  match goal with
  | |- safe _ (mret _) => apply safe_ret
  | |- safe _ (try_bind _ _) => apply safe_try; [|intros]
  | |- safe _ (emit _ ≫= (λ _, call_env _)) => apply safe_call; [apply _|]
  | |- safe _ (_ ≫= _) => apply safe_bind; [|intros]
  | |- safe _ (emit _) => apply safe_emit; [apply _|]
  | |- safe _ (call_env _) => apply safe_call_env; apply _
  | |- safe _ (metric _ _ _) => apply safe_metric; [reflexivity|]
  | |- safe _ (if ?b then _ else _) => destruct b eqn:?
  | |- safe _ (match ?x with _ => _ end) => destruct x eqn:?
  | |- safe _ (let _ := _ in _) => cbv zeta
  | |- safe _ _ => progress eauto with operator nocore
  end.
Ltac safe_solve := repeat safe_step.

Ltac emits_step :=
  match goal with
  | |- emits _ (mret _) => apply emits_ret
  | |- emits _ panic => apply emits_panic
  | |- emits _ (try_bind _ _) => apply emits_try; [|intros]
  | |- emits _ (emit _ ≫= (λ _, call_env _)) => apply emits_call; [apply _|]
  | |- emits _ (_ ≫= _) => apply emits_bind; [|intros]
  | |- emits _ (deferred _ _) => apply emits_deferred; [|intros]
  | |- emits _ (emit _) => apply emits_emit; [apply _|]
  | |- emits _ (call_env _) => apply emits_call_env; apply _
  | |- emits _ (metric _ _ _) => apply emits_metric
  | |- emits _ (if ?b then _ else _) => destruct b eqn:?
  | |- emits _ (match ?x with _ => _ end) => destruct x eqn:?
  | |- emits _ (let _ := _ in _) => cbv zeta
  | |- emits _ _ => solve [eauto with operator nocore]
  | |- emits _ _ => apply safe_emits; progress eauto with operator nocore
  end.
Ltac emits_solve := repeat emits_step.
