(* ===== verification/Url.v ===== *)
(** * URL escaping (net/url)

    [url.PathEscape], [url.QueryEscape] and [url.Values.Encode], which the client uses to
    build request paths and the token form, with the inverse that shows no two names share
    an escape; and the other direction, which the fake server uses: [url.PathUnescape],
    [url.ParseQuery], [strings.Cut] and [strings.Split]. *)

From Stdlib Require Import Ascii String ZArith Lia.
From stdpp Require Import base gmap strings list sorting.
From S2P Require Import Prelude Json JsonText.

Local Open Scope string_scope.
Local Open Scope nat_scope.

Definition between (lo hi n : nat) : bool := Nat.leb lo n && Nat.leb n hi.

(** Letters, digits and the marks [- . _ ~]. *)
Definition unreserved (c : ascii) : bool :=
  let n := nat_of_ascii c in
  between 97 122 n || between 65 90 n || between 48 57 n
  || Nat.eqb n 45 || Nat.eqb n 46 || Nat.eqb n 95 || Nat.eqb n 126.

(** A path segment keeps [$ & + : = @] too. *)
Definition path_keep (c : ascii) : bool :=
  let n := nat_of_ascii c in
  unreserved c || Nat.eqb n 36 || Nat.eqb n 38 || Nat.eqb n 43 || Nat.eqb n 58
  || Nat.eqb n 61 || Nat.eqb n 64.

Definition upper_hex (n : nat) : ascii :=
  ascii_of_nat (if Nat.ltb n 10 then 48 + n else 55 + n).

Definition percent (c : ascii) : string :=
  let n := nat_of_ascii c in
  String "037" (String (upper_hex (n / 16)) (String (upper_hex (n mod 16)) "")).

Definition path_char (c : ascii) : string :=
  if path_keep c then String c "" else percent c.

Definition query_char (c : ascii) : string :=
  if unreserved c then String c ""
  else if Nat.eqb (nat_of_ascii c) 32 then "+" else percent c.

Fixpoint PathEscape (s : string) : string :=
  match s with "" => "" | String c s' => path_char c +:+ PathEscape s' end.

Fixpoint QueryEscape (s : string) : string :=
  match s with "" => "" | String c s' => query_char c +:+ QueryEscape s' end.

(** [url.Values.Encode] of a form with one value per key: sorted by key. *)
Definition form_member (p : string * string) : string :=
  QueryEscape p.1 +:+ "=" +:+ QueryEscape p.2.

Fixpoint join_with (sep : string) (l : list string) : string :=
  match l with
  | [] => ""
  | [x] => x
  | x :: l' => x +:+ sep +:+ join_with sep l'
  end.

Definition Encode (form : gmap string string) : string :=
  join_with "&" (form_member <$> merge_sort key_le (map_to_list form)).

(** ** Unescaping *)

Definition plus_is_space (query : bool) (c : ascii) : ascii :=
  if query && Nat.eqb (nat_of_ascii c) 43 then "032"%char else c.

Fixpoint unescape (query : bool) (s : string) : option string :=
  match s with
  | "" => Some ""
  | String c s1 =>
      if Nat.eqb (nat_of_ascii c) 37 then
        match s1 with
        | String h (String l s2) =>
            match hex_value h, hex_value l with
            | Some x, Some y => String (ascii_of_nat (16 * x + y)) <$> unescape query s2
            | _, _ => None
            end
        | _ => None
        end
      else String (plus_is_space query c) <$> unescape query s1
  end.

Lemma unescape_path_char (c : ascii) (s : string) :
  unescape false (path_char c +:+ s) = String c <$> unescape false s.
Proof. by destruct c as [[] [] [] [] [] [] [] []]. Qed.

Lemma unescape_query_char (c : ascii) (s : string) :
  unescape true (query_char c +:+ s) = String c <$> unescape true s.
Proof. by destruct c as [[] [] [] [] [] [] [] []]. Qed.

Lemma path_unescape_escape (s : string) : unescape false (PathEscape s) = Some s.
Proof. induction s as [|c s IH]; [done|]. cbn [PathEscape]. by rewrite unescape_path_char, IH. Qed.

Lemma query_unescape_escape (s : string) : unescape true (QueryEscape s) = Some s.
Proof. induction s as [|c s IH]; [done|]. cbn [QueryEscape]. by rewrite unescape_query_char, IH. Qed.

#[export] Instance PathEscape_inj : Inj (=) (=) PathEscape.
Proof.
  intros s t E. apply (f_equal (unescape false)) in E.
  rewrite !path_unescape_escape in E. congruence.
Qed.

#[export] Instance QueryEscape_inj : Inj (=) (=) QueryEscape.
Proof.
  intros s t E. apply (f_equal (unescape true)) in E.
  rewrite !query_unescape_escape in E. congruence.
Qed.

(** ** Delimiters *)

(** The characters that end a path segment, a query value or a path. *)
Definition delimiter (c : ascii) : bool :=
  let n := nat_of_ascii c in Nat.eqb n 47 || Nat.eqb n 63 || Nat.eqb n 35.

Lemma str_all_append (P : ascii → bool) (a b : string) :
  str_all P (a +:+ b) = str_all P a && str_all P b.
Proof.
  #[local] Arguments String.append !_ _ / : simpl nomatch.
  induction a as [|c a IH]; simpl; [done|]. by rewrite IH, andb_assoc.
Qed.

Lemma PathEscape_segment (s : string) : str_all (λ c, negb (delimiter c)) (PathEscape s) = true.
Proof.
  induction s as [|c s IH]; [done|]. cbn [PathEscape]. rewrite str_all_append, IH, andb_true_r.
  by destruct c as [[] [] [] [] [] [] [] []].
Qed.

(** Two segments followed by what starts with a delimiter are equal when the wholes are. *)
Definition stops (s : string) : Prop :=
  match s with "" => True | String c _ => delimiter c = true end.

Lemma segment_split (a b x y : string) :
  str_all (λ c, negb (delimiter c)) a = true → str_all (λ c, negb (delimiter c)) b = true →
  stops x → stops y → a +:+ x = b +:+ y → a = b ∧ x = y.
Proof.
  #[local] Arguments String.append !_ _ / : simpl nomatch.
  revert b. induction a as [|c a IH]; intros [|d b] Ha Hb Hx Hy E; simpl in *.
  - done.
  - subst x. simpl in Hx. by rewrite Hx in Hb.
  - subst y. simpl in Hy. by rewrite Hy in Ha.
  - apply andb_true_iff in Ha as [_ Ha], Hb as [_ Hb]. injection E as -> E.
    by destruct (IH b Ha Hb Hx Hy E) as [-> ->].
Qed.

Lemma PathEscape_split (a b x y : string) :
  stops x → stops y → PathEscape a +:+ x = PathEscape b +:+ y → a = b ∧ x = y.
Proof.
  intros Hx Hy E.
  destruct (segment_split _ _ _ _ (PathEscape_segment a) (PathEscape_segment b) Hx Hy E) as [Hab ?].
  split; [by apply (inj PathEscape)|done].
Qed.

Lemma append_inj_l (a x y : string) : a +:+ x = a +:+ y → x = y.
Proof.
  #[local] Arguments String.append !_ _ / : simpl nomatch.
  induction a as [|c a IH]; simpl; [done|]. intros E. injection E as E. auto.
Qed.

(** ** Reading *)

Definition PathUnescape : string → option string := unescape false.
Definition QueryUnescape : string → option string := unescape true.

(** [strings.Split(s, c)]: never empty. *)
Fixpoint split_on (c : ascii) (s : string) : list string :=
  match s with
  | "" => [""]
  | String d s' =>
      if ascii_dec d c then "" :: split_on c s'
      else match split_on c s' with
           | x :: l => String d x :: l
           | [] => [String d ""]
           end
  end.

(** [strings.Cut(s, c)], without the third value. *)
Fixpoint cut (c : ascii) (s : string) : string * string :=
  match s with
  | "" => ("", "")
  | String d s' =>
      if ascii_dec d c then ("", s') else let '(a, b) := cut c s' in (String d a, b)
  end.

(** [strings.TrimPrefix]. *)
Definition TrimPrefix (s p : string) : string := default s (strip_prefix p s).

(** [strings.HasSuffix]. *)
Fixpoint HasSuffix (s suffix : string) : bool :=
  String.eqb s suffix || match s with "" => false | String _ s' => HasSuffix s' suffix end.

(** One piece of a query; a piece with a semicolon or a bad escape is dropped. *)
Definition query_pair (piece : string) : option (string * string) :=
  if String.eqb piece "" then None
  else if negb (str_all (λ c, negb (Nat.eqb (nat_of_ascii c) 59)) piece) then None
  else
    let '(k, v) := cut "=" piece in
    k ← QueryUnescape k; v ← QueryUnescape v; Some (k, v).

Definition ParseQuery (query : string) : list (string * string) :=
  omap query_pair (split_on "&" query).

(** [url.Values.Get]: the first value of a key, or the empty string. *)
Definition Values_Get (values : list (string * string)) (k : string) : string :=
  default "" (list_to_map (M := gmap string string) values !! k).

(** *** Round trips *)

Lemma split_on_segment (c : ascii) (s t : string) :
  str_all (λ d, negb (Ascii.eqb d c)) s = true →
  split_on c (s +:+ String c t) = s :: split_on c t.
Proof.
  #[local] Arguments String.append !_ _ / : simpl nomatch.
  induction s as [|d s IH]; simpl; [by destruct (ascii_dec c c)|].
  intros [Hd Hs]%andb_true_iff. apply negb_true_iff, Ascii.eqb_neq in Hd.
  destruct (ascii_dec d c); [done|]. by rewrite IH.
Qed.

Lemma split_on_last (c : ascii) (s : string) :
  str_all (λ d, negb (Ascii.eqb d c)) s = true → split_on c s = [s].
Proof.
  induction s as [|d s IH]; simpl; [done|]. intros [Hd Hs]%andb_true_iff.
  apply negb_true_iff, Ascii.eqb_neq in Hd. destruct (ascii_dec d c); [done|]. by rewrite IH.
Qed.

Lemma split_names (c : ascii) (l : list string) :
  l ≠ [] → Forall (λ s, str_all (λ d, negb (Ascii.eqb d c)) s = true) l →
  split_on c (join_with (String c "") l) = l.
Proof.
  intros Hl Hs. induction Hs as [|x l Hx Hs IH]; [done|].
  destruct l as [|y l]; [by apply split_on_last|].
  change (join_with _ _) with (x +:+ String c (join_with (String c "") (y :: l))).
  rewrite split_on_segment by done. by rewrite IH.
Qed.

Lemma cut_segment (c : ascii) (s t : string) :
  str_all (λ d, negb (Ascii.eqb d c)) s = true → cut c (s +:+ String c t) = (s, t).
Proof.
  #[local] Arguments String.append !_ _ / : simpl nomatch.
  induction s as [|d s IH]; simpl; [by destruct (ascii_dec c c)|].
  intros [Hd Hs]%andb_true_iff. apply negb_true_iff, Ascii.eqb_neq in Hd.
  destruct (ascii_dec d c); [done|]. by rewrite IH.
Qed.

Lemma cut_none (c : ascii) (s : string) :
  str_all (λ d, negb (Ascii.eqb d c)) s = true → cut c s = (s, "").
Proof.
  induction s as [|d s IH]; simpl; [done|]. intros [Hd Hs]%andb_true_iff.
  apply negb_true_iff, Ascii.eqb_neq in Hd. destruct (ascii_dec d c); [done|]. by rewrite IH.
Qed.

Lemma QueryEscape_avoids (P : ascii → bool) (s : string) :
  (∀ c, str_all P (query_char c) = true) → str_all P (QueryEscape s) = true.
Proof.
  intros Hc. induction s as [|c s IH]; [done|]. cbn [QueryEscape].
  by rewrite str_all_append, IH, Hc.
Qed.

Ltac by_chars := intros [[] [] [] [] [] [] [] []]; reflexivity.

Lemma query_pair_member (p : string * string) : query_pair (form_member p) = Some p.
Proof.
  destruct p as [k v]. unfold query_pair, form_member. cbn [fst snd].
  destruct (String.eqb_spec (QueryEscape k +:+ "=" +:+ QueryEscape v) "") as [E|_].
  { by destruct (QueryEscape k). }
  rewrite !str_all_append, !QueryEscape_avoids by by_chars. cbn [str_all negb andb].
  change ("=" +:+ QueryEscape v) with (String "="%char (QueryEscape v)).
  rewrite cut_segment by (apply QueryEscape_avoids; by_chars).
  unfold QueryUnescape. by rewrite !query_unescape_escape.
Qed.

Lemma ParseQuery_members (l : list (string * string)) :
  ParseQuery (join_with "&" (form_member <$> l)) = l.
Proof.
  assert (∀ p, str_all (λ d, negb (Ascii.eqb d "&")) (form_member p) = true) as Hp.
  { intros [k v]. unfold form_member. rewrite !str_all_append, !QueryEscape_avoids by by_chars. done. }
  unfold ParseQuery. induction l as [|p l IH]; [done|].
  destruct l as [|p' l]; cbn [fmap list_fmap join_with] in *.
  - rewrite split_on_last by done. cbn [omap list_omap]. by rewrite query_pair_member.
  - change ("&" +:+ ?x) with (String "&"%char x). rewrite split_on_segment by done.
    cbn [omap list_omap]. rewrite query_pair_member. by rewrite IH.
Qed.

(** A form that was encoded is read back key by key. *)
Lemma form_roundtrip (form : gmap string string) (k : string) :
  Values_Get (ParseQuery (Encode form)) k = default "" (form !! k).
Proof.
  unfold Values_Get, Encode. rewrite ParseQuery_members. do 2 f_equal.
  rewrite <- (list_to_map_to_list (M := gmap string) form) at 2.
  apply list_to_map_proper; [|apply merge_sort_Permutation].
  rewrite merge_sort_Permutation. apply NoDup_fst_map_to_list.
Qed.
