(* ===== verification/HttpClient.v ===== *)
(** * The Admin API client (internal/keycloak/client.go)

    [New], the token cache ([Token], [invalidate]) and the request path ([doOnce], [Do],
    [observeRequest]).  A client shares its token fields through the cell [cl_cell].  Time is
    in nanoseconds; the lifetime the server reports is multiplied in int64, as
    [time.Duration] is.  Here a run is sequential; ConcurrentClient.v
    has the mutex.

    Response documents are decoded with the keys the code names, in the spelling it names
    them.  What [json.Marshal] refuses does not occur: a body is a [json] value. *)

From Stdlib Require Import ZArith Lia.
From stdpp Require Import base gmap strings list.
From S2P Require Import Prelude Json JsonText GoError LastApplied ApiTypes World Sim Logic Url.

Local Open Scope string_scope.
Local Open Scope list_scope.

Definition DefaultAdminRealm : string := "master".
Definition DefaultAdminClientID : string := "admin-cli".

(** ** Machine integers and time *)

Definition wrap64 (z : Z) : Z := ((z + 2 ^ 63) mod 2 ^ 64 - 2 ^ 63)%Z.
Definition Second : Z := 1000000000.
Definition Minute : Z := (60 * Second)%Z.
Definition Hour : Z := (60 * Minute)%Z.

(** [time.Duration(n) * time.Second]. *)
Definition seconds (n : Z) : Z := wrap64 (n * Second).

Lemma wrap64_small (z : Z) : (- 2 ^ 63 <= z < 2 ^ 63)%Z → wrap64 z = z.
Proof. intros. unfold wrap64. rewrite Z.mod_small; lia. Qed.

Lemma wrap64_range (z : Z) : (- 2 ^ 63 <= wrap64 z < 2 ^ 63)%Z.
Proof. unfold wrap64. pose proof (Z.mod_pos_bound (z + 2 ^ 63) (2 ^ 64)). lia. Qed.

(** ** Bodies *)

(** The first [n] bytes of a stream ([io.LimitReader]). *)
Fixpoint LimitReader (s : string) (n : N) : string :=
  match s with
  | "" => ""
  | String c s' => if N.eqb n 0 then "" else String c (LimitReader s' (N.pred n))
  end.

Definition truncate (b : string) : string :=
  if N.ltb 512 (N.of_nat (String.length b)) then LimitReader b 512 +:+ "..." else b.

(** Where a response is decoded to: the value left when the body is empty, and the
    decoder.  A nil [out] decodes nothing. *)
Record Out (A : Type) := mkOut { out_zero : A; out_decode : string → option A }.
Arguments mkOut {A}.
Arguments out_zero {A}.
Arguments out_decode {A}.

Definition out_nil : Out () := mkOut () (λ _, Some ()).
Definition out_map : Out rep := mkOut ∅ unmarshal_map.

(** [[]map[string]any]: a null element is a nil map. *)
Definition as_rep (j : json) : option rep :=
  match j with JObj m => Some m | JNull => Some ∅ | _ => None end.
Definition unmarshal_maps (s : string) : option (list rep) :=
  match unmarshal s with
  | Some (JArr l) => mapM as_rep l
  | Some JNull => Some []
  | _ => None
  end.
Definition out_maps : Out (list rep) := mkOut [] unmarshal_maps.

(** A string field and an int64 field of a decoded struct: absent and null leave the zero
    value, another type is an error. *)
Definition struct_string (m : rep) (k : string) : option string :=
  match m !! k with
  | None | Some JNull => Some ""
  | Some (JStr s) => Some s
  | Some _ => None
  end.
Definition struct_int64 (m : rep) (k : string) : option Z :=
  match m !! k with
  | None | Some JNull => Some 0%Z
  | Some (JNum x) =>
      if ((- 2 ^ 63 <=? f64_val x) && (f64_val x <? 2 ^ 63))%Z then Some (f64_val x) else None
  | Some _ => None
  end.

(** The token response. *)
Record TokenResponse := mkTokenResponse {
  AccessToken : string;
  ExpiresIn : Z;
  tr_Error : string;
  ErrorDescription : string;
}.
Definition unmarshal_token (s : string) : option TokenResponse :=
  m ← unmarshal_map s;
  t ← struct_string m "access_token";
  n ← struct_int64 m "expires_in";
  e ← struct_string m "error";
  d ← struct_string m "error_description";
  Some (mkTokenResponse t n e d).

(** ** The client *)

(** The form of the token request. *)
Definition token_form (cfg : Config) : gmap string string :=
  if String.eqb (cfg_Auth cfg) AuthClient then
    {["grant_type" := "client_credentials"; "client_id" := cfg_ClientID cfg;
      "client_secret" := cfg_ClientSecret cfg]}
  else
    {["grant_type" := "password";
      "client_id" := (if String.eqb (cfg_ClientID cfg) "" then DefaultAdminClientID
                      else cfg_ClientID cfg);
      "username" := cfg_Username cfg; "password" := cfg_Password cfg]}.

Definition token_path (cfg : Config) : string :=
  "/realms/" +:+ PathEscape (cfg_AdminRealm cfg) +:+ "/protocol/openid-connect/token".

Definition token_request (cfg : Config) : HttpRequest :=
  mkHttpRequest "POST" (cfg_URL cfg) (token_path cfg) "" "application/x-www-form-urlencoded"
    (Encode (token_form cfg)).

(** What a response to the token request means. *)
Definition read_token (resp : HttpResponse) : GoError + TokenResponse :=
  let body := LimitReader (rs_body resp) (2 ^ 20) in
  if Z.eqb (rs_status resp) 401 || Z.eqb (rs_status resp) 403 then
    inl (Wrapped "" ErrAuth (": " +:+ truncate body))
  else if negb (Z.eqb (rs_status resp) 200) then
    inl (APIError (rs_status resp) "POST" "/token" body)
  else match unmarshal_token body with
       | None => inl (Wrapped "decode token response: " JSONError "")
       | Some parsed =>
           if String.eqb (AccessToken parsed) "" then
             if negb (String.eqb (tr_Error parsed) "") then
               inl (Wrapped "" ErrAuth (": " +:+ tr_Error parsed +:+ ": " +:+ ErrorDescription parsed))
             else inl (Wrapped "" ErrAuth ": empty access token")
           else inr parsed
       end.

(** What a response to an Admin API request means. *)
Definition read_response {A} (method path : string) (out : Out A) (resp : HttpResponse)
    : GoError + A :=
  let respBody := LimitReader (rs_body resp) (2 ^ 23) in
  let code := rs_status resp in
  let call := method +:+ " " +:+ path in
  if (200 <=? code)%Z && (code <? 300)%Z then
    if negb (String.eqb respBody "") then
      match out_decode out respBody with
      | Some a => inr a
      | None => inl (Wrapped ("decode response of " +:+ call +:+ ": ") JSONError "")
      end
    else inr (out_zero out)
  else if (code =? 404)%Z then inl (Wrapped "" ErrNotFound (": " +:+ call))
  else if (code =? 409)%Z then
    inl (Wrapped "" ErrConflict (": " +:+ call +:+ ": " +:+ truncate respBody))
  else if (code =? 401)%Z || (code =? 403)%Z then
    inl (Wrapped "" ErrAuth (": " +:+ call +:+ ": " +:+ truncate respBody))
  else inl (APIError code method path respBody).

(** The status class a request is counted under. *)
Definition status_class (err : option GoError) : string :=
  match err with
  | None => "2xx"
  | Some e =>
      if errors_Is e SNotFound || errors_Is e SConflict then "4xx"
      else if errors_Is e SAuth then "4xx"
      else match errors_As_API e with
           | Some code => if (500 <=? code)%Z then "5xx" else "4xx"
           | None => "error"
           end
  end.

Definition err_of {A} (r : GoError + A) : option GoError :=
  match r with inl e => Some e | inr _ => None end.

Section Client.
Context {St : Type} `{Env St}.

Definition New (cfg : Config) : M St Client :=
  let cfg := mkConfig (cfg_ConnectionName cfg) (cfg_URL cfg)
    (if String.eqb (cfg_AdminRealm cfg) "" then DefaultAdminRealm else cfg_AdminRealm cfg)
    (if String.eqb (cfg_Auth cfg) "" then AuthPassword else cfg_Auth cfg)
    (cfg_Username cfg) (cfg_Password cfg) (cfg_ClientID cfg) (cfg_ClientSecret cfg)
    (cfg_InsecureSkipVerify cfg) in
  cell ← new_cell;
  mret (mkClient cfg cell).

(** The test at the top of [Token]: there is a token, and more than 30 seconds of it. *)
Definition usable (cell : TokenCell) (t : Z) : bool :=
  negb (String.eqb (accessToken cell) "") && (30 * Second <? tokenExpri cell - t)%Z.

Definition Token (c : Client) : M St (GoError + string) :=
  cell ← get_cell (cl_cell c);
  t ← now;
  if usable cell t
  then mret (inr (accessToken cell))
  else
    let req := token_request (cl_cfg c) in
    match env_bad_url (rq_url req) with
    | Some err => mret (inl (Wrapped "build token request: " (PlainError err) ""))
    | None =>
        resp ← http_do req;
        match resp with
        | inl err => mret (inl (Wrapped "token request: " (PlainError err) ""))
        | inr resp =>
            match read_token resp with
            | inl err => mret (inl err)
            | inr parsed =>
                t ← now;
                _ ← set_cell (cl_cell c)
                      (mkTokenCell (AccessToken parsed) (t + seconds (ExpiresIn parsed)));
                mret (inr (AccessToken parsed))
            end
        end
    end.

Definition invalidate (c : Client) : M St () := set_cell (cl_cell c) zero_token.

Definition admin_request (c : Client) (token method path : string) (body : option json)
    : HttpRequest :=
  mkHttpRequest method (cfg_URL (cl_cfg c)) path ("Bearer " +:+ token)
    (if body is Some _ then "application/json" else "")
    (match body with Some j => marshal j | None => "" end).

Definition doOnce {A} (c : Client) (method path : string) (body : option json) (out : Out A)
    : M St (GoError + A) :=
  try token ← Token c;
  let req := admin_request c token method path body in
  match env_bad_url (rq_url req) with
  | Some err => mret (inl (Wrapped "build request: " (PlainError err) ""))
  | None =>
      resp ← http_do req;
      mret (match resp with
            | inl err => inl (Wrapped (method +:+ " " +:+ path +:+ ": ") (PlainError err) "")
            | inr resp => read_response method path out resp
            end)
  end.

Definition observeRequest (c : Client) (method : string) (start : Z) (err : option GoError)
    : M St () :=
  let name := cfg_ConnectionName (cl_cfg c) in
  if String.eqb name "" then mret ()
  else
    _ ← metric AdminRequestsTotal [name; method; status_class err] Inc;
    t ← now;
    metric AdminRequestDuration [name; method] (Observe (t - start)).

Definition Do {A} (c : Client) (method path : string) (body : option json) (out : Out A)
    : M St (GoError + A) :=
  start ← now;
  r ← doOnce c method path body out;
  match r with
  | inl e =>
      if errors_Is e SAuth then
        _ ← invalidate c;
        r ← doOnce c method path body out;
        _ ← observeRequest c method start (err_of r);
        mret r
      else
        _ ← observeRequest c method start (Some e);
        mret (inl e)
  | inr a =>
      _ ← observeRequest c method start None;
      mret (inr a)
  end.
End Client.

(** ** Specifications *)

(** The requests of a trace. *)
Definition requests (l : list Action) : list HttpRequest :=
  omap (λ a, match a with Http r => Some r | _ => None end) l.

Lemma requests_app (l k : list Action) : requests (l ++ k) = requests l ++ requests k.
Proof. apply omap_app. Qed.

(** The token fields of a client. *)
Definition cell_of {St} (c : Client) (w : World St) : TokenCell :=
  default zero_token (cells w !! cl_cell c).

Lemma zero_not_usable (t : Z) : usable zero_token t = false.
Proof. done. Qed.

Lemma read_token_nonempty (resp : HttpResponse) (p : TokenResponse) :
  read_token resp = inr p → AccessToken p ≠ "".
Proof.
  unfold read_token. intros E. repeat case_match; simplify_eq/=.
  by apply String.eqb_neq.
Qed.

(** One attempt of [Do]: the requests it sent and its result.  With [refreshed] the token
    was requested in the same attempt. *)
Definition prelude_ok (refreshed : bool) (c : Client) (pre : list HttpRequest) : Prop :=
  pre = [token_request (cl_cfg c)] ∨ refreshed = false ∧ pre = [].

Definition answer {A} (method path : string) (out : Out A) (resp : string + HttpResponse)
    : GoError + A :=
  match resp with
  | inl err => inl (Wrapped (method +:+ " " +:+ path +:+ ": ") (PlainError err) "")
  | inr resp => read_response method path out resp
  end.

Inductive attempt {A} (refreshed : bool) (c : Client) (method path : string)
    (body : option json) (out : Out A) : list HttpRequest → GoError + A → Prop :=
  | attempt_unsent (rs : list HttpRequest) (e : GoError) :
      rs = [] ∨ rs = [token_request (cl_cfg c)] →
      attempt refreshed c method path body out rs (inl e)
  | attempt_sent (pre : list HttpRequest) (t : string) (resp : string + HttpResponse) :
      prelude_ok refreshed c pre → t ≠ "" →
      attempt refreshed c method path body out
        (pre ++ [admin_request c t method path body]) (answer method path out resp).

Section ClientSpecs.
Context {St : Type} `{Env St}.

Definition token_post (c : Client) (w : World St) (o : option (GoError + string))
    (w' : World St) (l : list Action) : Prop :=
  byName w' = byName w ∧ next_cell w' = next_cell w ∧
  match o with
  | None => False
  | Some (inl e) => cells w' = cells w ∧ requests l ⊆ [token_request (cl_cfg c)] ∧ (length l ≤ 1)%nat
  | Some (inr t) =>
      t ≠ "" ∧
      (l = [] ∧ cells w' = cells w ∧ accessToken (cell_of c w) = t
         ∧ usable (cell_of c w) (env_now (env w)).1 = true
       ∨ l = [Http (token_request (cl_cfg c))]
         ∧ ∃ n start, cells w' = <[cl_cell c := mkTokenCell t (start + seconds n)]> (cells w))
  end.

Lemma Token_wp (c : Client) (w : World St) : wp (Token c) (token_post c w) w.
Proof.
  unfold Token. apply wp_bind, wp_get_cell. simpl. apply wp_bind, wp_call_env; [apply _|]. simpl.
  fold (cell_of c w).
  destruct (usable _ _) eqn:Hu.
  - apply wp_ret. unfold token_post. simpl. repeat split; [|by left].
    unfold usable in Hu. apply andb_true_iff in Hu as [Hu _].
    by apply negb_true_iff, String.eqb_neq in Hu.
  - destruct (env_bad_url _) eqn:?.
    { apply wp_ret. repeat split; simpl; [set_solver|lia]. }
    apply wp_bind. apply wp_call; [apply _|]. intros resp s Hr. simpl.
    destruct resp as [err|resp]; [apply wp_ret; repeat split; simpl; [set_solver|lia]|].
    destruct (read_token resp) as [e|p] eqn:Hp; [apply wp_ret; repeat split; simpl; [set_solver|lia]|].
    apply wp_bind, wp_call_env; [apply _|]. simpl. apply wp_bind, wp_set_cell. simpl. apply wp_ret. simpl.
    repeat split; [by eapply read_token_nonempty|]. right. split; [done|]. by do 2 eexists.
Qed.

(** The part of the world a client's requests leave alone. *)
Definition frame (c : Client) (w w' : World St) : Prop :=
  byName w' = byName w ∧ next_cell w' = next_cell w ∧
  ∀ n, n ≠ cl_cell c → cells w' !! n = cells w !! n.

Lemma frame_refl (c : Client) (w : World St) : frame c w w.
Proof. done. Qed.

Lemma frame_trans (c : Client) (w1 w2 w3 : World St) :
  frame c w1 w2 → frame c w2 w3 → frame c w1 w3.
Proof.
  intros (Hb & Hn & Hc) (Hb' & Hn' & Hc'). repeat split; [congruence..|].
  intros n Hne. by rewrite Hc', Hc.
Qed.

Lemma token_post_frame (c : Client) (w w' : World St) (o : option (GoError + string))
    (l : list Action) :
  token_post c w o w' l → frame c w w'.
Proof.
  intros (Hb & Hn & Ho). repeat split; [done..|]. intros n Hne.
  destruct o as [[e|t]|]; [by destruct Ho as [-> _]| |done].
  destruct Ho as [_ [(_ & -> & _)|(_ & x & y & ->)]]; [done|]. by rewrite lookup_insert_ne.
Qed.

Lemma token_post_requests (c : Client) (w w' : World St) (r : GoError + string)
    (l : list Action) :
  token_post c w (Some r) w' l → requests l = [] ∨ requests l = [token_request (cl_cfg c)].
Proof.
  intros (_ & _ & Ho). destruct r as [e|t]; simpl in Ho.
  - destruct Ho as (_ & Hs & Hl). destruct l as [|a [|a' l]]; simpl in *; [by left| |lia].
    destruct a; simpl in *; auto. right. set_solver.
  - destruct Ho as (_ & [(-> & _)|(-> & _)]); auto.
Qed.

Lemma doOnce_wp {A} (c : Client) (method path : string) (body : option json) (out : Out A)
    (w : World St) :
  wp (doOnce c method path body out) (λ o w' l, frame c w w' ∧
    ∃ r, o = Some r ∧
      attempt (negb (usable (cell_of c w) (env_now (env w)).1)) c method path body out
        (requests l) r) w.
Proof.
  unfold doOnce. apply wp_try. eapply wp_mono; [apply Token_wp|].
  intros o w' l Hp. pose proof (token_post_frame _ _ _ _ _ Hp) as Hf.
  destruct o as [[e|t]|]; [|destruct Hp as (_ & _ & Hne & Hp)|by destruct Hp as (_ & _ & [])].
  { split; [done|]. eexists. split; [done|]. constructor.
    by eapply token_post_requests. }
  assert (prelude_ok (negb (usable (cell_of c w) (env_now (env w)).1)) c (requests l)) as Hpre.
  { destruct Hp as [(-> & _ & _ & ->)|(-> & _)]; [by right|by left]. }
  cbv zeta. destruct (env_bad_url _).
  { apply wp_ret. rewrite app_nil_r. split; [done|]. eexists. split; [done|]. constructor.
    destruct Hpre as [->|[_ ->]]; auto. }
  apply wp_bind, wp_call; [apply _|]. intros resp s _. simpl. apply wp_ret.
  rewrite requests_app. split; [done|]. eexists. split; [done|].
  apply (attempt_sent _ _ _ _ _ _ _ t resp); done.
Qed.

Lemma observeRequest_wp (c : Client) (method : string) (start : Z) (err : option GoError)
    (w : World St) :
  wp (observeRequest c method start err) (λ o w' l,
    o = Some () ∧ frame c w w' ∧ cells w' = cells w ∧ requests l = []) w.
Proof.
  unfold observeRequest. case_match; [by apply wp_ret|].
  apply wp_bind, wp_metric; [done|]. simpl. apply wp_bind, wp_call_env; [apply _|]. simpl.
  by apply wp_metric.
Qed.

Lemma attempt_weaken {A} (b : bool) (c : Client) (method path : string) (body : option json)
    (out : Out A) (rs : list HttpRequest) (r : GoError + A) :
  attempt b c method path body out rs r → attempt false c method path body out rs r.
Proof.
  destruct 1 as [rs e Hrs|pre t resp Hpre Ht]; [by constructor|]. constructor; [|done].
  destruct Hpre as [->|[_ ->]]; [by left|by right].
Qed.

(** The requests and the result of [Do]. *)
Definition do_post {A} (c : Client) (method path : string) (body : option json) (out : Out A)
    (rs : list HttpRequest) (r : GoError + A) : Prop :=
  attempt false c method path body out rs r ∧ (∀ e, r = inl e → errors_Is e SAuth = false) ∨
  ∃ rs1 rs2 e, rs = rs1 ++ rs2 ∧
    attempt false c method path body out rs1 (inl e) ∧ errors_Is e SAuth = true ∧
    attempt true c method path body out rs2 r.

Lemma observe_and_return {A} (c : Client) (method : string) (start : Z) (err : option GoError)
    (r : GoError + A) (Q : option (GoError + A) → World St → list Action → Prop) (w : World St) :
  (∀ w' l, frame c w w' → requests l = [] → Q (Some r) w' l) →
  wp (_ ← observeRequest c method start err; mret r) Q w.
Proof.
  intros HQ. apply wp_bind. eapply wp_mono; [apply observeRequest_wp|].
  intros ? w' l (-> & Hf & _ & Hl). simpl. apply wp_ret. rewrite app_nil_r. auto.
Qed.

Lemma Do_wp {A} (c : Client) (method path : string) (body : option json) (out : Out A)
    (w : World St) :
  wp (Do c method path body out) (λ o w' l, frame c w w' ∧
    ∃ r, o = Some r ∧ do_post c method path body out (requests l) r) w.
Proof.
  unfold Do. apply wp_bind, wp_call_env; [apply _|]. simpl. set (w0 := set_env _ w).
  apply wp_bind. eapply wp_mono; [apply doOnce_wp|].
  intros o w1 l1 (Hf1 & r & -> & Ha1). apply attempt_weaken in Ha1. simpl.
  destruct r as [e|a]; [destruct (errors_Is e SAuth) eqn:He|].
  - apply wp_bind, wp_set_cell. simpl. apply wp_bind.
    set (w2 := mkWorld _ _ _ _ _).
    eapply wp_mono; [apply doOnce_wp|]. intros o w3 l3 (Hf3 & r & -> & Ha3). simpl.
    assert (frame c w1 w2) as Hf2.
    { repeat split; [done..|]. intros n Hne. simpl. by rewrite lookup_insert_ne. }
    replace (cell_of c w2) with zero_token in Ha3
      by (unfold cell_of; simpl; by rewrite lookup_insert_eq).
    apply observe_and_return. intros w4 l4 Hf4 Hl4. split; [eauto using frame_trans|].
    exists r. split; [done|]. right. rewrite !requests_app, Hl4, app_nil_r. eauto 10.
  - apply observe_and_return. intros w2 l2 Hf2 Hl2. split; [eauto using frame_trans|].
    exists (inl e). split; [done|]. left. rewrite !requests_app, Hl2, app_nil_r.
    split; [done|]. intros ? [= <-]. done.
  - apply observe_and_return. intros w2 l2 Hf2 Hl2. split; [eauto using frame_trans|].
    exists (inr a). split; [done|]. left. by rewrite !requests_app, Hl2, app_nil_r.
Qed.

Lemma Token_safe (P : Action → Prop) (c : Client) :
  P (Http (token_request (cl_cfg c))) → safe P (Token c).
Proof. intros Ht. unfold Token, http_do, now. safe_solve. done. Qed.

(** Everything [Do] does, action by action. *)
Lemma Do_safe {A} (P : Action → Prop) (c : Client) (method path : string) (body : option json)
    (out : Out A) :
  P (Http (token_request (cl_cfg c))) →
  (∀ t, P (Http (admin_request c t method path body))) →
  (∀ v ls k, v = AdminRequestsTotal ∨ v = AdminRequestDuration → P (Metric v ls k)) →
  safe P (Do c method path body out).
Proof.
  intros Ht Ha Hm.
  assert (safe P (Token c)) by by apply Token_safe.
  assert (safe P (doOnce c method path body out)).
  { unfold doOnce, http_do. safe_solve. done. }
  assert (∀ m s e, safe P (observeRequest c m s e))
    by (intros; unfold observeRequest, now; safe_solve; auto).
  unfold Do, invalidate, now. safe_solve.
Qed.
End ClientSpecs.

(** ** Theorems *)

(** C9.  An Admin API request is tried at most twice.  [Do] always returns; when the first
    attempt is not rejected for its credentials its result is the result, and when it is,
    the request is repeated once, with a token requested anew in that attempt, and the
    second result is final.  Each attempt sends at most one token request followed by at
    most one Admin API request, with the caller's method, path and body and a non-empty
    bearer token. *)
Theorem do_retries_once {St} `{Env St} {A} (c : Client) (method path : string)
    (body : option json) (out : Out A) (w : World St) :
  ∃ r w' l, Do c method path body out w = (Some r, w') ∧ trace w' = trace w ++ l ∧
    (length (requests l) ≤ 4)%nat ∧ do_post c method path body out (requests l) r.
Proof.
  destruct (Do_wp c method path body out w) as (l & Hl & _ & _ & r & Hr & Hp).
  exists r, (Do c method path body out w).2, l. rewrite <- Hr.
  repeat split; [by destruct (Do _ _ _ _ _ w)|done| |done].
  assert (∀ b rs (r : GoError + A), attempt b c method path body out rs r →
    (length rs ≤ 2)%nat) as Hlen.
  { intros b rs r' [? ? [-> | ->]|pre t resp Hpre _]; simpl; [lia|lia|].
    rewrite length_app. destruct Hpre as [->|[_ ->]]; simpl; lia. }
  destruct Hp as [[Ha _]|(rs1 & rs2 & e & -> & Ha1 & _ & Ha2)].
  - apply Hlen in Ha. lia.
  - apply Hlen in Ha1, Ha2. rewrite length_app. lia.
Qed.

(** The token cache.  A cached token with more than 30 seconds left is returned
    without a request and nothing changes; otherwise at most one token request is sent,
    and the cell changes exactly when a new token is returned, which is then the cached
    one.  A failed refresh leaves the cell as it was. *)
Lemma token_cache_correct {St} `{Env St} (c : Client) (w : World St) :
  (usable (cell_of c w) (env_now (env w)).1 = true →
   Token c w = (Some (inr (accessToken (cell_of c w))), set_env (env_now (env w)).2 w)) ∧
  (usable (cell_of c w) (env_now (env w)).1 = false →
   ∃ r w' l, Token c w = (Some r, w') ∧ trace w' = trace w ++ l ∧
     match r with
     | inr tok => l = [Http (token_request (cl_cfg c))] ∧ tok ≠ "" ∧
         ∃ n start, cell_of c w' = mkTokenCell tok (start + seconds n)
     | inl _ => (requests l = [] ∨ requests l = [token_request (cl_cfg c)]) ∧ cells w' = cells w
     end).
Proof.
  split; intros Hu.
  - unfold Token, mbind, M_bind, now, call_env. simpl.
    fold (cell_of c w). destruct (env_now (env w)) as [t s] eqn:Ht. simpl in *.
    by rewrite Hu.
  - destruct (Token_wp c w) as (l & Hl & _ & Hp). destruct (Token c w) as [[r|] w'] eqn:E; simpl in *;
      [|by destruct Hp as (_ & _ & [])].
    exists r, w', l. split; [done|]. split; [done|].
    pose proof (token_post_requests _ _ _ _ _ Hp) as Hreq. destruct Hp as (_ & _ & Hp).
    destruct r as [e|tok]; [by destruct Hp|].
    destruct Hp as (Hne & [(_ & _ & _ & Hc)|(-> & n & start & Hc)]); [congruence|].
    repeat split; [done|]. exists n, start. unfold cell_of. by rewrite Hc, lookup_insert_eq.
Qed.

(** [Token] hands out the cached token without a request. *)
Definition reuses {St} `{Env St} (c : Client) (w : World St) (tok : string) : Prop :=
  ∃ w', Token c w = (Some (inr tok), w') ∧ trace w' = trace w.

Lemma reuses_iff {St} `{Env St} (c : Client) (w : World St) (tok : string) (expiry : Z) :
  tok ≠ "" → cell_of c w = mkTokenCell tok expiry →
  reuses c w tok ↔ (30 * Second < expiry - (env_now (env w)).1)%Z.
Proof.
  intros Htok Hc. destruct (token_cache_correct c w) as [Hyes Hno]. rewrite Hc in *.
  unfold usable in *. simpl in *. rewrite (proj2 (String.eqb_neq tok "") Htok) in *. simpl in *.
  rewrite <- Z.ltb_lt. destruct (_ <? _)%Z; split; [done| |intros (w' & E & Ht)|done].
  - intros _. eexists. by rewrite (Hyes eq_refl).
  - destruct (Hno eq_refl) as (r & w1 & l & E1 & Hl & Hr). rewrite E in E1. simplify_eq.
    destruct Hr as (-> & _). rewrite Ht in Hl. apply (f_equal length) in Hl.
    rewrite length_app in Hl. simpl in Hl. lia.
Qed.

(** A product that leaves int64 upwards, by less than its whole range, is negative. *)
Lemma seconds_overflow (n : Z) :
  (9223372037 <= n <= 18446744073)%Z → (seconds n < 0)%Z.
Proof.
  intros Hn. unfold seconds, wrap64, Second.
  rewrite <- (Z.mod_unique_pos (n * 1000000000 + 2 ^ 63) (2 ^ 64) 1 (n * 1000000000 - 2 ^ 63));
    lia.
Qed.

(** C32.  Token lifetimes.  Let [Token] find no usable token and the server grant one for [n]
    seconds, read at time [t0].  Then [Token] returns it and, as long as the cell is not
    changed, a later call at time [t] hands the same token out without a request exactly
    while [t] is more than 30 seconds before [t0] plus [n] seconds, for every lifetime up to
    9223372036 seconds; for the lifetimes from the next second on, up to 18446744073, the
    int64 product is negative and no later call reuses the token. *)
Theorem token_lifetime {St} `{Env St} (c : Client) (w : World St) (resp : HttpResponse)
    (parsed : TokenResponse) (s1 s2 : St) (t0 : Z) :
  usable (cell_of c w) (env_now (env w)).1 = false →
  env_bad_url (rq_url (token_request (cl_cfg c))) = None →
  env_http (token_request (cl_cfg c)) (env_now (env w)).2 = (inr resp, s1) →
  read_token resp = inr parsed → env_now s1 = (t0, s2) →
  let n := ExpiresIn parsed in
  let tok := AccessToken parsed in
  ∃ w1, Token c w = (Some (inr tok), w1) ∧
    ∀ w2, cell_of c w2 = cell_of c w1 → let t := (env_now (env w2)).1 in
      ((Z.abs n <= 9223372036)%Z →
         reuses c w2 tok ↔ (t < t0 + n * Second - 30 * Second)%Z) ∧
      ((9223372037 <= n <= 18446744073)%Z → (t0 <= t)%Z → ¬ reuses c w2 tok).
Proof.
  intros Hu Hurl Hhttp Hparsed Hnow n tok.
  assert (∃ w1, Token c w = (Some (inr tok), w1) ∧
    cell_of c w1 = mkTokenCell tok (t0 + seconds n)) as (w1 & Hrun & Hcell).
  { unfold Token, mbind, M_bind, get_cell, now, call_env. simpl. fold (cell_of c w).
    destruct (env_now (env w)) as [t s]. simpl in *. rewrite Hu, Hurl.
    unfold http_do, mbind, M_bind, call_env. simpl. rewrite Hhttp. simpl. rewrite Hparsed. simpl.
    rewrite Hnow. simpl. eexists. split; [done|]. unfold cell_of. simpl. by rewrite lookup_insert_eq. }
  exists w1. split; [done|]. intros w2 Hw2 t.
  assert (tok ≠ "") as Htok by by eapply read_token_nonempty.
  rewrite Hcell in Hw2. rewrite (reuses_iff c w2 tok _ Htok Hw2). fold t. split.
  - intros Hn. unfold seconds. rewrite wrap64_small by (unfold Second; lia). lia.
  - intros Hn Ht. pose proof (seconds_overflow n Hn). unfold Second. lia.
Qed.

(** A token for a minute, asked for again at once. *)
Lemma token_lifetime_witness :
  let c := mkClient (mkConfig "team/kc" "https://kc.example" "master" "password" "a" "b" "" "" false) 0 in
  let w := sim_world [ok_token] in
  let w1 := (Token c w).2 in
  (Token c w).1 = Some (inr "tok") ∧ reuses c w1 "tok".
Proof.
  intros c w w1. split; [vm_compute; reflexivity|].
  destruct (token_lifetime c w (mkHttpResponse 200 (marshal (JObj {["access_token" := JStr "tok";
    "expires_in" := JNum (default f64_zero (f64_of_Z 60))]}))) (mkTokenResponse "tok" 60 "" "")
    (mkSim 1 []) (mkSim 2 []) 1) as (w1' & Hrun & Hall).
  1-5: vm_compute; reflexivity.
  assert (w1' = w1) as -> by (unfold w1; by rewrite Hrun).
  destruct (Hall w1 eq_refl) as [Hre _]. apply Hre; [simpl; lia|vm_compute; reflexivity].
Defined.

(** C33.  Status codes and errors.  A response becomes [ErrNotFound] exactly on 404,
    [ErrConflict] exactly on 409 and [ErrAuth] exactly on 401 and 403; a 2xx response is
    a value or a decoding error; every other code becomes an [*APIError] with that code. *)
Theorem status_mapping {A} (method path : string) (out : Out A) (resp : HttpResponse) :
  match read_response method path out resp with
  | inr _ => (200 <= rs_status resp < 300)%Z
  | inl e =>
      (errors_Is e SNotFound = true ↔ rs_status resp = 404%Z) ∧
      (errors_Is e SConflict = true ↔ rs_status resp = 409%Z) ∧
      (errors_Is e SAuth = true ↔ rs_status resp = 401%Z ∨ rs_status resp = 403%Z) ∧
      (∀ code, errors_As_API e = Some code ↔
         code = rs_status resp ∧ ¬ (200 <= code < 300)%Z ∧ code ∉ [401; 403; 404; 409]%Z)
  end.
Proof.
  unfold read_response. cbv zeta.
  repeat case_match; simplify_eq/=;
    rewrite ?andb_true_iff, ?andb_false_iff, ?orb_true_iff, ?orb_false_iff, ?Z.leb_le,
      ?Z.leb_gt, ?Z.ltb_lt, ?Z.ltb_ge, ?Z.eqb_eq, ?Z.eqb_neq in *; try lia;
    repeat split; intros; simplify_eq/=; rewrite ?elem_of_list_In in *; simpl in *;
    try set_solver by lia; try lia; try naive_solver lia.
Qed.
