(* ===== verification/AdminApi.v ===== *)
(** * Admin API resources (internal/keycloak/resources.go)

    One definition per method: the method, path and body it sends through [Do] and what it
    does with the answer. *)

From Stdlib Require Import ZArith Lia.
From stdpp Require Import base gmap strings list.
From S2P Require Import Prelude Json JsonText GoError LastApplied ApiTypes World Logic Url HttpClient.

Local Open Scope string_scope.
Local Open Scope list_scope.

Definition realmPath (realm : string) : string := "/admin/realms/" +:+ PathEscape realm.

(** A list of representations as a request body. *)
Definition reps_json (l : list rep) : json := JArr (JObj <$> l).

(** ** Paths *)

Definition clients_path (realm : string) : string := realmPath realm +:+ "/clients".
Definition client_path (realm id : string) : string :=
  realmPath realm +:+ "/clients/" +:+ PathEscape id.
Definition client_query_path (realm clientID : string) : string :=
  realmPath realm +:+ "/clients?clientId=" +:+ QueryEscape clientID.
Definition client_secret_path (realm id : string) : string :=
  client_path realm id +:+ "/client-secret".
Definition scopes_path (realm : string) : string := realmPath realm +:+ "/client-scopes".
Definition scope_path (realm id : string) : string :=
  realmPath realm +:+ "/client-scopes/" +:+ PathEscape id.
Definition assignments_path (realm clientID kind : string) : string :=
  client_path realm clientID +:+ "/" +:+ kind.
Definition assignment_path (realm clientID kind scopeID : string) : string :=
  assignments_path realm clientID kind +:+ "/" +:+ PathEscape scopeID.
Definition roles_path (realm : string) : string := realmPath realm +:+ "/roles".
Definition role_path (realm name : string) : string :=
  realmPath realm +:+ "/roles/" +:+ PathEscape name.
Definition composites_path (realm name : string) : string := role_path realm name +:+ "/composites".
Definition client_role_path (realm clientUUID name : string) : string :=
  client_path realm clientUUID +:+ "/roles/" +:+ PathEscape name.
Definition idps_path (realm : string) : string := realmPath realm +:+ "/identity-provider/instances".
Definition idp_path (realm alias : string) : string :=
  realmPath realm +:+ "/identity-provider/instances/" +:+ PathEscape alias.
Definition mappers_path (realm alias : string) : string := idp_path realm alias +:+ "/mappers".
Definition mapper_path (realm alias mapperID : string) : string :=
  mappers_path realm alias +:+ "/" +:+ PathEscape mapperID.
Definition groups_path (realm : string) : string := realmPath realm +:+ "/groups".
Definition group_path (realm id : string) : string :=
  realmPath realm +:+ "/groups/" +:+ PathEscape id.
Definition group_query_path (realm name : string) : string :=
  realmPath realm +:+ "/groups?search=" +:+ QueryEscape name +:+ "&exact=true&max=2".
Definition role_mappings_path (realm groupID : string) : string :=
  group_path realm groupID +:+ "/role-mappings".
Definition realm_mappings_path (realm groupID : string) : string :=
  role_mappings_path realm groupID +:+ "/realm".
Definition client_mappings_path (realm groupID clientUUID : string) : string :=
  role_mappings_path realm groupID +:+ "/clients/" +:+ PathEscape clientUUID.

(** The [value] of a client-secret document. *)
Definition out_value : Out string :=
  mkOut "" (λ s, m ← unmarshal_map s; struct_string m "value").

Section Resources.
Context {St : Type} `{Env St}.
Variable c : Client.

(** *** Server *)

Definition ServerInfo : M St (GoError + rep) := Do c "GET" "/admin/serverinfo" None out_map.

(** *** Realms *)

Definition GetRealm (realm : string) : M St (GoError + rep) :=
  Do c "GET" (realmPath realm) None out_map.
Definition CreateRealm (payload : rep) : M St (GoError + ()) :=
  Do c "POST" "/admin/realms" (Some (JObj payload)) out_nil.
Definition UpdateRealm (realm : string) (payload : rep) : M St (GoError + ()) :=
  Do c "PUT" (realmPath realm) (Some (JObj payload)) out_nil.
Definition DeleteRealm (realm : string) : M St (GoError + ()) :=
  Do c "DELETE" (realmPath realm) None out_nil.

(** *** Clients *)

Definition FindClient (realm clientID : string) : M St (GoError + rep) :=
  try out ← Do c "GET" (client_query_path realm clientID) None out_maps;
  match list_find (λ r, field_is r "clientId" clientID = true) out with
  | Some (_, r) => mret (inr r)
  | None => mret (inl (Wrapped "" ErrNotFound (": client " +:+ q clientID)))
  end.
Definition CreateClient (realm : string) (payload : rep) : M St (GoError + ()) :=
  Do c "POST" (clients_path realm) (Some (JObj payload)) out_nil.
Definition UpdateClient (realm id : string) (payload : rep) : M St (GoError + ()) :=
  Do c "PUT" (client_path realm id) (Some (JObj payload)) out_nil.
Definition DeleteClient (realm id : string) : M St (GoError + ()) :=
  Do c "DELETE" (client_path realm id) None out_nil.
Definition GetClientSecret (realm id : string) : M St (GoError + string) :=
  Do c "GET" (client_secret_path realm id) None out_value.

(** *** Client scopes *)

Definition ListClientScopes (realm : string) : M St (GoError + list rep) :=
  Do c "GET" (scopes_path realm) None out_maps.
Definition FindClientScope (realm name : string) : M St (GoError + rep) :=
  try scopes ← ListClientScopes realm;
  match list_find (λ r, field_is r "name" name = true) scopes with
  | Some (_, r) => mret (inr r)
  | None => mret (inl (Wrapped "" ErrNotFound (": client scope " +:+ q name)))
  end.
Definition CreateClientScope (realm : string) (payload : rep) : M St (GoError + ()) :=
  Do c "POST" (scopes_path realm) (Some (JObj payload)) out_nil.
Definition UpdateClientScope (realm id : string) (payload : rep) : M St (GoError + ()) :=
  Do c "PUT" (scope_path realm id) (Some (JObj payload)) out_nil.
Definition DeleteClientScope (realm id : string) : M St (GoError + ()) :=
  Do c "DELETE" (scope_path realm id) None out_nil.

(** *** Client scope assignments *)

Definition listClientScopeAssignments (realm clientID kind : string) : M St (GoError + list rep) :=
  Do c "GET" (assignments_path realm clientID kind) None out_maps.
Definition assignClientScope (realm clientID kind scopeID : string) (add : bool)
    : M St (GoError + ()) :=
  Do c (if add then "PUT" else "DELETE") (assignment_path realm clientID kind scopeID) None out_nil.
Definition ClientDefaultScopeAssignments (realm clientID : string) : M St (GoError + list rep) :=
  listClientScopeAssignments realm clientID "default-client-scopes".
Definition AssignClientDefaultScope (realm clientID scopeID : string) (add : bool)
    : M St (GoError + ()) :=
  assignClientScope realm clientID "default-client-scopes" scopeID add.
Definition ClientOptionalScopeAssignments (realm clientID : string) : M St (GoError + list rep) :=
  listClientScopeAssignments realm clientID "optional-client-scopes".
Definition AssignClientOptionalScope (realm clientID scopeID : string) (add : bool)
    : M St (GoError + ()) :=
  assignClientScope realm clientID "optional-client-scopes" scopeID add.

(** *** Realm roles *)

Definition GetRole (realm name : string) : M St (GoError + rep) :=
  Do c "GET" (role_path realm name) None out_map.
Definition CreateRole (realm : string) (payload : rep) : M St (GoError + ()) :=
  Do c "POST" (roles_path realm) (Some (JObj payload)) out_nil.
Definition UpdateRole (realm name : string) (payload : rep) : M St (GoError + ()) :=
  Do c "PUT" (role_path realm name) (Some (JObj payload)) out_nil.
Definition DeleteRole (realm name : string) : M St (GoError + ()) :=
  Do c "DELETE" (role_path realm name) None out_nil.
Definition GetRoleComposites (realm name : string) : M St (GoError + list rep) :=
  Do c "GET" (composites_path realm name) None out_maps.
Definition AddRoleComposites (realm name : string) (roles : list rep) : M St (GoError + ()) :=
  Do c "POST" (composites_path realm name) (Some (reps_json roles)) out_nil.
Definition RemoveRoleComposites (realm name : string) (roles : list rep) : M St (GoError + ()) :=
  Do c "DELETE" (composites_path realm name) (Some (reps_json roles)) out_nil.
Definition GetClientRole (realm clientUUID name : string) : M St (GoError + rep) :=
  Do c "GET" (client_role_path realm clientUUID name) None out_map.

(** *** Identity providers *)

Definition GetIdentityProvider (realm alias : string) : M St (GoError + rep) :=
  Do c "GET" (idp_path realm alias) None out_map.
Definition CreateIdentityProvider (realm : string) (payload : rep) : M St (GoError + ()) :=
  Do c "POST" (idps_path realm) (Some (JObj payload)) out_nil.
Definition UpdateIdentityProvider (realm alias : string) (payload : rep) : M St (GoError + ()) :=
  Do c "PUT" (idp_path realm alias) (Some (JObj payload)) out_nil.
Definition ListIdentityProviderMappers (realm alias : string) : M St (GoError + list rep) :=
  Do c "GET" (mappers_path realm alias) None out_maps.
Definition CreateIdentityProviderMapper (realm alias : string) (payload : rep)
    : M St (GoError + ()) :=
  Do c "POST" (mappers_path realm alias) (Some (JObj payload)) out_nil.
Definition UpdateIdentityProviderMapper (realm alias mapperID : string) (payload : rep)
    : M St (GoError + ()) :=
  Do c "PUT" (mapper_path realm alias mapperID) (Some (JObj payload)) out_nil.
Definition DeleteIdentityProviderMapper (realm alias mapperID : string) : M St (GoError + ()) :=
  Do c "DELETE" (mapper_path realm alias mapperID) None out_nil.
Definition DeleteIdentityProvider (realm alias : string) : M St (GoError + ()) :=
  Do c "DELETE" (idp_path realm alias) None out_nil.

(** *** Groups *)

Definition GetGroup (realm id : string) : M St (GoError + rep) :=
  Do c "GET" (group_path realm id) None out_map.
Definition FindGroup (realm name : string) : M St (GoError + rep) :=
  try out ← Do c "GET" (group_query_path realm name) None out_maps;
  match list_find (λ r, field_is r "name" name = true) out with
  | Some (_, r) =>
      let id := field_or_empty r "id" in
      if String.eqb id "" then
        mret (inl (Wrapped "" ErrNotFound (": group " +:+ q name +:+ " has no id")))
      else GetGroup realm id
  | None => mret (inl (Wrapped "" ErrNotFound (": group " +:+ q name)))
  end.
Definition CreateGroup (realm : string) (payload : rep) : M St (GoError + ()) :=
  Do c "POST" (groups_path realm) (Some (JObj payload)) out_nil.
Definition UpdateGroup (realm id : string) (payload : rep) : M St (GoError + ()) :=
  Do c "PUT" (group_path realm id) (Some (JObj payload)) out_nil.
Definition DeleteGroup (realm id : string) : M St (GoError + ()) :=
  Do c "DELETE" (group_path realm id) None out_nil.

(** *** Group role mappings *)

Definition GetGroupRoleMappings (realm groupID : string) : M St (GoError + rep) :=
  Do c "GET" (role_mappings_path realm groupID) None out_map.
Definition AddGroupRealmRoles (realm groupID : string) (roles : list rep) : M St (GoError + ()) :=
  Do c "POST" (realm_mappings_path realm groupID) (Some (reps_json roles)) out_nil.
Definition RemoveGroupRealmRoles (realm groupID : string) (roles : list rep)
    : M St (GoError + ()) :=
  Do c "DELETE" (realm_mappings_path realm groupID) (Some (reps_json roles)) out_nil.
Definition AddGroupClientRoles (realm groupID clientUUID : string) (roles : list rep)
    : M St (GoError + ()) :=
  Do c "POST" (client_mappings_path realm groupID clientUUID) (Some (reps_json roles)) out_nil.
Definition RemoveGroupClientRoles (realm groupID clientUUID : string) (roles : list rep)
    : M St (GoError + ()) :=
  Do c "DELETE" (client_mappings_path realm groupID clientUUID) (Some (reps_json roles)) out_nil.
End Resources.

(** ** Where requests go *)

(** The path addresses the realm or something inside it. *)
Definition in_realm (realm path : string) : Prop :=
  path = realmPath realm ∨ ∃ rest, path = realmPath realm +:+ "/" +:+ rest.

(** Realm paths nest by realm only: no path is inside two realms. *)
Lemma in_realm_unique (r r' path : string) : in_realm r path → in_realm r' path → r = r'.
Proof.
  assert (∀ x, stops ("/" +:+ x)) as Hslash by done.
  assert (∀ x y u v, stops u → stops v →
    realmPath x +:+ u = realmPath y +:+ v → x = y) as Hinj.
  { unfold realmPath. intros x y u v Hu Hv E. rewrite !append_assoc in E.
    apply append_inj_l in E. by apply PathEscape_split in E as [? _]. }
  assert (∀ x, realmPath x = realmPath x +:+ "") as Hnil by (intros; by rewrite append_nil_r).
  intros [-> |[u ->]] [E|[v E]].
  - rewrite (Hnil r), (Hnil r') in E. by eapply Hinj; [| |exact E].
  - rewrite (Hnil r) in E. by eapply Hinj; [| |exact E].
  - rewrite (Hnil r') in E. by eapply Hinj; [| |exact E].
  - by eapply Hinj; [| |exact E].
Qed.

(** The request is sent to the server of [c], inside [realm]. *)
Definition scoped (c : Client) (realm : string) (r : HttpRequest) : Prop :=
  rq_base r = cfg_URL (cl_cfg c) ∧ in_realm realm (rq_path r).

(** The one request that goes to the collection of realms: the creation of [realm], with a
    representation that carries this name. *)
Definition creates_realm (c : Client) (realm : string) (r : HttpRequest) : Prop :=
  rq_base r = cfg_URL (cl_cfg c) ∧ rq_path r = "/admin/realms" ∧ rq_method r = "POST" ∧
  ∃ p : rep, rq_body r = marshal (JObj p) ∧ p !! "realm" = Some (JStr realm).

Lemma in_realm_sub (realm rest : string) : in_realm realm (realmPath realm +:+ "/" +:+ rest).
Proof. right. by exists rest. Qed.

(** Solves [in_realm] for the paths of this file. *)
Ltac solve_in_realm :=
  first [ by left
        | right; eexists;
          unfold assignment_path, assignments_path, client_secret_path, composites_path,
            client_role_path, mapper_path, mappers_path, realm_mappings_path,
            client_mappings_path, role_mappings_path, client_path, clients_path,
            client_query_path, scopes_path, scope_path, roles_path, role_path, idps_path,
            idp_path, groups_path, group_path, group_query_path;
          rewrite ?append_assoc; reflexivity ].
#[export] Hint Extern 1 (in_realm _ _) => solve_in_realm : operator.

(** A bearer token marks an Admin API request; the others change nothing on the server. *)
Definition admin_write (a : Action) : Prop :=
  match a with
  | Http r => rq_authorization r ≠ "" ∧ rq_method r ≠ "GET"
  | _ => False
  end.

(** What a driver may do for a resource in namespace [ns] that targets [realm] on the server
    of [c]: token requests, requests inside the realm (reads only, unless [writes]), reads
    of Secrets and, with [writes], changes to Secrets of that namespace. *)
Definition driver_act (c : Client) (ns realm : string) (writes : bool) (a : Action) : Prop :=
  match a with
  | Http r => r = token_request (cl_cfg c) ∨
      scoped c realm r ∧ (writes = false → rq_method r = "GET")
  | KubeGet resource ns' _ => resource = "secrets" ∧ ns' = ns
  | SecretCreate s | SecretUpdate s => writes = true ∧ GetNamespace (Secret_Meta s) = ns
  | Metric _ _ _ => True
  | _ => False
  end.

Lemma driver_act_writes (c : Client) (ns realm : string) (a : Action) :
  driver_act c ns realm false a → driver_act c ns realm true a.
Proof. destruct a; simpl; naive_solver. Qed.

Lemma driver_act_reads (c : Client) (ns realm : string) (a : Action) :
  driver_act c ns realm false a → ¬ admin_write a.
Proof. destruct a; simpl; [|tauto..]. intros [-> |[_ ->]] [Ha Hm]; [by apply Ha|by apply Hm|done]. Qed.

Section Scoping.
Context {St : Type} `{Env St}.

Lemma Do_scoped {A} (c : Client) (ns realm method path : string) (b : bool) (body : option json)
    (out : Out A) :
  in_realm realm path → (b = false → method = "GET") →
  safe (driver_act c ns realm b) (Do (St := St) c method path body out).
Proof. intros Hp Hm. apply Do_safe; simpl; [by left|by right; repeat split|done]. Qed.

Lemma Do_reads {A} (c : Client) (ns realm path : string) (b : bool) (out : Out A) :
  in_realm realm path →
  safe (driver_act c ns realm b) (Do (St := St) c "GET" path None out).
Proof. intros. by apply Do_scoped. Qed.

Lemma Do_writes {A} (c : Client) (ns realm method path : string) (body : option json)
    (out : Out A) :
  in_realm realm path →
  safe (driver_act c ns realm true) (Do (St := St) c method path body out).
Proof. intros. by apply Do_scoped. Qed.
End Scoping.

#[export] Hint Resolve Do_reads Do_writes : operator.

(** ** Theorems *)

(** A collection of a realm followed by an escaped name. *)
Lemma sub_path_inj (r r' mid a b : string) :
  (∀ x, stops (mid +:+ x)) →
  realmPath r +:+ mid +:+ PathEscape a = realmPath r' +:+ mid +:+ PathEscape b → r = r' ∧ a = b.
Proof.
  unfold realmPath. rewrite !append_assoc. intros Hmid E%append_inj_l.
  apply PathEscape_split in E as [-> E]; [|apply Hmid..]. split; [done|].
  apply append_inj_l in E. by apply (inj PathEscape).
Qed.

(** Names address what they name.  The path of a client, client scope, role, identity
    provider or group determines the realm and the name or id it was built from, whatever
    characters they contain, and no request path lies in two realms: no name can reach
    another realm or another resource. *)
Lemma paths_separate (r r' a b p : string) :
  (in_realm r p → in_realm r' p → r = r') ∧
  (client_path r a = client_path r' b → r = r' ∧ a = b) ∧
  (scope_path r a = scope_path r' b → r = r' ∧ a = b) ∧
  (role_path r a = role_path r' b → r = r' ∧ a = b) ∧
  (idp_path r a = idp_path r' b → r = r' ∧ a = b) ∧
  (group_path r a = group_path r' b → r = r' ∧ a = b).
Proof.
  split; [apply in_realm_unique|].
  split_and!; intros E; (eapply sub_path_inj; [|exact E]); done.
Qed.
