(* ===== verification/FakeServer.v ===== *)
(** * The fake Admin API server (internal/keycloak/fake/server.go)

    The in-memory Keycloak the tests run against.  A handler is a function from the
    server's state to an answer and the new state; [None] is a panic, after which net/http
    closes the connection.  Requests are served one at a time, as the mutex has it.

    A Go map that may be nil is a [gomap].  The field [composites] of a role is either what
    a request stored ([[]any]) or the typed list ([[]map[string]any]) the composites endpoint
    stores, and the endpoint reads only the latter: a [Role] keeps the two apart.  The
    order in which a handler visits a map is [ord], any function that permutes a list.

    Of net/http the model has what the handlers see: the decoded path and query, the form,
    the headers they read, and the redirects of [ServeMux] as status 301.  A redirect is an
    answer like another: the client of the model does not follow it.  Only an empty name
    or one that is a dot segment makes a path that is redirected. *)

From Stdlib Require Import Ascii ZArith Lia.
From stdpp Require Import base gmap strings list.
From S2P Require Import Prelude Json JsonText GoError LastApplied ApiTypes World Logic Url HttpClient.

Local Open Scope string_scope.
Local Open Scope list_scope.

(** ** State *)

(** A [map[string]any] that may be nil. *)
Abbreviation gomap := (option rep).

Definition gm_get (m : gomap) (k : string) : json := default JNull (m ≫= lookup k).
Definition gm_json (m : gomap) : json := match m with Some m => JObj m | None => JNull end.

(** A slice; the slices of this file are nil exactly when they are empty. *)
Definition slice_json (l : list json) : json := match l with [] => JNull | _ => JArr l end.

Record Role := mkRole { role_rep : rep; role_composites : option (list gomap) }.

Record Server := mkServer {
  creds : gmap string string;
  issued : Z;
  revoked : bool;
  realms : gmap string rep;
  clients : gmap string (gmap string rep);
  scopes : gmap string (gmap string rep);
  roles : gmap string (gmap string Role);
  clientRoles : gmap string (gmap string (gmap string rep));
  idps : gmap string (gmap string gomap);
  groups : gmap string (gmap string rep);
  groupRR : gmap string (gmap string (list gomap));
  groupCR : gmap string (gmap string (gmap string (list gomap)));
  defScope : gmap string (gmap string (list string));
  optScope : gmap string (gmap string (list string));
}.

Definition set_token (n : Z) (b : bool) (s : Server) : Server :=
  mkServer (creds s) n b (realms s) (clients s) (scopes s) (roles s) (clientRoles s) (idps s)
    (groups s) (groupRR s) (groupCR s) (defScope s) (optScope s).
Definition set_realms (x : gmap string rep) (s : Server) : Server :=
  mkServer (creds s) (issued s) (revoked s) x (clients s) (scopes s) (roles s) (clientRoles s)
    (idps s) (groups s) (groupRR s) (groupCR s) (defScope s) (optScope s).
Definition set_clients (x : gmap string (gmap string rep)) (s : Server) : Server :=
  mkServer (creds s) (issued s) (revoked s) (realms s) x (scopes s) (roles s) (clientRoles s)
    (idps s) (groups s) (groupRR s) (groupCR s) (defScope s) (optScope s).
Definition set_scopes (x : gmap string (gmap string rep)) (s : Server) : Server :=
  mkServer (creds s) (issued s) (revoked s) (realms s) (clients s) x (roles s) (clientRoles s)
    (idps s) (groups s) (groupRR s) (groupCR s) (defScope s) (optScope s).
Definition set_roles (x : gmap string (gmap string Role)) (s : Server) : Server :=
  mkServer (creds s) (issued s) (revoked s) (realms s) (clients s) (scopes s) x (clientRoles s)
    (idps s) (groups s) (groupRR s) (groupCR s) (defScope s) (optScope s).
Definition set_clientRoles (x : gmap string (gmap string (gmap string rep))) (s : Server) : Server :=
  mkServer (creds s) (issued s) (revoked s) (realms s) (clients s) (scopes s) (roles s) x
    (idps s) (groups s) (groupRR s) (groupCR s) (defScope s) (optScope s).
Definition set_idps (x : gmap string (gmap string gomap)) (s : Server) : Server :=
  mkServer (creds s) (issued s) (revoked s) (realms s) (clients s) (scopes s) (roles s)
    (clientRoles s) x (groups s) (groupRR s) (groupCR s) (defScope s) (optScope s).
Definition set_groups (x : gmap string (gmap string rep)) (s : Server) : Server :=
  mkServer (creds s) (issued s) (revoked s) (realms s) (clients s) (scopes s) (roles s)
    (clientRoles s) (idps s) x (groupRR s) (groupCR s) (defScope s) (optScope s).
Definition set_groupRR (x : gmap string (gmap string (list gomap))) (s : Server) : Server :=
  mkServer (creds s) (issued s) (revoked s) (realms s) (clients s) (scopes s) (roles s)
    (clientRoles s) (idps s) (groups s) x (groupCR s) (defScope s) (optScope s).
Definition set_groupCR (x : gmap string (gmap string (gmap string (list gomap)))) (s : Server)
    : Server :=
  mkServer (creds s) (issued s) (revoked s) (realms s) (clients s) (scopes s) (roles s)
    (clientRoles s) (idps s) (groups s) (groupRR s) x (defScope s) (optScope s).

(** [s.defScope] and [s.optScope], by the name of the endpoint. *)
Definition scope_store (optional : bool) (s : Server) : gmap string (gmap string (list string)) :=
  if optional then optScope s else defScope s.
Definition set_scope_store (optional : bool) (x : gmap string (gmap string (list string)))
    (s : Server) : Server :=
  mkServer (creds s) (issued s) (revoked s) (realms s) (clients s) (scopes s) (roles s)
    (clientRoles s) (idps s) (groups s) (groupRR s) (groupCR s)
    (if optional then defScope s else x) (if optional then x else optScope s).

(** [fake.New], and [Reset], which keeps the credentials and the token state. *)
Definition fake_New (username password : string) : Server :=
  mkServer {[username := password]} 0 false ∅ ∅ ∅ ∅ ∅ ∅ ∅ ∅ ∅ ∅ ∅.
Definition Reset (s : Server) : Server :=
  mkServer (creds s) (issued s) (revoked s) ∅ ∅ ∅ ∅ ∅ ∅ ∅ ∅ ∅ ∅ ∅.
Definition RevokeTokens (s : Server) : Server := set_token (issued s) true s.

(** A collection of a realm, nil when there is none. *)
Definition of_realm {A} (x : gmap string (gmap string A)) (realm : string) : gmap string A :=
  default ∅ (x !! realm).
(** [if x[realm] == nil { x[realm] = map...{} }; x[realm][k] = v]. *)
Definition put {A} (x : gmap string (gmap string A)) (realm k : string) (v : A)
    : gmap string (gmap string A) := <[realm := <[k := v]> (of_realm x realm)]> x.
(** [delete(x[realm], k)]. *)
Definition remove_from {A} (x : gmap string (gmap string A)) (realm k : string)
    : gmap string (gmap string A) := alter (delete k) realm x.

(** ** Requests and answers *)

Record Request := mkRequest {
  r_Method : string;
  r_Path : string;
  r_Query : string;
  r_Authorization : string;
  r_ContentType : string;
  r_Body : string;
}.

Definition Answer : Type := option HttpResponse * Server.

Definition respond (code : Z) (body : string) (s : Server) : Answer :=
  (Some (mkHttpResponse code body), s).
Definition newline : string := String "010" "".
(** [http.Error], [http.NotFound], [w.WriteHeader]. *)
Definition http_Error (code : Z) (msg : string) (s : Server) : Answer := respond code (msg +:+ newline) s.
Definition NotFound (s : Server) : Answer := http_Error 404 "404 page not found" s.
Definition WriteHeader (code : Z) (s : Server) : Answer := respond code "" s.
Definition MethodNotAllowed (s : Server) : Answer := WriteHeader 405 s.
(** A run-time panic: the connection is closed without an answer. *)
Definition abort (s : Server) : Answer := (None, s).

(** [writeJSON]: the encoder ends a document with a newline. *)
Definition writeJSON (body : json) (s : Server) : Answer := respond 200 (marshal body +:+ newline) s.
Definition reps_out (l : list rep) : json := slice_json (JObj <$> l).
Definition gomaps_out (l : list gomap) : json := slice_json (gm_json <$> l).

(** [decode] into a map and into a slice of maps: the first document of the body. *)
Definition decode_map (body : string) : option gomap :=
  match decode_first body with
  | Some (JObj m, _) => Some (Some m)
  | Some (JNull, _) => Some None
  | _ => None
  end.
Definition as_gomap (j : json) : option gomap :=
  match j with JObj m => Some (Some m) | JNull => Some None | _ => None end.
Definition decode_maps (body : string) : option (list gomap) :=
  match decode_first body with
  | Some (JArr l, _) => mapM as_gomap l
  | Some (JNull, _) => Some []
  | _ => None
  end.
Definition bad_json (s : Server) : Answer := http_Error 400 ("bad json: " +:+ Error JSONError) s.

(** [if !s.decode(w, r, &payload) { return }]. *)
Definition with_map (r : Request) (s : Server) (f : gomap → Answer) : Answer :=
  match decode_map (r_Body r) with Some m => f m | None => bad_json s end.
Definition with_maps (r : Request) (s : Server) (f : list gomap → Answer) : Answer :=
  match decode_maps (r_Body r) with Some l => f l | None => bad_json s end.
(** A payload that is written to: a panic when it is nil. *)
Definition with_nonnil (m : gomap) (s : Server) (f : rep → Answer) : Answer :=
  match m with Some m => f m | None => abort s end.

(** [name, _ := payload[k].(string)]. *)
Definition gm_string (m : gomap) (k : string) : string := default "" (as_string (gm_get m k)).

(** ** Helpers *)

(** [merge(dst, src)]. *)
Definition merge (dst src : rep) : rep := src ∪ dst.

Definition appendUnique (l : list string) (value : string) : list string :=
  if bool_decide (value ∈ l) then l else l ++ [value].
Definition removeValue (l : list string) (value : string) : list string :=
  filter (λ v, v ≠ value) l.

(** [a == b] on two values of type [any]: a panic when both are maps or both are slices. *)
Definition any_eq (a b : json) : option bool :=
  match a, b with
  | JObj _, JObj _ | JArr _, JArr _ => None
  | _, _ => Some (bool_decide (a = b))
  end.

(** Whether one of [l] has the id of [x]; the loop stops at the first that does. *)
Fixpoint has_id (x : gomap) (l : list gomap) : option bool :=
  match l with
  | [] => Some false
  | y :: l' =>
      match any_eq (gm_get y "id") (gm_get x "id") with
      | None => None
      | Some true => Some true
      | Some false => has_id x l'
      end
  end.

(** The additions are compared with the list as it was, not with each other. *)
Fixpoint appendUniqueReps_loop (current out add : list gomap) : option (list gomap) :=
  match add with
  | [] => Some out
  | x :: add' =>
      found ← has_id x current;
      appendUniqueReps_loop current (if found : bool then out else out ++ [x]) add'
  end.
Definition appendUniqueReps (current add : list gomap) : option (list gomap) :=
  appendUniqueReps_loop current current add.

Fixpoint removeReps (current remove : list gomap) : option (list gomap) :=
  match current with
  | [] => Some []
  | x :: current' =>
      dropped ← has_id x remove;
      out ← removeReps current' remove;
      Some (if dropped : bool then out else x :: out)
  end.

(** A role as it is encoded: the typed composites are a field of the map. *)
Definition role_map (x : Role) : rep :=
  match role_composites x with
  | Some l => <["composites" := gomaps_out l]> (role_rep x)
  | None => role_rep x
  end.
(** [merge(role, payload)]: composites from a payload are not the typed list. *)
Definition merge_role (x : Role) (payload : rep) : Role :=
  mkRole (merge (role_rep x) payload)
    (if payload !! "composites" is Some _ then None else role_composites x).
Definition with_composites (x : Role) (l : list gomap) : Role :=
  mkRole (role_rep x) (Some l).

(** The result of a list operation that may have panicked. *)
Definition unless_panic {A} (o : option A) (s : Server) (f : A → Answer) : Answer :=
  match o with Some a => f a | None => abort s end.

(** ** Handlers *)

(** [sub[i] == k], for an index the code has checked. *)
Definition at_is (sub : list string) (i : nat) (k : string) : bool :=
  String.eqb (default "" (sub !! i)) k.
Definition len_is (sub : list string) (n : nat) : bool := Nat.eqb (length sub) n.
Definition len_min (sub : list string) (n : nat) : bool := Nat.leb n (length sub).

Section Handlers.
(** The order in which a map is visited while this request is served. *)
Variable ord : ∀ A : Type, list A → list A.
Arguments ord {A}.

Definition entries {A} (m : gmap string A) : list (string * A) := ord (map_to_list m).

(** [for id, rep := range m { if keep(rep) { rep["id"] = id; out = append(out, rep) } }]. *)
Definition with_id (id : string) (m : rep) : rep := <["id" := JStr id]> m.
Definition list_with_ids (keep : rep → bool) (m : gmap string rep) : list rep :=
  (λ e, with_id e.1 e.2) <$> filter (λ e, keep e.2 = true) (entries m).
Definition store_with_ids (keep : rep → bool) (m : gmap string rep) : gmap string rep :=
  map_imap (λ id x, Some (if keep x then with_id id x else x)) m.

(** [for _, rep := range m { if rep[k] == v { ... } }]. *)
Definition some_has (k v : string) (m : gmap string rep) : bool :=
  existsb (λ e, field_is e.2 k v) (entries m).

Definition handleToken (r : Request) (s : Server) : Answer :=
  if negb (HasSuffix (r_Path r) "/protocol/openid-connect/token") then NotFound s
  else
    let form := if bool_decide (r_Method r ∈ ["POST"; "PUT"; "PATCH"]) &&
                   String.eqb (r_ContentType r) "application/x-www-form-urlencoded"
                then ParseQuery (r_Body r) else [] in
    let username := Values_Get form "username" in
    let password := Values_Get form "password" in
    let clientID := Values_Get form "client_id" in
    let clientSecret := Values_Get form "client_secret" in
    let invalid := "{" +:+ q "error" +:+ ":" +:+ q "invalid_grant" +:+ "}" in
    if revoked s then http_Error 401 invalid (set_token (issued s) false s)
    else
      let ok :=
        if negb (String.eqb username "") then
          String.eqb (default "" (creds s !! username)) password
        else if negb (String.eqb clientID "") then
          String.eqb (default "" (creds s !! ("client:" +:+ clientID))) clientSecret
        else false in
      if negb ok then http_Error 401 invalid s
      else
        let s := set_token (wrap64 (issued s + 1)) (revoked s) s in
        writeJSON (JObj {["access_token" := JStr ("fake-token-" +:+ print_Z (issued s));
                          "expires_in" := JNum (default f64_zero (f64_of_Z 300));
                          "token_type" := JStr "Bearer"]}) s.

Definition createRealm (r : Request) (s : Server) : Answer :=
  with_map r s (λ payload,
    let name := gm_string payload "realm" in
    if String.eqb name "" then http_Error 400 "realm name required" s
    else with_nonnil payload s (λ payload,
      if bool_decide (is_Some (realms s !! name)) then http_Error 409 "realm exists" s
      else WriteHeader 201 (set_realms (<[name := with_id name payload]> (realms s)) s))).

Definition handleRealm (r : Request) (realm : string) (s : Server) : Answer :=
  if String.eqb (r_Method r) "GET" then
    match realms s !! realm with
    | None => NotFound s
    | Some x => writeJSON (JObj x) s
    end
  else if String.eqb (r_Method r) "PUT" then
    with_map r s (λ payload,
      match realms s !! realm with
      | None => NotFound s
      | Some x =>
          WriteHeader 204 (set_realms (<[realm := merge x (default ∅ payload)]> (realms s)) s)
      end)
  else if String.eqb (r_Method r) "DELETE" then
    if bool_decide (is_Some (realms s !! realm)) then
      WriteHeader 204 (set_realms (delete realm (realms s)) s)
    else NotFound s
  else MethodNotAllowed s.

(** *** Clients *)

Definition clients_collection (r : Request) (realm : string) (s : Server) : Answer :=
  if String.eqb (r_Method r) "GET" then
    let clientID := Values_Get (ParseQuery (r_Query r)) "clientId" in
    let keep x := String.eqb clientID "" || field_is x "clientId" clientID in
    let out := list_with_ids keep (of_realm (clients s) realm) in
    writeJSON (reps_out out) (set_clients (alter (store_with_ids keep) realm (clients s)) s)
  else if String.eqb (r_Method r) "POST" then
    with_map r s (λ payload,
      let clientID := gm_string payload "clientId" in
      if String.eqb clientID "" then http_Error 400 "clientId required" s
      else if some_has "clientId" clientID (of_realm (clients s) realm)
      then http_Error 409 "client exists" s
      else with_nonnil payload s (λ payload,
        let id := "client-" +:+ clientID in
        WriteHeader 201 (set_clients (put (clients s) realm id (with_id id payload)) s)))
  else MethodNotAllowed s.

Definition client_role (realm id roleName : string) (s : Server) : Answer :=
  match PathUnescape roleName with
  | None => NotFound s
  | Some roleName =>
      match of_realm (clientRoles s) realm !! id ≫= lookup roleName with
      | Some x => writeJSON (JObj x) s
      | None => NotFound s
      end
  end.

Definition client_roles_collection (r : Request) (realm id : string) (s : Server) : Answer :=
  if String.eqb (r_Method r) "POST" then
    with_map r s (λ payload,
      let name := gm_string payload "name" in
      let rid := "clientrole-" +:+ id +:+ "-" +:+ name in
      with_nonnil payload s (λ payload,
        let store := default ∅ (of_realm (clientRoles s) realm !! id) in
        WriteHeader 201
          (set_clientRoles (put (clientRoles s) realm id (<[name := with_id rid payload]> store)) s)))
  else MethodNotAllowed s.

Definition client_secret (r : Request) (realm id : string) (s : Server) : Answer :=
  let answer secret := writeJSON (JObj {["type" := JStr "secret"; "value" := JStr secret]}) in
  match of_realm (clients s) realm !! id with
  | None => NotFound s
  | Some x =>
      if String.eqb (r_Method r) "GET" then answer (field_or_empty x "secret") s
      else if String.eqb (r_Method r) "POST" then
        let secret := "regenerated-" +:+ id in
        answer secret (set_clients (put (clients s) realm id (<["secret" := JStr secret]> x)) s)
      else MethodNotAllowed s
  end.

(** [sub[2]] panics when the path has no scope id; a nil store panics when it is written. *)
Definition client_scopes_handler (r : Request) (realm id : string) (optional : bool)
    (sub : list string) (s : Server) : Answer :=
  let store := scope_store optional s in
  if String.eqb (r_Method r) "GET" then
    writeJSON (reps_out (omap (λ scopeID, of_realm (scopes s) realm !! scopeID)
      (default [] (of_realm store realm !! id)))) s
  else if String.eqb (r_Method r) "PUT" then
    match sub !! 2 with
    | None => abort s
    | Some scopeID =>
        if bool_decide (is_Some (of_realm (scopes s) realm !! scopeID)) then
          WriteHeader 204 (set_scope_store optional
            (put store realm id (appendUnique (default [] (of_realm store realm !! id)) scopeID)) s)
        else NotFound s
    end
  else if String.eqb (r_Method r) "DELETE" then
    match sub !! 2 with
    | None => NotFound s
    | Some scopeID =>
        match store !! realm with
        | None => abort s
        | Some m =>
            WriteHeader 204 (set_scope_store optional
              (put store realm id (removeValue (default [] (m !! id)) scopeID)) s)
        end
    end
  else MethodNotAllowed s.

Definition client_item (r : Request) (realm id : string) (s : Server) : Answer :=
  match of_realm (clients s) realm !! id with
  | None => NotFound s
  | Some x =>
      if String.eqb (r_Method r) "GET" then writeJSON (JObj x) s
      else if String.eqb (r_Method r) "PUT" then
        with_map r s (λ payload,
          WriteHeader 204 (set_clients (put (clients s) realm id (merge x (default ∅ payload))) s))
      else if String.eqb (r_Method r) "DELETE" then
        WriteHeader 204 (set_clients (remove_from (clients s) realm id) s)
      else MethodNotAllowed s
  end.

Definition handleClients (r : Request) (realm : string) (sub : list string) (s : Server) : Answer :=
  if negb (bool_decide (is_Some (realms s !! realm))) then NotFound s
  else match sub with
       | [] => clients_collection r realm s
       | id :: _ =>
           if len_is sub 3 && at_is sub 1 "roles" then
             client_role realm id (default "" (sub !! 2)) s
           else if len_is sub 2 && at_is sub 1 "roles" then client_roles_collection r realm id s
           else if len_is sub 2 && at_is sub 1 "client-secret" then client_secret r realm id s
           else if len_min sub 2 &&
                   (at_is sub 1 "default-client-scopes" || at_is sub 1 "optional-client-scopes")
           then client_scopes_handler r realm id (at_is sub 1 "optional-client-scopes") sub s
           else client_item r realm id s
       end.

(** *** Client scopes *)

Definition handleClientScopes (r : Request) (realm : string) (sub : list string) (s : Server)
    : Answer :=
  if negb (bool_decide (is_Some (realms s !! realm))) then NotFound s
  else match sub with
  | [] =>
      if String.eqb (r_Method r) "GET" then
        let keep _ := true in
        let out := list_with_ids keep (of_realm (scopes s) realm) in
        writeJSON (reps_out out) (set_scopes (alter (store_with_ids keep) realm (scopes s)) s)
      else if String.eqb (r_Method r) "POST" then
        with_map r s (λ payload,
          let name := gm_string payload "name" in
          if some_has "name" name (of_realm (scopes s) realm) then http_Error 409 "scope exists" s
          else with_nonnil payload s (λ payload,
            let id := "scope-" +:+ name in
            WriteHeader 201 (set_scopes (put (scopes s) realm id (with_id id payload)) s)))
      else MethodNotAllowed s
  | id :: _ =>
      match of_realm (scopes s) realm !! id with
      | None => NotFound s
      | Some x =>
          if String.eqb (r_Method r) "GET" then writeJSON (JObj x) s
          else if String.eqb (r_Method r) "PUT" then
            with_map r s (λ payload,
              WriteHeader 204 (set_scopes (put (scopes s) realm id (merge x (default ∅ payload))) s))
          else if String.eqb (r_Method r) "DELETE" then
            WriteHeader 204 (set_scopes (remove_from (scopes s) realm id) s)
          else MethodNotAllowed s
      end
  end.

(** *** Realm roles *)

Definition roles_collection (r : Request) (realm : string) (s : Server) : Answer :=
  if String.eqb (r_Method r) "POST" then
    with_map r s (λ payload,
      let name := gm_string payload "name" in
      if bool_decide (is_Some (of_realm (roles s) realm !! name)) then
        http_Error 409 "role exists" s
      else with_nonnil payload s (λ payload,
        WriteHeader 201
          (set_roles (put (roles s) realm name (mkRole (with_id ("role-" +:+ name) payload) None)) s)))
  else MethodNotAllowed s.

Definition role_composites_handler (r : Request) (realm name : string) (s : Server) : Answer :=
  match of_realm (roles s) realm !! name with
  | None => NotFound s
  | Some role =>
      let current := default [] (role_composites role) in
      if String.eqb (r_Method r) "GET" then writeJSON (gomaps_out current) s
      else if String.eqb (r_Method r) "POST" then
        with_maps r s (λ payload,
          let marked := mkRole (<["composite" := JBool true]> (role_rep role)) (role_composites role) in
          let s := set_roles (put (roles s) realm name marked) s in
          unless_panic (appendUniqueReps current payload) s (λ l,
            WriteHeader 204 (set_roles (put (roles s) realm name (with_composites marked l)) s)))
      else if String.eqb (r_Method r) "DELETE" then
        with_maps r s (λ payload,
          unless_panic (removeReps current payload) s (λ l,
            WriteHeader 204 (set_roles (put (roles s) realm name (with_composites role l)) s)))
      else MethodNotAllowed s
  end.

Definition role_item (r : Request) (realm name : string) (s : Server) : Answer :=
  match of_realm (roles s) realm !! name with
  | None => NotFound s
  | Some role =>
      if String.eqb (r_Method r) "GET" then writeJSON (JObj (role_map role)) s
      else if String.eqb (r_Method r) "PUT" then
        with_map r s (λ payload,
          WriteHeader 204
            (set_roles (put (roles s) realm name (merge_role role (default ∅ payload))) s))
      else if String.eqb (r_Method r) "DELETE" then
        WriteHeader 204 (set_roles (remove_from (roles s) realm name) s)
      else MethodNotAllowed s
  end.

Definition handleRoles (r : Request) (realm : string) (sub : list string) (s : Server) : Answer :=
  if negb (bool_decide (is_Some (realms s !! realm))) then NotFound s
  else match sub with
       | [] => roles_collection r realm s
       | name :: _ =>
           if len_is sub 2 && at_is sub 1 "composites" then role_composites_handler r realm name s
           else role_item r realm name s
       end.

(** *** Identity providers *)

(** A nil payload is stored as it is; writing to it later panics. *)
Definition merge_gomap (x payload : gomap) : option gomap :=
  match x with
  | Some m => Some (Some (merge m (default ∅ payload)))
  | None => if bool_decide (default ∅ payload = ∅) then Some None else None
  end.

Definition handleIdentityProviders (r : Request) (realm : string) (sub : list string) (s : Server)
    : Answer :=
  if negb (bool_decide (is_Some (realms s !! realm))) then NotFound s
  else match sub with
  | [] =>
      if String.eqb (r_Method r) "POST" then
        with_map r s (λ payload,
          let alias := gm_string payload "alias" in
          if bool_decide (is_Some (of_realm (idps s) realm !! alias)) then
            http_Error 409 "idp exists" s
          else WriteHeader 201 (set_idps (put (idps s) realm alias payload) s))
      else MethodNotAllowed s
  | alias :: _ =>
      match of_realm (idps s) realm !! alias with
      | None => NotFound s
      | Some x =>
          if String.eqb (r_Method r) "GET" then writeJSON (gm_json x) s
          else if String.eqb (r_Method r) "PUT" then
            with_map r s (λ payload,
              unless_panic (merge_gomap x payload) s (λ x,
                WriteHeader 204 (set_idps (put (idps s) realm alias x) s)))
          else if String.eqb (r_Method r) "DELETE" then
            WriteHeader 204 (set_idps (remove_from (idps s) realm alias) s)
          else MethodNotAllowed s
      end
  end.

(** *** Groups *)

Definition groups_collection (r : Request) (realm : string) (s : Server) : Answer :=
  if String.eqb (r_Method r) "GET" then
    let search := Values_Get (ParseQuery (r_Query r)) "search" in
    let keep x := String.eqb search "" || field_is x "name" search in
    let out := list_with_ids keep (of_realm (groups s) realm) in
    writeJSON (reps_out out) (set_groups (alter (store_with_ids keep) realm (groups s)) s)
  else if String.eqb (r_Method r) "POST" then
    with_map r s (λ payload,
      let name := gm_string payload "name" in
      if some_has "name" name (of_realm (groups s) realm) then http_Error 409 "group exists" s
      else with_nonnil payload s (λ payload,
        let id := "group-" +:+ name in
        WriteHeader 201 (set_groups (put (groups s) realm id (with_id id payload)) s)))
  else MethodNotAllowed s.

(** The change a request makes to a list of role mappings. *)
Definition mapped (r : Request) (current payload : list gomap) : option (list gomap) :=
  if String.eqb (r_Method r) "POST" then appendUniqueReps current payload
  else removeReps current payload.

Definition group_realm_mappings (r : Request) (realm id : string) (s : Server) : Answer :=
  let current := default [] (of_realm (groupRR s) realm !! id) in
  if String.eqb (r_Method r) "GET" then writeJSON (gomaps_out current) s
  else if bool_decide (r_Method r ∈ ["POST"; "DELETE"]) then
    with_maps r s (λ payload,
      unless_panic (mapped r current payload) s (λ l,
        WriteHeader 204 (set_groupRR (put (groupRR s) realm id l) s)))
  else MethodNotAllowed s.

(** [sub[3]] panics when the path has no client. *)
Definition group_client_mappings (r : Request) (realm id : string) (sub : list string) (s : Server)
    : Answer :=
  match sub !! 3 with
  | None => abort s
  | Some key =>
      let store := default ∅ (of_realm (groupCR s) realm !! id) in
      let current := default [] (store !! key) in
      if String.eqb (r_Method r) "GET" then writeJSON (gomaps_out current) s
      else if bool_decide (r_Method r ∈ ["POST"; "DELETE"]) then
        with_maps r s (λ payload,
          unless_panic (mapped r current payload) s (λ l,
            WriteHeader 204 (set_groupCR (put (groupCR s) realm id (<[key := l]> store)) s)))
      else MethodNotAllowed s
  end.

Definition group_item (r : Request) (realm id : string) (s : Server) : Answer :=
  match of_realm (groups s) realm !! id with
  | None => NotFound s
  | Some x =>
      if String.eqb (r_Method r) "GET" then writeJSON (JObj x) s
      else if String.eqb (r_Method r) "PUT" then
        with_map r s (λ payload,
          WriteHeader 204 (set_groups (put (groups s) realm id (merge x (default ∅ payload))) s))
      else if String.eqb (r_Method r) "DELETE" then
        WriteHeader 204 (set_groups (remove_from (groups s) realm id) s)
      else MethodNotAllowed s
  end.

Definition handleGroups (r : Request) (realm : string) (sub : list string) (s : Server) : Answer :=
  if negb (bool_decide (is_Some (realms s !! realm))) then NotFound s
  else match sub with
       | [] => groups_collection r realm s
       | id :: _ =>
           if len_min sub 3 && at_is sub 1 "role-mappings" &&
              (at_is sub 2 "realm" || at_is sub 2 "clients")
           then
             if negb (bool_decide (is_Some (of_realm (groups s) realm !! id))) then NotFound s
             else if at_is sub 2 "realm" then group_realm_mappings r realm id s
             else group_client_mappings r realm id sub s
           else group_item r realm id s
       end.

(** ** What the tests read *)

(** [clone]: through JSON and back. *)
Definition clone (m : gomap) : gomap := m ≫= λ m, unmarshal_map (marshal (JObj m)).

(** The first entry visited whose field [k] is [v]. *)
Definition find_by (k v : string) (m : gmap string rep) : option (string * rep) :=
  snd <$> list_find (λ e, field_is e.2 k v = true) (entries m).

Definition SetRealmField (realm key : string) (value : json) (s : Server) : Server :=
  match realms s !! realm with
  | Some x => set_realms (<[realm := <[key := value]> x]> (realms s)) s
  | None => s
  end.
(** A copy of what a lookup found, and whether it found something. *)
Definition copied (x : option gomap) : gomap * bool :=
  (clone (x ≫= id), bool_decide (is_Some x)).
Definition server_Realm (s : Server) (name : string) : gomap * bool :=
  copied (Some <$> realms s !! name).
Definition server_Client (s : Server) (realm clientID : string) : gomap * bool :=
  copied ((λ e, Some e.2) <$> find_by "clientId" clientID (of_realm (clients s) realm)).
Definition server_ClientScope (s : Server) (realm name : string) : gomap * bool :=
  copied ((λ e, Some e.2) <$> find_by "name" name (of_realm (scopes s) realm)).
Definition server_Role (s : Server) (realm name : string) : gomap * bool :=
  copied ((λ x, Some (role_map x)) <$> of_realm (roles s) realm !! name).
Definition server_IdentityProvider (s : Server) (realm alias : string) : gomap * bool :=
  copied (of_realm (idps s) realm !! alias).
Definition server_Group (s : Server) (realm name : string) : gomap * bool :=
  copied ((λ e, Some e.2) <$> find_by "name" name (of_realm (groups s) realm)).

(** The names of a list of roles; an entry without a name is left out. *)
Definition names_of (l : list gomap) : list string := omap (λ x, as_string (gm_get x "name")) l.

Definition server_RoleComposites (s : Server) (realm name : string) : list string :=
  match of_realm (roles s) realm !! name with
  | None => []
  | Some role =>
      match role_composites role with
      | Some l => names_of l
      | None => names_of (Some <$> omap as_map (default [] (field_list (role_rep role) "composites")))
      end
  end.

Definition groupIDLocked (s : Server) (realm name : string) : string :=
  default "" (fst <$> find_by "name" name (of_realm (groups s) realm)).
Definition clientIDLocked (s : Server) (realm clientID : string) : string :=
  default "" (fst <$> find_by "clientId" clientID (of_realm (clients s) realm)).

Definition GroupRealmRoles (s : Server) (realm name : string) : list string :=
  names_of (default [] (of_realm (groupRR s) realm !! groupIDLocked s realm name)).
Definition GroupClientRoles (s : Server) (realm name clientUUID : string) : list string :=
  names_of (default [] (of_realm (groupCR s) realm !! groupIDLocked s realm name
                         ≫= lookup clientUUID)).

(** [rep["name"].(string)] panics when the name is not a string. *)
Definition scopeNames (ids : list string) (m : gmap string rep) : option (list string) :=
  mapM (λ x, field_string x "name") (omap (λ id, m !! id) ids).
Definition ClientScopeNames (optional : bool) (s : Server) (realm clientID : string)
    : option (list string) :=
  scopeNames (default [] (of_realm (scope_store optional s) realm !! clientIDLocked s realm clientID))
    (of_realm (scopes s) realm).
Definition ClientDefaultScopes : Server → string → string → option (list string) :=
  ClientScopeNames false.
Definition ClientOptionalScopes : Server → string → string → option (list string) :=
  ClientScopeNames true.

(** ** Routing *)

(** The switch on the collection. *)
Definition realm_sub (r : Request) (realm : string) (sub : list string) (s : Server) : Answer :=
  match sub with
  | [] => handleRealm r realm s
  | kind :: rest =>
      if String.eqb kind "clients" then handleClients r realm rest s
      else if String.eqb kind "client-scopes" then handleClientScopes r realm rest s
      else if String.eqb kind "roles" then handleRoles r realm rest s
      else if String.eqb kind "identity-provider" then
        if len_min sub 2 && at_is sub 1 "instances"
        then handleIdentityProviders r realm (drop 2 sub) s
        else NotFound s
      else if String.eqb kind "groups" then handleGroups r realm rest s
      else NotFound s
  end.

Definition handleRealmScoped (r : Request) (rest : string) (s : Server) : Answer :=
  match split_on "/" rest with
  | [] => NotFound s
  | part :: sub =>
      match PathUnescape part with
      | None => NotFound s
      | Some realm => realm_sub r realm sub s
      end
  end.

Definition handleAdmin (r : Request) (s : Server) : Answer :=
  if String.eqb (r_Authorization r) "" then http_Error 401 "unauthorized" s
  else
    let rest := TrimPrefix (r_Path r) "/admin" in
    if String.eqb rest "/serverinfo" then
      writeJSON (JObj {["systemInfo" := JObj {["version" := JStr "26.3.5"]}]}) s
    else if String.eqb rest "/realms" && String.eqb (r_Method r) "POST" then createRealm r s
    else match strip_prefix "/realms/" rest with
         | Some rest => handleRealmScoped r rest s
         | None => NotFound s
         end.

(** [http.ServeMux] with the patterns [/realms/] and [/admin/].  A path with an empty or a
    dot segment, and a pattern without its slash, is redirected. *)
Fixpoint clean_segments (l : list string) : bool :=
  match l with
  | [] => true
  | [x] => negb (bool_decide (x ∈ ["."; ".."]))
  | x :: l' => negb (bool_decide (x ∈ [""; "."; ".."])) && clean_segments l'
  end.

Definition serve (req : HttpRequest) (s : Server) : Answer :=
  let '(target, _) := cut "#" (rq_path req) in
  let '(path, query) := cut "?" target in
  match PathUnescape path, split_on "/" path with
  | Some decoded, "" :: segments =>
      let r := mkRequest (rq_method req) decoded query (rq_authorization req)
                 (rq_content_type req) (rq_body req) in
      if negb (clean_segments segments) then WriteHeader 301 s
      else match segments with
           | first :: rest =>
               if bool_decide (PathUnescape first = Some "realms") then
                 if rest is [] then WriteHeader 301 s else handleToken r s
               else if bool_decide (PathUnescape first = Some "admin") then
                 if rest is [] then WriteHeader 301 s else handleAdmin r s
               else NotFound s
           | [] => NotFound s
           end
  | _, _ => http_Error 400 "400 Bad Request" s
  end.
End Handlers.
