(* ===== verification/FakeLaws.v ===== *)
(** * Routing and isolation of the fake server

    The paths the client builds are the paths the server reads: what [PathEscape] wrote,
    [ServeMux] and [handleRealmScoped] split and decode to the same names.  A request
    inside a realm changes nothing of another realm. *)

From Stdlib Require Import Ascii ZArith Lia.
From stdpp Require Import base gmap strings list.
From S2P Require Import Prelude Json JsonText GoError LastApplied ApiTypes World Logic Url HttpClient.
From S2P Require Import AdminApi FakeServer.

Local Open Scope string_scope.
Local Open Scope list_scope.

(** ** Paths as segments *)

Definition no_char (c : ascii) (s : string) : bool := str_all (λ d, negb (Ascii.eqb d c)) s.

(** A name that is one segment of a clean path. *)
Definition segment (s : string) : Prop := s ∉ [""; "."; ".."] ∧ no_char "/" s = true.
(** A name that decodes to itself once more. *)
Definition plain (s : string) : Prop := segment s ∧ no_char "%" s = true.

#[export] Instance segment_dec (s : string) : Decision (segment s).
Proof. unfold segment. apply _. Defined.
#[export] Instance plain_dec (s : string) : Decision (plain s).
Proof. unfold plain. apply _. Defined.

Ltac decide_name := apply (bool_decide_unpack _); vm_compute; reflexivity.

Fixpoint path_of (segs : list string) : string :=
  match segs with [] => "" | x :: l => "/" +:+ PathEscape x +:+ path_of l end.
Fixpoint decoded_path (segs : list string) : string :=
  match segs with [] => "" | x :: l => "/" +:+ x +:+ decoded_path l end.

Lemma unescape_app (b : bool) (x y z : string) :
  unescape b x = Some y → unescape b (x +:+ z) = (λ t, y +:+ t) <$> unescape b z.
Proof.
  #[local] Arguments String.append !_ _ / : simpl nomatch.
  remember (String.length x) as n eqn:Hn. revert x y Hn.
  induction (lt_wf n) as [n _ IH]. intros [|c x] y -> Hx; simpl in *.
  { simplify_eq/=. by destruct (unescape b z). }
  destruct (Nat.eqb (nat_of_ascii c) 37).
  - destruct x as [|h [|l x]]; [done..|]. simpl.
    destruct (hex_value h), (hex_value l); [|done..].
    destruct (unescape b x) as [t|] eqn:Et; [|done]. simplify_eq/=.
    rewrite (IH (String.length x)) with (y := t); [|simpl; lia|done..].
    by destruct (unescape b z).
  - destruct (unescape b x) as [t|] eqn:Et; [|done]. simplify_eq/=.
    rewrite (IH (String.length x)) with (y := t); [|simpl; lia|done..].
    by destruct (unescape b z).
Qed.

Lemma unescape_plain (s : string) : no_char "%" s = true → unescape false s = Some s.
Proof.
  induction s as [|c s IH]; [done|]. unfold no_char. cbn [str_all].
  intros [Hc Hs]%andb_true_iff. cbn [unescape].
  destruct (Nat.eqb_spec (nat_of_ascii c) 37) as [E|_].
  { apply (f_equal ascii_of_nat) in E. rewrite ascii_nat_embedding in E. by subst c. }
  rewrite IH by done. done.
Qed.

Lemma unescape_path_of (segs : list string) :
  unescape false (path_of segs) = Some (decoded_path segs).
Proof.
  induction segs as [|x l IH]; [done|]. cbn [path_of decoded_path].
  rewrite (unescape_app false "/" "/") by done.
  rewrite (unescape_app _ _ _ _ (path_unescape_escape x)), IH. done.
Qed.

Lemma PathEscape_avoids (P : ascii → bool) (s : string) :
  (∀ c, str_all P (path_char c) = true) → str_all P (PathEscape s) = true.
Proof.
  intros Hc. induction s as [|c s IH]; [done|]. cbn [PathEscape].
  by rewrite str_all_append, IH, Hc.
Qed.

Lemma path_of_avoids (P : ascii → bool) (segs : list string) :
  P "/"%char = true → (∀ c, str_all P (path_char c) = true) → str_all P (path_of segs) = true.
Proof.
  intros Hs Hc. induction segs as [|x l IH]; [done|]. cbn [path_of].
  rewrite !str_all_append, PathEscape_avoids, IH by done. simpl. by rewrite Hs.
Qed.

(** Splitting after each slash. *)
Lemma split_join (f : string → string) (x : string) (l : list string) :
  (∀ y, y ∈ x :: l → no_char "/" (f y) = true) →
  split_on "/" (f x +:+ foldr (λ y acc, "/" +:+ f y +:+ acc) "" l) = f <$> x :: l.
Proof.
  revert x. induction l as [|y l IH]; intros x Hx; cbn [foldr fmap list_fmap].
  - rewrite append_nil_r. apply split_on_last, Hx. set_solver.
  - change ("/" +:+ ?t) with (String "/"%char t). rewrite split_on_segment by (apply Hx; set_solver).
    f_equal. apply IH. set_solver.
Qed.

Lemma path_of_foldr (segs : list string) :
  path_of segs = foldr (λ y acc, "/" +:+ PathEscape y +:+ acc) "" segs.
Proof. induction segs as [|x l IH]; [done|]. cbn [path_of foldr]. by rewrite IH. Qed.
Lemma decoded_path_foldr (segs : list string) :
  decoded_path segs = foldr (λ y acc, "/" +:+ y +:+ acc) "" segs.
Proof. induction segs as [|x l IH]; [done|]. cbn [decoded_path foldr]. by rewrite IH. Qed.

Lemma split_path_of (segs : list string) :
  segs ≠ [] → split_on "/" (path_of segs) = "" :: (PathEscape <$> segs).
Proof.
  destruct segs as [|x l]; [done|]. intros _. cbn [path_of].
  change (split_on "/" ("/" +:+ ?t)) with ("" :: split_on "/" t). f_equal.
  rewrite path_of_foldr. apply (split_join PathEscape). intros y _. apply PathEscape_avoids. by_chars.
Qed.

Lemma split_decoded (x : string) (l : list string) :
  Forall (λ y, no_char "/" y = true) (x :: l) →
  split_on "/" (x +:+ decoded_path l) = x :: l.
Proof.
  intros Hl. rewrite decoded_path_foldr.
  transitivity (id <$> x :: l); [|by rewrite list_fmap_id]. apply (split_join id).
  intros y Hy. by apply (proj1 (Forall_forall _ _) Hl).
Qed.

Lemma escaped_segment (s : string) : s ∉ [""; "."; ".."] → PathEscape s ∉ [""; "."; ".."].
Proof.
  intros Hs Hin. apply Hs. rewrite !elem_of_cons, elem_of_nil in *.
  assert (∀ t, PathEscape t = t → PathEscape s = t → s = t) as Hinj
    by (intros t Ht E; apply (inj PathEscape); congruence).
  destruct Hin as [E|[E|[E|[]]]]; [left|right; left|right; right; left]; by apply Hinj.
Qed.

Lemma clean_path (segs : list string) :
  Forall (λ x, x ∉ [""; "."; ".."]) segs → clean_segments (PathEscape <$> segs) = true.
Proof.
  induction 1 as [|x l Hx Hl IH]; [done|]. apply escaped_segment in Hx. cbn [fmap list_fmap].
  destruct l as [|y l]; cbn [fmap list_fmap clean_segments] in *.
  - apply negb_true_iff, bool_decide_eq_false. set_solver.
  - rewrite (bool_decide_eq_false_2 _ Hx). done.
Qed.

(** ** Routing *)

(** A request whose target is clean segments below [/admin], with or without a query. *)
Definition suffix_query (suffix query : string) : Prop :=
  suffix = "" ∧ query = "" ∨
  suffix = "?" +:+ query ∧ no_char "#" query = true.

Lemma cut_target (segs : list string) (suffix query : string) :
  suffix_query suffix query →
  cut "#" (path_of segs +:+ suffix) = (path_of segs +:+ suffix, "") ∧
  cut "?" (path_of segs +:+ suffix) = (path_of segs, query).
Proof.
  intros Hq. assert (∀ c, c = "#"%char ∨ c = "?"%char → no_char c (path_of segs) = true) as Hp.
  { intros c [-> | ->]; apply path_of_avoids; [done|by_chars|done|by_chars]. }
  destruct Hq as [[-> ->]|[-> Hq]].
  - rewrite append_nil_r. split; apply cut_none, Hp; auto.
  - split; [|apply cut_segment, Hp; auto]. apply cut_none. unfold no_char in *.
    rewrite !str_all_append, Hq, (Hp "#"%char) by auto. done.
Qed.

Section Routing.
Variable ord : ∀ A : Type, list A → list A.

Lemma serve_admin (m base auth ct body suffix query : string) (segs : list string) (s : Server) :
  Forall segment segs → segs ≠ [] → suffix_query suffix query →
  serve ord (mkHttpRequest m base (path_of ("admin" :: segs) +:+ suffix) auth ct body) s =
  handleAdmin ord (mkRequest m (decoded_path ("admin" :: segs)) query auth ct body) s.
Proof.
  intros Hs Hne Hq. destruct (cut_target ("admin" :: segs) suffix query Hq) as [E1 E2].
  unfold serve. cbn [rq_path rq_method rq_authorization rq_content_type rq_body].
  rewrite E1, E2. unfold PathUnescape at 1. rewrite unescape_path_of, split_path_of by done.
  rewrite clean_path.
  2: { constructor; [decide_name|]. eapply Forall_impl; [exact Hs|]. by intros x []. }
  cbn [negb fmap list_fmap].
  destruct segs as [|x l]; [done|]. done.
Qed.

(** The realm and the rest of the path reach [realm_sub] as they were. *)
Lemma serve_realm (m base auth ct body suffix query realm : string) (sub : list string) (s : Server) :
  plain realm → Forall segment sub → auth ≠ "" → suffix_query suffix query →
  let segs := "realms" :: realm :: sub in
  serve ord (mkHttpRequest m base (path_of ("admin" :: segs) +:+ suffix) auth ct body) s =
  realm_sub ord (mkRequest m (decoded_path ("admin" :: segs)) query auth ct body) realm sub s.
Proof.
  intros [Hr Hp] Hs Ha Hq segs. rewrite (serve_admin m base auth ct body suffix query segs s); [|..|done|done].
  2: { constructor; [decide_name|]. by constructor. }
  unfold handleAdmin. cbn [r_Authorization r_Path]. rewrite (proj2 (String.eqb_neq auth "") Ha).
  set (rest := realm +:+ decoded_path sub).
  assert (TrimPrefix (decoded_path ("admin" :: segs)) "/admin" = "/realms/" +:+ rest) as ->.
  { change (decoded_path ("admin" :: segs)) with ("/admin" +:+ "/realms/" +:+ rest).
    unfold TrimPrefix. by rewrite strip_prefix_app. }
  replace (String.eqb ("/realms/" +:+ rest) "/serverinfo") with false by done.
  replace (String.eqb ("/realms/" +:+ rest) "/realms") with false by done.
  cbn [andb]. rewrite strip_prefix_app. unfold handleRealmScoped, rest. rewrite split_decoded.
  - unfold PathUnescape. by rewrite unescape_plain.
  - constructor; [by destruct Hr|]. eapply Forall_impl; [exact Hs|]. by intros y [_ ?].
Qed.
End Routing.

(** ** The paths of the client *)

(** Whatever the method and the body, a request to [path] is handled for [realm] and [sub]. *)
Definition addresses (path realm : string) (sub : list string) (query : string) : Prop :=
  ∃ decoded, ∀ ord m base auth ct body s, auth ≠ "" →
    serve ord (mkHttpRequest m base path auth ct body) s =
    realm_sub ord (mkRequest m decoded query auth ct body) realm sub s.

Lemma addresses_path (path realm : string) (sub : list string) :
  plain realm → Forall segment sub →
  path = path_of ("admin" :: "realms" :: realm :: sub) → addresses path realm sub "".
Proof.
  intros Hr Hs ->. eexists. intros ord m base auth ct body s Ha.
  rewrite <- (append_nil_r (path_of _)). apply serve_realm; [done..|by left].
Qed.

Lemma addresses_query (path realm query : string) (sub : list string) :
  plain realm → Forall segment sub → no_char "#" query = true →
  path = path_of ("admin" :: "realms" :: realm :: sub) +:+ "?" +:+ query →
  addresses path realm sub query.
Proof.
  intros Hr Hs Hq ->. eexists. intros ord m base auth ct body s Ha.
  apply serve_realm; [done..|by right].
Qed.

(** Solves that a path of AdminApi is built from its segments. *)
Ltac solve_path :=
  unfold assignment_path, assignments_path, client_secret_path, composites_path,
    client_role_path, mapper_path, mappers_path, realm_mappings_path, client_mappings_path,
    role_mappings_path, client_path, clients_path, client_query_path, scopes_path, scope_path,
    roles_path, role_path, idps_path, idp_path, groups_path, group_path, group_query_path,
    realmPath;
  cbn [path_of]; rewrite ?append_assoc, ?append_nil_r; reflexivity.

Ltac solve_segments := repeat (constructor; try assumption); try decide_name.

(** The searches: the value the client escaped is the value the handler compares with. *)
Lemma client_search (v : string) : Values_Get (ParseQuery ("clientId=" +:+ QueryEscape v)) "clientId" = v.
Proof.
  change ("clientId=" +:+ QueryEscape v) with (join_with "&" (form_member <$> [("clientId", v)])).
  rewrite ParseQuery_members. unfold Values_Get. cbn [list_to_map foldr uncurry]. by simpl_map.
Qed.

Definition group_search_query (v : string) : string := "search=" +:+ QueryEscape v +:+ "&exact=true&max=2".
Lemma group_search (v : string) : Values_Get (ParseQuery (group_search_query v)) "search" = v.
Proof.
  assert (group_search_query v =
    join_with "&" (form_member <$> [("search", v); ("exact", "true"); ("max", "2")])) as ->.
  { unfold group_search_query. cbn [fmap list_fmap join_with form_member fst snd].
    by rewrite ?append_assoc. }
  rewrite ParseQuery_members. unfold Values_Get. cbn [list_to_map foldr uncurry]. by simpl_map.
Qed.

Lemma client_addresses (realm name : string) :
  plain realm →
  addresses (client_query_path realm name) realm ["clients"] ("clientId=" +:+ QueryEscape name).
Proof.
  intros. apply addresses_query; [done|solve_segments| |solve_path].
  unfold no_char. rewrite str_all_append, QueryEscape_avoids by by_chars. done.
Qed.

Lemma group_addresses (realm name : string) :
  plain realm →
  addresses (group_query_path realm name) realm ["groups"] (group_search_query name).
Proof.
  intros. apply addresses_query; [done|solve_segments| |unfold group_search_query; solve_path].
  unfold no_char, group_search_query. rewrite !str_all_append, QueryEscape_avoids by by_chars. done.
Qed.

(** ** Isolation *)

(** Everything the server keeps for a realm. *)
Definition realm_view (s : Server) (realm : string) :=
  (realms s !! realm, clients s !! realm, scopes s !! realm, roles s !! realm,
   clientRoles s !! realm, idps s !! realm, groups s !! realm, groupRR s !! realm,
   groupCR s !! realm, defScope s !! realm, optScope s !! realm).

(** Other realms, and the credentials, are as they were. *)
Definition only_realm (realm : string) (s s' : Server) : Prop :=
  creds s' = creds s ∧ ∀ other, other ≠ realm → realm_view s' other = realm_view s other.

Lemma only_realm_refl (realm : string) (s : Server) : only_realm realm s s.
Proof. done. Qed.

Lemma put_ne {A} (x : gmap string (gmap string A)) (realm other k : string) (v : A) :
  other ≠ realm → put x realm k v !! other = x !! other.
Proof. intros. unfold put. by rewrite lookup_insert_ne. Qed.
Lemma remove_from_ne {A} (x : gmap string (gmap string A)) (realm other k : string) :
  other ≠ realm → remove_from x realm k !! other = x !! other.
Proof. intros. unfold remove_from. by rewrite lookup_alter_ne. Qed.

(** An answer that does not refuse the caller, and a state that changed in [realm] only. *)
Definition not_auth (a : Answer) : Prop :=
  ∀ resp, a.1 = Some resp → rs_status resp ≠ 401%Z ∧ rs_status resp ≠ 403%Z.
Definition confined (realm : string) (s : Server) (a : Answer) : Prop :=
  only_realm realm s a.2 ∧ not_auth a.

(** Decomposes a handler down to the answers it can end in. *)
Ltac confined_step :=
  match goal with
  | |- confined _ _ (if ?b then _ else _) => destruct b
  | |- confined _ _ (match ?x with _ => _ end) => destruct x
  | |- confined _ _ (let _ := _ in _) => cbv zeta
  | |- confined _ _ (respond _ _ _) => split
  | |- confined _ _ (abort _) => split
  | |- not_auth (respond _ _ _) => intros ? [= <-]; cbn; split; discriminate
  | |- not_auth (abort _) => intros ? [=]
  | |- only_realm _ ?s ?s => apply only_realm_refl
  | |- only_realm _ _ (snd _) => cbn [snd respond abort]
  end.
Ltac confined_solve :=
  unfold with_map, with_maps, with_nonnil, unless_panic, bad_json, NotFound, MethodNotAllowed,
    writeJSON, WriteHeader, http_Error;
  repeat confined_step;
  try (split; [reflexivity|]; intros other Hne; unfold realm_view; cbn;
       rewrite ?put_ne, ?remove_from_ne, ?lookup_alter_ne, ?lookup_insert_ne, ?lookup_delete_ne
         by congruence; reflexivity).

Section Isolation.
Variable ord : ∀ A : Type, list A → list A.
Variables (r : Request) (realm : string) (s : Server).
Local Abbreviation ok a := (confined realm s a).

Lemma handleRealm_ok : ok (handleRealm r realm s).
Proof. unfold handleRealm. confined_solve. Qed.

Lemma handleClients_ok (sub : list string) : ok (handleClients ord r realm sub s).
Proof.
  assert (ok (clients_collection ord r realm s)) by (unfold clients_collection; confined_solve).
  assert (∀ id n, ok (client_role realm id n s)) by (intros; unfold client_role; confined_solve).
  assert (∀ id, ok (client_roles_collection r realm id s))
    by (intros; unfold client_roles_collection; confined_solve).
  assert (∀ id, ok (client_secret r realm id s)) by (intros; unfold client_secret; confined_solve).
  assert (∀ id b l, ok (client_scopes_handler r realm id b l s))
    by (intros ? [] ?; unfold client_scopes_handler, set_scope_store; confined_solve).
  assert (∀ id, ok (client_item r realm id s)) by (intros; unfold client_item; confined_solve).
  unfold handleClients. repeat case_match; auto; confined_solve.
Qed.

Lemma handleClientScopes_ok (sub : list string) : ok (handleClientScopes ord r realm sub s).
Proof. unfold handleClientScopes. confined_solve. Qed.

Lemma handleRoles_ok (sub : list string) : ok (handleRoles r realm sub s).
Proof.
  assert (ok (roles_collection r realm s)) by (unfold roles_collection; confined_solve).
  assert (∀ n, ok (role_composites_handler r realm n s))
    by (intros; unfold role_composites_handler; confined_solve).
  assert (∀ n, ok (role_item r realm n s)) by (intros; unfold role_item; confined_solve).
  unfold handleRoles. repeat case_match; auto; confined_solve.
Qed.

Lemma handleIdentityProviders_ok (sub : list string) : ok (handleIdentityProviders r realm sub s).
Proof. unfold handleIdentityProviders. confined_solve. Qed.

Lemma handleGroups_ok (sub : list string) : ok (handleGroups ord r realm sub s).
Proof.
  assert (ok (groups_collection ord r realm s)) by (unfold groups_collection; confined_solve).
  assert (∀ id, ok (group_realm_mappings r realm id s))
    by (intros; unfold group_realm_mappings; confined_solve).
  assert (∀ id l, ok (group_client_mappings r realm id l s))
    by (intros; unfold group_client_mappings; confined_solve).
  assert (∀ id, ok (group_item r realm id s)) by (intros; unfold group_item; confined_solve).
  unfold handleGroups. repeat case_match; auto; confined_solve.
Qed.

Lemma realm_sub_ok (sub : list string) : ok (realm_sub ord r realm sub s).
Proof.
  unfold realm_sub. repeat case_match;
    auto using handleRealm_ok, handleClients_ok, handleClientScopes_ok, handleRoles_ok,
      handleIdentityProviders_ok, handleGroups_ok; confined_solve.
Qed.
End Isolation.

(** *** Any path inside a realm *)

Lemma cut_app (c : ascii) (a b : string) :
  no_char c a = true → cut c (a +:+ b) = (a +:+ (cut c b).1, (cut c b).2).
Proof.
  #[local] Arguments String.append !_ _ / : simpl nomatch.
  induction a as [|d a IH]; cbn; [by destruct (cut c b)|]. intros [Hd Ha]%andb_true_iff.
  apply negb_true_iff, Ascii.eqb_neq in Hd. destruct (ascii_dec d c); [done|]. by rewrite IH.
Qed.

(** What follows the realm in a path: nothing, or a slash. *)
Definition tail (t : string) : Prop := t = "" ∨ ∃ rest, t = "/" +:+ rest.

Lemma cut_tail (c : ascii) (t : string) : c ≠ "/"%char → tail t → tail (cut c t).1.
Proof.
  intros Hc [-> |[rest ->]]; [by left|]. right. rewrite cut_app.
  - by eexists.
  - unfold no_char. cbn [str_all]. rewrite andb_true_r.
    by apply negb_true_iff, Ascii.eqb_neq.
Qed.

Lemma unescape_tail (t d : string) : tail t → unescape false t = Some d → tail d.
Proof.
  intros [-> |[rest ->]] E; [left; by simplify_eq/=|]. right.
  rewrite (unescape_app false "/" "/") in E by done.
  destruct (unescape false rest) as [x|]; [|done]. simplify_eq/=. by exists x.
Qed.

Lemma handleAdmin_realm (ord : ∀ A, list A → list A) (r : Request) (realm d : string) (s : Server) :
  plain realm → tail d → r_Path r = "/admin/realms/" +:+ realm +:+ d →
  only_realm realm s (handleAdmin ord r s).2.
Proof.
  intros [[_ Hs] Hp] Hd E. unfold handleAdmin. destruct (String.eqb _ ""); [done|].
  assert (TrimPrefix (r_Path r) "/admin" = "/realms/" +:+ realm +:+ d) as ->.
  { rewrite E. change ("/admin/realms/" +:+ ?x) with ("/admin" +:+ "/realms/" +:+ x).
    unfold TrimPrefix. by rewrite strip_prefix_app. }
  replace (String.eqb ("/realms/" +:+ realm +:+ d) "/serverinfo") with false by done.
  replace (String.eqb ("/realms/" +:+ realm +:+ d) "/realms") with false by done.
  cbn [andb]. rewrite strip_prefix_app. unfold handleRealmScoped.
  assert (∃ sub, split_on "/" (realm +:+ d) = realm :: sub) as [sub ->].
  { destruct Hd as [-> |[rest ->]]; [rewrite append_nil_r, split_on_last by done; by eexists|].
    change ("/" +:+ rest) with (String "/"%char rest). rewrite split_on_segment by done. by eexists. }
  unfold PathUnescape. rewrite unescape_plain by done. apply realm_sub_ok.
Qed.

Lemma serve_only (ord : ∀ A, list A → list A) (req : HttpRequest) (realm : string) (s : Server) :
  plain realm → in_realm realm (rq_path req) → only_realm realm s (serve ord req s).2.
Proof.
  intros Hr Hin.
  assert (∃ t, tail t ∧ rq_path req = "/admin/realms/" +:+ PathEscape realm +:+ t) as (t & Ht & E).
  { destruct Hin as [-> |[rest ->]]; [exists ""|exists ("/" +:+ rest)]; unfold realmPath.
    - rewrite append_nil_r. split; [by left|done].
    - rewrite append_assoc. split; [right; by eexists|done]. }
  set (pre := "/admin/realms/" +:+ PathEscape realm).
  assert (∀ c, c = "#"%char ∨ c = "?"%char → no_char c pre = true) as Hpre.
  { intros c [-> | ->]; unfold no_char, pre; rewrite str_all_append, PathEscape_avoids by by_chars; done. }
  unfold serve. rewrite E, <- append_assoc. fold pre.
  rewrite cut_app by auto. apply (cut_tail "#") in Ht; [|done].
  destruct (cut "#" t) as [t1 f]. cbn [fst snd] in *. rewrite cut_app by auto.
  apply (cut_tail "?") in Ht; [|done]. destruct (cut "?" t1) as [t2 query]. cbn [fst snd] in *.
  unfold PathUnescape at 1. rewrite (unescape_app false pre ("/admin/realms/" +:+ realm)).
  2: { unfold pre. rewrite (unescape_app false "/admin/realms/" "/admin/realms/") by done.
       by rewrite path_unescape_escape. }
  destruct (unescape false t2) as [d|] eqn:Ed; [|done]. cbn [fmap option_fmap option_map].
  assert (∃ segs, split_on "/" (pre +:+ t2) = "" :: "admin" :: "realms" :: segs) as [segs ->].
  { unfold pre. rewrite append_assoc. eexists. reflexivity. }
  destruct (clean_segments _); [|done]. cbn [negb].
  apply (handleAdmin_realm ord _ realm d); [done|by eapply unescape_tail|].
  cbn [r_Path]. by rewrite append_assoc.
Qed.

(** Token requests and the creation of a realm leave every existing realm as it was. *)
Lemma handleToken_view (r : Request) (s : Server) (realm : string) :
  realm_view (handleToken r s).2 realm = realm_view s realm.
Proof. unfold handleToken. cbv zeta. repeat (case_match; try done). Qed.

Lemma createRealm_view (r : Request) (s : Server) (realm : string) :
  is_Some (realms s !! realm) → realm_view (createRealm r s).2 realm = realm_view s realm.
Proof.
  intros [x Hx]. unfold createRealm, with_map, with_nonnil. repeat (case_match; try done).
  cbn [snd WriteHeader respond]. unfold realm_view. cbn. rewrite lookup_insert_ne; [done|].
  intros E. match goal with Hb : bool_decide _ = false |- _ => apply bool_decide_eq_false in Hb; apply Hb end.
  rewrite E. by eexists.
Qed.

Lemma serve_create (ord : ∀ A, list A → list A) (req : HttpRequest) (s : Server) (realm : string) :
  rq_path req = "/admin/realms" → rq_method req = "POST" → is_Some (realms s !! realm) →
  realm_view (serve ord req s).2 realm = realm_view s realm.
Proof.
  intros Hp Hm Hx. unfold serve. rewrite Hp.
  change (cut "#" "/admin/realms") with ("/admin/realms", ""). cbn [cut].
  change (realm_view (handleAdmin ord (mkRequest (rq_method req) "/admin/realms" ""
    (rq_authorization req) (rq_content_type req) (rq_body req)) s).2 realm = realm_view s realm).
  unfold handleAdmin. cbn [r_Authorization r_Method r_Path].
  destruct (String.eqb _ ""); [done|]. rewrite Hm. by apply createRealm_view.
Qed.

Lemma serve_token (ord : ∀ A, list A → list A) (req : HttpRequest) (s : Server) (admin realm : string) :
  rq_path req = "/realms/" +:+ PathEscape admin +:+ "/protocol/openid-connect/token" →
  realm_view (serve ord req s).2 realm = realm_view s realm.
Proof.
  intros Hp. unfold serve. rewrite Hp.
  set (path := "/realms/" +:+ _).
  assert (∀ c, c = "#"%char ∨ c = "?"%char → no_char c path = true) as Hpre.
  { intros c [-> | ->]; unfold no_char, path; rewrite !str_all_append, PathEscape_avoids by by_chars; done. }
  rewrite (cut_none "#") by (apply Hpre; auto). rewrite (cut_none "?") by (apply Hpre; auto).
  destruct (PathUnescape path); [|done].
  assert (∃ x segs, split_on "/" path = "" :: "realms" :: x :: segs) as (x & segs & ->).
  { unfold path. change ("/realms/" +:+ ?y) with (String "/" ("realms" +:+ String "/" y)).
    exists (PathEscape admin). change ("/protocol/openid-connect/token") with (String "/" "protocol/openid-connect/token").
    cbn [split_on String.append]. rewrite split_on_segment by (apply PathEscape_avoids; by_chars).
    eexists. reflexivity. }
  destruct (clean_segments _); [|done]. cbn [negb]. apply handleToken_view.
Qed.
