(* ===== verification/FakeClient.v ===== *)
(** * The client against the fake server

    An environment whose HTTP transport is the fake server ([FakeEnv]), and what the client
    makes of it: tokens are granted to the configured credentials, a revocation costs one
    retry, and every Admin API call reaches its handler and reads back what it wrote. *)

From Stdlib Require Import Ascii ZArith Lia DecimalString DecimalZ.
From stdpp Require Import base gmap strings list.
From S2P Require Import Prelude Json JsonText GoError LastApplied ApiTypes World Sim Logic Url.
From S2P Require Import HttpClient AdminApi FakeServer FakeLaws.

Local Open Scope string_scope.
Local Open Scope list_scope.

(** ** The environment *)

(** Requests to [fake_url] are served; nothing else changes the server.  A panic of the
    server is an error of the transport. *)
Class FakeEnv (St : Type) `{Env St} := {
  fake_url : string;
  server : St → Server;
  fake_ord : St → ∀ A : Type, list A → list A;
  fake_ord_perm (t : St) (A : Type) (l : list A) : fake_ord t A l ≡ₚ l;
  url_accepted (url : string) : env_bad_url url = None;
  served (r : HttpRequest) (t : St) : rq_base r = fake_url →
    server (env_http r t).2 = (serve (fake_ord t) r (server t)).2 ∧
    match (serve (fake_ord t) r (server t)).1 with
    | Some resp => (env_http r t).1 = inr resp
    | None => ∃ err, (env_http r t).1 = inl err
    end;
  elsewhere (r : HttpRequest) (t : St) :
    rq_base r ≠ fake_url → server (env_http r t).2 = server t;
  unserved (a : option Action) (t t' : St) :
    env_step a t t' → (∀ r, a ≠ Some (Http r)) → server t' = server t;
}.

(** ** Sizes *)

Lemma LimitReader_all (s : string) (n : N) :
  (N.of_nat (String.length s) <= n)%N → LimitReader s n = s.
Proof.
  revert n. induction s as [|c s IH]; intros n Hn; cbn [LimitReader String.length] in *; [done|].
  destruct (N.eqb_spec n 0); [lia|]. f_equal. apply IH. lia.
Qed.

Lemma escape_length (s : string) : (String.length (escape s) <= 6 * String.length s)%nat.
Proof.
  induction s as [|c s IH]; [done|]. cbn [escape]. rewrite length_append. cbn [String.length].
  assert (String.length (escape_char c) <= 6)%nat; [|lia].
  by destruct c as [[] [] [] [] [] [] [] []]; apply Nat.leb_le.
Qed.

(** ** Decoding what the server encodes *)

Lemma decode_newline (j : json) : unmarshal (marshal j +:+ newline) = Some j.
Proof. unfold unmarshal. by rewrite decode_first_marshal. Qed.

(** A document small enough to be read whole. *)
Definition fits (j : json) : Prop := (N.of_nat (String.length (marshal j)) < 2 ^ 23)%N.

Lemma fits_body (j : json) : fits j → LimitReader (marshal j +:+ newline) (2 ^ 23) = marshal j +:+ newline.
Proof. intros Hj. apply LimitReader_all. rewrite length_append. unfold fits in Hj. simpl. lia. Qed.

Lemma read_ok_map (m p : string) (x : rep) :
  fits (JObj x) →
  answer m p out_map (inr (mkHttpResponse 200 (marshal (JObj x) +:+ newline))) = inr x.
Proof.
  intros Hf. unfold answer, read_response. cbn [rs_body rs_status]. rewrite fits_body by done.
  change ((200 <=? 200)%Z && (200 <? 300)%Z) with true. cbv iota.
  assert (String.eqb (marshal (JObj x) +:+ newline) "" = false) as ->.
  { destruct (marshal_obj x) as (l & _ & ->). done. }
  cbn [negb out_decode out_map]. unfold unmarshal_map. by rewrite decode_newline.
Qed.

(** ** Tokens *)

(** The server accepts the credentials of a configuration. *)
Definition grants (s : Server) (cfg : Config) : Prop :=
  if String.eqb (cfg_Auth cfg) AuthClient then
    cfg_ClientID cfg ≠ "" ∧
    default "" (creds s !! ("client:" +:+ cfg_ClientID cfg)) = cfg_ClientSecret cfg
  else
    cfg_Username cfg ≠ "" ∧ default "" (creds s !! cfg_Username cfg) = cfg_Password cfg.

Lemma HasSuffix_app (a b : string) : HasSuffix (a +:+ b) b = true.
Proof.
  #[local] Arguments String.append !_ _ / : simpl nomatch.
  induction a as [|c a IH]; cbn.
  - destruct b; cbn; [done|]. by rewrite Ascii.eqb_refl, String.eqb_refl.
  - by rewrite IH, orb_true_r.
Qed.

(** The answer to a token request of a client. *)
Definition token_document (n : Z) : json :=
  JObj {["access_token" := JStr ("fake-token-" +:+ print_Z n);
         "expires_in" := JNum (default f64_zero (f64_of_Z 300));
         "token_type" := JStr "Bearer"]}.

Lemma serve_token_request (ord : ∀ A, list A → list A) (cfg : Config) (s : Server) :
  cfg_AdminRealm cfg ∉ [""; "."; ".."] → grants s cfg →
  (revoked s = true ∧ ∃ body, serve ord (token_request cfg) s =
     respond 401 body (set_token (issued s) false s)) ∨
  (revoked s = false ∧ ∃ n, n = wrap64 (issued s + 1) ∧
     serve ord (token_request cfg) s = writeJSON (token_document n) (set_token n false s)).
Proof.
  intros Hadmin Hg. set (segs := ["realms"; cfg_AdminRealm cfg; "protocol"; "openid-connect"; "token"]).
  assert (token_path cfg = path_of segs +:+ "") as Hp.
  { unfold token_path, segs. cbn [path_of]. by rewrite !append_nil_r. }
  assert (serve ord (token_request cfg) s = handleToken (mkRequest "POST" (decoded_path segs) "" ""
    "application/x-www-form-urlencoded" (Encode (token_form cfg))) s) as ->.
  { unfold serve, token_request. cbn [rq_path rq_method rq_authorization rq_content_type rq_body].
    rewrite Hp. destruct (cut_target segs "" "") as [-> ->]; [by left|].
    unfold PathUnescape at 1. rewrite unescape_path_of, split_path_of by done.
    rewrite clean_path; [done|]. repeat (constructor; [first [done|decide_name]|]). constructor. }
  unfold handleToken. cbn [r_Path r_Method r_ContentType r_Body].
  replace (HasSuffix (decoded_path segs) "/protocol/openid-connect/token") with true.
  2: { symmetry. change (decoded_path segs) with
        ("/realms/" +:+ cfg_AdminRealm cfg +:+ "/protocol/openid-connect/token").
       rewrite <- append_assoc. apply HasSuffix_app. }
  cbn [negb]. change (bool_decide ("POST" ∈ ["POST"; "PUT"; "PATCH"])) with true.
  rewrite String.eqb_refl. cbn [andb]. cbv zeta. rewrite !form_roundtrip.
  destruct (revoked s) eqn:Hr; [left; split; [done|]; by eexists|right]. split; [done|].
  eexists. split; [done|].
  assert (∀ A (x y : A) b, b = true → (if negb b then x else y) = y) as Hif by (by intros ???? ->).
  rewrite Hif; [done|]. unfold grants, token_form in *.
  destruct (String.eqb (cfg_Auth cfg) AuthClient); destruct Hg as [Hne Hc].
  all: simpl_map; cbn [default from_option id String.eqb negb];
    rewrite (proj2 (String.eqb_neq _ _) Hne); cbn [negb]; by rewrite Hc, String.eqb_refl.
Qed.

(** *** Reading the token *)

Lemma revapp_digits (a b : Decimal.uint) :
  Decimal.nb_digits (Decimal.revapp a b) = (Decimal.nb_digits a + Decimal.nb_digits b)%nat.
Proof. revert b. induction a; intros b; cbn; rewrite ?IHa; cbn; lia. Qed.

Lemma double_digits (d : Decimal.uint) :
  (Decimal.nb_digits (Decimal.Little.double d) <= S (Decimal.nb_digits d))%nat ∧
  (Decimal.nb_digits (Decimal.Little.succ_double d) <= S (Decimal.nb_digits d))%nat.
Proof. induction d; cbn; lia. Qed.

Lemma little_digits (p : positive) :
  (Decimal.nb_digits (Pos.to_little_uint p) <= Pos.size_nat p)%nat.
Proof.
  induction p as [p IH|p IH|]; cbn [Pos.to_little_uint Pos.size_nat]; [| |cbn; lia];
    destruct (double_digits (Pos.to_little_uint p)); lia.
Qed.

Lemma uint_string_length (d : Decimal.uint) :
  String.length (NilEmpty.string_of_uint d) = Decimal.nb_digits d.
Proof. induction d; cbn; congruence. Qed.

Lemma print_pos_length (p : positive) :
  (String.length (NilZero.string_of_uint (Pos.to_uint p)) <= S (Pos.size_nat p))%nat.
Proof.
  pose proof (little_digits p) as Hd. unfold Pos.to_uint, Decimal.rev.
  pose proof (revapp_digits (Pos.to_little_uint p) Decimal.Nil) as Hr. cbn in Hr.
  unfold NilZero.string_of_uint. rewrite <- Nat.add_0_r in Hr.
  destruct (Decimal.revapp _ _) eqn:E; [cbn; lia|..];
    rewrite uint_string_length; lia.
Qed.

Lemma size_bound (p : positive) : (Z.pos p < 2 ^ 64)%Z → (Pos.size_nat p <= 64)%nat.
Proof.
  intros Hp. pose proof (Pos.size_nat_monotone) as Hm.
  destruct (Nat.le_gt_cases (Pos.size_nat p) 64) as [|Hgt]; [done|].
  exfalso. clear Hm. pose proof (Pos.size_le p) as Hs.
  assert (Pos.to_nat (Pos.size p) = Pos.size_nat p) as E.
  { clear. induction p; cbn; [| |done]; rewrite Pos2Nat.inj_succ; by f_equal. }
  assert (65 <= Z.pos (Pos.size p))%Z by lia.
  assert (2 ^ 65 <= 2 ^ Z.pos (Pos.size p))%Z by (apply Z.pow_le_mono_r; lia).
  assert (Z.pos (2 ^ Pos.size p) <= Z.pos p~0)%Z as Hs' by lia.
  rewrite Pos2Z.inj_pow in Hs'. lia.
Qed.

Lemma print_Z_length (z : Z) : (- 2 ^ 63 <= z < 2 ^ 63)%Z → (String.length (print_Z z) <= 70)%nat.
Proof.
  intros Hz. unfold print_Z. destruct z as [|p|p]; cbn [Z.to_int NilZero.string_of_int]; [cbn; lia|..].
  - pose proof (print_pos_length p). pose proof (size_bound p). lia.
  - cbn [String.length]. pose proof (print_pos_length p). pose proof (size_bound p). lia.
Qed.

Lemma read_token_document (n : Z) :
  (- 2 ^ 63 <= n < 2 ^ 63)%Z →
  read_token (mkHttpResponse 200 (marshal (token_document n) +:+ newline)) =
  inr (mkTokenResponse ("fake-token-" +:+ print_Z n) 300 "" "").
Proof.
  intros Hn. unfold read_token. cbn [rs_body rs_status].
  assert (LimitReader (marshal (token_document n) +:+ newline) (2 ^ 20) =
    marshal (token_document n) +:+ newline) as ->.
  { apply LimitReader_all. rewrite length_append.
    assert (marshal (token_document n) = "{" +:+ ((quote "access_token" +:+ ":" +:+
      quote ("fake-token-" +:+ print_Z n)) +:+ "," +:+ (quote "expires_in" +:+ ":300,") +:+
      (quote "token_type" +:+ ":" +:+ quote "Bearer")) +:+ "}") as -> by reflexivity.
    unfold quote at 2. rewrite !length_append. cbn [String.length].
    pose proof (escape_length ("fake-token-" +:+ print_Z n)) as He.
    rewrite length_append in *. pose proof (print_Z_length n Hn).
    change (String.length (quote "access_token")) with 14%nat.
    change (String.length (quote "expires_in")) with 12%nat.
    change (String.length (quote "token_type")) with 12%nat.
    change (String.length (quote "Bearer")) with 8%nat.
    change (String.length "fake-token-") with 11%nat in *. change (String.length newline) with 1%nat.
    cbn [String.length]. lia. }
  change ((200 =? 401)%Z || (200 =? 403)%Z) with false. change (negb (200 =? 200)%Z) with false.
  cbv iota. unfold unmarshal_token, unmarshal_map. rewrite decode_newline. unfold token_document.
  cbn [mbind option_bind]. reflexivity.
Qed.

(** ** Calls *)

Section FakeCalls.
Context {St : Type} `{FakeEnv St}.

Lemma server_now (t : St) : server (env_now t).2 = server t.
Proof. by eapply unserved; [constructor|]. Qed.
Lemma server_range {A} (l : list A) (t : St) : server (env_range l t).2 = server t.
Proof. by eapply unserved; [constructor|]. Qed.

(** A run without requests leaves the server alone. *)
Definition no_request (a : Action) : Prop := match a with Http _ => False | _ => True end.

Lemma server_kept (t t' : St) (l : list Action) :
  env_run t l t' → Forall no_request l → server t' = server t.
Proof.
  intros Hr Hl. refine (env_run_preserves (λ u, server u = server t) no_request t t' l _ Hr Hl eq_refl).
  intros a u u' Hs Ha <-. eapply unserved; [done|]. intros r ->. exact (Ha (Http r) eq_refl).
Qed.

(** The client is configured for the server, with credentials it accepts. *)
Record connected (c : Client) (s : Server) : Prop := {
  connected_url : cfg_URL (cl_cfg c) = fake_url;
  connected_realm : cfg_AdminRealm (cl_cfg c) ∉ [""; "."; ".."];
  connected_grants : grants s (cl_cfg c);
}.

Lemma connected_creds (c : Client) (s s' : Server) :
  creds s' = creds s → connected c s → connected c s'.
Proof. intros E [? ? Hg]. split; [done..|]. unfold grants in *. by rewrite E. Qed.

Lemma set_token_id (s : Server) : set_token (issued s) (revoked s) s = s.
Proof. by destruct s. Qed.

Definition token_result (s : Server) (o : option (GoError + string)) (s' : Server) : Prop :=
  ∃ n b, s' = set_token n b s ∧
    ((∃ t, o = Some (inr t)) ∨
     revoked s = true ∧ b = false ∧ ∃ e, o = Some (inl e) ∧ errors_Is e SAuth = true).

Lemma Token_served (c : Client) (w : World St) :
  connected c (server (env w)) →
  wp (Token c) (λ o w' _, token_result (server (env w)) o (server (env w'))) w.
Proof.
  intros [Hu Ha Hg]. unfold Token. apply wp_bind, wp_get_cell. cbn [wp_then].
  apply wp_bind, wp_call_env; [apply _|]. cbn [wp_then]. case_match.
  { apply wp_ret. eexists _, _. split; [|by left; eexists]. cbn [env set_env].
    rewrite server_now. symmetry. apply set_token_id. }
  rewrite url_accepted. apply wp_bind, wp_call; [apply _|]. intros resp t Hr. cbn [wp_then].
  change (env (set_env (env_now (env w)).2 w)) with ((env_now (env w)).2) in Hr.
  destruct (served (token_request (cl_cfg c)) (env_now (env w)).2) as [Hs Ho]; [done|].
  rewrite Hr, server_now in *. cbn [fst snd] in *.
  destruct (serve_token_request (fake_ord (env_now (env w)).2) (cl_cfg c) (server (env w)))
    as [(Hrev & body & E)|(Hrev & n & Hn & E)]; [done..| |]; rewrite E in *; cbn [fst snd writeJSON respond] in *; subst resp.
  - apply wp_ret. eexists _, _. split; [exact Hs|]. right. split; [done|]. split; [done|].
    eexists. split; [done|]. done.
  - rewrite read_token_document by (subst n; apply wrap64_range).
    apply wp_bind, wp_call_env; [apply _|]. cbn [wp_then]. apply wp_bind, wp_set_cell.
    cbn [wp_then]. apply wp_ret. eexists _, _. split; [|by left; eexists].
    cbn [env set_env snd set_cell]. by rewrite server_now, Hs.
Qed.

(** A program that sends no request. *)
Lemma wp_kept {A} (m : M St A) (w : World St) :
  safe no_request m → wp m (λ o w' _, is_Some o ∧ server (env w') = server (env w)) w.
Proof.
  intros Hm. destruct (Hm w) as (l & Hl & Hr & Ho & Hn). exists l.
  split; [done|]. split; [done|]. split; [done|]. by eapply server_kept.
Qed.

(** What serves a call: a handler that refuses no token and keeps the credentials. *)
Definition Handler : Type := (∀ A : Type, list A → list A) → string → Server → Answer.
Record handled (c : Client) (method path : string) (body : option json) (f : Handler) : Prop := {
  handled_by ord t s : serve ord (admin_request c t method path body) s = f ord t s;
  handled_auth ord t s : not_auth (f ord t s);
  handled_creds ord t s : creds (f ord t s).2 = creds s;
}.

(** A call that was answered: by the handler, on the server's data. *)
Definition delivered {A} (method path : string) (out : Out A) (f : Handler) (s : Server)
    (o : option (GoError + A)) (s' : Server) : Prop :=
  ∃ ord t n b, (∀ X (l : list X), ord X l ≡ₚ l) ∧
    let a := f ord t (set_token n b s) in
    s' = a.2 ∧
    match a.1 with
    | Some resp => o = Some (answer method path out (inr resp))
    | None => ∃ err, o = Some (answer method path out (inl err))
    end.

Lemma delivered_auth {A} (c : Client) (method path : string) (body : option json) (out : Out A)
    (f : Handler) (s s' : Server) (e : GoError) :
  handled c method path body f → delivered method path out f s (Some (inl e)) s' →
  errors_Is e SAuth = false.
Proof.
  intros Hf (ord & t & n & b & _ & Hs & Ho). pose proof (handled_auth _ _ _ _ _ Hf ord t (set_token n b s)) as Hn.
  destruct (f ord t (set_token n b s)).1 as [resp|] eqn:E; [|destruct Ho as [err Ho]; by simplify_eq/=].
  destruct (Hn resp E) as [H1 H2]. cbn [answer] in Ho.
  destruct (errors_Is e SAuth) eqn:He; [|done]. exfalso.
  revert Ho He. unfold read_response. cbv zeta.
  rewrite (proj2 (Z.eqb_neq _ _) H1), (proj2 (Z.eqb_neq _ _) H2). cbn [orb].
  intros Ho He. repeat case_match; by simplify_eq/=.
Qed.

Lemma doOnce_served {A} (c : Client) (method path : string) (body : option json) (out : Out A)
    (f : Handler) (w : World St) :
  connected c (server (env w)) → handled c method path body f →
  wp (doOnce c method path body out) (λ o w' _,
    delivered method path out f (server (env w)) o (server (env w')) ∨
    revoked (server (env w)) = true ∧ ∃ n e, o = Some (inl e) ∧ errors_Is e SAuth = true ∧
      server (env w') = set_token n false (server (env w))) w.
Proof.
  intros Hc Hf. unfold doOnce. apply wp_try. eapply wp_mono; [by apply Token_served|].
  intros o w1 _ (n & b & Hs & [[t ->]|(Hrev & -> & e & -> & He)]).
  2: { right. split; [done|]. by exists n, e. }
  cbv zeta. rewrite url_accepted. apply wp_bind, wp_call; [apply _|]. intros resp u Hr.
  cbn [wp_then]. apply wp_ret. left. cbn [env set_env emit] in *.
  destruct (served (admin_request c t method path body) (env w1)) as [Hs' Ho].
  { apply Hc. }
  rewrite Hr, (handled_by _ _ _ _ _ Hf), Hs in *. cbn [fst snd] in *.
  exists (fake_ord (env w1)), t, n, b. split; [intros; apply fake_ord_perm|]. split; [done|].
  destruct (f _ t (set_token n b (server (env w)))).1 as [x|]; [by subst resp|].
  destruct Ho as [err ->]. by exists err.
Qed.

Lemma observed {A} (c : Client) (method : string) (start : Z) (err : option GoError)
    (r : GoError + A) (Q : option (GoError + A) → Server → Prop) (w : World St) :
  Q (Some r) (server (env w)) →
  wp (_ ← observeRequest c method start err; mret r) (λ o w' _, Q o (server (env w'))) w.
Proof.
  intros HQ. apply wp_bind. eapply wp_mono; [apply wp_kept|].
  - unfold observeRequest, now. safe_solve; done.
  - intros o w' l [[u ->] Hs]. cbn [wp_then]. apply wp_ret. by rewrite Hs.
Qed.

(** Every call of the client is answered by its handler, once; a revoked token costs a
    retry and nothing else. *)
Lemma Do_served {A} (c : Client) (method path : string) (body : option json) (out : Out A)
    (f : Handler) (w : World St) :
  connected c (server (env w)) → handled c method path body f →
  wp (Do c method path body out) (λ o w' _,
    delivered method path out f (server (env w)) o (server (env w'))) w.
Proof.
  intros Hc Hf. unfold Do. apply wp_bind, wp_call_env; [apply _|]. cbn [wp_then].
  apply wp_bind. set (w0 := set_env _ w).
  assert (server (env w0) = server (env w)) as Hw0 by apply server_now.
  eapply wp_mono; [apply (doOnce_served c method path body out f); [by rewrite Hw0|done]|].
  rewrite Hw0. intros o w1 l1 [Hd|(Hrev & n & e & -> & He & Hs)]; cbn [wp_then].
  - assert (∃ r, o = Some r) as [r ->].
    { destruct Hd as (ord & t & n & b & _ & _ & Ho). destruct (f ord t _).1; [eauto|].
      destruct Ho as [err ->]. eauto. }
    cbn [wp_then]. destruct r as [e|a].
    + rewrite (delivered_auth _ _ _ _ _ _ _ _ _ Hf Hd).
      by apply (observed c method _ _ (inl e)
        (λ o s', delivered method path out f (server (env w)) o s')).
    + by apply (observed c method _ _ (inr a)
        (λ o s', delivered method path out f (server (env w)) o s')).
  - rewrite He. apply wp_bind. unfold invalidate. apply wp_set_cell. cbn [wp_then].
    apply wp_bind. set (w2 := (set_cell _ _ w1).2).
    assert (server (env w2) = set_token n false (server (env w))) as Hw2 by done.
    eapply wp_mono; [apply (doOnce_served c method path body out f); [|done]|].
    { rewrite Hw2. by eapply connected_creds; [|exact Hc]. }
    rewrite Hw2. intros o w3 l3 [Hd|(Habs & _)]; [|done]. cbn [wp_then].
    destruct Hd as (ord & t & n' & b & Hp & Hs3 & Ho).
    change (set_token n' b (set_token n false (server (env w)))) with (set_token n' b (server (env w))) in *.
    assert (∃ r, o = Some r) as [r ->].
    { destruct (f ord t _).1; [eauto|]. destruct Ho as [err ->]. eauto. }
    cbn [wp_then]. apply (observed c method _ _ r
        (λ o s', delivered method path out f (server (env w)) o s')).
    by exists ord, t, n', b.
Qed.
End FakeCalls.
