(* ===== verification/FakeSim.v ===== *)
(** * A concrete cluster with the fake server

    The cluster of Sim.v with the fake server at the address of its connection: an
    instance of [FakeEnv], on which operator and server run together. *)

From Stdlib Require Import ZArith Lia.
From stdpp Require Import base gmap strings list.
From S2P Require Import Prelude Json JsonText GoError ApiTypes World Sim Logic Url HttpClient.
From S2P Require Import FakeServer FakeClient.

Local Open Scope string_scope.
Local Open Scope list_scope.

(** The state: the clock and the server. *)
Record FakeSim := mkFakeSim { fs_time : Z; fs_server : Server }.

Definition fs_url : string := Conn_URL (Conn_Spec sim_connection).
(** The server visits maps in key order. *)
Definition fs_ord (A : Type) (l : list A) : list A := l.

Definition fs_http (r : HttpRequest) (t : FakeSim) : (string + HttpResponse) * FakeSim :=
  if String.eqb (rq_base r) fs_url then
    let a := serve fs_ord r (fs_server t) in
    (match a.1 with Some resp => inr resp | None => inl "EOF" end, mkFakeSim (fs_time t) a.2)
  else (inl "no such host", t).

#[export] Instance FakeSim_Env : Env FakeSim := {|
  env_now := λ t, (fs_time t, mkFakeSim (fs_time t + 1) (fs_server t));
  env_range := λ A l t, (l, t);
  env_bad_url := λ _, None;
  env_http := fs_http;
  env_get_connection := λ ns name t, (sim_get_connection ns name, t);
  env_get_secret := λ ns name t, (sim_get_secret ns name, t);
  env_create_secret := λ _ t, (None, t);
  env_update_secret := λ _ t, (None, t);
  env_update := λ S o t, ((None, o), t);
  env_patch := λ S o _ t, ((None, o), t);
  env_patch_status := λ S o _ t, ((None, o), t);
  env_patch_connection_status := λ _ _ t, (None, t);
|}.

#[export] Instance FakeSim_EnvLaws : EnvLaws FakeSim.
Proof.
  split; simpl; [done| |].
  - intros ns name s s' c [= E _]. by apply sim_get_connection_Some in E as [_ ?].
  - intros ns name s s' x [= E _]. by apply sim_get_secret_Some in E.
Qed.

#[export, program] Instance FakeSim_FakeEnv : FakeEnv FakeSim := {|
  fake_url := fs_url;
  server := fs_server;
  fake_ord _ := fs_ord;
|}.
Next Obligation. done. Qed.
Next Obligation. done. Qed.
Next Obligation.
  intros r t E. cbn [env_http FakeSim_Env]. unfold fs_http. rewrite E, String.eqb_refl. cbn [fst snd fs_server].
  split; [done|]. destruct (serve fs_ord r (fs_server t)).1; [done|by eexists].
Qed.
Next Obligation.
  intros r t E. cbn [env_http FakeSim_Env]. unfold fs_http. by rewrite (proj2 (String.eqb_neq _ _) E).
Qed.
Next Obligation.
  intros a t t' Hs Ha. inversion Hs; subst; try done. by destruct (Ha r).
Qed.

(** The server of the samples: the credentials of the connection, and one realm. *)
Definition fs_start : Server :=
  set_realms {["other" := {["id" := JStr "other"; "realm" := JStr "other"]}]}
    (fake_New "admin" "s3cret").
Definition fs_world (s : Server) : World FakeSim := mkWorld (mkFakeSim 0 s) ∅ ∅ 0 [].

(** The connected client. *)
Definition fs_config : Config :=
  mkConfig "team/kc" fs_url "master" "password" "admin" "s3cret" "" "" false.

Lemma fs_connected (n : nat) (s : Server) :
  creds s = creds fs_start → connected (mkClient fs_config n) s.
Proof. intros E. split; [done|cbn; set_solver|]. split; [done|]. by rewrite E. Qed.
