(* ===== verification/Provider.v ===== *)
(** * The connection provider (internal/keycloak/provider.go)

    [For] turns a KeycloakConnection and its credentials Secret into an Admin API client
    and keeps it until one of the two changes.  The cache is [byName] of the world, keyed by
    "namespace/name".  [cache_inv] says that each entry is the client its recorded versions
    call for; [For] preserves it and hands out the client of the current objects. *)

From Stdlib Require Import Ascii String ZArith Lia.
From stdpp Require Import base gmap strings list.
From S2P Require Import Prelude Json JsonText GoError LastApplied ApiTypes World Sim Logic Url HttpClient.

Local Open Scope string_scope.
Local Open Scope list_scope.

Definition SecretKeyUsername : string := "username".
Definition SecretKeyPassword : string := "password".
Definition SecretKeyClientID : string := "clientId".
Definition SecretKeyClientSecret : string := "clientSecret".

(** [string(secret.Data[key])]: empty when the key is absent. *)
Definition secret_field (s : Secret) (key : string) : string :=
  default "" (Secret_Data s !! key).

Definition missing_credentials (s : Secret) (a b kind : string) : GoError :=
  PlainError ("credentials secret " +:+ q (GetName (Secret_Meta s)) +:+ " must provide " +:+ q a
    +:+ " and " +:+ q b +:+ " for " +:+ kind +:+ " authentication").

Definition clientConfig (conn : KeycloakConnection) (secret : Secret) : GoError + Config :=
  let spec := Conn_Spec conn in
  let adminRealm :=
    match Conn_AdminRealm spec with
    | Some r => if String.eqb r "" then DefaultAdminRealm else r
    | None => DefaultAdminRealm
    end in
  let insecure :=
    match TLS spec with
    | Some tls => default false (InsecureSkipVerify tls)
    | None => false
    end in
  let auth :=
    match Conn_Auth spec with
    | Some a => if String.eqb a "" then AuthPassword else a
    | None => AuthPassword
    end in
  if String.eqb auth AuthClient then
    let id := secret_field secret SecretKeyClientID in
    let sec := secret_field secret SecretKeyClientSecret in
    if String.eqb id "" || String.eqb sec "" then
      inl (missing_credentials secret SecretKeyClientID SecretKeyClientSecret "client")
    else inr (mkConfig "" (Conn_URL spec) adminRealm AuthClient "" "" id sec insecure)
  else
    let user := secret_field secret SecretKeyUsername in
    let pass := secret_field secret SecretKeyPassword in
    if String.eqb user "" || String.eqb pass "" then
      inl (missing_credentials secret SecretKeyUsername SecretKeyPassword "password")
    else inr (mkConfig "" (Conn_URL spec) adminRealm AuthPassword user pass "" "" insecure).

Definition set_ConnectionName (n : string) (cfg : Config) : Config :=
  mkConfig n (cfg_URL cfg) (cfg_AdminRealm cfg) (cfg_Auth cfg) (cfg_Username cfg)
    (cfg_Password cfg) (cfg_ClientID cfg) (cfg_ClientSecret cfg) (cfg_InsecureSkipVerify cfg).

Definition cache_key (namespace name : string) : string := namespace +:+ "/" +:+ name.

(** The cached client of a key, when its versions are the current ones. *)
Definition cache_hit (cache : gmap string cachedClient) (key connVersion secretVersion : string)
    : option Client :=
  match cache !! key with
  | Some e =>
      if String.eqb (cc_connVersion e) connVersion && String.eqb (cc_secretVer e) secretVersion
      then Some (cc_kc e) else None
  | None => None
  end.

Section Provider.
Context {St : Type} `{Env St}.

(** [NewProvider]: the empty cache. *)
Definition NewProvider : gmap string cachedClient := ∅.

Definition For (namespace name : string) : M St (GoError + Client) :=
  rc ← kube_get_connection namespace name;
  match rc with
  | inl err =>
      _ ← (if IsNotFound err
           then cache ← get_cache; set_cache (delete (cache_key namespace name) cache)
           else mret ());
      mret (inl (Wrapped ("get keycloak connection " +:+ namespace +:+ "/" +:+ name +:+ ": ") err ""))
  | inr conn =>
      let ref := CredentialsSecretRef (Conn_Spec conn) in
      rs ← kube_get_secret namespace ref;
      match rs with
      | inl err =>
          mret (inl (Wrapped ("get credentials secret " +:+ namespace +:+ "/" +:+ ref +:+ ": ") err ""))
      | inr secret =>
          let key := cache_key namespace name in
          let connVersion := GetResourceVersion (Conn_Meta conn) in
          let secretVersion := GetResourceVersion (Secret_Meta secret) in
          cache ← get_cache;
          match cache_hit cache key connVersion secretVersion with
          | Some kc => mret (inr kc)
          | None =>
              match clientConfig conn secret with
              | inl err => mret (inl err)
              | inr cfg =>
                  kc ← New (set_ConnectionName (cache_key namespace name) cfg);
                  cache ← get_cache;
                  _ ← set_cache (<[key := mkCachedClient kc connVersion secretVersion]> cache);
                  mret (inr kc)
              end
          end
      end
  end.
End Provider.

(** ** Configurations *)

(** The grant a connection asks for. *)
Definition wants_client (conn : KeycloakConnection) : bool :=
  bool_decide (Conn_Auth (Conn_Spec conn) = Some AuthClient).

Definition complete (conn : KeycloakConnection) (secret : Secret) : Prop :=
  if wants_client conn
  then secret_field secret SecretKeyClientID ≠ "" ∧ secret_field secret SecretKeyClientSecret ≠ ""
  else secret_field secret SecretKeyUsername ≠ "" ∧ secret_field secret SecretKeyPassword ≠ "".

Lemma auth_wants_client (conn : KeycloakConnection) :
  String.eqb (match Conn_Auth (Conn_Spec conn) with
              | Some a => if String.eqb a "" then AuthPassword else a
              | None => AuthPassword
              end) AuthClient = wants_client conn.
Proof.
  unfold wants_client. destruct (Conn_Auth _) as [a|]; [|done].
  destruct (String.eqb_spec a "") as [->|Ha]; [done|].
  destruct (String.eqb_spec a AuthClient) as [->|Hc]; symmetry.
  - by apply bool_decide_eq_true.
  - apply bool_decide_eq_false. congruence.
Qed.

(** A configuration [New] changes nothing of. *)
Definition normal (cfg : Config) : Prop := cfg_AdminRealm cfg ≠ "" ∧ cfg_Auth cfg ≠ "".

Lemma clientConfig_normal (conn : KeycloakConnection) (secret : Secret) (cfg : Config) :
  clientConfig conn secret = inr cfg → normal cfg.
Proof.
  unfold clientConfig. intros E. repeat case_match; simplify_eq/=; split; simpl; try done;
    try by apply String.eqb_neq.
Qed.

Section ProviderSpecs.
Context {St : Type} `{Env St}.

Lemma New_wp (cfg : Config) (Q : option Client → World St → list Action → Prop) (w : World St) :
  normal cfg → Q (Some (mkClient cfg (next_cell w))) (new_cell w).2 [] → wp (New cfg) Q w.
Proof.
  intros [Hr Ha] HQ. unfold New.
  rewrite (proj2 (String.eqb_neq _ _) Hr), (proj2 (String.eqb_neq _ _) Ha).
  apply wp_bind, wp_new_cell. simpl. apply wp_ret. by destruct cfg.
Qed.

Context `{!EnvLaws St, !Versions St}.

(** The configuration that the recorded versions of a connection and its Secret call for. *)
Definition config_at (namespace name connVersion secretVersion : string) : GoError + Config :=
  let conn := connection_at namespace name connVersion in
  match clientConfig conn
          (secret_at namespace (CredentialsSecretRef (Conn_Spec conn)) secretVersion) with
  | inl e => inl e
  | inr cfg => inr (set_ConnectionName (cache_key namespace name) cfg)
  end.

(** A namespace is a DNS label: it has no slash, so that keys do not collide. *)
Definition no_slash (s : string) : Prop := str_all (λ a, negb (delimiter a)) s = true.

Definition cache_inv (w : World St) : Prop :=
  ∀ ns name e, no_slash ns → byName w !! cache_key ns name = Some e →
    config_at ns name (cc_connVersion e) (cc_secretVer e) = inr (cl_cfg (cc_kc e)).

Lemma cache_key_inj (ns ns' name name' : string) :
  no_slash ns → no_slash ns' → cache_key ns name = cache_key ns' name' → ns = ns' ∧ name = name'.
Proof.
  intros Hn Hn' E. unfold cache_key in E.
  apply segment_split in E as [-> E]; [|done..]. split; [done|].
  change ("/" +:+ name) with (String "/" name) in E. change ("/" +:+ name') with (String "/" name') in E.
  congruence.
Qed.

Lemma config_at_current (ns name : string) (s1 s2 s3 s4 : St) (conn : KeycloakConnection)
    (secret : Secret) :
  env_get_connection ns name s1 = (inr conn, s2) →
  env_get_secret ns (CredentialsSecretRef (Conn_Spec conn)) s3 = (inr secret, s4) →
  config_at ns name (GetResourceVersion (Conn_Meta conn)) (GetResourceVersion (Secret_Meta secret))
  = match clientConfig conn secret with
    | inl e => inl e
    | inr cfg => inr (set_ConnectionName (cache_key ns name) cfg)
    end.
Proof.
  intros Hc Hs. unfold config_at.
  rewrite <- (connection_version _ _ _ _ _ Hc). by rewrite <- (secret_version _ _ _ _ _ Hs).
Qed.

(** The client the current objects call for, or the error. *)
Definition for_post (ns name : string) (w : World St) (o : option (GoError + Client))
    (w' : World St) : Prop :=
  let key := cache_key ns name in
  match env_get_connection ns name (env w) with
  | (inl e, _) =>
      o = Some (inl (Wrapped ("get keycloak connection " +:+ ns +:+ "/" +:+ name +:+ ": ") e "")) ∧
      byName w' = if IsNotFound e then delete key (byName w) else byName w
  | (inr conn, s) =>
      let ref := CredentialsSecretRef (Conn_Spec conn) in
      match env_get_secret ns ref s with
      | (inl e, _) =>
          o = Some (inl (Wrapped ("get credentials secret " +:+ ns +:+ "/" +:+ ref +:+ ": ") e "")) ∧
          byName w' = byName w
      | (inr secret, _) =>
          match clientConfig conn secret with
          | inl e => o = Some (inl e) ∧ byName w' = byName w
          | inr cfg =>
              ∃ kc, o = Some (inr kc) ∧ cl_cfg kc = set_ConnectionName key cfg ∧
                byName w' = <[key := mkCachedClient kc (GetResourceVersion (Conn_Meta conn))
                                       (GetResourceVersion (Secret_Meta secret))]> (byName w)
          end
      end
  end.

Lemma cache_hit_Some (cache : gmap string cachedClient) (key v1 v2 : string) (kc : Client) :
  cache_hit cache key v1 v2 = Some kc → cache !! key = Some (mkCachedClient kc v1 v2).
Proof.
  unfold cache_hit. intros E. destruct (cache !! key) as [[kc' v1' v2']|]; [|done]. simpl in E.
  destruct (String.eqb_spec v1' v1), (String.eqb_spec v2' v2); simplify_eq/=. done.
Qed.

Lemma For_wp (ns name : string) (w : World St) :
  cache_inv w → no_slash ns →
  wp (For ns name) (λ o w' _, for_post ns name w o w') w.
Proof.
  intros Hinv Hns. unfold For. apply wp_bind. apply wp_call; [apply _|]. intros rc s1 Hc. simpl.
  unfold for_post. rewrite Hc. destruct rc as [e|conn].
  { apply wp_bind. destruct (IsNotFound e).
    - apply wp_bind, wp_get_cache. simpl. apply wp_set_cache. simpl. by apply wp_ret.
    - apply wp_ret. simpl. by apply wp_ret. }
  cbv zeta. apply wp_bind, wp_call; [apply _|]. simpl. intros rs s2 Hs. rewrite Hs.
  destruct rs as [e|secret]; [by apply wp_ret|].
  apply wp_bind, wp_get_cache. simpl. destruct (cache_hit _ _ _ _) as [kc|] eqn:Hhit.
  - apply wp_ret. apply cache_hit_Some in Hhit.
    specialize (Hinv _ _ _ Hns Hhit). simpl in Hinv.
    rewrite (config_at_current _ _ _ _ _ _ _ _ Hc Hs) in Hinv.
    destruct (clientConfig conn secret) as [e|cfg]; [done|]. simplify_eq/=.
    exists kc. repeat split; [done|]. by rewrite insert_id.
  - destruct (clientConfig conn secret) as [e|cfg] eqn:Hcfg; [by apply wp_ret|].
    apply wp_bind, New_wp; [by destruct (clientConfig_normal _ _ _ Hcfg)|]. simpl.
    apply wp_bind, wp_get_cache. simpl. apply wp_bind, wp_set_cache. simpl. apply wp_ret.
    by eexists.
Qed.

Lemma for_post_inv (ns name : string) (w w' : World St) (o : option (GoError + Client)) :
  cache_inv w → no_slash ns → for_post ns name w o w' → cache_inv w'.
Proof.
  intros Hinv Hns Hp ns' name' e Hns' He. unfold for_post in Hp.
  destruct (env_get_connection ns name (env w)) as [[e1|conn] s1] eqn:Hc.
  { destruct Hp as [_ Hb]. rewrite Hb in He. destruct (IsNotFound e1); [|by eauto].
    apply lookup_delete_Some in He as [_ He]. eauto. }
  destruct (env_get_secret ns _ s1) as [[e2|secret] s2] eqn:Hs.
  { destruct Hp as [_ Hb]. rewrite Hb in He. eauto. }
  pose proof (config_at_current _ _ _ _ _ _ _ _ Hc Hs) as Hcur.
  destruct (clientConfig conn secret) as [e3|cfg].
  { destruct Hp as [_ Hb]. rewrite Hb in He. eauto. }
  destruct Hp as (kc & _ & Hkc & Hb). rewrite Hb in He.
  apply lookup_insert_Some in He as [[Hk <-]|[_ He]]; [|by eauto].
  destruct (cache_key_inj _ _ _ _ Hns Hns' Hk) as [-> ->]. simpl. by rewrite Hkc.
Qed.

(** The reads of [For]. *)
Lemma For_safe (P : Action → Prop) (ns name : string) :
  P (KubeGet "keycloakconnections" ns name) → (∀ n, P (KubeGet "secrets" ns n)) →
  safe P (For ns name).
Proof.
  intros Hc Hs. unfold For, New, kube_get_connection, kube_get_secret. safe_solve; auto.
Qed.

(** Reachable caches: what a run of [For]s from the empty cache leads to. *)
Lemma cache_inv_empty (w : World St) : byName w = NewProvider → cache_inv w.
Proof. intros Hb ns name e _ He. by rewrite Hb in He. Qed.
End ProviderSpecs.

(** ** Theorems *)

(** C10.  The client handed out is the client of the current objects.  From a cache whose
    entries match their recorded versions, [For] returns, for a connection and a
    credentials Secret it can read, a client configured by exactly those two, cached or
    new, under the key of the connection; it passes the errors of the reads and of the
    configuration on; it drops the cached client, and with it the credentials, of a
    connection that is gone; and it keeps the cache in that state. *)
Theorem provider_coherent {St} `{EnvLaws St, !Versions St} (ns name : string) (w : World St) :
  cache_inv w → no_slash ns →
  ∃ r w', For ns name w = (Some r, w') ∧ for_post ns name w (Some r) w' ∧ cache_inv w'.
Proof.
  intros Hinv Hns. destruct (For_wp ns name w Hinv Hns) as (l & _ & _ & Hp).
  destruct (For ns name w) as [[r|] w'] eqn:E; simpl in Hp.
  - exists r, w'. eauto using for_post_inv.
  - exfalso. unfold for_post in Hp. repeat case_match; naive_solver.
Qed.

Lemma provider_coherent_witness :
  ∃ r w', For "team" "kc" (sim_world []) = (Some r, w') ∧
    for_post "team" "kc" (sim_world []) (Some r) w' ∧ cache_inv w'.
Proof. apply provider_coherent; [by apply cache_inv_empty|reflexivity]. Defined.

(** C34.  A connection's configuration is accepted exactly when the Secret holds
    non-empty credentials for the grant it asks for (the client grant when [auth] is
    "client", the password grant otherwise), and then carries the connection's URL, those
    credentials and no others, and a non-empty admin realm. *)
Theorem client_config_correct (conn : KeycloakConnection) (secret : Secret) :
  match clientConfig conn secret with
  | inl _ => ¬ complete conn secret
  | inr cfg => complete conn secret ∧ cfg_URL cfg = Conn_URL (Conn_Spec conn) ∧
      cfg_AdminRealm cfg ≠ "" ∧
      if wants_client conn
      then cfg_Auth cfg = AuthClient ∧ cfg_Username cfg = "" ∧ cfg_Password cfg = "" ∧
           cfg_ClientID cfg = secret_field secret SecretKeyClientID ∧
           cfg_ClientSecret cfg = secret_field secret SecretKeyClientSecret
      else cfg_Auth cfg = AuthPassword ∧ cfg_ClientID cfg = "" ∧ cfg_ClientSecret cfg = "" ∧
           cfg_Username cfg = secret_field secret SecretKeyUsername ∧
           cfg_Password cfg = secret_field secret SecretKeyPassword
  end.
Proof.
  pose proof (clientConfig_normal conn secret) as Hn.
  unfold clientConfig, complete in *. cbv zeta in *. rewrite auth_wants_client in *.
  destruct (wants_client conn);
    repeat match goal with
           | |- context [String.eqb (secret_field secret ?k) ""] =>
               destruct (String.eqb_spec (secret_field secret k) "")
           end; simpl in *; try (intros []; congruence); by destruct (Hn _ eq_refl).
Qed.
