(* ===== verification/Threads.v ===== *)
(** * Pools of threads

    The reconcilers of the operator run in parallel and share the provider and its clients.
    A thread is a program counter with its local variables ([pc]); [step] is one move of it:
    a call that leaves the operator, or a critical section.  [None] is a thread that has to
    wait for a mutex.  A pool is the shared state and one program counter per thread, and
    [pool_run σ] the runs in which the threads move in the order [σ]; between two moves the
    rest of the system may change the shared state as [others] allows.

    The rules: invariants of the pool by induction on the run, a bound on every schedule by
    a measure of the program counters, and the scheduler [exec] for concrete runs. *)

From Stdlib Require Import Lia.
From stdpp Require Import base list sets.
From S2P Require Import Prelude.

(** An element of an updated list. *)
Lemma insert_elem_inv {A} (l : list A) (i : nat) (x y : A) : y ∈ <[i := x]> l → y = x ∨ y ∈ l.
Proof.
  revert i. induction l as [|z l IH]; intros [|i] Hy; simpl in *; [by right..|set_solver|].
  apply elem_of_cons in Hy as [->|Hy]; [set_solver|]. destruct (IH _ Hy); set_solver.
Qed.

(** A sum over an updated list. *)
Lemma sum_list_insert {A} (f : A → nat) (l : list A) (i : nat) (x y : A) :
  l !! i = Some x → sum_list_with f (<[i := y]> l) + f x = sum_list_with f l + f y.
Proof.
  revert i. induction l as [|z l IH]; intros [|i] Hi; simplify_eq/=; [lia|].
  specialize (IH i Hi). lia.
Qed.

Lemma sum_list_elem {A} (f : A → nat) (l : list A) (i : nat) (x : A) :
  l !! i = Some x → f x ≤ sum_list_with f l.
Proof.
  revert i. induction l as [|z l IH]; intros [|i] Hi; simplify_eq/=; [lia|].
  specialize (IH i Hi). lia.
Qed.

Section Pool.
Context {W pc : Type}.
Context (step : pc → W → option (pc * W)) (finished : pc → bool) (others : W → W → Prop).

Inductive pool_run : list nat → W * list pc → W * list pc → Prop :=
  | pool_nil (c : W * list pc) : pool_run [] c c
  | pool_others (σ : list nat) (w w' : W) (ts : list pc) (c : W * list pc) :
      others w w' → pool_run σ (w', ts) c → pool_run σ (w, ts) c
  | pool_thread (σ : list nat) (i : nat) (p p' : pc) (w w' : W) (ts : list pc)
      (c : W * list pc) :
      ts !! i = Some p → finished p = false → step p w = Some (p', w') →
      pool_run σ (w', <[i := p']> ts) c → pool_run (i :: σ) (w, ts) c.

Lemma pool_run_app (σ τ : list nat) (c1 c2 c3 : W * list pc) :
  pool_run σ c1 c2 → pool_run τ c2 c3 → pool_run (σ ++ τ) c1 c3.
Proof. induction 1; intros; simpl; eauto using pool_run. Qed.

(** ** Invariants *)

Lemma pool_invariant (I : W → list pc → Prop) :
  (∀ w w' ts, others w w' → I w ts → I w' ts) →
  (∀ i p p' w w' ts, I w ts → ts !! i = Some p → finished p = false →
     step p w = Some (p', w') → I w' (<[i := p']> ts)) →
  ∀ σ c c', pool_run σ c c' → I c.1 c.2 → I c'.1 c'.2.
Proof. intros Ho Hs σ c c' Hr. induction Hr; simpl in *; eauto. Qed.

(** The same thread by thread: what a move establishes for its thread, and that it does
    not disturb what holds of the others. *)
Lemma pool_rely (I : W → Prop) (J : W → pc → Prop) :
  (∀ w w', others w w' → I w → I w') →
  (∀ w w' p, others w w' → I w → J w p → J w' p) →
  (∀ p p' w w', I w → J w p → finished p = false → step p w = Some (p', w') →
     I w' ∧ J w' p' ∧ ∀ q, J w q → J w' q) →
  ∀ σ c c', pool_run σ c c' → I c.1 → Forall (J c.1) c.2 → I c'.1 ∧ Forall (J c'.1) c'.2.
Proof.
  intros HoI HoJ Hs σ c c' Hr HI HJ.
  apply (pool_invariant (λ w ts, I w ∧ Forall (J w) ts)) with (σ := σ) (c := c); [..|done|done].
  - intros w w' ts Ho [Hw Ht]. split; [by eauto|]. eapply Forall_impl; [done|]. eauto.
  - intros i p p' w w' ts [Hw Ht] Hi Hf Hp.
    destruct (Hs p p' w w') as (Hw' & Hp' & Hq); [done| |done..|].
    { by eapply Forall_lookup_1. }
    split; [done|]. apply Forall_insert; [|done]. by eapply Forall_impl.
Qed.

(** ** Schedules *)

(** The moves of one thread in a schedule. *)
Definition moves (i : nat) (σ : list nat) : nat := length (filter (i =.) σ).

Lemma pool_threads (σ : list nat) (c c' : W * list pc) :
  pool_run σ c c' → length c'.2 = length c.2.
Proof.
  intros Hr. induction Hr; simpl in *; [done..|]. by rewrite IHHr, length_insert.
Qed.

Section Bound.
Context (measure : pc → nat).
Hypothesis step_decreases : ∀ p p' w w',
  finished p = false → step p w = Some (p', w') → measure p' < measure p.

(** No thread moves more often than its measure allows. *)
Lemma pool_bound (σ : list nat) (c c' : W * list pc) :
  pool_run σ c c' → ∀ i p p', c.2 !! i = Some p → c'.2 !! i = Some p' →
  moves i σ + measure p' ≤ measure p.
Proof.
  intros Hr. induction Hr as [c|σ w w' ts c _ _ IH|σ j p p' w w' ts c Hj Hf Hs _ IH];
    intros i q q' Hq Hq'; simpl in *.
  - simplify_eq. unfold moves. simpl. lia.
  - eauto.
  - pose proof (step_decreases _ _ _ _ Hf Hs) as Hd. unfold moves. rewrite filter_cons.
    destruct (decide (i = j)) as [->|Hne]; simpl.
    + simplify_eq. specialize (IH j p' q'). rewrite list_lookup_insert_eq in IH
        by (by eapply lookup_lt_Some). specialize (IH eq_refl Hq'). unfold moves in IH. lia.
    + apply (IH i q q'); [|done]. by rewrite list_lookup_insert_ne.
Qed.

(** The pool as a whole, and so every schedule of it, is bounded. *)
Lemma pool_total (σ : list nat) (c c' : W * list pc) :
  pool_run σ c c' → length σ + sum_list_with measure c'.2 ≤ sum_list_with measure c.2.
Proof.
  intros Hr. induction Hr as [c|σ w w' ts c _ _ IH|σ j p p' w w' ts c Hj Hf Hs _ IH];
    simpl in *; [lia|lia|].
  pose proof (step_decreases _ _ _ _ Hf Hs) as Hd.
  pose proof (sum_list_insert measure ts j p p' Hj). lia.
Qed.

(** A pool in which some thread can always move can run to its end. *)
Lemma pool_ends (I : W → list pc → Prop) (w : W) (ts : list pc) :
  (∀ i p p' w w' ts, I w ts → ts !! i = Some p → finished p = false →
     step p w = Some (p', w') → I w' (<[i := p']> ts)) →
  (∀ w ts, I w ts → Forall (λ p, finished p = true) ts ∨
     ∃ i p p' w', ts !! i = Some p ∧ finished p = false ∧ step p w = Some (p', w')) →
  I w ts → ∃ σ c, pool_run σ (w, ts) c ∧ Forall (λ p, finished p = true) c.2.
Proof.
  intros HI Hp. remember (sum_list_with measure ts) as n eqn:Hn. revert w ts Hn.
  induction n as [n IH] using lt_wf_ind. intros w ts -> Hw.
  destruct (Hp w ts Hw) as [Hd|(i & p & p' & w' & Hi & Hf & Hs)].
  { exists [], (w, ts). by split; [constructor|]. }
  assert (pool_run [i] (w, ts) (w', <[i:=p']> ts)) as Hr by (econstructor; eauto; constructor).
  pose proof (pool_total _ _ _ Hr) as Hlt. simpl in Hlt.
  destruct (IH (sum_list_with measure (<[i:=p']> ts)) ltac:(lia) w' (<[i:=p']> ts) eq_refl)
    as (σ & c & Hc & Hd); [by eauto|].
  exists (i :: σ), c. split; [|done]. by eapply pool_thread.
Qed.
End Bound.

(** ** Executable schedules *)

Fixpoint exec (σ : list nat) (w : W) (ts : list pc) : option (W * list pc) :=
  match σ with
  | [] => Some (w, ts)
  | i :: σ =>
      p ← ts !! i;
      if finished p then None else
      '(p', w') ← step p w;
      exec σ w' (<[i := p']> ts)
  end.

Lemma exec_run (σ : list nat) (w : W) (ts : list pc) (c : W * list pc) :
  exec σ w ts = Some c → pool_run σ (w, ts) c.
Proof.
  revert w ts. induction σ as [|i σ IH]; intros w ts E; simpl in E.
  { simplify_eq. constructor. }
  destruct (ts !! i) as [p|] eqn:Hi; [|done]. simpl in E.
  destruct (finished p) eqn:Hf; [done|].
  destruct (step p w) as [[p' w']|] eqn:Hs; [|done]. by eapply pool_thread; eauto.
Qed.

(** One thread on its own: at most [n] moves. *)
Fixpoint alone (n : nat) (p : pc) (w : W) : option (pc * W) :=
  if finished p then Some (p, w)
  else match n with
       | O => None
       | S n => '(p', w') ← step p w; alone n p' w'
       end.

Lemma alone_move (n : nat) (p p' : pc) (w w' : W) (o : option (pc * W)) :
  finished p = false → step p w = Some (p', w') → alone n p' w' = o → alone (S n) p w = o.
Proof. intros Hf Hs <-. simpl. by rewrite Hf, Hs. Qed.

Lemma alone_enough (n m : nat) (p : pc) (w : W) (x : pc * W) :
  alone n p w = Some x → n ≤ m → alone m p w = Some x.
Proof.
  revert m p w. induction n as [|n IH]; intros [|m] p w E Hle; simpl in *;
    try (destruct (finished p); [done|]); try done; try lia.
  destruct (step p w) as [[p' w']|]; [|done]. simpl in *. apply IH; [done|lia].
Qed.

Lemma alone_run (n : nat) (p p' : pc) (w w' : W) :
  alone n p w = Some (p', w') → ∃ σ, pool_run σ (w, [p]) (w', [p']) ∧ finished p' = true.
Proof.
  revert p w. induction n as [|n IH]; intros p w E; simpl in E;
    destruct (finished p) eqn:Hf; simplify_eq.
  1,2: exists []; by split; [constructor|].
  destruct (step p w) as [[p1 w1]|] eqn:Hs; [|done]. simpl in E.
  destruct (IH _ _ E) as (σ & Hr & Hd). exists (0 :: σ). split; [|done]. by eapply pool_thread.
Qed.
End Pool.

#[global] Arguments alone : simpl never.

(** ** A mutex *)

Section Mutex.
Context {pc : Type} (holds : pc → nat) (finished : pc → bool).

(** The mutex is taken exactly while one thread, and no more than one, holds it. *)
Definition mutex_inv (mu : bool) (ts : list pc) : Prop :=
  sum_list_with holds ts = if mu then 1 else 0.

Lemma mutex_exclusive (mu : bool) (ts : list pc) (i j : nat) (p q : pc) :
  mutex_inv mu ts → ts !! i = Some p → ts !! j = Some q → holds p = 1 → holds q = 1 → i = j.
Proof.
  revert i j. unfold mutex_inv. induction ts as [|x ts IH]; intros i j Hm Hi Hj Hp Hq; [done|].
  pose proof (λ k y, sum_list_elem holds ts k y) as Hle.
  destruct i as [|i], j as [|j]; simplify_eq/=; [done| | |].
  - specialize (Hle _ _ Hj). destruct mu; lia.
  - specialize (Hle _ _ Hi). destruct mu; lia.
  - f_equal. apply (IH i j); [|done..]. specialize (Hle _ _ Hi). destruct mu; lia.
Qed.

(** A thread that has not finished and does not have to wait. *)
Lemma mutex_next (mu : bool) (ts : list pc) :
  (∀ p, holds p ≤ 1 ∧ (holds p = 1 → finished p = false)) → mutex_inv mu ts →
  Forall (λ p, finished p = true) ts ∨
  ∃ i p, ts !! i = Some p ∧ finished p = false ∧ (mu = false ∨ holds p = 1).
Proof.
  intros Hh Hm. destruct mu.
  - right. unfold mutex_inv in Hm. clear -Hh Hm. induction ts as [|p ts IH]; simpl in Hm; [done|].
    destruct (Hh p) as [Hle Hf]. destruct (holds p) as [|[|]] eqn:E; [|exists 0, p; by auto|lia].
    destruct IH as (i & q & ?); [done|]. by exists (S i), q.
  - destruct (decide (Forall (λ p, finished p = true) ts)) as [|Hn]; [by left|right].
    apply not_Forall_Exists, Exists_exists in Hn as (p & Hp & Hf); [|apply _].
    apply list_elem_of_lookup in Hp as [i Hi]. exists i, p.
    split; [done|]. split; [by apply not_true_is_false|by left].
Qed.
End Mutex.
