(* ===== verification/Concurrent.v ===== *)
(** * The provider under parallel reconcilers (internal/keycloak/provider.go)

    The controllers call [For] of one provider from many goroutines.  [For_step] is [For] as a
    machine with the provider's mutex as part of the shared state: the two reads of Kubernetes
    happen outside the mutex; each of the three critical sections (delete, lookup, insert)
    is entered by a move that waits for the mutex, and left by the move that touches the
    cache and unlocks.  Any number of calls runs in a pool (Threads.v); run alone, the machine
    is [For] of Provider.v. *)

From Stdlib Require Import ZArith Lia.
From stdpp Require Import base gmap strings list.
From S2P Require Import Prelude Json JsonText GoError LastApplied ApiTypes World Sim Logic Url HttpClient Provider Threads.

Local Open Scope string_scope.
Local Open Scope list_scope.

(** ** The provider *)

(** Where a call of [For] is, with the variables that are live there.  [ForDropping],
    [ForLooking] and [ForStoring] hold the mutex.  [ForDone] keeps what the call read. *)
Inductive ForPc :=
  | ForStart (namespace name : string)
  | ForDrop (namespace name : string) (err : GoError)
  | ForDropping (namespace name : string) (err : GoError)
  | ForConn (namespace name : string) (conn : KeycloakConnection)
  | ForLookup (namespace name : string) (conn : KeycloakConnection) (secret : Secret)
  | ForLooking (namespace name : string) (conn : KeycloakConnection) (secret : Secret)
  | ForBuild (namespace name : string) (conn : KeycloakConnection) (secret : Secret)
  | ForStore (namespace name : string) (conn : KeycloakConnection) (secret : Secret) (kc : Client)
  | ForStoring (namespace name : string) (conn : KeycloakConnection) (secret : Secret) (kc : Client)
  | ForDone (namespace name : string) (objects : option (KeycloakConnection * Secret))
      (r : GoError + Client).

Definition for_finished (p : ForPc) : bool :=
  match p with ForDone _ _ _ _ => true | _ => false end.

Section ForMachine.
Context {St : Type} `{Env St}.

(** A move with the mutex taken or free before it, and the same after it; [None] waits. *)
Definition For_step (p : ForPc) (mu : bool) : option (M St (ForPc * bool)) :=
  match p with
  | ForStart ns name => Some (
      rc ← kube_get_connection ns name;
      mret (match rc with
            | inl err =>
                if IsNotFound err then ForDrop ns name err
                else ForDone ns name None
                       (inl (Wrapped ("get keycloak connection " +:+ ns +:+ "/" +:+ name +:+ ": ") err ""))
            | inr conn => ForConn ns name conn
            end, mu))
  | ForDrop ns name err => if mu then None else Some (mret (ForDropping ns name err, true))
  | ForDropping ns name err => Some (
      cache ← get_cache;
      _ ← set_cache (delete (cache_key ns name) cache);
      mret (ForDone ns name None
              (inl (Wrapped ("get keycloak connection " +:+ ns +:+ "/" +:+ name +:+ ": ") err "")),
            false))
  | ForConn ns name conn => Some (
      let ref := CredentialsSecretRef (Conn_Spec conn) in
      rs ← kube_get_secret ns ref;
      mret (match rs with
            | inl err =>
                ForDone ns name None
                  (inl (Wrapped ("get credentials secret " +:+ ns +:+ "/" +:+ ref +:+ ": ") err ""))
            | inr secret => ForLookup ns name conn secret
            end, mu))
  | ForLookup ns name conn secret =>
      if mu then None else Some (mret (ForLooking ns name conn secret, true))
  | ForLooking ns name conn secret => Some (
      cache ← get_cache;
      mret match cache_hit cache (cache_key ns name) (GetResourceVersion (Conn_Meta conn))
                   (GetResourceVersion (Secret_Meta secret)) with
           | Some kc => (ForDone ns name (Some (conn, secret)) (inr kc), false)
           | None => (ForBuild ns name conn secret, false)
           end)
  | ForBuild ns name conn secret => Some
      match clientConfig conn secret with
      | inl err => mret (ForDone ns name (Some (conn, secret)) (inl err), mu)
      | inr cfg =>
          kc ← New (set_ConnectionName (cache_key ns name) cfg);
          mret (ForStore ns name conn secret kc, mu)
      end
  | ForStore ns name conn secret kc =>
      if mu then None else Some (mret (ForStoring ns name conn secret kc, true))
  | ForStoring ns name conn secret kc => Some (
      cache ← get_cache;
      _ ← set_cache (<[cache_key ns name := mkCachedClient kc (GetResourceVersion (Conn_Meta conn))
                          (GetResourceVersion (Secret_Meta secret))]> cache);
      mret (ForDone ns name (Some (conn, secret)) (inr kc), false))
  | ForDone _ _ _ _ => Some (mret (p, mu))
  end.

Definition for_move (p : ForPc) (s : World St * bool) : option (ForPc * (World St * bool)) :=
  m ← For_step p s.2;
  match m s.1 with
  | (Some (p', mu), w') => Some (p', (w', mu))
  | (None, _) => None
  end.

(** The rest of the operator and of the cluster: it leaves the cache and the mutex alone and
    does not take cells away. *)
Definition for_others (s s' : World St * bool) : Prop :=
  s'.2 = s.2 ∧ byName s'.1 = byName s.1 ∧ (next_cell s.1 ≤ next_cell s'.1)%nat.

Definition for_run := pool_run for_move for_finished for_others.

Definition for_measure (p : ForPc) : nat :=
  match p with
  | ForStart _ _ => 7
  | ForConn _ _ _ => 6
  | ForLookup _ _ _ _ => 5
  | ForLooking _ _ _ _ => 4
  | ForBuild _ _ _ _ => 3
  | ForStore _ _ _ _ _ => 2
  | ForStoring _ _ _ _ _ => 1
  | ForDrop _ _ _ => 2
  | ForDropping _ _ _ => 1
  | ForDone _ _ _ _ => 0
  end.

(** The moves as rules. *)
Inductive for_trans : ForPc → World St * bool → ForPc → World St * bool → Prop :=
  | trans_get_error (ns name : string) (err : GoError) (s : St) (w : World St) (mu : bool) :
      env_get_connection ns name (env w) = (inl err, s) →
      for_trans (ForStart ns name) (w, mu)
        (if IsNotFound err then ForDrop ns name err
         else ForDone ns name None
                (inl (Wrapped ("get keycloak connection " +:+ ns +:+ "/" +:+ name +:+ ": ") err "")))
        (set_env s (emit (KubeGet "keycloakconnections" ns name) w).2, mu)
  | trans_get (ns name : string) (conn : KeycloakConnection) (s : St) (w : World St) (mu : bool) :
      env_get_connection ns name (env w) = (inr conn, s) →
      for_trans (ForStart ns name) (w, mu) (ForConn ns name conn)
        (set_env s (emit (KubeGet "keycloakconnections" ns name) w).2, mu)
  | trans_lock_drop (ns name : string) (err : GoError) (w : World St) :
      for_trans (ForDrop ns name err) (w, false) (ForDropping ns name err) (w, true)
  | trans_drop (ns name : string) (err : GoError) (w : World St) (mu : bool) :
      for_trans (ForDropping ns name err) (w, mu)
        (ForDone ns name None
           (inl (Wrapped ("get keycloak connection " +:+ ns +:+ "/" +:+ name +:+ ": ") err "")))
        ((set_cache (delete (cache_key ns name) (byName w)) w).2, false)
  | trans_secret_error (ns name : string) (conn : KeycloakConnection) (err : GoError) (s : St)
      (w : World St) (mu : bool) :
      env_get_secret ns (CredentialsSecretRef (Conn_Spec conn)) (env w) = (inl err, s) →
      for_trans (ForConn ns name conn) (w, mu)
        (ForDone ns name None
           (inl (Wrapped ("get credentials secret " +:+ ns +:+ "/" +:+
                          CredentialsSecretRef (Conn_Spec conn) +:+ ": ") err "")))
        (set_env s (emit (KubeGet "secrets" ns (CredentialsSecretRef (Conn_Spec conn))) w).2, mu)
  | trans_secret (ns name : string) (conn : KeycloakConnection) (secret : Secret) (s : St)
      (w : World St) (mu : bool) :
      env_get_secret ns (CredentialsSecretRef (Conn_Spec conn)) (env w) = (inr secret, s) →
      for_trans (ForConn ns name conn) (w, mu) (ForLookup ns name conn secret)
        (set_env s (emit (KubeGet "secrets" ns (CredentialsSecretRef (Conn_Spec conn))) w).2, mu)
  | trans_lock_lookup (ns name : string) (conn : KeycloakConnection) (secret : Secret)
      (w : World St) :
      for_trans (ForLookup ns name conn secret) (w, false) (ForLooking ns name conn secret) (w, true)
  | trans_hit (ns name : string) (conn : KeycloakConnection) (secret : Secret) (kc : Client)
      (w : World St) (mu : bool) :
      byName w !! cache_key ns name = Some (mkCachedClient kc (GetResourceVersion (Conn_Meta conn))
        (GetResourceVersion (Secret_Meta secret))) →
      for_trans (ForLooking ns name conn secret) (w, mu)
        (ForDone ns name (Some (conn, secret)) (inr kc)) (w, false)
  | trans_miss (ns name : string) (conn : KeycloakConnection) (secret : Secret) (w : World St)
      (mu : bool) :
      for_trans (ForLooking ns name conn secret) (w, mu) (ForBuild ns name conn secret) (w, false)
  | trans_config_error (ns name : string) (conn : KeycloakConnection) (secret : Secret)
      (err : GoError) (w : World St) (mu : bool) :
      clientConfig conn secret = inl err →
      for_trans (ForBuild ns name conn secret) (w, mu)
        (ForDone ns name (Some (conn, secret)) (inl err)) (w, mu)
  | trans_build (ns name : string) (conn : KeycloakConnection) (secret : Secret) (cfg : Config)
      (w : World St) (mu : bool) :
      clientConfig conn secret = inr cfg →
      for_trans (ForBuild ns name conn secret) (w, mu)
        (ForStore ns name conn secret
           (mkClient (set_ConnectionName (cache_key ns name) cfg) (next_cell w)))
        ((new_cell w).2, mu)
  | trans_lock_store (ns name : string) (conn : KeycloakConnection) (secret : Secret) (kc : Client)
      (w : World St) :
      for_trans (ForStore ns name conn secret kc) (w, false)
        (ForStoring ns name conn secret kc) (w, true)
  | trans_store (ns name : string) (conn : KeycloakConnection) (secret : Secret) (kc : Client)
      (w : World St) (mu : bool) :
      for_trans (ForStoring ns name conn secret kc) (w, mu)
        (ForDone ns name (Some (conn, secret)) (inr kc))
        ((set_cache (<[cache_key ns name := mkCachedClient kc (GetResourceVersion (Conn_Meta conn))
            (GetResourceVersion (Secret_Meta secret))]> (byName w)) w).2, false).

Lemma New_eq (cfg : Config) (w : World St) :
  normal cfg → New cfg w = (Some (mkClient cfg (next_cell w)), (new_cell w).2).
Proof.
  intros [Hr Ha]. unfold New.
  rewrite (proj2 (String.eqb_neq _ _) Hr), (proj2 (String.eqb_neq _ _) Ha). by destruct cfg.
Qed.

Lemma for_move_trans (p p' : ForPc) (s s' : World St * bool) :
  for_finished p = false → for_move p s = Some (p', s') → for_trans p s p' s'.
Proof.
  intros Hf E. destruct s as [w mu], s' as [w' mu']. unfold for_move in E.
  destruct p as [ns name|ns name err|ns name err|ns name conn|ns name conn secret
                |ns name conn secret|ns name conn secret|ns name conn secret kc
                |ns name conn secret kc|]; [..|done]; cbn [For_step fst snd] in E.
  - unfold kube_get_connection, mbind, M_bind, call_env in E. simpl in E.
    destruct (env_get_connection ns name (env w)) as [[err|conn] s] eqn:Hc; simplify_eq/=;
      by constructor.
  - destruct mu; simplify_eq/=. constructor.
  - simplify_eq/=. constructor.
  - unfold kube_get_secret, mbind, M_bind, call_env in E. simpl in E.
    destruct (env_get_secret ns _ (env w)) as [[err|secret] s] eqn:Hc; simplify_eq/=;
      by econstructor.
  - destruct mu; simplify_eq/=. constructor.
  - unfold mbind, M_bind, get_cache in E. simpl in E.
    destruct (cache_hit _ _ _ _) eqn:Hh; simplify_eq/=; [|constructor].
    constructor. by apply cache_hit_Some.
  - simpl in E. destruct (clientConfig conn secret) as [err|cfg] eqn:Hc;
      [simplify_eq/=; by constructor|].
    unfold mbind, M_bind in E. rewrite New_eq in E by (by destruct (clientConfig_normal _ _ _ Hc)).
    simplify_eq/=. by apply trans_build.
  - destruct mu; simplify_eq/=. constructor.
  - simplify_eq/=. constructor.
Qed.

Lemma for_move_decreases (p p' : ForPc) (s s' : World St * bool) :
  for_finished p = false → for_move p s = Some (p', s') → (for_measure p' < for_measure p)%nat.
Proof.
  intros Hf E. destruct (for_move_trans _ _ _ _ Hf E); simpl; try lia. case_match; simpl; lia.
Qed.

(** ** The mutex *)

Definition in_section (p : ForPc) : nat :=
  match p with ForDropping _ _ _ | ForLooking _ _ _ _ | ForStoring _ _ _ _ _ => 1 | _ => 0 end.

Local Abbreviation section_inv := (mutex_inv in_section).

Lemma section_step (p p' : ForPc) (s s' : World St * bool) (ts : list ForPc) (i : nat) :
  for_finished p = false → for_move p s = Some (p', s') → ts !! i = Some p →
  section_inv s.2 ts → section_inv s'.2 (<[i := p']> ts).
Proof.
  intros Hf E Hi Hm. pose proof (sum_list_insert in_section ts i p p' Hi) as Hsum.
  pose proof (sum_list_elem in_section ts i p Hi) as Hle. unfold mutex_inv in *.
  destruct (for_move_trans _ _ _ _ Hf E); simpl in *; try destruct (IsNotFound err);
    simpl in *; try lia; destruct mu; lia.
Qed.

Lemma for_run_section (σ : list nat) (c c' : (World St * bool) * list ForPc) :
  for_run σ c c' → section_inv c.1.2 c.2 → section_inv c'.1.2 c'.2.
Proof.
  apply (pool_invariant for_move for_finished for_others (λ s ts, section_inv s.2 ts)).
  - intros s s' ts (-> & _) Hm. done.
  - intros. by eapply section_step.
Qed.

(** A call that cannot move waits for the mutex. *)
Lemma for_move_total (p : ForPc) (w : World St) (mu : bool) :
  mu = false ∨ in_section p = 1 → ∃ p' s', for_move p (w, mu) = Some (p', s').
Proof.
  intros Hm. unfold for_move. simpl.
  assert (∃ m, For_step p mu = Some m ∧ is_Some (m w).1) as (m & -> & [[p' mu'] Hs]).
  { destruct p; destruct mu; simpl; try (by destruct Hm); eexists; (split; [reflexivity|]);
      apply (safe_returns (λ _, True));
      unfold New, kube_get_connection, kube_get_secret; safe_solve; done. }
  simpl. destruct (m w) as [[[p1 mu1]|] w1]; simplify_eq/=. eauto.
Qed.

(** There is no deadlock: with the mutex taken the call in the section can move. *)
Lemma for_progress (s : World St * bool) (ts : list ForPc) :
  section_inv s.2 ts → Forall (λ p, for_finished p = true) ts ∨
  ∃ i p p' s', ts !! i = Some p ∧ for_finished p = false ∧ for_move p s = Some (p', s').
Proof.
  destruct s as [w mu]. intros Hm.
  destruct (mutex_next in_section for_finished mu ts) as [|(i & p & Hi & Hf & Ho)]; [|done|by left|].
  { intros []; simpl; (split; [lia|done]). }
  right. destruct (for_move_total p w mu Ho) as (p' & s' & E). by exists i, p, p', s'.
Qed.
End ForMachine.

(** ** Invariants of the provider *)

(** The call a thread serves. *)
Definition pc_call (p : ForPc) : string * string :=
  match p with
  | ForStart ns name | ForDrop ns name _ | ForDropping ns name _ | ForConn ns name _
  | ForLookup ns name _ _ | ForLooking ns name _ _ | ForBuild ns name _ _
  | ForStore ns name _ _ _ | ForStoring ns name _ _ _ | ForDone ns name _ _ => (ns, name)
  end.

(** The client a thread has made or returns. *)
Definition pc_client (p : ForPc) : option Client :=
  match p with
  | ForStore _ _ _ _ kc | ForStoring _ _ _ _ kc | ForDone _ _ _ (inr kc) => Some kc
  | _ => None
  end.

(** The client is in the cache or in the hands of a thread. *)
Definition held {St} (w : World St) (ts : list ForPc) (kc : Client) : Prop :=
  (∃ key e, byName w !! key = Some e ∧ cc_kc e = kc) ∨ (∃ p, p ∈ ts ∧ pc_client p = Some kc).

(** Clients that share a token cell are one client, and no cell is still to be made. *)
Definition own_cells {St} (w : World St) (ts : list ForPc) : Prop :=
  (∀ kc, held w ts kc → (cl_cell kc < next_cell w)%nat) ∧
  (∀ kc kc', held w ts kc → held w ts kc' → cl_cell kc = cl_cell kc' → kc = kc').

Section ForInvariants.
Context {St : Type} `{EnvLaws St, !Versions St}.

(** The API server has answered with these objects. *)
Definition answered (ns name : string) (conn : KeycloakConnection) : Prop :=
  ∃ s s' : St, env_get_connection ns name s = (inr conn, s').
Definition answered_secret (ns : string) (conn : KeycloakConnection) (secret : Secret) : Prop :=
  ∃ s s' : St, env_get_secret ns (CredentialsSecretRef (Conn_Spec conn)) s = (inr secret, s').

(** The client is the one these objects call for. *)
Definition client_of (ns name : string) (conn : KeycloakConnection) (secret : Secret)
    (kc : Client) : Prop :=
  answered ns name conn ∧ answered_secret ns conn secret ∧
  ∃ cfg, clientConfig conn secret = inr cfg ∧
    cl_cfg kc = set_ConnectionName (cache_key ns name) cfg.

(** What holds at each point of a call. *)
Definition for_ok (p : ForPc) : Prop :=
  match p with
  | ForConn ns name conn => answered ns name conn
  | ForLookup ns name conn secret | ForLooking ns name conn secret
  | ForBuild ns name conn secret =>
      answered ns name conn ∧ answered_secret ns conn secret
  | ForStore ns name conn secret kc | ForStoring ns name conn secret kc =>
      client_of ns name conn secret kc
  | ForDone ns name o (inr kc) =>
      ∃ conn secret, o = Some (conn, secret) ∧ client_of ns name conn secret kc
  | ForStart _ _ | ForDrop _ _ _ | ForDropping _ _ _ | ForDone _ _ _ (inl _) => True
  end.

Lemma client_of_config (ns name : string) (conn : KeycloakConnection) (secret : Secret)
    (kc : Client) :
  client_of ns name conn secret kc →
  config_at ns name (GetResourceVersion (Conn_Meta conn)) (GetResourceVersion (Secret_Meta secret))
  = inr (cl_cfg kc).
Proof.
  intros ((s1 & s2 & Hc) & (s3 & s4 & Hs) & cfg & Hcfg & ->).
  by rewrite (config_at_current _ _ _ _ _ _ _ _ Hc Hs), Hcfg.
Qed.

(** A cached client of the versions read is the client the objects read call for. *)
Lemma hit_client_of (ns name : string) (conn : KeycloakConnection) (secret : Secret)
    (kc : Client) (w : World St) :
  cache_inv w → no_slash ns → answered ns name conn → answered_secret ns conn secret →
  byName w !! cache_key ns name = Some (mkCachedClient kc (GetResourceVersion (Conn_Meta conn))
    (GetResourceVersion (Secret_Meta secret))) →
  client_of ns name conn secret kc.
Proof.
  intros Hinv Hns Hc Hs Hk. specialize (Hinv _ _ _ Hns Hk). simpl in Hinv.
  destruct (Hc) as (s1 & s2 & Hc'), (Hs) as (s3 & s4 & Hs').
  rewrite (config_at_current _ _ _ _ _ _ _ _ Hc' Hs') in Hinv.
  split; [done|]. split; [done|]. destruct (clientConfig conn secret) as [e|cfg]; [done|].
  simplify_eq. eauto.
Qed.

Lemma cache_inv_ext (w w' : World St) : byName w' = byName w → cache_inv w → cache_inv w'.
Proof. intros Hb Hw ns name e Hns He. rewrite Hb in He. eauto. Qed.

Lemma for_trans_ok (p p' : ForPc) (s s' : World St * bool) :
  for_trans p s p' s' → cache_inv s.1 → no_slash (pc_call p).1 → for_ok p →
  cache_inv s'.1 ∧ for_ok p' ∧ pc_call p' = pc_call p.
Proof.
  intros Ht Hw Hns Hp. destruct Ht; simpl in *; try done.
  - split; [by apply cache_inv_ext with w|]. by destruct (IsNotFound err).
  - split; [by apply cache_inv_ext with w|]. split; [|done]. by do 2 eexists.
  - split; [|done]. intros ns' name' e Hns' He. simpl in He.
    apply lookup_delete_Some in He as [_ He]. eauto.
  - split; [by apply cache_inv_ext with w|]. repeat split; [done|]. by do 2 eexists.
  - split; [done|]. split; [|done]. destruct Hp. eauto using hit_client_of.
  - split; [by apply cache_inv_ext with w|]. destruct Hp. repeat split; eauto.
  - split; [|eauto]. intros ns' name' e Hns' He. simpl in He.
    apply lookup_insert_Some in He as [[Hk <-]|[_ He]]; [|by eauto].
    destruct (cache_key_inj _ _ _ _ Hns Hns' Hk) as [-> ->]. by apply client_of_config.
Qed.

Definition for_inv (calls : list (string * string)) (s : World St * bool) (ts : list ForPc)
    : Prop :=
  cache_inv s.1 ∧ pc_call <$> ts = calls ∧ Forall for_ok ts.

Lemma for_run_inv (calls : list (string * string)) (σ : list nat)
    (c c' : (World St * bool) * list ForPc) :
  Forall (λ k, no_slash k.1) calls → for_run σ c c' →
  for_inv calls c.1 c.2 → for_inv calls c'.1 c'.2.
Proof.
  intros Hns Hr.
  apply (pool_invariant for_move for_finished for_others (for_inv calls)) with (σ := σ); [..|done].
  - intros s s' ts (_ & Hb & _) (Hw & Hts). split; [by apply cache_inv_ext with s.1|done].
  - intros i p p' s s' ts (Hw & Hc & Hok) Hi Hf Hs.
    assert (calls !! i = Some (pc_call p)) as Hk by by rewrite <- Hc, list_lookup_fmap, Hi.
    destruct (for_trans_ok p p' s s') as (Hw' & Hp' & Hcp);
      [by apply for_move_trans|done|by apply (Forall_lookup_1 _ _ _ _ Hns Hk)
      |by apply (Forall_lookup_1 _ _ _ _ Hok Hi)|].
    split; [done|]. split; [|by apply Forall_insert].
    rewrite list_fmap_insert, Hcp, Hc. by apply list_insert_id.
Qed.
End ForInvariants.

Section ForCells.
Context {St : Type} `{Env St}.

(** A move makes at most one client, with a cell of its own. *)
Lemma for_trans_held (p p' : ForPc) (s s' : World St * bool) (ts : list ForPc) (i : nat)
    (kc : Client) :
  for_trans p s p' s' → ts !! i = Some p → held s'.1 (<[i := p']> ts) kc →
  held s.1 ts kc ∨ cl_cell kc = next_cell s.1 ∧ next_cell s'.1 = S (next_cell s.1) ∧
    pc_client p' = Some kc ∧ byName s'.1 = byName s.1.
Proof.
  intros Ht Hi Hh.
  assert (∀ kc, pc_client p = Some kc → held s.1 ts kc) as Hp.
  { intros kc0 Hk. right. exists p. split; [by eapply list_elem_of_lookup_2|done]. }
  destruct Hh as [(key & e & Hb & <-)|(q & Hq & Hk)].
  - destruct Ht; simpl in *; try (left; left; by eauto).
    + apply lookup_delete_Some in Hb as [_ Hb]. left. left. eauto.
    + apply lookup_insert_Some in Hb as [[_ <-]|[_ Hb]]; [by auto|]. left. left. eauto.
  - apply insert_elem_inv in Hq as [->|Hq]; [|left; right; by eauto].
    destruct Ht; simpl in *; simplify_eq; try by auto.
    + by destruct (IsNotFound err).
    + left. left. eauto.
Qed.

Lemma for_trans_cells (p p' : ForPc) (s s' : World St * bool) :
  for_trans p s p' s' → (next_cell s.1 ≤ next_cell s'.1)%nat.
Proof. destruct 1; simpl; lia. Qed.

Lemma for_run_cells (σ : list nat) (c c' : (World St * bool) * list ForPc) :
  for_run σ c c' → own_cells c.1.1 c.2 → own_cells c'.1.1 c'.2.
Proof.
  apply (pool_invariant for_move for_finished for_others (λ s ts, own_cells s.1 ts)).
  - intros s s' ts (_ & Hb & Hn) [Hlt Heq]. unfold own_cells, held. rewrite Hb. split; [|done].
    intros kc Hkc. specialize (Hlt kc Hkc). lia.
  - intros i p p' s s' ts [Hlt Heq] Hi Hf Hs. apply for_move_trans in Hs as Ht; [|done].
    pose proof (for_trans_cells _ _ _ _ Ht) as Hn. split.
    + intros kc Hkc. destruct (for_trans_held _ _ _ _ _ _ _ Ht Hi Hkc) as [Ho|(? & ? & _)]; [|lia].
      specialize (Hlt kc Ho). lia.
    + intros kc kc' Hkc Hkc' Hcell.
      destruct (for_trans_held _ _ _ _ _ _ _ Ht Hi Hkc) as [Ho|(Hc & _ & Hp & _)],
        (for_trans_held _ _ _ _ _ _ _ Ht Hi Hkc') as [Ho'|(Hc' & _ & Hp' & _)].
      * eauto.
      * specialize (Hlt kc Ho). lia.
      * specialize (Hlt kc' Ho'). lia.
      * congruence.
Qed.
End ForCells.

(** A move of a call that is alone, from what is known of its answers. *)
Ltac alone_step :=
  eapply alone_move; [reflexivity|
    unfold for_move; cbn [For_step fst snd];
    unfold kube_get_connection, kube_get_secret, get_cache, mbind, M_bind, call_env, New; simpl;
    repeat match goal with E : ?x = _ |- context [?x] => rewrite E; simpl end; reflexivity|].

(** ** A connection that is deleted *)

(** A cluster in which the connection is there until it is deleted: the state says whether
    it is gone.  The server does not answer. *)
#[local] Instance Deletable_Env : Env bool := {|
  env_now := λ s, (0%Z, s);
  env_range := λ A l s, (l, s);
  env_bad_url := λ _, None;
  env_http := λ _ s, (inl "connection refused", s);
  env_get_connection := λ ns name (s : bool),
    (if s then inl (KubeError true "not found") else sim_get_connection ns name, s);
  env_get_secret := λ ns name s, (sim_get_secret ns name, s);
  env_create_secret := λ _ s, (None, s);
  env_update_secret := λ _ s, (None, s);
  env_update := λ S o s, ((None, o), s);
  env_patch := λ S o _ s, ((None, o), s);
  env_patch_status := λ S o _ s, ((None, o), s);
  env_patch_connection_status := λ _ _ s, (None, s);
|}.

Definition deletable_world : World bool := mkWorld false ∅ ∅ 0 [].

(** One call has read the connection and its Secret and built a client; the connection is
    deleted, another call comes and goes, and the first one stores its client. *)
Definition race_mid : (World bool * bool) * list ForPc :=
  default ((deletable_world, false), [])
    (exec for_move for_finished [0; 0; 0; 0; 0] (deletable_world, false)
       [ForStart "team" "kc"; ForStart "team" "kc"]).
Definition race_end : (World bool * bool) * list ForPc :=
  default ((deletable_world, false), [])
    (exec for_move for_finished [1; 1; 1; 0; 0] (set_env true race_mid.1.1, race_mid.1.2) race_mid.2).

(** ** Theorems *)

Definition for_start (k : string * string) : ForPc := ForStart k.1 k.2.

Lemma for_start_inv {St} `{EnvLaws St, !Versions St} (calls : list (string * string))
    (w : World St) :
  byName w = NewProvider →
  for_inv calls (w, false) (for_start <$> calls) ∧ own_cells w (for_start <$> calls).
Proof.
  intros Hb. assert (∀ kc, ¬ held w (for_start <$> calls) kc) as Hh.
  { intros kc [(key & e & He & _)|(p & Hp & Hk)]; [by rewrite Hb in He|].
    by apply list_elem_of_fmap in Hp as (k & -> & _). }
  repeat split.
  - by apply cache_inv_empty.
  - rewrite <- list_fmap_compose. rewrite <- (list_fmap_id calls) at 2.
    apply list_fmap_ext. intros i [ns name] _. done.
  - apply Forall_fmap, Forall_true. intros []. done.
  - intros kc Hk. by destruct (Hh kc).
  - intros kc kc' Hk. by destruct (Hh kc).
Qed.

Lemma for_start_section (calls : list (string * string)) :
  mutex_inv in_section false (for_start <$> calls).
Proof. unfold mutex_inv. by induction calls. Qed.

(** C12.  The provider shared by parallel reconcilers.  However any number of calls of [For]
    interleave with each other and with changes of the cluster, from the empty cache and the
    free mutex on: every cached client is the one its recorded versions call for; a call that
    returns a client returns the one configured by the very connection and Secret it has
    read, for the connection it was asked for, be it cached, its own or another call's; two
    clients that are not the same never share a token cell; and no two calls are ever in a
    critical section, so that the map is never accessed in parallel. *)
Theorem parallel_for_coherent {St} `{EnvLaws St, !Versions St} (calls : list (string * string))
    (σ : list nat) (w w' : World St) (mu : bool) (ts : list ForPc) :
  Forall (λ k, no_slash k.1) calls → byName w = NewProvider →
  for_run σ ((w, false), for_start <$> calls) ((w', mu), ts) →
  cache_inv w' ∧ own_cells w' ts ∧
  (∀ i j p q, ts !! i = Some p → ts !! j = Some q → in_section p = 1 → in_section q = 1 → i = j) ∧
  ∀ i ns name, calls !! i = Some (ns, name) →
    ∃ p, ts !! i = Some p ∧ pc_call p = (ns, name) ∧
      ∀ o kc, p = ForDone ns name o (inr kc) →
        ∃ conn secret, o = Some (conn, secret) ∧ client_of ns name conn secret kc.
Proof.
  intros Hns Hb Hr. destruct (for_start_inv calls w Hb) as [Hi Hc].
  destruct (for_run_inv calls _ _ _ Hns Hr Hi) as (Hw & Hcalls & Hok). simpl in *.
  pose proof (for_run_section _ _ _ Hr (for_start_section calls)) as Hm.
  split; [done|]. split; [by apply (for_run_cells _ _ _ Hr)|].
  split; [intros i j p q; by eapply mutex_exclusive|].
  intros i ns name Hk. rewrite <- Hcalls, list_lookup_fmap in Hk.
  destruct (ts !! i) as [p|] eqn:Hp; simplify_eq/=. exists p. split; [done|].
  split; [done|]. intros o kc ->. apply (Forall_lookup_1 _ _ _ _ Hok Hp).
Qed.

(** Two calls for one connection that take turns: both build a client. *)
Lemma parallel_for_coherent_witness :
  let σ := [0; 1; 0; 1; 0; 0; 1; 1; 0; 1; 0; 0; 1; 1] in
  let c := default ((sim_world [], false), [])
    (exec for_move for_finished σ (sim_world [], false)
       [ForStart "team" "kc"; ForStart "team" "kc"]) in
  Forall (λ p, for_finished p = true) c.2 ∧ cache_inv c.1.1 ∧ own_cells c.1.1 c.2.
Proof.
  intros σ c. split; [vm_compute; by repeat constructor|].
  destruct (parallel_for_coherent [("team", "kc"); ("team", "kc")] σ (sim_world []) c.1.1 c.1.2 c.2)
    as (Hc & Ho & _).
  - by repeat constructor.
  - reflexivity.
  - apply exec_run. vm_compute. reflexivity.
  - done.
Defined.

(** C25.  Parallel calls of [For] terminate.  In every schedule a call moves at most seven
    times; at every point the mutex is free or some call is in a critical section, a call
    that is in one can move, and one that waits can when the mutex is free, so that there
    is no deadlock; and from every point the calls can be run to their ends. *)
Theorem parallel_for_ends {St} `{Env St} (calls : list (string * string)) (σ : list nat)
    (w w' : World St) (mu : bool) (ts : list ForPc) :
  for_run σ ((w, false), for_start <$> calls) ((w', mu), ts) →
  (∀ i, (i < length calls)%nat → (moves i σ ≤ 7)%nat) ∧
  (mu = true → ∃ p, p ∈ ts ∧ in_section p = 1) ∧
  (∀ p, p ∈ ts → mu = false ∨ in_section p = 1 → ∃ p' s', for_move p (w', mu) = Some (p', s')) ∧
  ∃ τ c, for_run τ ((w', mu), ts) c ∧ Forall (λ p, for_finished p = true) c.2.
Proof.
  intros Hr. pose proof (for_run_section _ _ _ Hr (for_start_section calls)) as Hm. simpl in Hm.
  split_and!.
  - intros i [[ns name] Hi]%lookup_lt_is_Some_2.
    pose proof (pool_threads _ _ _ _ _ _ Hr) as Hlen. simpl in Hlen. rewrite length_fmap in Hlen.
    destruct (lookup_lt_is_Some_2 ts i) as [p' Hp'].
    { rewrite Hlen. by apply lookup_lt_Some in Hi. }
    pose proof (pool_bound _ _ _ for_measure for_move_decreases _ _ _ Hr i
      (ForStart ns name) p') as Hb. simpl in Hb.
    rewrite list_lookup_fmap, Hi in Hb. specialize (Hb eq_refl Hp'). lia.
  - intros ->. unfold mutex_inv in Hm. clear -Hm. induction ts as [|p ts IH]; simpl in Hm; [done|].
    destruct (in_section p) as [|n] eqn:E; [destruct (IH Hm) as (q & ? & ?); exists q; by split; [right|]|].
    exists p. split; [left|lia].
  - intros p _. apply for_move_total.
  - apply (pool_ends _ _ for_others for_measure for_move_decreases
      (λ s ts, mutex_inv in_section s.2 ts)); [| |done].
    + intros. by eapply section_step.
    + intros s us. apply for_progress.
Qed.

Lemma parallel_for_ends_witness :
  let c := default ((sim_world [], false), [])
    (exec for_move for_finished [0; 1; 0; 0] (sim_world [], false)
       [ForStart "team" "kc"; ForStart "team" "other"]) in
  c.1.2 = true ∧ ∃ τ c', for_run τ c c' ∧ Forall (λ p, for_finished p = true) c'.2.
Proof.
  intros c. split; [vm_compute; reflexivity|].
  destruct (parallel_for_ends [("team", "kc"); ("team", "other")] [0; 1; 0; 0]
    (sim_world []) c.1.1 c.1.2 c.2) as (_ & _ & _ & τ & c' & Hr & Hd).
  - apply exec_run. vm_compute. reflexivity.
  - exists τ, c'. by split; [destruct c as [[??]?]|].
Defined.

(** The parallel machine is the code: a call that runs on its own does what [For] does, with
    the same result and the same effects, within its seven moves, and leaves the mutex free. *)
Lemma for_alone_is_for {St} `{Env St} (ns name : string) (w : World St) :
  ∃ o r w', For ns name w = (Some r, w') ∧
    alone for_move for_finished 7 (ForStart ns name) (w, false) = Some (ForDone ns name o r, (w', false)).
Proof.
  unfold For, kube_get_connection, kube_get_secret, get_cache, mbind, M_bind, call_env, New. simpl.
  destruct (env_get_connection ns name (env w)) as [[err|conn] s] eqn:Hc; simpl.
  { destruct (IsNotFound err) eqn:Hn; simpl; (do 3 eexists; split; [reflexivity|]);
      repeat alone_step; reflexivity. }
  destruct (env_get_secret ns _ s) as [[err|secret] s'] eqn:Hs; simpl.
  { do 3 eexists; split; [reflexivity|]. repeat alone_step. reflexivity. }
  destruct (cache_hit _ _ _ _) as [kc|] eqn:Hh; simpl.
  { do 3 eexists; split; [reflexivity|]. repeat alone_step. reflexivity. }
  destruct (clientConfig conn secret) as [err|cfg] eqn:Hcfg; simpl.
  { do 3 eexists; split; [reflexivity|]. repeat alone_step. reflexivity. }
  do 3 eexists; split; [reflexivity|]. repeat alone_step. reflexivity.
Qed.

(** A connection deleted while a call is under way: the other call finds it gone and drops
    the cached client, the first one then stores its own.  Both have returned, the connection
    is gone and its password is still in the cache. *)
Lemma deleted_connection_stays_cached :
  ∃ (w : World bool) (ts : list ForPc) (e : cachedClient) (err : GoError),
    for_run ([0; 0; 0; 0; 0] ++ [1; 1; 1; 0; 0])
      ((deletable_world, false), for_start <$> [("team", "kc"); ("team", "kc")]) ((w, false), ts) ∧
    Forall (λ p, for_finished p = true) ts ∧
    (∃ r, ts !! 1 = Some (ForDone "team" "kc" None (inl r))) ∧
    env_get_connection "team" "kc" (env w) = (inl err, env w) ∧ IsNotFound err = true ∧
    byName w !! cache_key "team" "kc" = Some e ∧ cfg_Password (cl_cfg (cc_kc e)) = "s3cret".
Proof.
  exists race_end.1.1, race_end.2. eexists _, _. split; [|vm_compute; eauto 10].
  apply pool_run_app with (race_mid.1, race_mid.2).
  - apply exec_run. vm_compute. reflexivity.
  - apply pool_others with (set_env true race_mid.1.1, race_mid.1.2);
      [split_and!; vm_compute; [reflexivity..|lia]|].
    apply exec_run. vm_compute. reflexivity.
Qed.
