(* ===== verification/ConcurrentClient.v ===== *)
(** * A client under parallel reconcilers (internal/keycloak/client.go)

    The clients of the provider are shared: many goroutines call [Do] of one client.
    [Token] keeps the client's mutex over its HTTP request, [invalidate] takes it, and the
    Admin API requests go out without it.  [do_step] is [Do] as a machine with the mutex as
    part of the shared state: a thread that finds it taken waits.  Any number of calls runs
    in a pool (Threads.v); run alone, the machine is [Do] of HttpClient.v. *)

From Stdlib Require Import ZArith Lia.
From stdpp Require Import base gmap strings list.
From S2P Require Import Prelude Json JsonText GoError LastApplied ApiTypes World Sim Logic Url HttpClient Threads.

Local Open Scope string_scope.
Local Open Scope list_scope.

(** ** The machine *)

(** The arguments of [Do]. *)
Record Call (A : Type) := mkCall {
  k_method : string;
  k_path : string;
  k_body : option json;
  k_out : Out A;
}.
Arguments mkCall {A}.
Arguments k_method {A}.
Arguments k_path {A}.
Arguments k_body {A}.
Arguments k_out {A}.

(** Where a call of [Do] is: [retry] in the second attempt.  [DoFetch] and [DoKeep] hold
    the mutex. *)
Inductive DoPc (A : Type) :=
  | DoStart (k : Call A)
  | DoToken (k : Call A) (start : Z) (retry : bool)
  | DoFetch (k : Call A) (start : Z) (retry : bool)
  | DoKeep (k : Call A) (start : Z) (retry : bool) (parsed : TokenResponse)
  | DoSend (k : Call A) (start : Z) (retry : bool) (token : string)
  | DoInvalidate (k : Call A) (start : Z)
  | DoObserve (k : Call A) (start : Z) (r : GoError + A)
  | DoDone (r : GoError + A).
Arguments DoStart {A}.
Arguments DoToken {A}.
Arguments DoFetch {A}.
Arguments DoKeep {A}.
Arguments DoSend {A}.
Arguments DoInvalidate {A}.
Arguments DoObserve {A}.
Arguments DoDone {A}.

Definition do_finished {A} (p : DoPc A) : bool :=
  match p with DoDone _ => true | _ => false end.

(** The result of an attempt: the first one is repeated when it was rejected. *)
Definition after_attempt {A} (k : Call A) (start : Z) (retry : bool) (r : GoError + A) : DoPc A :=
  match r with
  | inl e => if negb retry && errors_Is e SAuth then DoInvalidate k start else DoObserve k start r
  | inr _ => DoObserve k start r
  end.

#[local] Arguments after_attempt : simpl never.

Section DoMachine.
Context {St : Type} `{Env St} {A : Type} (c : Client).

(** A move with the mutex taken or free before it, and the same after it; [None] waits. *)
Definition do_step (p : DoPc A) (mu : bool) : option (M St (DoPc A * bool)) :=
  match p with
  | DoStart k => Some (start ← now; mret (DoToken k start false, mu))
  | DoToken k start retry =>
      if mu then None else Some (
        cell ← get_cell (cl_cell c);
        t ← now;
        mret (if usable cell t then (DoSend k start retry (accessToken cell), false)
              else match env_bad_url (rq_url (token_request (cl_cfg c))) with
                   | Some err =>
                       (after_attempt k start retry
                          (inl (Wrapped "build token request: " (PlainError err) "")), false)
                   | None => (DoFetch k start retry, true)
                   end))
  | DoFetch k start retry => Some (
      resp ← http_do (token_request (cl_cfg c));
      mret match resp with
           | inl err =>
               (after_attempt k start retry
                  (inl (Wrapped "token request: " (PlainError err) "")), false)
           | inr resp =>
               match read_token resp with
               | inl err => (after_attempt k start retry (inl err), false)
               | inr parsed => (DoKeep k start retry parsed, true)
               end
           end)
  | DoKeep k start retry parsed => Some (
      t ← now;
      _ ← set_cell (cl_cell c)
            (mkTokenCell (AccessToken parsed) (t + seconds (ExpiresIn parsed)));
      mret (DoSend k start retry (AccessToken parsed), false))
  | DoSend k start retry token =>
      let req := admin_request c token (k_method k) (k_path k) (k_body k) in
      Some match env_bad_url (rq_url req) with
           | Some err =>
               mret (after_attempt k start retry
                       (inl (Wrapped "build request: " (PlainError err) "")), mu)
           | None =>
               resp ← http_do req;
               mret (after_attempt k start retry (answer (k_method k) (k_path k) (k_out k) resp),
                     mu)
           end
  | DoInvalidate k start =>
      if mu then None else Some (_ ← invalidate c; mret (DoToken k start true, false))
  | DoObserve k start r => Some (
      _ ← observeRequest c (k_method k) start (err_of r);
      mret (DoDone r, mu))
  | DoDone r => Some (mret (DoDone r, mu))
  end.

Definition do_move (p : DoPc A) (s : World St * bool) : option (DoPc A * (World St * bool)) :=
  m ← do_step p s.2;
  match m s.1 with
  | (Some (p', mu), w') => Some (p', (w', mu))
  | (None, _) => None
  end.

(** The rest of the operator: it leaves this client's token alone, and its mutex. *)
Definition do_others (s s' : World St * bool) : Prop :=
  s'.2 = s.2 ∧ cell_of c s'.1 = cell_of c s.1 ∧ trace s.1 `prefix_of` trace s'.1.

Definition do_run := pool_run do_move do_finished do_others.

Definition do_measure (p : DoPc A) : nat :=
  let first (retry : bool) := if retry then 0 else 5 in
  match p with
  | DoStart _ => 11
  | DoToken _ _ retry => 5 + first retry
  | DoFetch _ _ retry => 4 + first retry
  | DoKeep _ _ retry _ => 3 + first retry
  | DoSend _ _ retry _ => 2 + first retry
  | DoInvalidate _ _ => 6
  | DoObserve _ _ _ => 1
  | DoDone _ => 0
  end.

(** The moves as rules, with what they do to the token, the mutex and the requests. *)
Inductive do_trans : DoPc A → World St * bool → DoPc A → World St * bool → Prop :=
  | trans_start (k : Call A) (start : Z) (w w' : World St) (mu : bool) :
      cells w' = cells w → trace w' = trace w →
      do_trans (DoStart k) (w, mu) (DoToken k start false) (w', mu)
  | trans_cached (k : Call A) (start t : Z) (retry : bool) (w w' : World St) :
      cells w' = cells w → trace w' = trace w → usable (cell_of c w) t = true →
      do_trans (DoToken k start retry) (w, false)
        (DoSend k start retry (accessToken (cell_of c w))) (w', false)
  | trans_bad_token_url (k : Call A) (start : Z) (retry : bool) (e : GoError) (w w' : World St) :
      cells w' = cells w → trace w' = trace w →
      do_trans (DoToken k start retry) (w, false) (after_attempt k start retry (inl e)) (w', false)
  | trans_lock (k : Call A) (start : Z) (retry : bool) (w w' : World St) :
      cells w' = cells w → trace w' = trace w →
      do_trans (DoToken k start retry) (w, false) (DoFetch k start retry) (w', true)
  | trans_refused (k : Call A) (start : Z) (retry : bool) (e : GoError) (w w' : World St)
      (mu : bool) :
      cells w' = cells w → trace w' = trace w ++ [Http (token_request (cl_cfg c))] →
      do_trans (DoFetch k start retry) (w, mu) (after_attempt k start retry (inl e)) (w', false)
  | trans_granted (k : Call A) (start : Z) (retry : bool) (parsed : TokenResponse)
      (w w' : World St) (mu : bool) :
      cells w' = cells w → trace w' = trace w ++ [Http (token_request (cl_cfg c))] →
      AccessToken parsed ≠ "" →
      do_trans (DoFetch k start retry) (w, mu) (DoKeep k start retry parsed) (w', true)
  | trans_keep (k : Call A) (start t : Z) (retry : bool) (parsed : TokenResponse)
      (w w' : World St) (mu : bool) :
      cells w' = <[cl_cell c := mkTokenCell (AccessToken parsed) t]> (cells w) →
      trace w' = trace w →
      do_trans (DoKeep k start retry parsed) (w, mu)
        (DoSend k start retry (AccessToken parsed)) (w', false)
  | trans_bad_url (k : Call A) (start : Z) (retry : bool) (token : string) (e : GoError)
      (w : World St) (mu : bool) :
      do_trans (DoSend k start retry token) (w, mu) (after_attempt k start retry (inl e)) (w, mu)
  | trans_send (k : Call A) (start : Z) (retry : bool) (token : string)
      (resp : string + HttpResponse) (w w' : World St) (mu : bool) :
      cells w' = cells w →
      trace w' = trace w ++ [Http (admin_request c token (k_method k) (k_path k) (k_body k))] →
      do_trans (DoSend k start retry token) (w, mu)
        (after_attempt k start retry (answer (k_method k) (k_path k) (k_out k) resp)) (w', mu)
  | trans_invalidate (k : Call A) (start : Z) (w w' : World St) :
      cells w' = <[cl_cell c := zero_token]> (cells w) → trace w' = trace w →
      do_trans (DoInvalidate k start) (w, false) (DoToken k start true) (w', false)
  | trans_observe (k : Call A) (start : Z) (r : GoError + A) (w w' : World St) (mu : bool)
      (l : list Action) :
      cells w' = cells w → trace w' = trace w ++ l →
      do_trans (DoObserve k start r) (w, mu) (DoDone r) (w', mu).

Lemma do_move_trans (p p' : DoPc A) (s s' : World St * bool) :
  do_finished p = false → do_move p s = Some (p', s') → do_trans p s p' s'.
Proof.
  intros Hf E. destruct s as [w mu], s' as [w' mu']. unfold do_move in E.
  destruct p as [k|k start b|k start b|k start b parsed|k start b tok|k start|k start r|r];
    [..|done]; cbn [do_step snd fst] in E.
  - unfold now, mbind, M_bind, call_env in E. simpl in E.
    destruct (env_now (env w)); simplify_eq/=. by constructor.
  - destruct mu; [done|]. unfold now, get_cell, mbind, M_bind, call_env in E. simpl in E.
    fold (cell_of c w) in E. destruct (env_now (env w)) as [t s]; simpl in E.
    destruct (usable _ t) eqn:Hu; [simplify_eq/=; by eapply trans_cached|].
    destruct (env_bad_url _); simplify_eq/=; by constructor.
  - unfold http_do, mbind, M_bind, call_env in E. simpl in E.
    destruct (env_http _ _) as [[err|resp] s]; [simplify_eq/=; by constructor|].
    destruct (read_token resp) as [e|parsed] eqn:Hr; simplify_eq/=; constructor; try done.
    by eapply read_token_nonempty.
  - unfold now, mbind, M_bind, call_env in E. simpl in E.
    destruct (env_now (env w)); simplify_eq/=. by eapply trans_keep.
  - cbv zeta in E. destruct (env_bad_url _) as [err|]; [simplify_eq/=; constructor|].
    unfold http_do, mbind, M_bind, call_env in E. simpl in E.
    destruct (env_http _ _) as [resp s]; simplify_eq/=. by econstructor.
  - destruct mu; [done|]. simplify_eq/=. by constructor.
  - simpl in E. destruct (observeRequest_wp c (k_method k) start (err_of r) w)
      as (l & Hl & _ & Ho & _ & Hc & _). unfold mbind, M_bind in E.
    destruct (observeRequest _ _ _ _ w) as [[]w1]; simplify_eq/=. by econstructor.
Qed.
End DoMachine.

(** ** The mutex *)

Definition holds {A} (p : DoPc A) : nat :=
  match p with DoFetch _ _ _ | DoKeep _ _ _ _ => 1 | _ => 0 end.

Local Abbreviation do_mutex := (mutex_inv holds).

Lemma after_attempt_holds {A} (k : Call A) (start : Z) (b : bool) (r : GoError + A) :
  holds (after_attempt k start b r) = 0.
Proof. unfold after_attempt. destruct r; [case_match|]; done. Qed.

Lemma after_attempt_measure {A} (k : Call A) (start : Z) (b : bool) (r : GoError + A) :
  (do_measure (after_attempt k start b r) ≤ if b then 1 else 6)%nat.
Proof. unfold after_attempt. destruct b, r; simpl; try lia. case_match; simpl; lia. Qed.

Section DoInvariants.
Context {St : Type} `{Env St} {A : Type} (c : Client).
Implicit Types (p : DoPc A) (s : World St * bool) (ts : list (DoPc A)).

Lemma do_move_decreases p p' s s' :
  do_finished p = false → do_move c p s = Some (p', s') → (do_measure p' < do_measure p)%nat.
Proof.
  intros Hf E. destruct (do_move_trans c _ _ _ _ Hf E); simpl; try lia;
    (eapply Nat.le_lt_trans; [apply after_attempt_measure|]; destruct retry; simpl; lia).
Qed.

Lemma mutex_step p p' s s' ts (i : nat) :
  do_finished p = false → do_move c p s = Some (p', s') → ts !! i = Some p →
  do_mutex s.2 ts → do_mutex s'.2 (<[i := p']> ts).
Proof.
  intros Hf E Hi Hm. pose proof (sum_list_insert holds ts i p p' Hi) as Hsum.
  pose proof (sum_list_elem holds ts i p Hi) as Hle. unfold mutex_inv in *.
  destruct (do_move_trans c _ _ _ _ Hf E); simpl in *; rewrite ?after_attempt_holds in Hsum;
    try lia; destruct mu; lia.
Qed.

(** A thread that cannot move waits for the mutex. *)
Lemma do_move_total p (w : World St) (mu : bool) :
  mu = false ∨ holds p = 1 → ∃ p' s', do_move c p (w, mu) = Some (p', s').
Proof.
  intros Hm. unfold do_move. simpl.
  assert (∃ m, do_step c p mu = Some m ∧ is_Some (m w).1) as (m & -> & [[p' mu'] Hs]).
  { destruct p; destruct mu; simpl; try (by destruct Hm); eexists; (split; [reflexivity|]);
      apply (safe_returns (λ _, True));
      unfold http_do, invalidate, observeRequest, now; safe_solve; done. }
  simpl. destruct (m w) as [[[p1 mu1]|] w1]; simplify_eq/=. eauto.
Qed.

(** There is no deadlock: with the mutex taken its holder can move. *)
Lemma do_progress s ts :
  do_mutex s.2 ts → Forall (λ p, do_finished p = true) ts ∨
  ∃ i p p' s', ts !! i = Some p ∧ do_finished p = false ∧ do_move c p s = Some (p', s').
Proof.
  destruct s as [w mu]. intros Hm.
  destruct (mutex_next holds do_finished mu ts) as [|(i & p & Hi & Hf & Ho)]; [|done|by left|].
  { intros []; simpl; (split; [lia|done]). }
  right. destruct (do_move_total p w mu Ho) as (p' & s' & E). by exists i, p, p', s'.
Qed.

(** ** The token of the second attempt *)

(** Since the trace was [t0], the token has been requested. *)
Definition requested (t0 : list Action) (w : World St) : Prop :=
  ∃ l, trace w = t0 ++ l ∧ token_request (cl_cfg c) ∈ requests l.

Definition keeps p : Prop := match p with DoKeep _ _ _ _ => True | _ => False end.

(** Or there is none, and none about to be stored. *)
Definition renewed (t0 : list Action) (w : World St) (ts : list (DoPc A)) : Prop :=
  requested t0 w ∨
  cell_of c w = zero_token ∧ t0 `prefix_of` trace w ∧ ∀ p, p ∈ ts → ¬ keeps p.

(** A call that was rejected when the trace was [t0]. *)
Definition retry_ok (t0 : list Action) (w : World St) (ts : list (DoPc A)) p : Prop :=
  match p with
  | DoInvalidate _ _ => t0 `prefix_of` trace w
  | DoToken _ _ true | DoFetch _ _ true => renewed t0 w ts
  | DoKeep _ _ true _ | DoSend _ _ true _ => requested t0 w
  | DoObserve _ _ _ | DoDone _ => True
  | _ => False
  end.

Definition fresh_inv (t0 : list Action) (i : nat) s ts : Prop :=
  do_mutex s.2 ts ∧ ∃ p, ts !! i = Some p ∧ retry_ok t0 s.1 ts p.

Lemma requested_mono (t0 : list Action) (w w' : World St) :
  requested t0 w → trace w `prefix_of` trace w' → requested t0 w'.
Proof.
  intros (l & Hl & Hr) [k Hk]. exists (l ++ k). rewrite Hk, Hl, app_assoc. split; [done|].
  rewrite requests_app. set_solver.
Qed.

Lemma do_trans_prefix p p' s s' : do_trans c p s p' s' → trace s.1 `prefix_of` trace s'.1.
Proof.
  destruct 1; simpl in *; try done;
    match goal with E : trace _ = _ |- _ => rewrite E end; eauto using prefix_app_r.
Qed.

Lemma renewed_prefix (t0 : list Action) (w : World St) ts :
  renewed t0 w ts → t0 `prefix_of` trace w.
Proof. intros [(l & -> & _)|(_ & Hp & _)]; [by eexists|done]. Qed.

Lemma requested_now (t0 : list Action) (w w' : World St) :
  t0 `prefix_of` trace w → trace w' = trace w ++ [Http (token_request (cl_cfg c))] →
  requested t0 w'.
Proof.
  intros [l Hl] E. exists (l ++ [Http (token_request (cl_cfg c))]).
  rewrite E, Hl, app_assoc. split; [done|]. rewrite requests_app. set_solver.
Qed.

Lemma cell_of_same (w w' : World St) : cells w' = cells w → cell_of c w' = cell_of c w.
Proof. unfold cell_of. by intros ->. Qed.

Lemma invalidated (w w' : World St) :
  cells w' = <[cl_cell c := zero_token]> (cells w) → cell_of c w' = zero_token.
Proof. intros E. unfold cell_of. by rewrite E, lookup_insert_eq. Qed.

Lemma free_no_keeps ts : do_mutex false ts → ∀ p, p ∈ ts → ¬ keeps p.
Proof.
  intros Hm p Hp Hk. apply list_elem_of_lookup in Hp as [i Hi].
  pose proof (sum_list_elem holds ts i p Hi) as Hle. unfold mutex_inv in Hm.
  destruct p; simpl in *; try done; lia.
Qed.

Lemma after_attempt_keeps (k : Call A) (start : Z) (b : bool) (r : GoError + A) :
  ¬ keeps (after_attempt k start b r).
Proof. unfold after_attempt. destruct r; [case_match|]; auto. Qed.

Lemma after_attempt_retry (t0 : list Action) (w : World St) ts (k : Call A) (start : Z)
    (r : GoError + A) :
  retry_ok t0 w ts (after_attempt k start true r).
Proof. by destruct r. Qed.

(** No move of any thread brings the old token back. *)
Lemma renewed_step (t0 : list Action) p p' s s' ts (j : nat) :
  do_trans c p s p' s' → ts !! j = Some p →
  renewed t0 s.1 ts → renewed t0 s'.1 (<[j := p']> ts).
Proof.
  intros Ht Hj [Hr|(Hc & Hp & Hk)].
  { left. eauto using requested_mono, do_trans_prefix. }
  assert (cells s'.1 = cells s.1 ∨ cell_of c s'.1 = zero_token → ¬ keeps p' →
    renewed t0 s'.1 (<[j := p']> ts)) as Hkeep.
  { intros Hc' Hp'. right. split.
    - destruct Hc' as [Hc'|Hc']; [by rewrite (cell_of_same _ _ Hc')|done].
    - split; [etrans; [done|by eapply do_trans_prefix]|].
      intros q [->|Hq]%insert_elem_inv; eauto. }
  destruct Ht; simpl in *; try (apply Hkeep; by eauto using after_attempt_keeps).
  - left. by eapply requested_now.
  - destruct (Hk (DoKeep k start retry parsed)); [by eapply list_elem_of_lookup_2|done].
  - apply Hkeep; [right; by eapply invalidated|auto].
Qed.

Lemma retry_ok_stable (t0 : list Action) p s s' q q' ts (j : nat) :
  do_trans c q s q' s' → ts !! j = Some q →
  retry_ok t0 s.1 ts p → retry_ok t0 s'.1 (<[j := q']> ts) p.
Proof.
  intros Ht Hj Hp. pose proof (do_trans_prefix _ _ _ _ Ht) as Hpre.
  destruct p as [k|k start []|k start []|k start [] parsed|k start [] tok|k start|k start r|r];
    simpl in *; try done; eauto using renewed_step, requested_mono. by etrans.
Qed.

Lemma retry_ok_own (t0 : list Action) p p' s s' ts (i : nat) :
  do_trans c p s p' s' → ts !! i = Some p → do_mutex s'.2 (<[i := p']> ts) →
  retry_ok t0 s.1 ts p → retry_ok t0 s'.1 (<[i := p']> ts) p'.
Proof.
  intros Ht Hi Hm Hp. pose proof (renewed_step t0 _ _ _ _ _ _ Ht Hi) as Hrs.
  pose proof (do_trans_prefix _ _ _ _ Ht) as Hpre.
  destruct Ht; simpl in *; try done; try (destruct retry; [|done]);
    auto using after_attempt_retry.
  - destruct Hp as [Hr|(Hc & _)]; [by eauto using requested_mono|]. by rewrite Hc in *.
  - eauto using requested_now, renewed_prefix.
  - eauto using requested_mono.
  - right. split; [by eapply invalidated|].
    split; [by etrans|]. by apply free_no_keeps.
Qed.

Lemma do_run_fresh (t0 : list Action) (i : nat) (σ : list nat)
    (x x' : World St * bool * list (DoPc A)) :
  do_run c σ x x' → fresh_inv t0 i x.1 x.2 → fresh_inv t0 i x'.1 x'.2.
Proof.
  apply (pool_invariant (do_move c) do_finished (do_others c) (fresh_inv t0 i)).
  - intros s s' ts (Hmu & Hc & Hpre) (Hm & p & Hi & Hp). split; [by rewrite Hmu|].
    exists p. split; [done|].
    assert (renewed t0 s.1 ts → renewed t0 s'.1 ts) as Hrn.
    { intros [Hr|(Hz & ? & ?)]; [left; by eapply requested_mono|right].
      rewrite Hc. split; [done|]. split; [by etrans|done]. }
    destruct p as [k|k start []|k start []|k start [] parsed|k start [] tok|k start|k start r|r];
      simpl in *; try done; eauto using requested_mono. by etrans.
  - intros j q q' s s' ts (Hm & p & Hi & Hp) Hj Hf E.
    pose proof (do_move_trans c _ _ _ _ Hf E) as Ht.
    assert (do_mutex s'.2 (<[j := q']> ts)) as Hm' by by eapply mutex_step.
    split; [done|]. destruct (decide (i = j)) as [->|Hne].
    + simplify_eq. exists q'. rewrite list_lookup_insert_eq by by eapply lookup_lt_Some.
      split; [done|]. by eapply retry_ok_own.
    + exists p. rewrite list_lookup_insert_ne by done. split; [done|]. by eapply retry_ok_stable.
Qed.
End DoInvariants.

(** ** Alone *)

(** A move of a call that is alone, from what is known of its answers. *)
Ltac do_compute :=
  unfold do_move; cbn [do_step fst snd mbind option_bind];
  unfold http_do, now, get_cell, mbind, M_bind, call_env; simpl;
  repeat match goal with
    | |- context [default zero_token (cells ?w !! cl_cell ?c)] =>
        change (default zero_token (cells w !! cl_cell c)) with (cell_of c w)
    end;
  repeat match goal with E : ?x = _ |- context [?x] => rewrite E; simpl end; reflexivity.

Section DoAlone.
Context {St : Type} `{Env St} {A : Type} (c : Client) (k : Call A) (start : Z).

Definition run_alone (n : nat) (p : DoPc A) (w : World St) : option (DoPc A * (World St * bool)) :=
  alone (do_move c) do_finished n p (w, false).

Lemma run_alone_move (n : nat) (p p' : DoPc A) (w : World St) (s : World St * bool) :
  do_finished p = false → do_move c p (w, false) = Some (p', s) →
  run_alone (S n) p w = alone (do_move c) do_finished n p' s.
Proof. intros. by eapply alone_move. Qed.

Definition after_token (b : bool) (r : GoError + string) : DoPc A :=
  match r with
  | inl e => after_attempt k start b (inl e)
  | inr token => DoSend k start b token
  end.

(** [Token], in at most three moves. *)
Lemma token_alone (b : bool) (w : World St) :
  ∃ r w' m, Token c w = (Some r, w') ∧ (m ≤ 3)%nat ∧
    ∀ n, run_alone (m + n) (DoToken k start b) w = run_alone n (after_token b r) w'.
Proof.
  unfold Token, http_do, now, get_cell, mbind, M_bind, call_env. simpl.
  fold (cell_of c w). destruct (env_now (env w)) as [t s] eqn:Ht. simpl.
  destruct (usable (cell_of c w) t) eqn:Hu.
  { do 2 eexists. exists 1. split; [reflexivity|]. split; [lia|]. intros n.
    apply run_alone_move; [done|]. do_compute. }
  destruct (env_bad_url _) as [err|] eqn:Hb.
  { do 2 eexists. exists 1. split; [reflexivity|]. split; [lia|]. intros n.
    apply run_alone_move; [done|]. do_compute. }
  assert (∀ n, run_alone (S n) (DoToken k start b) w
    = alone (do_move c) do_finished n (DoFetch k start b) (set_env s w, true)) as Hlock.
  { intros n. apply run_alone_move; [done|]. do_compute. }
  simpl. destruct (env_http (token_request (cl_cfg c)) s) as [[err|resp] s'] eqn:Hh.
  { do 2 eexists. exists 2. split; [reflexivity|]. split; [lia|]. intros n. simpl.
    rewrite Hlock. eapply alone_move; [done| |reflexivity]. do_compute. }
  simpl. destruct (read_token resp) as [err|parsed] eqn:Hr.
  { do 2 eexists. exists 2. split; [reflexivity|]. split; [lia|]. intros n. simpl.
    rewrite Hlock. eapply alone_move; [done| |reflexivity]. do_compute. }
  simpl. destruct (env_now s') as [t' s''] eqn:Ht'. do 2 eexists. exists 3. split; [reflexivity|].
  split; [lia|]. intros n. simpl. rewrite Hlock. eapply alone_move; [done|do_compute|].
  eapply alone_move; [done|do_compute|reflexivity].
Qed.

(** An attempt, in at most four. *)
Lemma attempt_alone (b : bool) (w : World St) :
  ∃ r w' m, doOnce c (k_method k) (k_path k) (k_body k) (k_out k) w = (Some r, w') ∧ (m ≤ 4)%nat ∧
    ∀ n, run_alone (m + n) (DoToken k start b) w = run_alone n (after_attempt k start b r) w'.
Proof.
  destruct (token_alone b w) as (r & w1 & m & Ht & Hm & Hn). unfold doOnce, try_bind.
  rewrite (bind_eq _ _ _ _ _ Ht). destruct r as [e|token]; simpl in Hn.
  { exists (inl e), w1, m. repeat split; [lia|done]. }
  cbv zeta. destruct (env_bad_url _) as [err|] eqn:Hb.
  { do 2 eexists. exists (m + 1)%nat. split; [reflexivity|]. split; [lia|]. intros n.
    rewrite <- Nat.add_assoc, Hn. apply run_alone_move; [done|]. do_compute. }
  unfold http_do, mbind, M_bind, call_env. simpl.
  destruct (env_http (admin_request c token (k_method k) (k_path k) (k_body k)) (env w1))
    as [resp s'] eqn:Hh.
  do 2 eexists. exists (m + 1)%nat. split; [reflexivity|]. split; [lia|]. intros n.
  rewrite <- Nat.add_assoc, Hn. apply run_alone_move; [done|]. do_compute.
Qed.

(** The measurement, in one. *)
Lemma observe_alone (r : GoError + A) (w : World St) :
  ∃ w', (_ ← observeRequest c (k_method k) start (err_of r); mret r) w = (Some r, w') ∧
    run_alone 1 (DoObserve k start r) w = Some (DoDone r, (w', false)).
Proof.
  destruct (observeRequest_wp c (k_method k) start (err_of r) w) as (l & _ & _ & Ho & _).
  exists (observeRequest c (k_method k) start (err_of r) w).2. unfold mbind, M_bind. split.
  - by destruct (observeRequest _ _ _ _ w) as [[]?]; simplify_eq/=.
  - eapply alone_move with (p' := DoDone r) (w' := (_, false)); [done| |reflexivity].
    unfold do_move. simpl. unfold mbind, M_bind.
    by destruct (observeRequest _ _ _ _ w) as [[]?]; simplify_eq/=.
Qed.
End DoAlone.

(** ** Theorems *)

Lemma do_start_mutex {A} (calls : list (Call A)) : do_mutex false (DoStart <$> calls).
Proof. unfold mutex_inv. induction calls as [|k calls IH]; simpl; [done|exact IH]. Qed.

Lemma do_run_mutex {St} `{Env St} {A} (c : Client) (σ : list nat)
    (x x' : World St * bool * list (DoPc A)) :
  do_run c σ x x' → do_mutex x.1.2 x.2 → do_mutex x'.1.2 x'.2.
Proof.
  apply (pool_invariant (do_move c) do_finished (do_others c) (λ s ts, do_mutex s.2 ts)).
  - intros s s' ts (Hmu & _) Hm. by rewrite Hmu.
  - intros i p p' s s' ts Hm Hi Hf E. by eapply mutex_step.
Qed.

(** C13.  A rejected token is not used again.  However any number of calls of [Do] of one
    client interleave, with each other and with the rest of the operator: at every point the
    mutex is taken exactly while one call is requesting or storing a token, and never by two;
    and between the point where a call
    has been rejected and the point where it sends its request again, the token has been
    requested anew, by this call or by another one. *)
Theorem parallel_do_renews {St} `{Env St} {A} (c : Client) (calls : list (Call A))
    (σ : list nat) (w w1 : World St) (mu1 : bool) (ts1 : list (DoPc A)) :
  do_run c σ (w, false, DoStart <$> calls) (w1, mu1, ts1) →
  (do_mutex mu1 ts1 ∧ ∀ i j p q, ts1 !! i = Some p → ts1 !! j = Some q →
     holds p = 1 → holds q = 1 → i = j) ∧
  ∀ (τ : list nat) (w2 : World St) (mu2 : bool) (ts2 : list (DoPc A)) (i : nat)
    (k k' : Call A) (start start' : Z) (token : string),
    ts1 !! i = Some (DoInvalidate k start) →
    do_run c τ (w1, mu1, ts1) (w2, mu2, ts2) →
    ts2 !! i = Some (DoSend k' start' true token) →
    do_mutex mu2 ts2 ∧
    ∃ l, trace w2 = trace w1 ++ l ∧ token_request (cl_cfg c) ∈ requests l.
Proof.
  intros Hr1. pose proof (do_run_mutex _ _ _ _ Hr1 (do_start_mutex calls)) as Hm. simpl in Hm.
  split; [split; [done|intros i j p q; by eapply mutex_exclusive]|].
  intros τ w2 mu2 ts2 i k k' start start' token Hi1 Hr2 Hi2.
  destruct (do_run_fresh c (trace w1) i _ _ _ Hr2) as (Hm2 & p & Hp & Hok).
  - split; [done|]. exists (DoInvalidate k start). by split; [|simpl].
  - simpl in Hp. simplify_eq. by split.
Qed.

(** Two calls; the first is rejected, and its second attempt uses the token that the other
    one has requested in the meantime. *)
Definition sample_calls : list (Call ()) :=
  [mkCall "GET" "/admin/realms/acme" None out_nil; mkCall "GET" "/admin/realms/other" None out_nil].
Definition sample_client : Client :=
  mkClient (mkConfig "team/kc" "https://kc.example" "master" "password" "admin" "s3cret" "" "" false) 0.
Definition sample_start : World Sim * bool := (sim_world [ok_token; status 401; ok_token; ok "{}"], false).
Definition sample_mid : World Sim * bool * list (DoPc ()) :=
  default (sample_start, [])
    (exec (do_move sample_client) do_finished [0; 1; 0; 0; 0; 0] sample_start (DoStart <$> sample_calls)).
Definition sample_end : World Sim * bool * list (DoPc ()) :=
  default (sample_start, [])
    (exec (do_move sample_client) do_finished [0; 1; 1; 1; 0] sample_mid.1 sample_mid.2).

Lemma parallel_do_renews_witness :
  sample_mid.2 !! 0 = Some (DoInvalidate (mkCall "GET" "/admin/realms/acme" None out_nil) 0) ∧
  ∃ l, trace sample_end.1.1 = trace sample_mid.1.1 ++ l ∧
    token_request (cl_cfg sample_client) ∈ requests l.
Proof.
  split; [reflexivity|].
  destruct (parallel_do_renews sample_client sample_calls [0; 1; 0; 0; 0; 0]
    sample_start.1 sample_mid.1.1 sample_mid.1.2 sample_mid.2) as [_ Hnew].
  - apply exec_run. vm_compute. reflexivity.
  - destruct (Hnew [0; 1; 1; 1; 0] sample_end.1.1 sample_end.1.2 sample_end.2 0
      (mkCall "GET" "/admin/realms/acme" None out_nil)
      (mkCall "GET" "/admin/realms/acme" None out_nil) 0%Z 0%Z "tok") as [_ Hl].
    + reflexivity.
    + apply exec_run. vm_compute. reflexivity.
    + reflexivity.
    + exact Hl.
Defined.

(** C14.  Parallel requests end.  In every schedule a call of [Do] moves at most eleven times;
    there is no deadlock: while a call has not returned, some call can move; and from every
    point the calls can be run to their ends. *)
Theorem parallel_do_ends {St} `{Env St} {A} (c : Client) (calls : list (Call A)) (σ : list nat)
    (w : World St) (s : World St * bool) (ts : list (DoPc A)) :
  do_run c σ (w, false, DoStart <$> calls) (s, ts) →
  (∀ i, (i < length calls)%nat → (moves i σ ≤ 11)%nat) ∧
  (Forall (λ p, do_finished p = true) ts ∨
   ∃ i p p' s', ts !! i = Some p ∧ do_finished p = false ∧ do_move c p s = Some (p', s')) ∧
  ∃ τ x, do_run c τ (s, ts) x ∧ Forall (λ p, do_finished p = true) x.2.
Proof.
  intros Hr. pose proof (do_run_mutex _ _ _ _ Hr (do_start_mutex calls)) as Hm. simpl in Hm.
  split; [|split].
  - intros i [k Hi]%lookup_lt_is_Some_2.
    pose proof (pool_threads _ _ _ _ _ _ Hr) as Hlen. simpl in Hlen. rewrite length_fmap in Hlen.
    destruct (lookup_lt_is_Some_2 ts i) as [p' Hp'].
    { rewrite Hlen. by apply lookup_lt_Some in Hi. }
    pose proof (pool_bound _ _ _ do_measure (do_move_decreases c) _ _ _ Hr i (DoStart k) p') as Hb.
    simpl in Hb. rewrite list_lookup_fmap, Hi in Hb. specialize (Hb eq_refl Hp'). lia.
  - by apply do_progress.
  - apply (pool_ends _ _ (do_others c) do_measure (do_move_decreases c) (λ s ts, do_mutex s.2 ts));
      [|by intros; apply do_progress|done].
    intros i p p' s1 s2 ts1 Hm1 Hi Hf E. by eapply mutex_step.
Qed.

Lemma parallel_do_ends_witness :
  ∃ τ x, do_run sample_client τ sample_mid x ∧ Forall (λ p, do_finished p = true) x.2.
Proof.
  destruct (parallel_do_ends sample_client sample_calls [0; 1; 0; 0; 0; 0] sample_start.1
    sample_mid.1 sample_mid.2) as (_ & _ & Hx).
  - apply exec_run. vm_compute. reflexivity.
  - exact Hx.
Defined.

(** The machine is the code: a call that runs on its own does what [Do] does, with the
    same result and the same effects, within its eleven moves, and leaves the mutex free. *)
Lemma do_alone_is_do {St} `{Env St} {A} (c : Client) (k : Call A) (w : World St) :
  ∃ r w', Do c (k_method k) (k_path k) (k_body k) (k_out k) w = (Some r, w') ∧
    alone (do_move c) do_finished 11 (DoStart k) (w, false) = Some (DoDone r, (w', false)).
Proof.
  unfold Do, now, mbind at 1, M_bind at 1, call_env. destruct (env_now (env w)) as [start s] eqn:Ht.
  set (w0 := mkWorld _ _ _ _ _).
  assert (∀ n, run_alone c (S n) (DoStart k) w = run_alone c n (DoToken k start false) w0) as H0.
  { intros n. apply run_alone_move; [done|]. do_compute. }
  destruct (attempt_alone c k start false w0) as (r & w1 & m & Hd & Hm & Hn).
  rewrite (bind_eq _ _ _ _ _ Hd).
  assert (∀ n, (m ≤ n)%nat → run_alone c (S n) (DoStart k) w
    = run_alone c (n - m) (after_attempt k start false r) w1) as H1.
  { intros n Hle. rewrite H0. replace n with (m + (n - m))%nat at 1 by lia. apply Hn. }
  destruct r as [e|a]; [destruct (errors_Is e SAuth) eqn:He|].
  - unfold after_attempt in H1. rewrite He in H1. simpl in H1.
    destruct (attempt_alone c k start true (invalidate c w1).2) as (r & w2 & m' & Hd' & Hm' & Hn').
    destruct (observe_alone c k start r w2) as (w3 & Ho & Hr). exists r, w3.
    split; [exact (eq_trans (bind_eq _ _ _ _ _ Hd') Ho)|].
    apply (alone_enough _ _ (S (m + S (m' + 1)))); [|lia].
    eapply eq_trans; [apply H1; lia|]. replace (m + S (m' + 1) - m)%nat with (S (m' + 1)) by lia.
    eapply eq_trans; [apply run_alone_move; [done|reflexivity]|].
    eapply eq_trans; [apply Hn'|]. by destruct r.
  - unfold after_attempt in H1. rewrite He in H1. simpl in H1.
    destruct (observe_alone c k start (inl e) w1) as (w2 & Ho & Hr). exists (inl e), w2. split; [exact Ho|].
    apply (alone_enough _ _ (S (m + 1))); [|lia].
    eapply eq_trans; [apply H1; lia|]. by replace (m + 1 - m)%nat with 1 by lia.
  - destruct (observe_alone c k start (inr a) w1) as (w2 & Ho & Hr). exists (inr a), w2. split; [exact Ho|].
    apply (alone_enough _ _ (S (m + 1))); [|lia].
    eapply eq_trans; [apply H1; lia|]. by replace (m + 1 - m)%nat with 1 by lia.
Qed.
