(* ===== verification/DriverHelpers.v ===== *)
(** * Driver helpers (internal/controller/driver_helpers.go)

    The managed marker in its two forms, Secret reads and the exported Secret, client scope
    assignments and the resolution of role names. *)

From Stdlib Require Import ZArith Lia.
From stdpp Require Import base gmap strings list.
From S2P Require Import Prelude Json JsonText GoError LastApplied ApiTypes World Sim Logic Url.
From S2P Require Import HttpClient AdminApi.

Local Open Scope string_scope.
Local Open Scope list_scope.

(** ** The managed marker *)

Definition attributes (m : rep) : rep := default ∅ (field_map m "attributes").

Definition stampStringAttribute (payload : rep) (key value : string) : rep :=
  <["attributes" := JObj (<[key := JStr value]> (attributes payload))]> payload.

Definition stampSliceAttribute (payload : rep) (key value : string) : rep :=
  let attrs := attributes payload in
  let list := default [] (field_list attrs key) in
  <["attributes" := JObj (<[key := JArr (list ++ [JStr value])]> attrs)]> payload.

Definition managedByStringAttribute (remote : rep) : bool :=
  match field_map remote "attributes" with
  | None => false
  | Some attrs => String.eqb (field_or_empty attrs ManagedAnnotation) ManagedValue
  end.

Definition managedBySliceAttribute (remote : rep) : bool :=
  match field_map remote "attributes" with
  | None => false
  | Some attrs =>
      existsb (λ v, match v with JStr s => String.eqb s ManagedValue | _ => false end)
        (default [] (field_list attrs ManagedAnnotation))
  end.

(** ** Secrets *)

Definition secret_path (ns name : string) : string := "secret " +:+ ns +:+ "/" +:+ name.

(** [return true, r.Update(...)]. *)
Definition flagged {St} (changed : bool) (m : M St (option GoError)) : M St (bool * option GoError) :=
  e ← m; mret (changed, e).

(** [if err != nil { return changed, err }]. *)
Definition try_flag {St A} (changed : bool) (m : M St (GoError + A))
    (f : A → M St (bool * option GoError)) : M St (bool * option GoError) :=
  r ← m; match r with inl e => mret (changed, Some e) | inr a => f a end.

(** The owner reference that makes a Secret the operator's. *)
Definition owned_by (uid : string) (s : Secret) : bool :=
  existsb (λ ref, String.eqb (Ref_UID ref) uid
                  && match Ref_Controller ref with Some b => b | None => false end)
    (Secret_OwnerReferences s).

Definition with_data (key value : string) (s : Secret) : Secret :=
  mkSecret (Secret_Meta s) (<[key := value]> (Secret_Data s)) (Secret_OwnerReferences s).

Definition new_secret (ns name key value : string) : Secret :=
  mkSecret (mkObjectMeta name ns "" "" 0 None [] ∅) {[key := value]} [].

Definition not_owned_error (s : Secret) : GoError :=
  PlainError (secret_path (GetNamespace (Secret_Meta s)) (GetName (Secret_Meta s))
    +:+ " already exists and is not owned by this resource; choose another secretOutput name").

Section Helpers.
Context {St : Type} `{Env St, KubeLib}.

Definition readSecretValue (namespace : string) (selector : SecretKeySelector)
    (defaultKey : string) : M St (GoError + string) :=
  let key := if String.eqb (SecretKeySelector_Key selector) "" then defaultKey
             else SecretKeySelector_Key selector in
  let name := SecretKeySelector_Name selector in
  r ← kube_get_secret namespace name;
  mret (match r with
        | inl err => inl (Wrapped (secret_path namespace name +:+ ": ") err "")
        | inr secret =>
            match Secret_Data secret !! key with
            | Some value => inr value
            | None => inl (PlainError (secret_path namespace name +:+ " has no key " +:+ q key))
            end
        end).

(** The loop of [readSecretValues]. *)
Fixpoint collect_keys (at_ : string) (data : gmap string string)
    (keys : list (string * string)) (out : gmap string string) : GoError + gmap string string :=
  match keys with
  | [] => inr out
  | (target, key) :: keys' =>
      match data !! key with
      | None => inl (PlainError (at_ +:+ " has no key " +:+ q key))
      | Some value => collect_keys at_ data keys' (<[target := value]> out)
      end
  end.

Definition readSecretValues (namespace : string) (selector : SecretKeysSelector)
    : M St (GoError + gmap string string) :=
  let name := SecretKeysSelector_Name selector in
  r ← kube_get_secret namespace name;
  match r with
  | inl err => mret (inl (Wrapped (secret_path namespace name +:+ ": ") err ""))
  | inr secret =>
      keys ← range (SecretKeysSelector_Keys selector);
      mret (collect_keys (secret_path namespace name) (Secret_Data secret) keys ∅)
  end.

Definition ensureOutputSecret {S} (obj : ManagedObject S) (name key value : string)
    : M St (bool * option GoError) :=
  let ns := GetNamespace (Meta obj) in
  r ← kube_get_secret ns name;
  match r with
  | inr existing =>
      if negb (owned_by (GetUID (Meta obj)) existing) then
        mret (false, Some (not_owned_error existing))
      else if String.eqb (default "" (Secret_Data existing !! key)) value then
        mret (false, None)
      else flagged true (kube_update_secret (with_data key value existing))
  | inl err =>
      if IsNotFound err then
        match SetControllerReference (Meta obj) (new_secret ns name key value) with
        | inl err => mret (false, Some err)
        | inr secret => flagged true (kube_create_secret secret)
        end
      else mret (false, Some err)
  end.

(** ** Client scope assignments *)

Definition name_set (names : list string) : gmap string () :=
  foldl (λ m n, <[n := ()]> m) ∅ names.

Definition rep_names (l : list rep) : list string := omap (λ r, field_string r "name") l.

(** The names of the keys of [a], in the order visited, that are not keys of [b]. *)
Definition missing_from (b : gmap string ()) (a : list (string * ())) : list string :=
  filter (λ n, b !! n = None) (a.*1).

Fixpoint ids_by_name (scopes : list rep) (ids : gmap string string) : gmap string string :=
  match scopes with
  | [] => ids
  | r :: scopes' =>
      ids_by_name scopes'
        (match field_string r "name", field_string r "id" with
         | Some name, Some id => <[name := id]> ids
         | _, _ => ids
         end)
  end.

Fixpoint assign_missing (assign : string → bool → M St (GoError + ())) (realm : string)
    (ids : gmap string string) (toAdd : list string) : M St (GoError + ()) :=
  match toAdd with
  | [] => mret (inr ())
  | name :: toAdd' =>
      match ids !! name with
      | None => mret (inl (PlainError ("client scope " +:+ q name +:+ " does not exist in realm "
                                       +:+ q realm)))
      | Some id =>
          try _ ← assign id true;
          assign_missing assign realm ids toAdd'
      end
  end.

Fixpoint remove_extra (assign : string → bool → M St (GoError + ())) (ids : gmap string string)
    (toRemove : list string) : M St (GoError + ()) :=
  match toRemove with
  | [] => mret (inr ())
  | name :: toRemove' =>
      match ids !! name with
      | None => remove_extra assign ids toRemove'
      | Some id =>
          try _ ← assign id false;
          remove_extra assign ids toRemove'
      end
  end.

(** The calls for a difference that is not empty. *)
Definition apply_scopes (kc : Client) (realm : string)
    (assign : string → bool → M St (GoError + ())) (toAdd toRemove : list string)
    : M St (GoError + bool) :=
  try scopes ← ListClientScopes kc realm;
  let idsByName := ids_by_name scopes ∅ in
  try _ ← assign_missing assign realm idsByName toAdd;
  try _ ← remove_extra assign idsByName toRemove;
  mret (inr true).

Definition enforceScopeAssignments (kc : Client) (realm clientID : string)
    (desired : list string) (optional : bool) : M St (GoError + bool) :=
  let assign := if optional then AssignClientOptionalScope kc realm clientID
                else AssignClientDefaultScope kc realm clientID in
  try current ← (if optional then ClientOptionalScopeAssignments kc realm clientID
                 else ClientDefaultScopeAssignments kc realm clientID);
  let desiredSet := name_set desired in
  let currentNames := name_set (rep_names current) in
  ds ← range desiredSet;
  cs ← range currentNames;
  let toAdd := missing_from currentNames ds in
  let toRemove := missing_from desiredSet cs in
  match toAdd, toRemove with
  | [], [] => mret (inr false)
  | _, _ => apply_scopes kc realm assign toAdd toRemove
  end.

(** ** Roles *)

Fixpoint resolve_each (get : string → M St (GoError + rep)) (label : string → string)
    (names : list string) (out : list rep) : M St (GoError + list rep) :=
  match names with
  | [] => mret (inr out)
  | name :: names' =>
      try r ← wrap_err (λ e, Wrapped (label name +:+ ": ") e "") (get name);
      resolve_each get label names' (out ++ [r])
  end.

Definition resolveRealmRoles (kc : Client) (realm : string) (names : list string)
    : M St (GoError + list rep) :=
  resolve_each (GetRole kc realm) (λ name, "realm role " +:+ q name) names [].

Definition resolveClientRoles (kc : Client) (realm clientID : string) (names : list string)
    : M St (GoError + list rep) :=
  try client ← wrap_err (λ e, Wrapped ("client " +:+ q clientID +:+ ": ") e "")
                 (FindClient kc realm clientID);
  let uuid := field_or_empty client "id" in
  resolve_each (GetClientRole kc realm uuid)
    (λ name, "role " +:+ q name +:+ " of client " +:+ q clientID) names [].
End Helpers.

(** ** Lemmas *)

Lemma name_set_lookup (names : list string) (n : string) :
  name_set names !! n = Some () ↔ n ∈ names.
Proof.
  assert (∀ m : gmap string (), foldl (λ m n, <[n := ()]> m) m names !! n = Some () ↔
    m !! n = Some () ∨ n ∈ names)
    as Hgen; [|unfold name_set; rewrite Hgen; set_solver].
  induction names as [|x names IH]; simpl; [set_solver|]. intros m. rewrite IH.
  rewrite lookup_insert_Some, elem_of_cons. destruct (decide (x = n)); naive_solver.
Qed.

Lemma name_set_None (names : list string) (n : string) :
  name_set names !! n = None ↔ n ∉ names.
Proof.
  rewrite <- name_set_lookup. destruct (name_set names !! n) as [[]|]; naive_solver.
Qed.

(** The difference of two name sets, computed from any visit of the first. *)
Lemma missing_from_spec (a b : list string) (es : list (string * ())) :
  es ≡ₚ map_to_list (name_set a) →
  NoDup (missing_from (name_set b) es) ∧
  ∀ n, n ∈ missing_from (name_set b) es ↔ n ∈ a ∧ n ∉ b.
Proof.
  intros Hp. unfold missing_from. split.
  - apply NoDup_filter. rewrite Hp. apply NoDup_fst_map_to_list.
  - intros n. rewrite list_elem_of_filter, name_set_None, Hp, list_elem_of_fmap.
    rewrite <- (name_set_lookup a n). split.
    + intros (Hb & [n' []] & -> & Hn%elem_of_map_to_list). done.
    + intros (Ha & Hb). split; [done|]. exists (n, ()). by rewrite elem_of_map_to_list.
Qed.

(** A sequence of calls that were all answered with success, in order, and nothing else. *)
Definition call : Type := string * string * option json.

Definition performed (kc : Client) (calls : list call) (rs : list HttpRequest) : Prop :=
  ∃ rss, rs = concat rss ∧
    Forall2 (λ '(m, p, b) r, do_post kc m p b out_nil r (inr ())) calls rss.

Lemma performed_nil (kc : Client) : performed kc [] [].
Proof. by exists []. Qed.

Lemma performed_cons (kc : Client) (m p : string) (b : option json) (cs : list call)
    (r rs : list HttpRequest) :
  do_post kc m p b out_nil r (inr ()) → performed kc cs rs →
  performed kc ((m, p, b) :: cs) (r ++ rs).
Proof. intros Hr (rss & -> & Hf). exists (r :: rss). by split; [|constructor]. Qed.

Lemma performed_app (kc : Client) (cs ds : list call) (rs ss : list HttpRequest) :
  performed kc cs rs → performed kc ds ss → performed kc (cs ++ ds) (rs ++ ss).
Proof.
  intros (rss & -> & H1) (sss & -> & H2). exists (rss ++ sss).
  split; [by rewrite concat_app|by apply Forall2_app].
Qed.

(** The scope assignment calls for a list of names. *)
Definition scope_kind (optional : bool) : string :=
  if optional then "optional-client-scopes" else "default-client-scopes".

Definition assign_calls (realm clientID : string) (optional add : bool) (ids : gmap string string)
    (names : list string) : list call :=
  omap (λ n, (λ id, (if add then "PUT" else "DELETE",
                     assignment_path realm clientID (scope_kind optional) id, None))
             <$> (ids !! n)) names.

(** One step of [Do] inside a function that returns its error. *)
Ltac wp_do :=
  apply wp_try; eapply wp_mono; [apply Do_wp|]; simpl;
  let w := fresh "w" in let l := fresh "l" in let e := fresh "e" in
  let a := fresh "a" in let Hd := fresh "Hd" in
  intros ? w l (_ & [e|a] & -> & Hd); simpl.

Section HelperSpecs.
Context {St : Type} `{EnvLaws St, KubeLib}.

Definition scope_assign (kc : Client) (realm clientID : string) (optional : bool)
    : string → bool → M St (GoError + ()) :=
  if optional then AssignClientOptionalScope kc realm clientID
  else AssignClientDefaultScope kc realm clientID.

Lemma scope_assign_Do (kc : Client) (realm clientID id : string) (optional add : bool) :
  scope_assign kc realm clientID optional id add =
  Do kc (if add then "PUT" else "DELETE")
    (assignment_path realm clientID (scope_kind optional) id) None out_nil.
Proof. by destruct optional. Qed.

Lemma assign_missing_wp (kc : Client) (realm clientID : string) (optional : bool)
    (ids : gmap string string) (names : list string) (w : World St) :
  wp (assign_missing (scope_assign kc realm clientID optional) realm ids names) (λ o _ l,
    ∃ r, o = Some r ∧ (r = inr () →
      Forall (λ n, is_Some (ids !! n)) names ∧
      performed kc (assign_calls realm clientID optional true ids names) (requests l))) w.
Proof.
  revert w. induction names as [|n names IH]; intros w; simpl.
  { apply wp_ret. eexists. split; [done|]. eauto using performed_nil. }
  destruct (ids !! n) as [id|] eqn:Hid; [|apply wp_ret; by eexists].
  rewrite scope_assign_Do. wp_do; [by eexists|]. destruct a.
  eapply wp_mono; [apply IH|]. simpl. intros ? w1 l1 (r & -> & Hr). eexists. split; [done|].
  intros ->. destruct (Hr eq_refl) as [Hf Hp]. rewrite requests_app.
  split; [by constructor|]. by apply performed_cons.
Qed.

Lemma remove_extra_wp (kc : Client) (realm clientID : string) (optional : bool)
    (ids : gmap string string) (names : list string) (w : World St) :
  wp (remove_extra (scope_assign kc realm clientID optional) ids names) (λ o _ l,
    ∃ r, o = Some r ∧ (r = inr () →
      performed kc (assign_calls realm clientID optional false ids names) (requests l))) w.
Proof.
  revert w. induction names as [|n names IH]; intros w; simpl.
  { apply wp_ret. eexists. split; [done|]. eauto using performed_nil. }
  destruct (ids !! n) as [id|] eqn:Hid; [|exact (IH w)].
  rewrite scope_assign_Do. wp_do; [by eexists|]. destruct a.
  eapply wp_mono; [apply IH|]. simpl. intros ? w1 l1 (r & -> & Hr). eexists. split; [done|].
  intros ->. rewrite requests_app. apply performed_cons; auto.
Qed.

(** A list of role names resolved: one representation per name, each answered by the
    server, or the first error. *)
Lemma resolve_each_wp (get : string → M St (GoError + rep)) (label : string → string)
    (P : string → rep → Prop) (names : list string) (out : list rep) (w : World St) :
  (∀ name w, wp (get name) (λ o _ _, ∃ r, o = Some r ∧ ∀ x, r = inr x → P name x) w) →
  wp (resolve_each get label names out) (λ o _ _,
    ∃ r, o = Some r ∧ ∀ l, r = inr l → ∃ rs, l = out ++ rs ∧ Forall2 P names rs) w.
Proof.
  intros Hget. revert out w. induction names as [|n names IH]; intros out w; simpl.
  { apply wp_ret. eexists. split; [done|]. intros l [= <-]. exists []. by rewrite app_nil_r. }
  apply wp_try, wp_bind. eapply wp_mono; [apply Hget|]. simpl. intros ? w1 l1 (r & -> & Hr).
  simpl. apply wp_ret. destruct r as [e|x]; [by eexists|].
  eapply wp_mono; [apply IH|]. simpl. intros ? w2 l2 (r & -> & Hrs). eexists. split; [done|].
  intros l ->. destruct (Hrs _ eq_refl) as (rs & -> & Hf). exists (x :: rs).
  rewrite <- app_assoc. split; [done|]. constructor; auto.
Qed.

(** ** What the helpers may do *)

Lemma readSecretValue_safe (c : Client) (ns realm : string) (b : bool)
    (selector : SecretKeySelector) (d : string) :
  safe (driver_act c ns realm b) (readSecretValue (St := St) ns selector d).
Proof. unfold readSecretValue, kube_get_secret. by safe_solve. Qed.

Lemma readSecretValues_safe (c : Client) (ns realm : string) (b : bool)
    (selector : SecretKeysSelector) :
  safe (driver_act c ns realm b) (readSecretValues (St := St) ns selector).
Proof. unfold readSecretValues, kube_get_secret, range. by safe_solve. Qed.

Lemma resolve_each_safe (P : Action → Prop) (get : string → M St (GoError + rep))
    (label : string → string) (names : list string) (out : list rep) :
  (∀ n, safe P (get n)) → safe P (resolve_each get label names out).
Proof.
  intros Hget. revert out. induction names as [|n names IH]; intros out; simpl; [by safe_solve|].
  apply safe_try; [|auto]. apply safe_bind; [auto|]. intros. apply safe_ret.
Qed.

Lemma resolveRealmRoles_safe (c : Client) (ns realm : string) (b : bool) (names : list string) :
  safe (driver_act c ns realm b) (resolveRealmRoles (St := St) c realm names).
Proof. apply resolve_each_safe. intros n. unfold GetRole. auto with operator. Qed.

Lemma FindClient_safe (c : Client) (ns realm clientID : string) (b : bool) :
  safe (driver_act c ns realm b) (FindClient (St := St) c realm clientID).
Proof. unfold FindClient. safe_solve. Qed.

Lemma resolveClientRoles_safe (c : Client) (ns realm clientID : string) (b : bool)
    (names : list string) :
  safe (driver_act c ns realm b) (resolveClientRoles (St := St) c realm clientID names).
Proof.
  unfold resolveClientRoles. apply safe_try.
  - apply safe_bind; [apply FindClient_safe|]. intros. apply safe_ret.
  - intros r. apply resolve_each_safe. intros n. unfold GetClientRole. auto with operator.
Qed.

Lemma assign_missing_safe (P : Action → Prop) (assign : string → bool → M St (GoError + ()))
    (realm : string) (ids : gmap string string) (names : list string) :
  (∀ id add, safe P (assign id add)) → safe P (assign_missing assign realm ids names).
Proof. intros Ha. induction names as [|n names IH]; simpl; safe_solve; auto. Qed.

Lemma remove_extra_safe (P : Action → Prop) (assign : string → bool → M St (GoError + ()))
    (ids : gmap string string) (names : list string) :
  (∀ id add, safe P (assign id add)) → safe P (remove_extra assign ids names).
Proof. intros Ha. induction names as [|n names IH]; simpl; safe_solve; auto. Qed.

Lemma enforceScopeAssignments_safe (c : Client) (ns realm clientID : string)
    (desired : list string) (optional : bool) :
  safe (driver_act c ns realm true)
    (enforceScopeAssignments (St := St) c realm clientID desired optional).
Proof.
  assert (∀ id add, safe (driver_act c ns realm true)
    (scope_assign c realm clientID optional id add)) as Ha.
  { intros. rewrite scope_assign_Do. auto with operator. }
  unfold enforceScopeAssignments, ClientOptionalScopeAssignments, ClientDefaultScopeAssignments,
    listClientScopeAssignments, range, apply_scopes, ListClientScopes.
  fold (scope_assign c realm clientID optional).
  safe_solve; auto using assign_missing_safe, remove_extra_safe.
Qed.

(** ** The exported Secret *)

(** What [ensureOutputSecret] does with the answer [r] to its read: the write, the reported
    change and the error. *)
Definition output_post {S} (obj : ManagedObject S) (name key value : string)
    (r : GoError + Secret) (writes : list Action) (changed : bool) (err : option GoError) : Prop :=
  match r with
  | inr existing =>
      if owned_by (GetUID (Meta obj)) existing then
        if String.eqb (default "" (Secret_Data existing !! key)) value
        then writes = [] ∧ changed = false ∧ err = None
        else writes = [SecretUpdate (with_data key value existing)] ∧ changed = true
      else writes = [] ∧ changed = false ∧ is_Some err
  | inl e =>
      if IsNotFound e then
        (∃ s, writes = [SecretCreate s] ∧ changed = true ∧
           Secret_Meta s = Secret_Meta (new_secret (GetNamespace (Meta obj)) name key value) ∧
           Secret_Data s = {[key := value]} ∧ owned_by (GetUID (Meta obj)) s = true)
        ∨ writes = [] ∧ changed = false ∧ is_Some err
      else writes = [] ∧ changed = false ∧ err = Some e
  end.

Lemma owned_by_reference (uid : string) (s : Secret) :
  mkOwnerReference uid (Some true) ∈ Secret_OwnerReferences s → owned_by uid s = true.
Proof.
  intros Hin. unfold owned_by. apply existsb_exists. eexists.
  split; [by apply list_elem_of_In|]. simpl. by rewrite String.eqb_refl.
Qed.

Lemma ensureOutputSecret_wp `{!KubeLibLaws} {S} (obj : ManagedObject S) (name key value : string)
    (w : World St) :
  wp (ensureOutputSecret obj name key value) (λ o _ l, ∃ changed err writes,
    o = Some (changed, err) ∧ l = KubeGet "secrets" (GetNamespace (Meta obj)) name :: writes ∧
    output_post obj name key value
      (env_get_secret (GetNamespace (Meta obj)) name (env w)).1 writes changed err) w.
Proof.
  unfold ensureOutputSecret, kube_get_secret, output_post. cbv zeta.
  apply wp_bind, wp_call; [apply _|]. intros r s ->. simpl. destruct r as [e|existing].
  - destruct (IsNotFound e); [|apply wp_ret; by do 3 eexists].
    destruct (SetControllerReference _ _) as [e'|x] eqn:Hx;
      [apply wp_ret; do 3 eexists; split; [done|]; split; [done|]; by right|].
    apply wp_bind, wp_call; [apply _|]. intros e' s' _. simpl. apply wp_ret.
    do 3 eexists. split; [done|]. split; [done|]. left. exists x.
    apply controller_reference in Hx as (Hm & Hd & Ho%owned_by_reference).
    by rewrite Hm, Hd.
  - destruct (owned_by _ _); simpl; [|apply wp_ret; by do 3 eexists].
    destruct (String.eqb _ value); [apply wp_ret; by do 3 eexists|].
    apply wp_bind, wp_call; [apply _|]. intros e' s' _. simpl. apply wp_ret. by do 3 eexists.
Qed.

Lemma ensureOutputSecret_safe `{!KubeLibLaws} {S} (c : Client) (realm : string)
    (obj : ManagedObject S) (name key value : string) :
  safe (driver_act c (GetNamespace (Meta obj)) realm true)
    (ensureOutputSecret (St := St) obj name key value).
Proof.
  intros w. eapply wp_mono; [apply ensureOutputSecret_wp|]. simpl.
  intros ? _ ? (changed & err & writes & -> & -> & Hp). split; [by eexists|]. constructor; [done|].
  destruct (env_get_secret _ name (env w)) as [r s'] eqn:Hget. unfold output_post in Hp. simpl in Hp.
  destruct r as [e|existing].
  - destruct (IsNotFound e); [|by destruct Hp as (-> & _)].
    destruct Hp as [(s & -> & _ & Hm & _)|(-> & _)]; [|done].
    constructor; [|done]. simpl. by rewrite Hm.
  - destruct (owned_by _ _); [|by destruct Hp as (-> & _)].
    destruct (String.eqb _ value); [by destruct Hp as (-> & _)|].
    destruct Hp as [-> _]. constructor; [|done].
    by destruct (get_secret_key _ _ _ _ _ Hget).
Qed.

(** ** Secret values *)

Lemma collect_keys_spec (at_ : string) (data : gmap string string) (keys : list (string * string))
    (out : gmap string string) :
  NoDup (keys.*1) → (∀ t, t ∈ keys.*1 → out !! t = None) →
  match collect_keys at_ data keys out with
  | inr values =>
      (∀ t k, (t, k) ∈ keys → is_Some (data !! k) ∧ values !! t = data !! k) ∧
      ∀ t, t ∉ keys.*1 → values !! t = out !! t
  | inl _ => ∃ t k, (t, k) ∈ keys ∧ data !! k = None
  end.
Proof.
  revert out. induction keys as [|[t k] keys IH]; intros out HN Hout; simpl in *; [set_solver|].
  apply NoDup_cons in HN as [Ht HN]. destruct (data !! k) as [v|] eqn:Hk;
    [|exists t, k; split; [by left|done]].
  specialize (IH (<[t := v]> out) HN).
  assert (∀ t', t' ∈ keys.*1 → <[t := v]> out !! t' = None) as Hout'.
  { intros t' Ht'. rewrite lookup_insert_ne by set_solver. apply Hout. by right. }
  specialize (IH Hout'). destruct (collect_keys at_ data keys _) as [e|values].
  - destruct IH as (t' & k' & Hin & Hn). exists t', k'. split; [by right|done].
  - destruct IH as [IH1 IH2]. split.
    + intros t' k' [[= -> ->]|Hin]%elem_of_cons; [|by apply IH1].
      rewrite Hk, (IH2 t Ht), lookup_insert_eq. by split.
    + intros t' Hn. apply not_elem_of_cons in Hn as [Hne Hn].
      rewrite (IH2 t' Hn), lookup_insert_ne by done. done.
Qed.

Lemma readSecretValues_wp (ns : string) (selector : SecretKeysSelector) (w : World St) :
  wp (readSecretValues ns selector) (λ o _ _, ∃ r, o = Some r ∧
    match (env_get_secret ns (SecretKeysSelector_Name selector) (env w)).1, r with
    | inr secret, inr values =>
        ∀ target, values !! target =
          (SecretKeysSelector_Keys selector !! target ≫= λ key, Secret_Data secret !! key) ∧
          (is_Some (SecretKeysSelector_Keys selector !! target) → is_Some (values !! target))
    | inr secret, inl _ =>
        ∃ target key, SecretKeysSelector_Keys selector !! target = Some key ∧
          Secret_Data secret !! key = None
    | inl _, r => ∃ e, r = inl e
    end) w.
Proof.
  unfold readSecretValues, kube_get_secret. cbv zeta. apply wp_bind, wp_call; [apply _|]. intros r s ->. simpl.
  destruct r as [e|secret]; [apply wp_ret; eexists; split; [done|]; by eexists|].
  apply wp_bind, wp_range. intros keys s' Hp. simpl. apply wp_ret. eexists. split; [done|].
  assert (∀ t k, (t, k) ∈ keys ↔ SecretKeysSelector_Keys selector !! t = Some k) as Hin.
  { intros t k. by rewrite Hp, elem_of_map_to_list. }
  pose proof (collect_keys_spec (secret_path ns (SecretKeysSelector_Name selector))
    (Secret_Data secret) keys ∅) as Hc.
  destruct (collect_keys _ _ keys ∅) as [e|values].
  - destruct Hc as (t & k & Hk & Hn); [rewrite Hp; apply NoDup_fst_map_to_list|done|].
    exists t, k. by rewrite <- Hin.
  - destruct Hc as [Hin1 Hout2]; [rewrite Hp; apply NoDup_fst_map_to_list|done|]. intros t.
    destruct (SecretKeysSelector_Keys selector !! t) as [k|] eqn:Hk; simpl.
    + apply Hin in Hk. destruct (Hin1 t k Hk) as [Hs ->]. done.
    + split; [|by intros []]. rewrite Hout2, lookup_empty; [done|].
      intros ([t' k] & -> & Hk')%list_elem_of_fmap. apply Hin in Hk'. simpl in *. congruence.
Qed.

(** ** Scope assignments *)

(** The calls of a non-empty difference: one read of the realm's scopes, then an assignment
    for each name to add and a removal for each name to remove that has an id. *)
Definition applied_post (kc : Client) (realm clientID : string) (optional : bool)
    (toAdd toRemove : list string) (rs : list HttpRequest) : Prop :=
  ∃ scopes rs1 rs2, rs = rs1 ++ rs2 ∧
    do_post kc "GET" (scopes_path realm) None out_maps rs1 (inr scopes) ∧
    let ids := ids_by_name scopes ∅ in
    Forall (λ n, is_Some (ids !! n)) toAdd ∧
    performed kc (assign_calls realm clientID optional true ids toAdd ++
                  assign_calls realm clientID optional false ids toRemove) rs2.

Lemma apply_scopes_wp (kc : Client) (realm clientID : string) (optional : bool)
    (toAdd toRemove : list string) (w : World St) :
  wp (apply_scopes kc realm (scope_assign kc realm clientID optional) toAdd toRemove) (λ o _ l,
    ∃ r, o = Some r ∧ ∀ changed, r = inr changed → changed = true ∧
      applied_post kc realm clientID optional toAdd toRemove (requests l)) w.
Proof.
  unfold apply_scopes, ListClientScopes. wp_do; [by eexists|]. rename a into scopes.
  apply wp_try. eapply wp_mono; [apply assign_missing_wp|]. simpl.
  intros ? w3 l3 ([e|[]] & -> & Hadd); [by eexists|]. destruct (Hadd eq_refl) as [Hf Hp].
  apply wp_try. eapply wp_mono; [apply remove_extra_wp|]. simpl.
  intros ? w4 l4 ([e|[]] & -> & Hrem); [by eexists|]. apply wp_ret. eexists. split; [done|].
  intros ? [= <-]. split; [done|]. rewrite app_nil_r, !requests_app.
  exists scopes. do 2 eexists. split; [done|]. split; [done|].
  split; [done|]. by apply performed_app; [|apply Hrem].
Qed.

Definition scopes_post (kc : Client) (realm clientID : string) (desired : list string)
    (optional : bool) (changed : bool) (rs : list HttpRequest) : Prop :=
  ∃ current rs0 rest, rs = rs0 ++ rest ∧
    do_post kc "GET" (assignments_path realm clientID (scope_kind optional)) None out_maps rs0
      (inr current) ∧
    if changed then
      ∃ toAdd toRemove, toAdd ++ toRemove ≠ [] ∧
        NoDup toAdd ∧ (∀ n, n ∈ toAdd ↔ n ∈ desired ∧ n ∉ rep_names current) ∧
        NoDup toRemove ∧ (∀ n, n ∈ toRemove ↔ n ∈ rep_names current ∧ n ∉ desired) ∧
        applied_post kc realm clientID optional toAdd toRemove rest
    else rest = [] ∧ ∀ n, n ∈ desired ↔ n ∈ rep_names current.

Lemma empty_difference (a b l : list string) :
  (∀ n, n ∈ l ↔ n ∈ a ∧ n ∉ b) → l = [] → ∀ n, n ∈ a → n ∈ b.
Proof.
  intros Hl -> n Ha. destruct (decide (n ∈ b)) as [|Hb]; [done|].
  exfalso. apply (not_elem_of_nil n). by apply Hl.
Qed.

Lemma list_scopes_Do (kc : Client) (realm clientID : string) (optional : bool) :
  (if optional then ClientOptionalScopeAssignments (St := St) kc realm clientID
   else ClientDefaultScopeAssignments kc realm clientID)
  = Do kc "GET" (assignments_path realm clientID (scope_kind optional)) None out_maps.
Proof. by destruct optional. Qed.

Lemma enforceScopeAssignments_wp (kc : Client) (realm clientID : string) (desired : list string)
    (optional : bool) (w : World St) :
  wp (enforceScopeAssignments kc realm clientID desired optional) (λ o _ l,
    ∃ r, o = Some r ∧ ∀ changed, r = inr changed →
      scopes_post kc realm clientID desired optional changed (requests l)) w.
Proof.
  unfold enforceScopeAssignments. fold (scope_assign kc realm clientID optional).
  rewrite list_scopes_Do. wp_do; [by eexists|]. rename a into current.
  apply wp_bind, wp_range. intros ds s1 Hds. simpl. apply wp_bind, wp_range. intros cs s2 Hcs. simpl.
  destruct (missing_from_spec _ (rep_names current) _ Hds) as [HNa Ha].
  destruct (missing_from_spec _ desired _ Hcs) as [HNr Hr].
  set (toAdd := missing_from _ ds) in *. set (toRemove := missing_from _ cs) in *.
  clearbody toAdd toRemove. destruct toAdd as [|x xs], toRemove as [|y ys].
  { apply wp_ret. eexists. split; [done|]. intros ? [= <-].
    exists current, (requests l), []. rewrite app_nil_r. simpl. rewrite app_nil_r. split; [done|].
    split; [done|]. split; [done|]. intros n.
    split; [by apply (empty_difference _ _ _ Ha)|by apply (empty_difference _ _ _ Hr)]. }
  all: eapply wp_mono; [apply apply_scopes_wp|]; simpl;
    intros ? w3 l3 (r & -> & Hap); eexists; split; [done|]; intros changed ->;
    destruct (Hap _ eq_refl) as [-> Hap']; exists current, (requests l), (requests l3);
    rewrite requests_app; split; [done|]; split; [done|];
    refine (ex_intro _ _ (ex_intro _ _ (conj _ (conj HNa (conj Ha (conj HNr (conj Hr Hap')))))));
    discriminate.
Qed.
End HelperSpecs.

#[export] Hint Resolve readSecretValue_safe readSecretValues_safe resolveRealmRoles_safe
  FindClient_safe resolveClientRoles_safe enforceScopeAssignments_safe : operator.

#[export] Hint Resolve ensureOutputSecret_safe : operator.

(** ** Theorems *)

(** C26.  The exported Secret.  The operator writes at most one Secret: it creates the one
    it is asked for when there is none, as its controller and with the value as its only
    data, or changes the one key of a Secret it controls, and only when the value differs.
    A Secret that exists and is not controlled by the resource is never written, and the
    call fails.  It reports a change exactly when it writes. *)
Theorem output_secret_safe {St} `{EnvLaws St, KubeLib, !KubeLibLaws} {S} (obj : ManagedObject S)
    (name key value : string) (w : World St) :
  ∃ changed err w' writes, ensureOutputSecret obj name key value w = (Some (changed, err), w') ∧
    trace w' = trace w ++ KubeGet "secrets" (GetNamespace (Meta obj)) name :: writes ∧
    output_post obj name key value
      (env_get_secret (GetNamespace (Meta obj)) name (env w)).1 writes changed err.
Proof.
  destruct (ensureOutputSecret_wp obj name key value w)
    as (l & Hl & _ & changed & err & writes & Ho & -> & Hp).
  exists changed, err, (ensureOutputSecret obj name key value w).2, writes. rewrite <- Ho.
  by destruct (ensureOutputSecret obj name key value w).
Qed.

Lemma output_secret_safe_witness :
  let obj := mkManagedObject "Client" (sim_meta "team" "app" "1") () (mkResourceStatus [] 0) "" in
  (∃ w', ensureOutputSecret obj "app-secret" "clientSecret" "new" (sim_world []) =
           (Some (true, None), w')) ∧
  ∃ changed err w' writes,
    ensureOutputSecret obj "foreign" "clientSecret" "new" (sim_world []) =
      (Some (changed, err), w') ∧
    trace w' = [KubeGet "secrets" "team" "foreign"] ++ writes ∧
    output_post obj "foreign" "clientSecret" "new" (sim_get_secret "team" "foreign")
      writes changed err.
Proof.
  intros obj. split; [eexists; vm_compute; reflexivity|].
  exact (output_secret_safe obj "foreign" "clientSecret" "new" (sim_world [])).
Defined.

(** C11.  Client scope assignments are enforced exactly.  When the call succeeds it read
    the current assignments.  It reports no change exactly if they are the desired names, and
    then sent nothing else.  Otherwise at least one name is missing or surplus, it assigned
    each desired scope that was missing, once, and then removed each assigned scope that is
    not desired and that the realm lists, all answered with success, whatever order Go visits
    the two sets in. *)
Theorem scope_assignments_exact {St} `{EnvLaws St} (kc : Client) (realm clientID : string)
    (desired : list string) (optional : bool) (w : World St) :
  ∃ r w' l, enforceScopeAssignments kc realm clientID desired optional w = (Some r, w') ∧
    trace w' = trace w ++ l ∧
    ∀ changed, r = inr changed →
      scopes_post kc realm clientID desired optional changed (requests l).
Proof.
  destruct (enforceScopeAssignments_wp kc realm clientID desired optional w)
    as (l & Hl & _ & r & Hr & Hp).
  exists r, (enforceScopeAssignments kc realm clientID desired optional w).2, l. rewrite <- Hr.
  by destruct (enforceScopeAssignments kc realm clientID desired optional w).
Qed.

Lemma scope_assignments_exact_witness :
  let kc := mkClient (mkConfig "team/kc" "https://kc.example" "master" "password" "a" "b" "" "" false) 0 in
  let scope n i := JObj {["name" := JStr n; "id" := JStr i]} in
  let w := sim_world [ok_token; ok_json (JArr [scope "email" "1"]);
                      ok_json (JArr [scope "email" "1"; scope "phone" "2"]);
                      status 204; status 204] in
  (enforceScopeAssignments kc "acme" "c1" ["phone"] false w).1 = Some (inr true) ∧
  ∃ r w' l, enforceScopeAssignments kc "acme" "c1" ["phone"] false w = (Some r, w') ∧
    trace w' = l ∧
    ∀ changed, r = inr changed → scopes_post kc "acme" "c1" ["phone"] false changed (requests l).
Proof.
  intros kc scope w. split; [vm_compute; reflexivity|].
  exact (scope_assignments_exact kc "acme" "c1" ["phone"] false w).
Defined.

(** A surplus scope that the realm does not list is skipped, and a change is reported
    although nothing was written. *)
Example skipped_scope_reported_changed :
  let kc := mkClient (mkConfig "team/kc" "https://kc.example" "master" "password" "a" "b" "" "" false) 0 in
  let scope n i := JObj {["name" := JStr n; "id" := JStr i]} in
  let w := sim_world [ok_token; ok_json (JArr [scope "gone" "1"]); ok_json (JArr [scope "email" "2"])] in
  let run := enforceScopeAssignments kc "acme" "c1" [] false w in
  run.1 = Some (inr true) ∧
  Forall (λ r, rq_method r = "GET" ∨ r = token_request (cl_cfg kc)) (requests (trace run.2)).
Proof.
  cbv zeta. split; [vm_compute; reflexivity|]. vm_compute.
  repeat (apply Forall_cons; split; [by first [left; reflexivity|right; reflexivity]|]). constructor.
Qed.

(** C39.  Secret values are read whole.  [readSecretValues] returns one value per target
    the selector maps, the value of the mapped key, and fails exactly when the Secret cannot
    be read or one of the mapped keys is absent, whatever order Go visits the mapping in. *)
Theorem secret_values_exact {St} `{EnvLaws St} (ns : string) (selector : SecretKeysSelector)
    (w : World St) :
  ∃ r w', readSecretValues ns selector w = (Some r, w') ∧
    match (env_get_secret ns (SecretKeysSelector_Name selector) (env w)).1, r with
    | inr secret, inr values =>
        ∀ target, values !! target =
          (SecretKeysSelector_Keys selector !! target ≫= λ key, Secret_Data secret !! key) ∧
          (is_Some (SecretKeysSelector_Keys selector !! target) → is_Some (values !! target))
    | inr secret, inl _ =>
        ∃ target key, SecretKeysSelector_Keys selector !! target = Some key ∧
          Secret_Data secret !! key = None
    | inl _, r => ∃ e, r = inl e
    end.
Proof.
  destruct (readSecretValues_wp ns selector w) as (l & _ & _ & r & Hr & Hp).
  eexists r, _. split; [by apply run_eq|exact Hp].
Qed.

Lemma secret_values_exact_witness :
  let selector := mkSecretKeysSelector "kc-admin" {["user" := "username"]} in
  ∃ r w', readSecretValues "team" selector (sim_world []) = (Some r, w') ∧
    match sim_get_secret "team" "kc-admin", r with
    | inr secret, inr values =>
        ∀ target, values !! target =
          (SecretKeysSelector_Keys selector !! target ≫= λ key, Secret_Data secret !! key) ∧
          (is_Some (SecretKeysSelector_Keys selector !! target) → is_Some (values !! target))
    | inr secret, inl _ =>
        ∃ target key, SecretKeysSelector_Keys selector !! target = Some key ∧
          Secret_Data secret !! key = None
    | inl _, r => ∃ e, r = inl e
    end.
Proof. intros selector. exact (secret_values_exact "team" selector (sim_world [])). Defined.

(** The managed marker survives every write.  Whatever the spec puts into the
    attributes and whatever the server holds, the representation sent on create and on
    update is recognised as managed, in the string form and in the list form. *)
Lemma marker_survives_update (remote payload : rep) :
  let stamped := stampStringAttribute payload ManagedAnnotation ManagedValue in
  let stamped' := stampSliceAttribute payload ManagedAnnotation ManagedValue in
  managedByStringAttribute stamped = true ∧
  managedByStringAttribute (MergePayload remote stamped) = true ∧
  managedBySliceAttribute stamped' = true ∧
  managedBySliceAttribute (MergePayload remote stamped') = true.
Proof.
  cbv zeta. unfold managedByStringAttribute, managedBySliceAttribute, stampStringAttribute,
    stampSliceAttribute, field_map.
  rewrite !MergePayload_lookup, !lookup_insert_eq. simpl. unfold field_or_empty, field_string, field_list.
  rewrite !lookup_insert_eq. simpl. rewrite existsb_app. simpl. by rewrite orb_true_r.
Qed.
