(* ===== verification/Drivers.v ===== *)
(** * The drivers (internal/controller/driver_*.go)

    [Driver] is the interface of engine.go; the six drivers implement it.  A payload that a
    method changes in place is returned; [PostApply] returns the object too, since the
    client driver sets a status field.  A failed type assertion panics. *)

From Stdlib Require Import ZArith Lia.
From stdpp Require Import base gmap strings list.
From S2P Require Import Prelude Json JsonText GoError LastApplied ApiTypes World Sim Logic Url.
From S2P Require Import HttpClient AdminApi DriverHelpers.

Local Open Scope string_scope.
Local Open Scope list_scope.

(** ** The interface *)

Record Driver (St S : Type) := mkDriver {
  drv_Get : Client → ManagedObject S → M St (GoError + rep);
  drv_ID : rep → string;
  drv_Create : Client → ManagedObject S → rep → M St (GoError + ());
  drv_Update : Client → ManagedObject S → string → rep → M St (GoError + ());
  drv_Delete : Client → ManagedObject S → M St (GoError + ());
  drv_ManagedMarker : rep → rep;
  drv_IsManaged : rep → bool;
  drv_PreparePayload : Client → ManagedObject S → rep → M St (GoError + rep);
  drv_PostApply : Client → ManagedObject S → rep →
    M St (ManagedObject S * (bool * option GoError));
  drv_Protected : ManagedObject S → bool * string;
  drv_OperatorFields : list string;
}.
Arguments mkDriver {St S}.
Arguments drv_Get {St S}.
Arguments drv_ID {St S}.
Arguments drv_Create {St S}.
Arguments drv_Update {St S}.
Arguments drv_Delete {St S}.
Arguments drv_ManagedMarker {St S}.
Arguments drv_IsManaged {St S}.
Arguments drv_PreparePayload {St S}.
Arguments drv_PostApply {St S}.
Arguments drv_Protected {St S}.
Arguments drv_OperatorFields {St S}.

(** [x.(string)] without the second value: a panic when it is not a string. *)
Definition must_string {St} (o : option string) : M St string :=
  match o with Some s => mret s | None => panic end.

(** The object is unchanged. *)
Definition same_obj {St S} (obj : ManagedObject S) (m : M St (bool * option GoError))
    : M St (ManagedObject S * (bool * option GoError)) :=
  r ← m; mret (obj, r).

Definition no_id_error : GoError := PlainError "server representation has no id".

(** [m, _ := payload[k].(map[string]any)], a new map when there is none, and the values
    written into it. *)
Definition inject_values (payload : rep) (k : string) (values : gmap string string) : rep :=
  <[k := JObj ((JStr <$> values) ∪ default ∅ (field_map payload k))]> payload.

Definition quoted_true : string := String dquote ("true" +:+ String dquote "").

(** ** Realms (driver_realm.go) *)

Section RealmDriver.
Context {St : Type} `{Env St}.
Implicit Types obj : ManagedObject RealmTypes.RealmSpec.

Definition RealmDriver_OperatorFields : list string :=
  ["keycloakRef"; "adoptionPolicy"; "deletionPolicy"; "smtpServerSecretRef"].
Definition RealmDriver_Get (kc : Client) obj : M St (GoError + rep) :=
  GetRealm kc (TargetRealm (GetSpec obj)).
Definition RealmDriver_ID (_ : rep) : string := "".
Definition RealmDriver_Create (kc : Client) obj (payload : rep) : M St (GoError + ()) :=
  CreateRealm kc payload.
Definition RealmDriver_Update (kc : Client) obj (_ : string) (payload : rep)
    : M St (GoError + ()) :=
  UpdateRealm kc (TargetRealm (GetSpec obj)) payload.
Definition RealmDriver_Delete (kc : Client) obj : M St (GoError + ()) :=
  DeleteRealm kc (TargetRealm (GetSpec obj)).
Definition RealmDriver_ManagedMarker (payload : rep) : rep :=
  stampStringAttribute payload ManagedAnnotation ManagedValue.
Definition RealmDriver_IsManaged (remote : rep) : bool := managedByStringAttribute remote.
Definition RealmDriver_PreparePayload (kc : Client) obj (payload : rep) : M St (GoError + rep) :=
  match RealmTypes.SMTPServerSecretRef (GetSpec obj) with
  | None => mret (inr payload)
  | Some ref =>
      try values ← readSecretValues (GetNamespace (Meta obj)) ref;
      mret (inr (inject_values payload "smtpServer" values))
  end.
Definition RealmDriver_PostApply (kc : Client) obj (remote : rep)
    : M St (ManagedObject RealmTypes.RealmSpec * (bool * option GoError)) :=
  mret (obj, (false, None)).
Definition RealmDriver_Protected obj : bool * string :=
  let realm := TargetRealm (GetSpec obj) in
  if negb (bool_decide (realm ∈ ProtectedRealmNames)) then (false, "")
  else if String.eqb (default "" (GetAnnotations (Meta obj) !! AllowProtectedAnnotation)) "true"
  then (false, "")
  else (true, "realm " +:+ q realm +:+ " is protected; annotate the resource with "
                +:+ AllowProtectedAnnotation +:+ ": " +:+ quoted_true
                +:+ " to manage it deliberately").

Definition RealmDriver : Driver St RealmTypes.RealmSpec :=
  mkDriver RealmDriver_Get RealmDriver_ID RealmDriver_Create RealmDriver_Update
    RealmDriver_Delete RealmDriver_ManagedMarker RealmDriver_IsManaged
    RealmDriver_PreparePayload RealmDriver_PostApply RealmDriver_Protected
    RealmDriver_OperatorFields.
End RealmDriver.

(** ** Clients (driver_client.go) *)

Section ClientDriver.
Context {St : Type} `{Env St, KubeLib}.
Implicit Types obj : ManagedObject ClientTypes.ClientSpec.

Definition ClientDriver_OperatorFields : list string :=
  ["keycloakRef"; "adoptionPolicy"; "deletionPolicy"; "realm"; "secretRef"; "secretOutput"].
Definition ClientDriver_Get (kc : Client) obj : M St (GoError + rep) :=
  FindClient kc (TargetRealm (GetSpec obj)) (ClientTypes.ClientID (GetSpec obj)).
Definition ClientDriver_ID (remote : rep) : string := field_or_empty remote "id".
Definition ClientDriver_Create (kc : Client) obj (payload : rep) : M St (GoError + ()) :=
  CreateClient kc (TargetRealm (GetSpec obj)) payload.
Definition ClientDriver_Update (kc : Client) obj (id : string) (payload : rep)
    : M St (GoError + ()) :=
  UpdateClient kc (TargetRealm (GetSpec obj)) id payload.
Definition ClientDriver_Delete (kc : Client) obj : M St (GoError + ()) :=
  let spec := GetSpec obj in
  try remote ← FindClient kc (TargetRealm spec) (ClientTypes.ClientID spec);
  id ← must_string (field_string remote "id");
  DeleteClient kc (TargetRealm spec) id.
Definition ClientDriver_ManagedMarker (payload : rep) : rep :=
  stampStringAttribute payload ManagedAnnotation ManagedValue.
Definition ClientDriver_IsManaged (remote : rep) : bool := managedByStringAttribute remote.
Definition ClientDriver_PreparePayload (kc : Client) obj (payload : rep) : M St (GoError + rep) :=
  match ClientTypes.SecretRef (GetSpec obj) with
  | None => mret (inr payload)
  | Some ref =>
      try value ← readSecretValue (GetNamespace (Meta obj)) ref ClientSecretKey;
      mret (inr (<["secret" := JStr value]> payload))
  end.

(** The scope assignments of [PostApply]: an unset list is left alone. *)
Definition enforce_optional (kc : Client) (realm id : string) (desired : option (list string))
    (optional : bool) : M St (GoError + bool) :=
  match desired with
  | None => mret (inr false)
  | Some names => enforceScopeAssignments kc realm id names optional
  end.

Definition ClientDriver_scopes (kc : Client) obj (id : string) (changed : bool)
    : M St (bool * option GoError) :=
  let spec := GetSpec obj in
  try_flag changed
    (enforce_optional kc (TargetRealm spec) id (ClientTypes.DefaultClientScopes spec) false)
    (λ wrote,
      let changed := changed || wrote in
      try_flag changed
        (enforce_optional kc (TargetRealm spec) id (ClientTypes.OptionalClientScopes spec) true)
        (λ wrote, mret (changed || wrote, None))).

Definition ClientDriver_PostApply (kc : Client) obj (remote : rep)
    : M St (ManagedObject ClientTypes.ClientSpec * (bool * option GoError)) :=
  let spec := GetSpec obj in
  let id := field_or_empty remote "id" in
  if String.eqb id "" then mret (obj, (false, Some no_id_error))
  else
    match ClientTypes.SecretOutput spec with
    | None => same_obj obj (ClientDriver_scopes kc obj id false)
    | Some out =>
        let key := if String.eqb (SecretKeySelector_Key out) "" then ClientSecretKey
                   else SecretKeySelector_Key out in
        let name := SecretKeySelector_Name out in
        value ← GetClientSecret kc (TargetRealm spec) id;
        match value with
        | inl err => mret (obj, (false, Some err))
        | inr value =>
            wrote ← ensureOutputSecret obj name key value;
            match wrote with
            | (_, Some err) => mret (obj, (false, Some err))
            | (wrote, None) =>
                let obj := set_SecretName name obj in
                same_obj obj (ClientDriver_scopes kc obj id wrote)
            end
        end
    end.
Definition ClientDriver_Protected obj : bool * string := (false, "").

Definition ClientDriver : Driver St ClientTypes.ClientSpec :=
  mkDriver ClientDriver_Get ClientDriver_ID ClientDriver_Create ClientDriver_Update
    ClientDriver_Delete ClientDriver_ManagedMarker ClientDriver_IsManaged
    ClientDriver_PreparePayload ClientDriver_PostApply ClientDriver_Protected
    ClientDriver_OperatorFields.
End ClientDriver.

(** ** Client scopes (driver_client.go) *)

Section ClientScopeDriver.
Context {St : Type} `{Env St}.
Implicit Types obj : ManagedObject ClientScopeTypes.ClientScopeSpec.

Definition ClientScopeDriver_OperatorFields : list string :=
  ["keycloakRef"; "adoptionPolicy"; "deletionPolicy"; "realm"].
Definition ClientScopeDriver_Get (kc : Client) obj : M St (GoError + rep) :=
  FindClientScope kc (TargetRealm (GetSpec obj)) (ClientScopeTypes.Name (GetSpec obj)).
Definition ClientScopeDriver_ID (remote : rep) : string := field_or_empty remote "id".
Definition ClientScopeDriver_Create (kc : Client) obj (payload : rep) : M St (GoError + ()) :=
  CreateClientScope kc (TargetRealm (GetSpec obj)) payload.
Definition ClientScopeDriver_Update (kc : Client) obj (id : string) (payload : rep)
    : M St (GoError + ()) :=
  UpdateClientScope kc (TargetRealm (GetSpec obj)) id payload.
Definition ClientScopeDriver_Delete (kc : Client) obj : M St (GoError + ()) :=
  let spec := GetSpec obj in
  try remote ← FindClientScope kc (TargetRealm spec) (ClientScopeTypes.Name spec);
  id ← must_string (field_string remote "id");
  DeleteClientScope kc (TargetRealm spec) id.
Definition ClientScopeDriver_ManagedMarker (payload : rep) : rep :=
  stampStringAttribute payload ManagedAnnotation ManagedValue.
Definition ClientScopeDriver_IsManaged (remote : rep) : bool := managedByStringAttribute remote.
Definition ClientScopeDriver_PreparePayload (kc : Client) obj (payload : rep)
    : M St (GoError + rep) := mret (inr payload).
Definition ClientScopeDriver_PostApply (kc : Client) obj (remote : rep)
    : M St (ManagedObject ClientScopeTypes.ClientScopeSpec * (bool * option GoError)) :=
  mret (obj, (false, None)).
Definition ClientScopeDriver_Protected obj : bool * string := (false, "").

Definition ClientScopeDriver : Driver St ClientScopeTypes.ClientScopeSpec :=
  mkDriver ClientScopeDriver_Get ClientScopeDriver_ID ClientScopeDriver_Create
    ClientScopeDriver_Update ClientScopeDriver_Delete ClientScopeDriver_ManagedMarker
    ClientScopeDriver_IsManaged ClientScopeDriver_PreparePayload ClientScopeDriver_PostApply
    ClientScopeDriver_Protected ClientScopeDriver_OperatorFields.
End ClientScopeDriver.

(** ** Role differences (driver_role_idp_group.go) *)

(** [ids := map[string]map[string]any{}] filled from a list; later entries win. *)
Definition index_by (k : string) (l : list rep) : gmap string rep :=
  foldl (λ m r, match field_string r k with Some id => <[id := r]> m | None => m end) ∅ l.

(** The representations visited whose id the other side lacks. *)
Definition reps_missing (other : gmap string rep) (entries : list (string * rep)) : list rep :=
  (filter (λ e, other !! e.1 = None) entries).*2.

Section Roles.
Context {St : Type} `{Env St}.

(** The two loops that diff by id. *)
Definition role_diff (desired current : list rep) : M St (list rep * list rep) :=
  let desiredIDs := index_by "id" desired in
  let currentIDs := index_by "id" current in
  ds ← range desiredIDs;
  cs ← range currentIDs;
  mret (reps_missing currentIDs ds, reps_missing desiredIDs cs).

(** [if len(l) > 0 { if err := f(l); err != nil { return err } }]. *)
Definition when_some (l : list rep) (f : list rep → M St (GoError + ())) : M St (GoError + ()) :=
  match l with [] => mret (inr ()) | _ => f l end.

Definition applyRoleDiff (desired current : list rep)
    (add remove : list rep → M St (GoError + ())) : M St ((bool * bool) * option GoError) :=
  d ← role_diff desired current;
  let '(toAdd, toRemove) := d in
  match toAdd, toRemove with
  | [], [] => mret ((false, false), None)
  | _, _ =>
      r ← when_some toAdd add;
      match r with
      | inl err => mret ((false, false), Some err)
      | inr _ =>
          r ← when_some toRemove remove;
          match r with
          | inl err => mret ((true, false), Some err)
          | inr _ => mret ((true, true), None)
          end
      end
  end.

Definition clientUUID (kc : Client) (realm clientID : string) : M St (GoError + string) :=
  try remote ← wrap_err (λ e, Wrapped ("client " +:+ q clientID +:+ ": ") e "")
                 (FindClient kc realm clientID);
  mret (inr (field_or_empty remote "id")).

(** [for clientID, roles := range clientRoles]: the roles of each client, appended. *)
Fixpoint resolve_clients (kc : Client) (realm : string) (clients : list (string * list string))
    (desired : list rep) : M St (GoError + list rep) :=
  match clients with
  | [] => mret (inr desired)
  | (clientID, roles) :: clients' =>
      try clientRoles ← resolveClientRoles kc realm clientID roles;
      resolve_clients kc realm clients' (desired ++ clientRoles)
  end.
End Roles.

(** ** Realm roles (driver_role_idp_group.go) *)

Section RealmRoleDriver.
Context {St : Type} `{Env St}.
Implicit Types obj : ManagedObject RealmRoleTypes.RealmRoleSpec.

Definition RealmRoleDriver_OperatorFields : list string :=
  ["keycloakRef"; "adoptionPolicy"; "deletionPolicy"; "realm"; "composites"].
Definition RealmRoleDriver_Get (kc : Client) obj : M St (GoError + rep) :=
  GetRole kc (TargetRealm (GetSpec obj)) (RealmRoleTypes.Name (GetSpec obj)).
Definition RealmRoleDriver_ID (remote : rep) : string := field_or_empty remote "id".
Definition RealmRoleDriver_Create (kc : Client) obj (payload : rep) : M St (GoError + ()) :=
  CreateRole kc (TargetRealm (GetSpec obj)) payload.
Definition RealmRoleDriver_Update (kc : Client) obj (_ : string) (payload : rep)
    : M St (GoError + ()) :=
  UpdateRole kc (TargetRealm (GetSpec obj)) (RealmRoleTypes.Name (GetSpec obj)) payload.
Definition RealmRoleDriver_Delete (kc : Client) obj : M St (GoError + ()) :=
  DeleteRole kc (TargetRealm (GetSpec obj)) (RealmRoleTypes.Name (GetSpec obj)).
Definition RealmRoleDriver_ManagedMarker (payload : rep) : rep :=
  stampSliceAttribute payload ManagedAnnotation ManagedValue.
Definition RealmRoleDriver_IsManaged (remote : rep) : bool := managedBySliceAttribute remote.
Definition RealmRoleDriver_PreparePayload (kc : Client) obj (payload : rep)
    : M St (GoError + rep) := mret (inr payload).

(** The composites the spec asks for; none unless [composite] is true. *)
Definition desired_composites (kc : Client) obj : M St (GoError + list rep) :=
  let spec := GetSpec obj in
  match RealmRoleTypes.Composite spec, RealmRoleTypes.Composites spec with
  | Some true, Some composites =>
      try realmRoles ← resolveRealmRoles kc (TargetRealm spec)
                         (RoleCompositesTypes.RealmRoles composites);
      clients ← range (RoleCompositesTypes.ClientRoles composites);
      resolve_clients kc (TargetRealm spec) clients realmRoles
  | _, _ => mret (inr [])
  end.

Definition RealmRoleDriver_composites (kc : Client) obj : M St (bool * option GoError) :=
  let spec := GetSpec obj in
  let realm := TargetRealm spec in
  let name := RealmRoleTypes.Name spec in
  try_flag false (GetRoleComposites kc realm name) (λ current,
  try_flag false (desired_composites kc obj) (λ desired,
    d ← role_diff desired current;
    let '(toAdd, toRemove) := d in
    match toAdd, toRemove with
    | [], [] => mret (false, None)
    | _, _ =>
        try_flag false (when_some toAdd (AddRoleComposites kc realm name)) (λ _,
        try_flag false (when_some toRemove (RemoveRoleComposites kc realm name)) (λ _,
        mret (true, None)))
    end)).

Definition RealmRoleDriver_PostApply (kc : Client) obj (remote : rep)
    : M St (ManagedObject RealmRoleTypes.RealmRoleSpec * (bool * option GoError)) :=
  same_obj obj (RealmRoleDriver_composites kc obj).
Definition RealmRoleDriver_Protected obj : bool * string := (false, "").

Definition RealmRoleDriver : Driver St RealmRoleTypes.RealmRoleSpec :=
  mkDriver RealmRoleDriver_Get RealmRoleDriver_ID RealmRoleDriver_Create RealmRoleDriver_Update
    RealmRoleDriver_Delete RealmRoleDriver_ManagedMarker RealmRoleDriver_IsManaged
    RealmRoleDriver_PreparePayload RealmRoleDriver_PostApply RealmRoleDriver_Protected
    RealmRoleDriver_OperatorFields.
End RealmRoleDriver.

(** ** Identity providers (driver_role_idp_group.go) *)

Definition mappersDiffer (current payload : rep) : bool :=
  map_fold (λ k want acc, acc ||
    if String.eqb k "identityProviderAlias" then false
    else match current !! k with
         | None => true
         | Some got => negb (jsonEqual want got)
         end) false payload.

Definition mapper_payload (alias : string) (m : IdentityProviderMapper) : rep :=
  <["identityProviderAlias" := JStr alias]>
    (obj (IdentityProviderMapperTypes.IdentityProviderMapper_fields m)).

Definition mappers_by_name (l : list IdentityProviderMapper) : gmap string IdentityProviderMapper :=
  foldl (λ acc m, <[IdentityProviderMapperTypes.Name m := m]> acc) ∅ l.

Section IdentityProviderDriver.
Context {St : Type} `{Env St}.
Implicit Types obj : ManagedObject IdentityProviderTypes.IdentityProviderSpec.

Definition IdentityProviderDriver_OperatorFields : list string :=
  ["keycloakRef"; "adoptionPolicy"; "deletionPolicy"; "realm"; "configSecretRef"; "mappers"].
Definition IdentityProviderDriver_Get (kc : Client) obj : M St (GoError + rep) :=
  GetIdentityProvider kc (TargetRealm (GetSpec obj)) (IdentityProviderTypes.Alias (GetSpec obj)).
Definition IdentityProviderDriver_ID (remote : rep) : string := field_or_empty remote "alias".
Definition IdentityProviderDriver_Create (kc : Client) obj (payload : rep) : M St (GoError + ()) :=
  CreateIdentityProvider kc (TargetRealm (GetSpec obj)) payload.
Definition IdentityProviderDriver_Update (kc : Client) obj (_ : string) (payload : rep)
    : M St (GoError + ()) :=
  UpdateIdentityProvider kc (TargetRealm (GetSpec obj)) (IdentityProviderTypes.Alias (GetSpec obj))
    payload.
Definition IdentityProviderDriver_Delete (kc : Client) obj : M St (GoError + ()) :=
  DeleteIdentityProvider kc (TargetRealm (GetSpec obj)) (IdentityProviderTypes.Alias (GetSpec obj)).
Definition IdentityProviderDriver_ManagedMarker (payload : rep) : rep := payload.
Definition IdentityProviderDriver_IsManaged (_ : rep) : bool := false.
Definition IdentityProviderDriver_PreparePayload (kc : Client) obj (payload : rep)
    : M St (GoError + rep) :=
  match IdentityProviderTypes.ConfigSecretRef (GetSpec obj) with
  | None => mret (inr payload)
  | Some ref =>
      try values ← readSecretValues (GetNamespace (Meta obj)) ref;
      mret (inr (inject_values payload "config" values))
  end.

Fixpoint upsert_mappers (kc : Client) (realm alias : string) (currentByName : gmap string rep)
    (desired : list (string * IdentityProviderMapper)) (changed : bool)
    : M St (bool * option GoError) :=
  match desired with
  | [] => mret (changed, None)
  | (name, mapper) :: desired' =>
      let payload := mapper_payload alias mapper in
      match currentByName !! name ≫= λ existing, pair existing <$> field_string existing "id" with
      | Some (existing, id) =>
          if mappersDiffer existing payload then
            try_flag changed (UpdateIdentityProviderMapper kc realm alias id payload)
              (λ _, upsert_mappers kc realm alias currentByName desired' true)
          else upsert_mappers kc realm alias currentByName desired' changed
      | None =>
          try_flag changed (CreateIdentityProviderMapper kc realm alias payload)
            (λ _, upsert_mappers kc realm alias currentByName desired' true)
      end
  end.

Fixpoint prune_mappers (kc : Client) (realm alias : string)
    (desiredByName : gmap string IdentityProviderMapper) (current : list (string * rep))
    (changed : bool) : M St (bool * option GoError) :=
  match current with
  | [] => mret (changed, None)
  | (name, r) :: current' =>
      match desiredByName !! name, field_string r "id" with
      | None, Some id =>
          try_flag changed (DeleteIdentityProviderMapper kc realm alias id)
            (λ _, prune_mappers kc realm alias desiredByName current' true)
      | _, _ => prune_mappers kc realm alias desiredByName current' changed
      end
  end.

(** The second loop runs when the first ended without an error. *)
Definition and_then (m : M St (bool * option GoError)) (f : bool → M St (bool * option GoError))
    : M St (bool * option GoError) :=
  r ← m; match r with (changed, Some e) => mret (changed, Some e) | (changed, None) => f changed end.

Definition IdentityProviderDriver_mappers (kc : Client) obj : M St (bool * option GoError) :=
  let spec := GetSpec obj in
  let realm := TargetRealm spec in
  let alias := IdentityProviderTypes.Alias spec in
  try_flag false (ListIdentityProviderMappers kc realm alias) (λ current,
    let currentByName := index_by "name" current in
    let desiredByName := mappers_by_name (IdentityProviderTypes.Mappers spec) in
    ds ← range desiredByName;
    and_then (upsert_mappers kc realm alias currentByName ds false) (λ changed,
      cs ← range currentByName;
      prune_mappers kc realm alias desiredByName cs changed)).

Definition IdentityProviderDriver_PostApply (kc : Client) obj (remote : rep)
    : M St (ManagedObject IdentityProviderTypes.IdentityProviderSpec * (bool * option GoError)) :=
  same_obj obj (IdentityProviderDriver_mappers kc obj).
Definition IdentityProviderDriver_Protected obj : bool * string := (false, "").

Definition IdentityProviderDriver : Driver St IdentityProviderTypes.IdentityProviderSpec :=
  mkDriver IdentityProviderDriver_Get IdentityProviderDriver_ID IdentityProviderDriver_Create
    IdentityProviderDriver_Update IdentityProviderDriver_Delete
    IdentityProviderDriver_ManagedMarker IdentityProviderDriver_IsManaged
    IdentityProviderDriver_PreparePayload IdentityProviderDriver_PostApply
    IdentityProviderDriver_Protected IdentityProviderDriver_OperatorFields.
End IdentityProviderDriver.

(** ** Groups (driver_role_idp_group.go) *)

Record clientMapping := mkClientMapping { cm_uuid : string; cm_mappings : list rep }.

(** The elements of a decoded list that are objects. *)
Definition objects_of (o : option (list json)) : list rep := omap as_map (default [] o).

(** The entries of [clientMappings], keyed by client ID. *)
Definition by_client (entries : list (string * json)) : gmap string clientMapping :=
  foldl (λ acc e,
    match as_map e.2 with
    | None => acc
    | Some m => <[field_or_empty m "client" :=
                    mkClientMapping e.1 (objects_of (field_list m "mappings"))]> acc
    end) ∅ entries.

Section GroupDriver.
Context {St : Type} `{Env St}.
Implicit Types obj : ManagedObject GroupTypes.GroupSpec.

Definition GroupDriver_OperatorFields : list string :=
  ["keycloakRef"; "adoptionPolicy"; "deletionPolicy"; "realm"].
Definition GroupDriver_Get (kc : Client) obj : M St (GoError + rep) :=
  FindGroup kc (TargetRealm (GetSpec obj)) (GroupTypes.Name (GetSpec obj)).
Definition GroupDriver_ID (remote : rep) : string := field_or_empty remote "id".
Definition GroupDriver_Create (kc : Client) obj (payload : rep) : M St (GoError + ()) :=
  CreateGroup kc (TargetRealm (GetSpec obj)) payload.
Definition GroupDriver_Update (kc : Client) obj (id : string) (payload : rep)
    : M St (GoError + ()) :=
  UpdateGroup kc (TargetRealm (GetSpec obj)) id payload.
Definition GroupDriver_Delete (kc : Client) obj : M St (GoError + ()) :=
  let spec := GetSpec obj in
  try remote ← FindGroup kc (TargetRealm spec) (GroupTypes.Name spec);
  id ← must_string (field_string remote "id");
  DeleteGroup kc (TargetRealm spec) id.
Definition GroupDriver_ManagedMarker (payload : rep) : rep :=
  stampSliceAttribute payload ManagedAnnotation ManagedValue.
Definition GroupDriver_IsManaged (remote : rep) : bool := managedBySliceAttribute remote.
Definition GroupDriver_PreparePayload (kc : Client) obj (payload : rep)
    : M St (GoError + rep) := mret (inr payload).

(** [added, removed, err := applyRoleDiff(...)] and the return on an error. *)
Definition diff_flag (changed : bool) (m : M St ((bool * bool) * option GoError))
    : M St (bool * option GoError) :=
  r ← m;
  match r with
  | (_, Some err) => mret (changed, Some err)
  | ((added, removed), None) => mret (changed || added || removed, None)
  end.

(** The realm roles: unset means unmanaged. *)
Definition group_realm_roles (kc : Client) (realm id : string) (roles : option (list string))
    (currentRealm : list rep) (changed : bool) : M St (bool * option GoError) :=
  match roles with
  | None => mret (changed, None)
  | Some names =>
      try_flag changed (resolveRealmRoles kc realm names) (λ desiredRealm,
        diff_flag changed (applyRoleDiff desiredRealm currentRealm
          (AddGroupRealmRoles kc realm id) (RemoveGroupRealmRoles kc realm id)))
  end.

(** Clients that are mapped but not listed lose all their mappings. *)
Fixpoint prune_clients (kc : Client) (realm id : string) (desired : gmap string (list string))
    (current : list (string * clientMapping)) (changed : bool) : M St (bool * option GoError) :=
  match current with
  | [] => mret (changed, None)
  | (clientID, mapping) :: current' =>
      match desired !! clientID, cm_mappings mapping with
      | None, _ :: _ =>
          try_flag changed
            (RemoveGroupClientRoles kc realm id (cm_uuid mapping) (cm_mappings mapping))
            (λ _, prune_clients kc realm id desired current' true)
      | _, _ => prune_clients kc realm id desired current' changed
      end
  end.

(** The roles of each listed client. *)
Fixpoint enforce_clients (kc : Client) (realm id : string)
    (currentByClient : gmap string clientMapping) (desired : list (string * list string))
    (changed : bool) : M St (bool * option GoError) :=
  match desired with
  | [] => mret (changed, None)
  | (clientID, roles) :: desired' =>
      try_flag changed (resolveClientRoles kc realm clientID roles) (λ desiredRoles,
      try_flag changed (clientUUID kc realm clientID) (λ uuid,
        let current :=
          match currentByClient !! clientID with Some m => cm_mappings m | None => [] end in
        and_then (diff_flag changed (applyRoleDiff desiredRoles current
          (AddGroupClientRoles kc realm id uuid) (RemoveGroupClientRoles kc realm id uuid)))
          (λ changed, enforce_clients kc realm id currentByClient desired' changed)))
  end.

Definition group_client_roles (kc : Client) (realm id : string)
    (roles : option (gmap string (list string))) (mappings : rep) (changed : bool)
    : M St (bool * option GoError) :=
  entries ← range (default ∅ (field_map mappings "clientMappings"));
  let currentByClient := by_client entries in
  match roles with
  | None => mret (changed, None)
  | Some desired =>
      cs ← range currentByClient;
      and_then (prune_clients kc realm id desired cs changed) (λ changed,
        ds ← range desired;
        enforce_clients kc realm id currentByClient ds changed)
  end.

Definition GroupDriver_mappings (kc : Client) obj (remote : rep) : M St (bool * option GoError) :=
  let spec := GetSpec obj in
  let realm := TargetRealm spec in
  let id := field_or_empty remote "id" in
  if String.eqb id "" then mret (false, Some no_id_error)
  else
    try_flag false (GetGroupRoleMappings kc realm id) (λ mappings,
      let currentRealm := objects_of (field_list mappings "realmMappings") in
      and_then (group_realm_roles kc realm id (GroupTypes.RealmRoles spec) currentRealm false)
        (λ changed,
           group_client_roles kc realm id (GroupTypes.ClientRoles spec) mappings changed)).

Definition GroupDriver_PostApply (kc : Client) obj (remote : rep)
    : M St (ManagedObject GroupTypes.GroupSpec * (bool * option GoError)) :=
  same_obj obj (GroupDriver_mappings kc obj remote).
Definition GroupDriver_Protected obj : bool * string := (false, "").

Definition GroupDriver : Driver St GroupTypes.GroupSpec :=
  mkDriver GroupDriver_Get GroupDriver_ID GroupDriver_Create GroupDriver_Update
    GroupDriver_Delete GroupDriver_ManagedMarker GroupDriver_IsManaged GroupDriver_PreparePayload
    GroupDriver_PostApply GroupDriver_Protected GroupDriver_OperatorFields.
End GroupDriver.
