(* ===== verification/DriverLaws.v ===== *)
(** * The contract of a driver

    [DriverLaws] is what the engine relies on: the reads of a driver change nothing, its
    writes stay inside the target realm and the object's namespace, the creation of a realm
    is for the kind that manages realms and carries the name of the target, only [Delete] can
    panic, the marker changes the attributes and [PreparePayload] the injected fields only,
    and [PostApply] keeps the metadata, spec and shared status of the object.  The six drivers
    satisfy it. *)

From Stdlib Require Import ZArith Lia.
From stdpp Require Import base gmap strings list.
From S2P Require Import Prelude Json JsonText GoError LastApplied ApiTypes World Sim Logic Url.
From S2P Require Import HttpClient AdminApi DriverHelpers Drivers.

Local Open Scope string_scope.
Local Open Scope list_scope.

(** The actions allowed for an object. *)
Definition obj_act {S} `{Spec S} (c : Client) (obj : ManagedObject S) (writes : bool)
    : Action → Prop :=
  driver_act c (GetNamespace (Meta obj)) (TargetRealm (GetSpec obj)) writes.

(** The kind whose payload is a realm: the field [realm] is part of the representation, and
    not an address that is stripped. *)
Definition realm_kind {St S} (drv : Driver St S) : bool :=
  bool_decide ("realm" ∉ drv_OperatorFields drv).

(** [Create] may create the target realm, if that is what the kind manages. *)
Definition create_act {St S} `{Spec S} (drv : Driver St S) (c : Client) (obj : ManagedObject S)
    (a : Action) : Prop :=
  obj_act c obj true a ∨
  realm_kind drv = true ∧ ∃ r, a = Http r ∧ creates_realm c (TargetRealm (GetSpec obj)) r.

(** The payload carries the name that the spec gives, if the kind manages realms. *)
Definition names_realm {St S} `{Spec S} (drv : Driver St S) (obj : ManagedObject S) (p : rep)
    : Prop :=
  realm_kind drv = true → ∀ v, toJSONMap (GetSpec obj) !! "realm" = Some v → p !! "realm" = Some v.

(** The fields into which the values of Secrets are written. *)
Definition injected_fields : list string := ["smtpServer"; "secret"; "config"].

(** [PostApply] may change what is left of the object: the exported Secret's name. *)
Definition same_core {S} (obj obj' : ManagedObject S) : Prop :=
  Kind obj' = Kind obj ∧ Meta obj' = Meta obj ∧ GetSpec obj' = GetSpec obj ∧
  Status obj' = Status obj.

Class DriverLaws {St S : Type} `{Env St, Spec S} (drv : Driver St S) := {
  get_reads (c : Client) (obj : ManagedObject S) : safe (obj_act c obj false) (drv_Get drv c obj);
  prepare_reads (c : Client) (obj : ManagedObject S) (p : rep) :
    safe (obj_act c obj false) (drv_PreparePayload drv c obj p);
  create_scoped (c : Client) (obj : ManagedObject S) (p : rep) :
    names_realm drv obj p → safe (create_act drv c obj) (drv_Create drv c obj p);
  update_scoped (c : Client) (obj : ManagedObject S) (id : string) (p : rep) :
    safe (obj_act c obj true) (drv_Update drv c obj id p);
  delete_scoped (c : Client) (obj : ManagedObject S) :
    emits (obj_act c obj true) (drv_Delete drv c obj);
  post_scoped (c : Client) (obj : ManagedObject S) (r : rep) :
    safe (obj_act c obj true) (drv_PostApply drv c obj r);
  post_same_core (c : Client) (obj obj' : ManagedObject S) (r : rep) (w : World St)
      (o : bool * option GoError) :
    (drv_PostApply drv c obj r w).1 = Some (obj', o) → same_core obj obj';
  (** The marker changes nothing but the attributes, and those by their own value only. *)
  marker_frame (p : rep) (k : string) : k ≠ "attributes" → drv_ManagedMarker drv p !! k = p !! k;
  marker_mono (p p' : rep) :
    p ⊆ p' → attributes p = attributes p' → drv_ManagedMarker drv p ⊆ drv_ManagedMarker drv p';
  (** [PreparePayload] changes nothing but the injected fields, and those by their own value
      and that of the Secrets only. *)
  prepare_frame (c : Client) (obj : ManagedObject S) (p q : rep) (w w' : World St) (k : string) :
    drv_PreparePayload drv c obj p w = (Some (inr q), w') → k ∉ injected_fields → q !! k = p !! k;
  prepare_mono (c : Client) (obj : ManagedObject S) (p p' q' : rep) (w w' : World St) :
    drv_PreparePayload drv c obj p' w = (Some (inr q'), w') →
    p ⊆ p' → (∀ k, k ∈ injected_fields → default ∅ (field_map p k) = default ∅ (field_map p' k)) →
    ∃ q, drv_PreparePayload drv c obj p w = (Some (inr q), w') ∧ q ⊆ q';
}.

Section Helpers.
Context {St : Type} `{EnvLaws St, KubeLib}.

Lemma safe_try_flag {A} (P : Action → Prop) (b : bool) (m : M St (GoError + A))
    (f : A → M St (bool * option GoError)) :
  safe P m → (∀ a, safe P (f a)) → safe P (try_flag b m f).
Proof. intros Hm Hf. apply safe_bind; [done|]. intros [e|a]; [apply safe_ret|done]. Qed.

Lemma safe_and_then (P : Action → Prop) (m : M St (bool * option GoError))
    (f : bool → M St (bool * option GoError)) :
  safe P m → (∀ a, safe P (f a)) → safe P (and_then m f).
Proof. intros Hm Hf. apply safe_bind; [done|]. intros [b [e|]]; [apply safe_ret|done]. Qed.
End Helpers.

(** Decomposes the programs of Drivers.v. *)
Ltac drv_step :=
  match goal with
  | |- safe _ (try_flag _ _ _) => apply safe_try_flag; [|intros]
  | |- safe _ (and_then _ _) => apply safe_and_then; [|intros]
  | _ => safe_step
  | _ => emits_step
  end.
Ltac drv_solve := repeat drv_step.

Section SharedParts.
Context {St : Type} `{EnvLaws St, KubeLib}.
Variables (c : Client) (ns realm : string).
Local Abbreviation act b := (driver_act c ns realm b).

Lemma FindClientScope_safe (b : bool) (name : string) :
  safe (act b) (FindClientScope (St := St) c realm name).
Proof. unfold FindClientScope, ListClientScopes. drv_solve. Qed.

Lemma FindGroup_safe (b : bool) (name : string) :
  safe (act b) (FindGroup (St := St) c realm name).
Proof. unfold FindGroup, GetGroup. drv_solve. Qed.

Lemma must_string_emits (P : Action → Prop) (o : option string) :
  emits P (must_string (St := St) o).
Proof. unfold must_string. drv_solve. Qed.

Lemma role_diff_safe (P : Action → Prop) (d e : list rep) : safe P (role_diff (St := St) d e).
Proof. unfold role_diff, range. drv_solve. Qed.

Lemma when_some_safe (P : Action → Prop) (l : list rep) (f : list rep → M St (GoError + ())) :
  (∀ l, safe P (f l)) → safe P (when_some l f).
Proof. intros Hf. unfold when_some. drv_solve. Qed.

Lemma applyRoleDiff_safe (P : Action → Prop) (d e : list rep)
    (add remove : list rep → M St (GoError + ())) :
  (∀ l, safe P (add l)) → (∀ l, safe P (remove l)) → safe P (applyRoleDiff d e add remove).
Proof.
  intros Ha Hr. unfold applyRoleDiff. drv_solve;
    auto using role_diff_safe, when_some_safe.
Qed.

Lemma clientUUID_safe (b : bool) (clientID : string) :
  safe (act b) (clientUUID (St := St) c realm clientID).
Proof. unfold clientUUID, wrap_err. drv_solve. Qed.

Lemma resolve_clients_safe (b : bool) (l : list (string * list string)) (d : list rep) :
  safe (act b) (resolve_clients (St := St) c realm l d).
Proof. revert d. induction l as [|[x rs] l IH]; intros d; simpl; drv_solve; auto. Qed.

Lemma upsert_mappers_safe (alias : string) (m : gmap string rep)
    (l : list (string * IdentityProviderMapper)) (b : bool) :
  safe (act true) (upsert_mappers (St := St) c realm alias m l b).
Proof.
  revert b. induction l as [|[x mp] l IH]; intros b; simpl;
    unfold UpdateIdentityProviderMapper, CreateIdentityProviderMapper; drv_solve; auto.
Qed.

Lemma prune_mappers_safe (alias : string) (m : gmap string IdentityProviderMapper)
    (l : list (string * rep)) (b : bool) :
  safe (act true) (prune_mappers (St := St) c realm alias m l b).
Proof.
  revert b. induction l as [|[x r] l IH]; intros b; simpl; unfold DeleteIdentityProviderMapper;
    drv_solve; auto.
Qed.

Lemma prune_clients_safe (id : string) (m : gmap string (list string))
    (l : list (string * clientMapping)) (b : bool) :
  safe (act true) (prune_clients (St := St) c realm id m l b).
Proof.
  revert b. induction l as [|[x cm] l IH]; intros b; simpl; unfold RemoveGroupClientRoles;
    drv_solve; auto.
Qed.

Lemma diff_flag_safe (P : Action → Prop) (b : bool) (m : M St ((bool * bool) * option GoError)) :
  safe P m → safe P (diff_flag b m).
Proof. intros. unfold diff_flag. drv_solve. Qed.

Lemma enforce_clients_safe (id : string) (m : gmap string clientMapping)
    (l : list (string * list string)) (b : bool) :
  safe (act true) (enforce_clients (St := St) c realm id m l b).
Proof.
  revert b. induction l as [|[x rs] l IH]; intros b; simpl; drv_solve; auto using clientUUID_safe.
  apply diff_flag_safe, applyRoleDiff_safe; intros;
    unfold AddGroupClientRoles, RemoveGroupClientRoles; auto with operator.
Qed.

Lemma group_realm_roles_safe (id : string) (roles : option (list string)) (l : list rep)
    (b : bool) :
  safe (act true) (group_realm_roles (St := St) c realm id roles l b).
Proof.
  unfold group_realm_roles. drv_solve.
  apply diff_flag_safe, applyRoleDiff_safe; intros;
    unfold AddGroupRealmRoles, RemoveGroupRealmRoles; auto with operator.
Qed.

Lemma group_client_roles_safe (id : string) (roles : option (gmap string (list string)))
    (m : rep) (b : bool) :
  safe (act true) (group_client_roles (St := St) c realm id roles m b).
Proof.
  unfold group_client_roles, range. drv_solve; auto using prune_clients_safe, enforce_clients_safe.
Qed.
End SharedParts.

#[export] Hint Resolve FindClientScope_safe FindGroup_safe must_string_emits role_diff_safe
  resolve_clients_safe upsert_mappers_safe prune_mappers_safe group_realm_roles_safe
  group_client_roles_safe : operator.

(** ** The six drivers *)

Lemma same_core_refl {S} (obj : ManagedObject S) : same_core obj obj.
Proof. done. Qed.

Section Instances.
Context {St : Type} `{EnvLaws St, KubeLib, !KubeLibLaws}.

Lemma same_obj_safe {S} (P : Action → Prop) (obj : ManagedObject S)
    (m : M St (bool * option GoError)) :
  safe P m → safe P (same_obj obj m).
Proof. intros. unfold same_obj. drv_solve. Qed.

Lemma same_obj_result {S} (obj obj' : ManagedObject S) (m : M St (bool * option GoError))
    (w : World St) (o : bool * option GoError) :
  (same_obj obj m w).1 = Some (obj', o) → obj' = obj.
Proof. unfold same_obj, mbind, M_bind. destruct (m w) as [[r|] w']; simpl; naive_solver. Qed.

Lemma stamp_string_mono (k v : string) (p p' : rep) :
  p ⊆ p' → attributes p = attributes p' → stampStringAttribute p k v ⊆ stampStringAttribute p' k v.
Proof. intros Hp Ha. unfold stampStringAttribute. rewrite Ha. by apply insert_mono. Qed.

Lemma stamp_slice_mono (k v : string) (p p' : rep) :
  p ⊆ p' → attributes p = attributes p' → stampSliceAttribute p k v ⊆ stampSliceAttribute p' k v.
Proof. intros Hp Ha. unfold stampSliceAttribute. rewrite Ha. by apply insert_mono. Qed.

(** What is written into a payload, by a marker or from a Secret. *)
Lemma stamp_string_frame (k v : string) (p : rep) (f : string) :
  f ≠ "attributes" → stampStringAttribute p k v !! f = p !! f.
Proof. intros. by apply lookup_insert_ne. Qed.

Lemma stamp_slice_frame (k v : string) (p : rep) (f : string) :
  f ≠ "attributes" → stampSliceAttribute p k v !! f = p !! f.
Proof. intros. by apply lookup_insert_ne. Qed.

Lemma inject_frame (k : string) (values : gmap string string) (p : rep) (f : string) :
  k ∈ injected_fields → f ∉ injected_fields → inject_values p k values !! f = p !! f.
Proof. intros Hk Hf. apply lookup_insert_ne. by intros ->. Qed.

Lemma inject_mono (k : string) (values : gmap string string) (p p' : rep) :
  p ⊆ p' → default ∅ (field_map p k) = default ∅ (field_map p' k) →
  inject_values p k values ⊆ inject_values p' k values.
Proof. intros Hp Hk. unfold inject_values. rewrite Hk. by apply insert_mono. Qed.

(** A preparation that reads [m] and then writes [f], or fails. *)
Lemma try_run {A} (m : M St (GoError + A)) (f : A → rep) (w w' : World St) (q : rep) :
  (try a ← m; mret (inr (f a))) w = (Some (inr q), w') → ∃ a, m w = (Some (inr a), w') ∧ q = f a.
Proof.
  unfold try_bind, mbind, M_bind. destruct (m w) as [[[e|a]|] w1]; [done| |done].
  intros [= <- <-]. by exists a.
Qed.

Lemma create_in_realm {S A} `{Spec S} (drv : Driver St S) (c : Client) (obj : ManagedObject S)
    (m : M St A) :
  safe (obj_act c obj true) m → safe (create_act drv c obj) m.
Proof. intros Hm. eapply safe_mono; [exact Hm|]. by left. Qed.

(** A computation that only returns. *)
Ltac returned :=
  repeat match goal with Hr : mret _ _ = (Some _, _) |- _ => injection Hr as ? ? end; by subst.

Lemma prepare_values_frame (m : M St (GoError + gmap string string)) (k f : string) (p q : rep)
    (w w' : World St) :
  (try values ← m; mret (inr (inject_values p k values))) w = (Some (inr q), w') →
  k ∈ injected_fields → f ∉ injected_fields → q !! f = p !! f.
Proof.
  intros (v & _ & ->)%(try_run _ (λ v, inject_values p k v)) Hk Hf. by apply inject_frame.
Qed.

(** Two preparations from one world read the same values. *)
Lemma ret_mono (p p' q' : rep) (w w' : World St) :
  mret (M := M St) (inr (A := GoError) p') w = (Some (inr q'), w') → p ⊆ p' →
  ∃ q, mret (M := M St) (inr (A := GoError) p) w = (Some (inr q), w') ∧ q ⊆ q'.
Proof. intros [= <- <-] Hp. by exists p. Qed.

Lemma try_mono {A} (m : M St (GoError + A)) (f g : A → rep) (w w' : World St) (q' : rep) :
  (try a ← m; mret (inr (g a))) w = (Some (inr q'), w') → (∀ a, f a ⊆ g a) →
  ∃ q, (try a ← m; mret (inr (f a))) w = (Some (inr q), w') ∧ q ⊆ q'.
Proof.
  intros (a & Ha & ->)%try_run Hfg. exists (f a). split; [|done].
  unfold try_bind, mbind, M_bind. by rewrite Ha.
Qed.

(** The name in a realm's payload is the target of the spec. *)
Lemma realm_payload_name (spec : RealmTypes.RealmSpec) :
  toJSONMap spec !! "realm" = Some (JStr (TargetRealm spec)).
Proof.
  rewrite toJSONMap_fields. apply obj_lookup; [apply (spec_tags_nodup spec)|].
  simpl. unfold RealmTypes.RealmSpec_fields. set_solver.
Qed.

#[export] Instance RealmDriver_laws : DriverLaws (RealmDriver (St := St)).
Proof.
  split; simpl; unfold obj_act; intros;
    unfold RealmDriver_Get, RealmDriver_PreparePayload, RealmDriver_Create, RealmDriver_Update,
      RealmDriver_Delete, RealmDriver_PostApply, GetRealm, UpdateRealm, DeleteRealm in *.
  - drv_solve.
  - drv_solve.
  - unfold CreateRealm. apply Do_safe; [by left; left| |by left].
    intros t. right. split; [done|]. eexists. split; [done|]. split_and!; [done..|].
    exists p. split; [done|]. match goal with Hn : names_realm _ _ _ |- _ => apply Hn end; [done|].
    apply realm_payload_name.
  - drv_solve.
  - drv_solve.
  - drv_solve.
  - by simplify_eq/=.
  - by apply stamp_string_frame.
  - by apply stamp_string_mono.
  - case_match; [|returned].
    by eapply (prepare_values_frame _ "smtpServer"); [eassumption|set_solver|].
  - case_match; [|by eapply ret_mono]. eapply try_mono; [eassumption|]. intros.
    apply inject_mono; [done|]. match goal with Hf : ∀ k, k ∈ injected_fields → _ |- _ => apply Hf end.
    set_solver.
Qed.

Lemma ClientDriver_scopes_safe (c : Client) (obj : ManagedObject ClientTypes.ClientSpec)
    (id : string) (b : bool) :
  safe (obj_act c obj true) (ClientDriver_scopes (St := St) c obj id b).
Proof. unfold ClientDriver_scopes, enforce_optional, obj_act. drv_solve. Qed.

Lemma ClientDriver_post_core (c : Client) (obj obj' : ManagedObject ClientTypes.ClientSpec)
    (r : rep) (w : World St) (o : bool * option GoError) :
  (ClientDriver_PostApply c obj r w).1 = Some (obj', o) → same_core obj obj'.
Proof.
  unfold ClientDriver_PostApply. cbv zeta. case_match; [by intros; simplify_eq/=|].
  case_match; [|by intros ->%same_obj_result].
  unfold mbind, M_bind. destruct (GetClientSecret _ _ _ w) as [[[e|v]|] w1]; [by intros; simplify_eq/=| |done].
  destruct (ensureOutputSecret _ _ _ _ w1) as [[[b [e|]]|] w2]; [by intros; simplify_eq/=| |done].
  by intros ->%same_obj_result.
Qed.

#[export] Instance ClientDriver_laws : DriverLaws (ClientDriver (St := St)).
Proof.
  split; simpl; unfold obj_act; intros.
  - apply FindClient_safe.
  - unfold ClientDriver_PreparePayload. drv_solve.
  - apply create_in_realm. unfold obj_act. unfold ClientDriver_Create, CreateClient. drv_solve.
  - unfold ClientDriver_Update, UpdateClient. drv_solve.
  - unfold ClientDriver_Delete, DeleteClient. drv_solve.
  - unfold ClientDriver_PostApply, GetClientSecret. drv_solve;
      apply same_obj_safe; try apply ClientDriver_scopes_safe.
    apply (ClientDriver_scopes_safe c (set_SecretName _ obj)).
  - by eapply ClientDriver_post_core.
  - by apply stamp_string_frame.
  - by apply stamp_string_mono.
  - unfold ClientDriver_PreparePayload in *. case_match; [|returned].
    match goal with Hr : try_bind _ _ _ = _ |- _ =>
      apply (try_run _ (λ v, <["secret" := JStr v]> p)) in Hr as (v & _ & ->) end.
    apply lookup_insert_ne. set_solver.
  - unfold ClientDriver_PreparePayload in *. case_match; [|by eapply ret_mono].
    eapply (try_mono _ (λ v, <["secret" := JStr v]> p) (λ v, <["secret" := JStr v]> p'));
      [eassumption|]. intros. by apply insert_mono.
Qed.

#[export] Instance ClientScopeDriver_laws : DriverLaws (ClientScopeDriver (St := St)).
Proof.
  split; simpl; unfold obj_act; intros.
  - apply FindClientScope_safe.
  - unfold ClientScopeDriver_PreparePayload. drv_solve.
  - apply create_in_realm. unfold obj_act. unfold ClientScopeDriver_Create, CreateClientScope. drv_solve.
  - unfold ClientScopeDriver_Update, UpdateClientScope. drv_solve.
  - unfold ClientScopeDriver_Delete, DeleteClientScope. drv_solve.
  - unfold ClientScopeDriver_PostApply. drv_solve.
  - unfold ClientScopeDriver_PostApply in *. by simplify_eq/=.
  - by apply stamp_string_frame.
  - by apply stamp_string_mono.
  - unfold ClientScopeDriver_PreparePayload in *. returned.
  - unfold ClientScopeDriver_PreparePayload in *. by eapply ret_mono.
Qed.

#[export] Instance RealmRoleDriver_laws : DriverLaws (RealmRoleDriver (St := St)).
Proof.
  split; simpl; unfold obj_act; intros.
  - unfold RealmRoleDriver_Get, GetRole. drv_solve.
  - unfold RealmRoleDriver_PreparePayload. drv_solve.
  - apply create_in_realm. unfold obj_act. unfold RealmRoleDriver_Create, CreateRole. drv_solve.
  - unfold RealmRoleDriver_Update, UpdateRole. drv_solve.
  - unfold RealmRoleDriver_Delete, DeleteRole. drv_solve.
  - apply same_obj_safe. unfold RealmRoleDriver_composites, GetRoleComposites, desired_composites, range.
    drv_solve; apply when_some_safe; intros;
      unfold AddRoleComposites, RemoveRoleComposites; auto with operator.
  - match goal with Hp : _ = Some _ |- _ => apply same_obj_result in Hp as -> end. done.
  - by apply stamp_slice_frame.
  - by apply stamp_slice_mono.
  - unfold RealmRoleDriver_PreparePayload in *. returned.
  - unfold RealmRoleDriver_PreparePayload in *. by eapply ret_mono.
Qed.

#[export] Instance IdentityProviderDriver_laws : DriverLaws (IdentityProviderDriver (St := St)).
Proof.
  split; simpl; unfold obj_act; intros.
  - unfold IdentityProviderDriver_Get, GetIdentityProvider. drv_solve.
  - unfold IdentityProviderDriver_PreparePayload. drv_solve.
  - apply create_in_realm. unfold obj_act. unfold IdentityProviderDriver_Create, CreateIdentityProvider. drv_solve.
  - unfold IdentityProviderDriver_Update, UpdateIdentityProvider. drv_solve.
  - unfold IdentityProviderDriver_Delete, DeleteIdentityProvider. drv_solve.
  - apply same_obj_safe. unfold IdentityProviderDriver_mappers, ListIdentityProviderMappers, range.
    drv_solve.
  - match goal with Hp : _ = Some _ |- _ => apply same_obj_result in Hp as -> end. done.
  - done.
  - done.
  - unfold IdentityProviderDriver_PreparePayload in *. case_match; [|returned].
    by eapply (prepare_values_frame _ "config"); [eassumption|set_solver|].
  - unfold IdentityProviderDriver_PreparePayload in *. case_match; [|by eapply ret_mono].
    eapply try_mono; [eassumption|]. intros.
    apply inject_mono; [done|]. match goal with Hf : ∀ k, k ∈ injected_fields → _ |- _ => apply Hf end.
    set_solver.
Qed.

#[export] Instance GroupDriver_laws : DriverLaws (GroupDriver (St := St)).
Proof.
  split; simpl; unfold obj_act; intros.
  - apply FindGroup_safe.
  - unfold GroupDriver_PreparePayload. drv_solve.
  - apply create_in_realm. unfold obj_act. unfold GroupDriver_Create, CreateGroup. drv_solve.
  - unfold GroupDriver_Update, UpdateGroup. drv_solve.
  - unfold GroupDriver_Delete, DeleteGroup. drv_solve.
  - apply same_obj_safe. unfold GroupDriver_mappings, GetGroupRoleMappings. drv_solve.
  - match goal with Hp : _ = Some _ |- _ => apply same_obj_result in Hp as -> end. done.
  - by apply stamp_slice_frame.
  - by apply stamp_slice_mono.
  - unfold GroupDriver_PreparePayload in *. returned.
  - unfold GroupDriver_PreparePayload in *. by eapply ret_mono.
Qed.
End Instances.

(** ** Role differences *)

(** The ids of a list of representations. *)
Definition ids_of (k : string) (l : list rep) : list string := omap (λ r, field_string r k) l.

Lemma index_by_gen (k : string) (l : list rep) (m : gmap string rep) (id : string) (r : rep) :
  foldl (λ m r, match field_string r k with Some id => <[id := r]> m | None => m end) m l !! id
    = Some r →
  m !! id = Some r ∨ r ∈ l ∧ field_string r k = Some id.
Proof.
  revert m. induction l as [|x l IH]; intros m Hl; simpl in *; [by left|].
  apply IH in Hl as [Hl|[Hin Hf]]; [|right; split; [by right|done]].
  destruct (field_string x k) as [i|] eqn:Hx; [|by left].
  apply lookup_insert_Some in Hl as [[-> ->]|[_ Hl]]; [right; split; [by left|done]|by left].
Qed.

Lemma index_by_dom (k : string) (l : list rep) (m : gmap string rep) (id : string) :
  foldl (λ m r, match field_string r k with Some id => <[id := r]> m | None => m end) m l !! id
    = None ↔ m !! id = None ∧ id ∉ ids_of k l.
Proof.
  revert m. induction l as [|x l IH]; intros m; simpl; [set_solver|]. rewrite IH.
  unfold ids_of at 2. simpl. destruct (field_string x k) as [i|]; simpl; [|done].
  rewrite lookup_insert_None. fold (ids_of k l). set_solver.
Qed.

Lemma index_by_Some (k : string) (l : list rep) (id : string) (r : rep) :
  index_by k l !! id = Some r → r ∈ l ∧ field_string r k = Some id.
Proof. intros [Hl|?]%index_by_gen; [by rewrite lookup_empty in Hl|done]. Qed.

Lemma index_by_None (k : string) (l : list rep) (id : string) :
  index_by k l !! id = None ↔ id ∉ ids_of k l.
Proof. unfold index_by. rewrite index_by_dom, lookup_empty. naive_solver. Qed.

(** [d] is a selection of [l] by id: one representation for each id of [l] that is not an
    id of [other]. *)
Definition selects (l other d : list rep) : Prop :=
  NoDup (ids_of "id" d) ∧ (∀ r, r ∈ d → r ∈ l ∧ is_Some (field_string r "id")) ∧
  ∀ id, id ∈ ids_of "id" d ↔ id ∈ ids_of "id" l ∧ id ∉ ids_of "id" other.

Lemma ids_of_indexed (l : list rep) (es : list (string * rep)) :
  (∀ e, e ∈ es → index_by "id" l !! e.1 = Some e.2) → ids_of "id" (es.*2) = es.*1.
Proof.
  induction es as [|[i r] es IH]; intros Hes; [done|]. simpl.
  assert (field_string r "id" = Some i) as Hr.
  { by destruct (index_by_Some "id" l i r (Hes (i, r) (list_elem_of_here _ _))). }
  unfold ids_of in *. simpl. rewrite Hr. f_equal. apply IH. intros e He. apply Hes. by right.
Qed.

Lemma reps_missing_selects (l other : list rep) (es : list (string * rep)) :
  es ≡ₚ map_to_list (index_by "id" l) →
  selects l other (reps_missing (index_by "id" other) es).
Proof.
  intros Hp. set (es' := filter (λ e, index_by "id" other !! e.1 = None) es).
  assert (∀ e, e ∈ es' ↔ index_by "id" l !! e.1 = Some e.2 ∧ e.1 ∉ ids_of "id" other) as Hes.
  { intros [i r]. unfold es'. rewrite list_elem_of_filter, Hp, elem_of_map_to_list, index_by_None.
    simpl. tauto. }
  assert (ids_of "id" (es'.*2) = es'.*1) as Hids.
  { apply (ids_of_indexed l). intros e He. by apply Hes in He as [? _]. }
  unfold reps_missing. fold es'. unfold selects. rewrite Hids. split_and!.
  - unfold es'. assert (NoDup es.*1) as HN by (rewrite Hp; apply NoDup_fst_map_to_list).
    by eapply sublist_NoDup; [exact HN|apply fmap_sublist, sublist_filter].
  - intros r ([i r'] & -> & [Hl _]%Hes)%list_elem_of_fmap. simpl in *.
    apply index_by_Some in Hl as [? ->]. done.
  - intros i. rewrite list_elem_of_fmap. split.
    + intros ([i' r] & -> & [Hl Ho]%Hes). simpl in *. split; [|done].
      apply dec_stable. intros Hn%index_by_None. by rewrite Hl in Hn.
    + intros [Hi Ho]. destruct (index_by "id" l !! i) as [r|] eqn:Hl;
        [|by apply index_by_None in Hl]. exists (i, r). split; [done|]. by apply Hes.
Qed.

(** The call for a list of roles: none for the empty list. *)
Definition role_call (method path : string) (l : list rep) : list call :=
  match l with [] => [] | _ => [(method, path, Some (reps_json l))] end.

Section RoleSpecs.
Context {St : Type} `{EnvLaws St}.

Lemma role_diff_wp (desired current : list rep) (w : World St) :
  wp (role_diff desired current) (λ o _ l, l = [] ∧
    ∃ toAdd toRemove, o = Some (toAdd, toRemove) ∧ selects desired current toAdd ∧
      selects current desired toRemove) w.
Proof.
  unfold role_diff. apply wp_bind, wp_range. intros ds s1 Hds. simpl.
  apply wp_bind, wp_range. intros cs s2 Hcs. simpl. apply wp_ret. split; [done|].
  do 2 eexists. split; [done|]. by split; apply reps_missing_selects.
Qed.

Lemma when_some_wp (kc : Client) (method path : string) (roles : list rep) (w : World St) :
  wp (when_some roles (λ l, Do kc method path (Some (reps_json l)) out_nil)) (λ o _ l,
    ∃ r, o = Some r ∧ (r = inr () → performed kc (role_call method path roles) (requests l))) w.
Proof.
  destruct roles as [|x roles]; simpl.
  - apply wp_ret. eexists. split; [done|]. intros _. apply performed_nil.
  - eapply wp_mono; [apply Do_wp|]. simpl. intros o w' l (_ & r & -> & Hd). eexists.
    split; [done|]. intros ->. rewrite <- (app_nil_r (requests l)).
    apply performed_cons; [done|apply performed_nil].
Qed.

Definition diff_post (kc : Client) (path : string) (desired current : list rep) (changed : bool)
    (rs : list HttpRequest) : Prop :=
  ∃ toAdd toRemove, selects desired current toAdd ∧ selects current desired toRemove ∧
    performed kc (role_call "POST" path toAdd ++ role_call "DELETE" path toRemove) rs ∧
    (changed = true ↔ toAdd ≠ [] ∨ toRemove ≠ []).

Lemma applyRoleDiff_wp (kc : Client) (path : string) (desired current : list rep) (w : World St) :
  wp (applyRoleDiff desired current
        (λ l, Do kc "POST" path (Some (reps_json l)) out_nil)
        (λ l, Do kc "DELETE" path (Some (reps_json l)) out_nil)) (λ o _ l,
    ∃ added removed err, o = Some ((added, removed), err) ∧
      (err = None → added = removed ∧ diff_post kc path desired current added (requests l))) w.
Proof.
  unfold applyRoleDiff. apply wp_bind. eapply wp_mono; [apply role_diff_wp|].
  intros o w1 l1 (-> & toAdd & toRemove & -> & Ha & Hr). simpl.
  assert (∀ w, toAdd ≠ [] ∨ toRemove ≠ [] →
    wp (r ← when_some toAdd (λ l, Do kc "POST" path (Some (reps_json l)) out_nil);
        match r with
        | inl err => mret ((false, false), Some err)
        | inr _ =>
            r ← when_some toRemove (λ l, Do kc "DELETE" path (Some (reps_json l)) out_nil);
            match r with
            | inl err => mret ((true, false), Some err)
            | inr _ => mret ((true, true), None)
            end
        end) (λ o _ l, ∃ added removed err, o = Some ((added, removed), err) ∧
          (err = None → added = removed ∧ diff_post kc path desired current added (requests l))) w)
    as Hcalls.
  { intros w2 Hne. apply wp_bind. eapply wp_mono; [apply when_some_wp|].
    intros o w3 l3 ([e|[]] & -> & H3); simpl; [apply wp_ret; by do 3 eexists|].
    apply wp_bind. eapply wp_mono; [apply when_some_wp|].
    intros o w4 l4 ([e|[]] & -> & H4); simpl; apply wp_ret; (do 3 eexists; split; [done|]); [done|].
    intros _. split; [done|]. exists toAdd, toRemove. rewrite app_nil_r, requests_app.
    split; [done|]. split; [done|]. split; [by apply performed_app; [apply H3|apply H4]|done]. }
  destruct toAdd as [|x xs], toRemove as [|y ys]; [|apply Hcalls; first [by left|by right]..].
  apply wp_ret. do 3 eexists. split; [done|]. intros _. split; [done|].
  exists [], []. split; [done|]. split; [done|]. split; [apply performed_nil|].
  split; [done|]. by intros [?|?].
Qed.
End RoleSpecs.

(** ** Theorems *)

(** C35.  The six drivers keep the contract the engine relies on: [Get] and [PreparePayload]
    send no request but GET and write no Secret; every request goes to the connection's server
    and stays inside the target realm, except that the realm driver creates the realm whose
    name the payload carries; Secrets are read and written in the object's namespace only;
    nothing but [Delete] can panic; [PostApply] keeps metadata, spec and shared status; the
    marker changes the attributes only, [PreparePayload] the fields that Secrets are injected
    into only, and both by the value of those fields alone. *)
Theorem drivers_keep_contract {St} `{EnvLaws St, KubeLib, !KubeLibLaws} :
  DriverLaws (RealmDriver (St := St)) ∧ DriverLaws (ClientDriver (St := St)) ∧
  DriverLaws (ClientScopeDriver (St := St)) ∧ DriverLaws (RealmRoleDriver (St := St)) ∧
  DriverLaws (IdentityProviderDriver (St := St)) ∧ DriverLaws (GroupDriver (St := St)).
Proof. split_and!; apply _. Qed.

Lemma drivers_keep_contract_witness :
  DriverLaws (RealmDriver (St := Sim)) ∧ DriverLaws (ClientDriver (St := Sim)) ∧
  DriverLaws (ClientScopeDriver (St := Sim)) ∧ DriverLaws (RealmRoleDriver (St := Sim)) ∧
  DriverLaws (IdentityProviderDriver (St := Sim)) ∧ DriverLaws (GroupDriver (St := Sim)).
Proof. exact drivers_keep_contract. Defined.

(** Role differences are applied exactly.  When [applyRoleDiff] succeeds, the roles
    it added are one representation for each desired id that was not current, those it
    removed one for each current id that is not desired; it sent one POST with the former
    and one DELETE with the latter, each only when there are any and both answered with
    success; and it reports a change exactly when there was one. *)
Lemma role_diff_exact {St} `{EnvLaws St} (kc : Client) (path : string)
    (desired current : list rep) (w : World St) :
  ∃ added removed err w' l,
    applyRoleDiff desired current
      (λ l, Do kc "POST" path (Some (reps_json l)) out_nil)
      (λ l, Do kc "DELETE" path (Some (reps_json l)) out_nil) w
      = (Some ((added, removed), err), w') ∧
    trace w' = trace w ++ l ∧
    (err = None → added = removed ∧ diff_post kc path desired current added (requests l)).
Proof.
  destruct (applyRoleDiff_wp kc path desired current w) as (l & Hl & _ & added & removed & err & Ho & Hp).
  eexists added, removed, err, _, l. split; [by apply run_eq|done].
Qed.

Lemma role_diff_exact_witness :
  let kc := mkClient (mkConfig "team/kc" "https://kc.example" "master" "password" "a" "b" "" "" false) 0 in
  let role (i : string) : rep := {["id" := JStr i]} in
  let w := sim_world [ok_token; status 204; status 204] in
  ∃ added removed err w' l,
    applyRoleDiff [role "a"; role "b"] [role "b"; role "c"]
      (λ l, Do kc "POST" "/p" (Some (reps_json l)) out_nil)
      (λ l, Do kc "DELETE" "/p" (Some (reps_json l)) out_nil) w
      = (Some ((added, removed), err), w') ∧
    trace w' = [] ++ l ∧
    (err = None → added = removed ∧
       diff_post kc "/p" [role "a"; role "b"] [role "b"; role "c"] added (requests l)).
Proof.
  intros kc role w. exact (role_diff_exact kc "/p" [role "a"; role "b"] [role "b"; role "c"] w).
Defined.
