(* ===== verification/DriverExact.v ===== *)
(** * What the drivers enforce outside the representation

    Identity-provider mappers and the role mappings of groups live at endpoints of their own.
    When their [PostApply] succeeds, the requests that changed something are exactly the
    difference between what the server listed and what the spec asks for. *)

From Stdlib Require Import ZArith Lia.
From stdpp Require Import base gmap strings list.
From S2P Require Import Prelude Json JsonText GoError LastApplied ApiTypes World Sim Logic Url.
From S2P Require Import HttpClient AdminApi DriverHelpers Drivers DriverLaws.

Local Open Scope string_scope.
Local Open Scope list_scope.

Definition nonempty {A} (l : list A) : bool := match l with [] => false | _ => true end.

Lemma nonempty_app {A} (l k : list A) : nonempty (l ++ k) = nonempty l || nonempty k.
Proof. by destruct l. Qed.

(** ** Mappers of identity providers *)

(** A mapper that agrees with the payload on every key the payload manages. *)
Definition mapper_agrees (current payload : rep) : Prop :=
  ∀ k v, payload !! k = Some v → k ≠ "identityProviderAlias" → current !! k = Some v.

Lemma mappersDiffer_agrees (current payload : rep) :
  mappersDiffer current payload = false ↔ mapper_agrees current payload.
Proof.
  assert (mappersDiffer current payload = true ↔ ∃ k v, payload !! k = Some v ∧
    k ≠ "identityProviderAlias" ∧ current !! k ≠ Some v) as Hd.
  { unfold mappersDiffer. rewrite (map_fold_orb (λ k want,
      if String.eqb k "identityProviderAlias" then false
      else match current !! k with None => true | Some got => negb (jsonEqual want got) end)).
    split; intros (k & v & Hk & Hd); exists k, v; (split; [done|]).
    - destruct (String.eqb_spec k "identityProviderAlias") as [|Hne]; [done|]. split; [done|].
      intros E. rewrite E, jsonEqual_eq in Hd. by rewrite bool_decide_eq_true_2 in Hd.
    - destruct Hd as [Hne Hc]. rewrite (proj2 (String.eqb_neq _ _) Hne).
      destruct (current !! k) as [got|]; [|done]. rewrite jsonEqual_eq.
      rewrite bool_decide_eq_false_2; [done|congruence]. }
  split.
  - intros Hf k v Hk Hne. apply dec_stable. intros Hc.
    assert (mappersDiffer current payload = true) as Ht by (apply Hd; eauto). congruence.
  - intros Ha. apply not_true_is_false. intros (k & v & Hk & Hne & Hc)%Hd. by apply Hc, Ha.
Qed.

(** The call for a mapper of the spec, if the server's is not there or differs. *)
Definition upsert_call (realm alias : string) (currentByName : gmap string rep)
    (e : string * IdentityProviderMapper) : option call :=
  let payload := mapper_payload alias e.2 in
  match currentByName !! e.1 ≫= λ r, pair r <$> field_string r "id" with
  | Some (r, id) =>
      if mappersDiffer r payload
      then Some ("PUT", mapper_path realm alias id, Some (JObj payload)) else None
  | None => Some ("POST", mappers_path realm alias, Some (JObj payload))
  end.

(** The call for a mapper of the server, if the spec does not have it. *)
Definition prune_call (realm alias : string) (desiredByName : gmap string IdentityProviderMapper)
    (e : string * rep) : option call :=
  match desiredByName !! e.1, field_string e.2 "id" with
  | None, Some id => Some ("DELETE", mapper_path realm alias id, None)
  | _, _ => None
  end.

(** Nothing is left to do: each mapper of the spec is on the server and agrees with it, and
    the server has no other that could be deleted. *)
Definition mappers_synced (alias : string) (mappers : list IdentityProviderMapper)
    (current : list rep) : Prop :=
  (∀ name m, mappers_by_name mappers !! name = Some m →
     ∃ r, index_by "name" current !! name = Some r ∧ is_Some (field_string r "id") ∧
       mapper_agrees r (mapper_payload alias m)) ∧
  (∀ name r, index_by "name" current !! name = Some r → mappers_by_name mappers !! name = None →
     field_string r "id" = None).

Lemma omap_nil_iff {A B} (f : A → option B) (l : list A) :
  omap f l = [] ↔ ∀ x, x ∈ l → f x = None.
Proof.
  induction l as [|y l IH]; simpl; [set_solver|].
  destruct (f y) eqn:Hy; [split; [done|]; intros Hl; by rewrite Hl in Hy by left|].
  rewrite IH. set_solver.
Qed.

Lemma mappers_synced_calls (realm alias : string) (mappers : list IdentityProviderMapper)
    (current : list rep) (ds : list (string * IdentityProviderMapper)) (cs : list (string * rep)) :
  ds ≡ₚ map_to_list (mappers_by_name mappers) → cs ≡ₚ map_to_list (index_by "name" current) →
  omap (upsert_call realm alias (index_by "name" current)) ds
    ++ omap (prune_call realm alias (mappers_by_name mappers)) cs = []
  ↔ mappers_synced alias mappers current.
Proof.
  intros Hds Hcs. rewrite app_nil, !omap_nil_iff. unfold mappers_synced. f_equiv.
  - split.
    + intros Hu name m Hm. specialize (Hu (name, m)). unfold upsert_call in Hu. simpl in Hu.
      rewrite Hds, elem_of_map_to_list in Hu. specialize (Hu Hm).
      destruct (index_by "name" current !! name) as [r|]; simpl in Hu; [|done].
      destruct (field_string r "id") as [id|] eqn:Hid; simpl in Hu; [|done].
      destruct (mappersDiffer _ _) eqn:Hd; [done|]. apply mappersDiffer_agrees in Hd.
      exists r. split; [done|]. split; [by eexists|done].
    + intros Hu [name m] Hm. rewrite Hds, elem_of_map_to_list in Hm.
      destruct (Hu _ _ Hm) as (r & Hr & [id Hid] & Ha). unfold upsert_call. simpl.
      rewrite Hr. simpl. rewrite Hid. simpl. by rewrite (proj2 (mappersDiffer_agrees _ _) Ha).
  - split.
    + intros Hp name r Hr Hn. specialize (Hp (name, r)). rewrite Hcs, elem_of_map_to_list in Hp.
      specialize (Hp Hr). unfold prune_call in Hp. simpl in Hp. rewrite Hn in Hp.
      by destruct (field_string r "id").
    + intros Hp [name r] Hr. rewrite Hcs, elem_of_map_to_list in Hr. unfold prune_call. simpl.
      destruct (mappers_by_name mappers !! name) eqn:Hn; [done|]. by rewrite (Hp _ _ Hr Hn).
Qed.

Section MapperSpecs.
Context {St : Type} `{EnvLaws St}.

(** A flagged loop: when it succeeds, it performed the calls and reports whether there were
    any. *)
Definition flagged (kc : Client) (calls : list call) (changed : bool)
    (o : option (bool * option GoError)) (l : list Action) : Prop :=
  ∃ b err, o = Some (b, err) ∧
    (err = None → performed kc calls (requests l) ∧ b = changed || nonempty calls).

(** One call of such a loop. *)
Lemma flagged_call (kc : Client) (method path : string) (body : option json) (cs : list call)
    (changed : bool) (f : () → M St (bool * option GoError)) (w : World St) :
  (∀ w', wp (f ()) (λ o _ l, flagged kc cs true o l) w') →
  wp (try_flag changed (Do kc method path body out_nil) f)
    (λ o _ l, flagged kc ((method, path, body) :: cs) changed o l) w.
Proof.
  intros Hf. unfold try_flag. apply wp_bind. eapply wp_mono; [apply Do_wp|].
  intros o w1 l1 (_ & [e|[]] & -> & Hd); simpl; [apply wp_ret; by do 2 eexists|].
  eapply wp_mono; [apply Hf|]. intros ? w2 l2 (b & err & -> & Hp). do 2 eexists.
  split; [done|]. intros ->. destruct (Hp eq_refl) as [Hperf ->].
  rewrite requests_app. split; [by apply performed_cons|]. by rewrite orb_true_r.
Qed.

Lemma flagged_nil (kc : Client) (changed : bool) (w : World St) :
  wp (mret (changed, None)) (λ o _ l, flagged kc [] changed o l) w.
Proof.
  apply wp_ret. do 2 eexists. split; [done|]. intros _. split; [apply performed_nil|].
  by rewrite orb_false_r.
Qed.

Lemma upsert_mappers_wp (kc : Client) (realm alias : string) (current : gmap string rep)
    (ds : list (string * IdentityProviderMapper)) (changed : bool) (w : World St) :
  wp (upsert_mappers kc realm alias current ds changed)
    (λ o _ l, flagged kc (omap (upsert_call realm alias current) ds) changed o l) w.
Proof.
  revert changed w. induction ds as [|[name m] ds IH]; intros changed w; [apply flagged_nil|].
  cbn [upsert_mappers omap list_omap]. unfold upsert_call at 1. cbn [fst snd].
  destruct (current !! name ≫= _) as [[r id]|].
  - destruct (mappersDiffer r _); [by apply flagged_call|apply IH].
  - by apply flagged_call.
Qed.

Lemma prune_mappers_wp (kc : Client) (realm alias : string)
    (desired : gmap string IdentityProviderMapper) (cs : list (string * rep)) (changed : bool)
    (w : World St) :
  wp (prune_mappers kc realm alias desired cs changed)
    (λ o _ l, flagged kc (omap (prune_call realm alias desired) cs) changed o l) w.
Proof.
  revert changed w. induction cs as [|[name r] cs IH]; intros changed w; [apply flagged_nil|].
  cbn [prune_mappers omap list_omap]. unfold prune_call at 1. cbn [fst snd].
  destruct (desired !! name), (field_string r "id"); [apply IH..| |apply IH].
  by apply flagged_call.
Qed.

(** What a successful run did. *)
Definition mappers_post (kc : Client) (realm alias : string)
    (mappers : list IdentityProviderMapper) (changed : bool) (rs : list HttpRequest) : Prop :=
  ∃ current rs0 rest ds cs, rs = rs0 ++ rest ∧
    do_post kc "GET" (mappers_path realm alias) None out_maps rs0 (inr current) ∧
    ds ≡ₚ map_to_list (mappers_by_name mappers) ∧
    cs ≡ₚ map_to_list (index_by "name" current) ∧
    performed kc (omap (upsert_call realm alias (index_by "name" current)) ds
                  ++ omap (prune_call realm alias (mappers_by_name mappers)) cs) rest ∧
    (changed = false ↔ mappers_synced alias mappers current).

Lemma mappers_wp (kc : Client) (obj : ManagedObject IdentityProviderTypes.IdentityProviderSpec)
    (w : World St) :
  wp (IdentityProviderDriver_mappers kc obj) (λ o _ l, ∃ changed err,
    o = Some (changed, err) ∧
    (err = None → mappers_post kc (TargetRealm (GetSpec obj))
       (IdentityProviderTypes.Alias (GetSpec obj)) (IdentityProviderTypes.Mappers (GetSpec obj))
       changed (requests l))) w.
Proof.
  unfold IdentityProviderDriver_mappers, try_flag. cbv zeta. apply wp_bind.
  eapply wp_mono; [apply Do_wp|]. intros o w1 l1 (_ & [e|current] & -> & Hd); simpl.
  { apply wp_ret. by do 2 eexists. }
  apply wp_bind, wp_range. intros ds s1 Hds. simpl.
  set (realm := TargetRealm (GetSpec obj)).
  set (alias := IdentityProviderTypes.Alias (GetSpec obj)).
  unfold and_then. apply wp_bind. eapply wp_mono; [apply upsert_mappers_wp|].
  intros ? w2 l2 (b & err & -> & Hu). simpl.
  destruct err as [e|]; [apply wp_ret; by do 2 eexists|].
  destruct (Hu eq_refl) as [Hup ->]. apply wp_bind, wp_range. intros cs s2 Hcs. simpl.
  eapply wp_mono; [apply prune_mappers_wp|]. intros ? w3 l3 (b & err & -> & Hp).
  do 2 eexists. split; [done|]. intros ->. destruct (Hp eq_refl) as [Hpp ->].
  exists current, (requests l1), (requests l2 ++ requests l3), ds, cs.
  rewrite !requests_app. simpl. split; [done|]. split; [done|]. split; [done|]. split; [done|].
  split; [by apply performed_app|].
  rewrite <- (mappers_synced_calls realm alias _ current ds cs Hds Hcs), <- nonempty_app.
  by destruct (_ ++ _).
Qed.
End MapperSpecs.

(** ** Role mappings of groups *)

(** Requests that change nothing on the server. *)
Definition reads (kc : Client) (rs : list HttpRequest) : Prop :=
  Forall (λ r, r = token_request (cl_cfg kc) ∨ rq_method r = "GET") rs.

(** The representation of a role that the server has given. *)
Definition role_at (kc : Client) (path : string) (x : rep) : Prop :=
  ∃ rs, do_post kc "GET" path None out_map rs (inr x).

(** A client the server has found under an ID. *)
Definition found_client (clientID : string) (x : rep) : Prop :=
  field_is x "clientId" clientID = true.

(** The mappings of a client that the server listed. *)
Definition mapped_roles (currentByClient : gmap string clientMapping) (clientID : string)
    : list rep :=
  match currentByClient !! clientID with Some m => cm_mappings m | None => [] end.

(** The call that takes all roles of a client away which the spec does not list. *)
Definition unlisted_call (realm id : string) (desired : gmap string (list string))
    (e : string * clientMapping) : option call :=
  match desired !! e.1, cm_mappings e.2 with
  | None, _ :: _ =>
      Some ("DELETE", client_mappings_path realm id (cm_uuid e.2),
            Some (reps_json (cm_mappings e.2)))
  | _, _ => None
  end.

(** The listed clients, one after the other: reads that resolve the client and its roles,
    then the difference between these and what is mapped. *)
Inductive clients_enforced (kc : Client) (realm id : string)
    (currentByClient : gmap string clientMapping)
    : list (string * list string) → bool → list HttpRequest → Prop :=
  | clients_none : clients_enforced kc realm id currentByClient [] false []
  | clients_next (clientID : string) (names : list string) (ds : list (string * list string))
      (x y : rep) (roles : list rep) (b b' : bool) (gets rs rest : list HttpRequest) :
      reads kc gets → found_client clientID x → found_client clientID y →
      Forall2 (λ name, role_at kc (client_role_path realm (field_or_empty x "id") name)) names roles →
      diff_post kc (client_mappings_path realm id (field_or_empty y "id")) roles
        (mapped_roles currentByClient clientID) b rs →
      clients_enforced kc realm id currentByClient ds b' rest →
      clients_enforced kc realm id currentByClient ((clientID, names) :: ds) (b || b')
        (gets ++ rs ++ rest).

(** The realm roles: untouched unless the spec has a list. *)
Definition realm_roles_enforced (kc : Client) (realm id : string) (names : option (list string))
    (current : list rep) (b : bool) (rs : list HttpRequest) : Prop :=
  match names with
  | None => b = false ∧ rs = []
  | Some names => ∃ gets rest roles, rs = gets ++ rest ∧ reads kc gets ∧
      Forall2 (λ name, role_at kc (role_path realm name)) names roles ∧
      diff_post kc (realm_mappings_path realm id) roles current b rest
  end.

(** The client roles, likewise. *)
Definition client_roles_enforced (kc : Client) (realm id : string)
    (desired : option (gmap string (list string))) (mappings : rep) (b : bool)
    (rs : list HttpRequest) : Prop :=
  match desired with
  | None => b = false ∧ rs = []
  | Some desired => ∃ entries cs ds b' rs1 rs2,
      let current := by_client entries in
      let calls := omap (unlisted_call realm id desired) cs in
      entries ≡ₚ map_to_list (default ∅ (field_map mappings "clientMappings")) ∧
      cs ≡ₚ map_to_list current ∧ ds ≡ₚ map_to_list desired ∧ rs = rs1 ++ rs2 ∧
      performed kc calls rs1 ∧ clients_enforced kc realm id current ds b' rs2 ∧
      b = nonempty calls || b'
  end.

Section GroupSpecs.
Context {St : Type} `{EnvLaws St}.

Lemma safe_reads {A} (kc : Client) (ns realm : string) (m : M St A) (w : World St) :
  safe (driver_act kc ns realm false) m → wp m (λ _ _ l, reads kc (requests l)) w.
Proof.
  intros Hm. eapply wp_mono; [apply Hm|]. simpl. intros _ _ l [_ Hl].
  unfold reads. induction Hl as [|a l Ha _ IH]; [constructor|].
  destruct a; simpl in *; try done. constructor; [|done]. naive_solver.
Qed.

Lemma role_at_wp (kc : Client) (path : string) (w : World St) :
  wp (Do kc "GET" path None out_map) (λ o _ _, ∃ r, o = Some r ∧ ∀ x, r = inr x → role_at kc path x) w.
Proof.
  eapply wp_mono; [apply Do_wp|]. intros o w' l (_ & r & -> & Hd). exists r. split; [done|].
  intros x ->. by eexists.
Qed.

Lemma resolveRealmRoles_wp (kc : Client) (realm : string) (names : list string) (w : World St) :
  wp (resolveRealmRoles kc realm names) (λ o _ l, reads kc (requests l) ∧ ∃ r, o = Some r ∧
    ∀ d, r = inr d → Forall2 (λ name, role_at kc (role_path realm name)) names d) w.
Proof.
  apply wp_and; [apply (safe_reads kc "" realm), resolveRealmRoles_safe|].
  eapply wp_mono; [apply (resolve_each_wp _ _ (λ name, role_at kc (role_path realm name)));
    intros; apply role_at_wp|].
  intros o w' l (r & -> & Hr). exists r. split; [done|]. intros d ->.
  destruct (Hr d eq_refl) as (rs & -> & Hf). done.
Qed.

Lemma FindClient_found (kc : Client) (realm clientID : string) (w : World St) :
  wp (FindClient kc realm clientID) (λ o _ _, ∃ r, o = Some r ∧
    ∀ x, r = inr x → found_client clientID x) w.
Proof.
  unfold FindClient. wp_do; [by eexists|].
  destruct (list_find _ a) as [[i x]|] eqn:Hf; apply wp_ret; eexists; (split; [done|]); [|done].
  intros ? [= <-]. by apply list_find_Some in Hf as (_ & Hx & _).
Qed.

Lemma resolveClientRoles_wp (kc : Client) (realm clientID : string) (names : list string)
    (w : World St) :
  wp (resolveClientRoles kc realm clientID names) (λ o _ l, reads kc (requests l) ∧ ∃ r, o = Some r ∧
    ∀ d, r = inr d → ∃ x, found_client clientID x ∧
      Forall2 (λ name, role_at kc (client_role_path realm (field_or_empty x "id") name)) names d) w.
Proof.
  apply wp_and; [apply (safe_reads kc "" realm), resolveClientRoles_safe|].
  unfold resolveClientRoles, wrap_err. apply wp_try, wp_bind.
  eapply wp_mono; [apply FindClient_found|]. intros ? w1 l1 ([e|x] & -> & Hx); simpl;
    apply wp_ret; [by eexists|].
  eapply wp_mono; [apply (resolve_each_wp _ _
    (λ name, role_at kc (client_role_path realm (field_or_empty x "id") name)));
    intros; apply role_at_wp|].
  intros o w' l (r & -> & Hr). exists r. split; [done|]. intros d ->.
  destruct (Hr d eq_refl) as (rs & -> & Hf). exists x. auto.
Qed.

Lemma clientUUID_wp (kc : Client) (realm clientID : string) (w : World St) :
  wp (clientUUID kc realm clientID) (λ o _ l, reads kc (requests l) ∧ ∃ r, o = Some r ∧
    ∀ u, r = inr u → ∃ x, found_client clientID x ∧ u = field_or_empty x "id") w.
Proof.
  apply wp_and; [apply (safe_reads kc "" realm), clientUUID_safe|].
  unfold clientUUID, wrap_err. apply wp_try, wp_bind.
  eapply wp_mono; [apply FindClient_found|]. intros ? w1 l1 ([e|x] & -> & Hx); simpl;
    apply wp_ret; [by eexists|].
  apply wp_ret. eexists. split; [done|]. intros u [= <-]. eauto.
Qed.

Lemma diff_flag_wp (kc : Client) (path : string) (desired current : list rep) (changed : bool)
    (w : World St) :
  wp (diff_flag changed (applyRoleDiff desired current
        (λ l, Do kc "POST" path (Some (reps_json l)) out_nil)
        (λ l, Do kc "DELETE" path (Some (reps_json l)) out_nil))) (λ o _ l, ∃ b err,
    o = Some (b, err) ∧
    (err = None → ∃ d, b = changed || d ∧ diff_post kc path desired current d (requests l))) w.
Proof.
  unfold diff_flag. apply wp_bind. eapply wp_mono; [apply applyRoleDiff_wp|].
  intros ? w1 l1 (added & removed & err & -> & Hd). simpl.
  destruct err as [e|]; apply wp_ret; (do 2 eexists; split; [done|]); [done|].
  intros _. destruct (Hd eq_refl) as [<- Hp]. exists added. rewrite app_nil_r.
  split; [|done]. by destruct changed, added.
Qed.

Lemma realm_roles_wp (kc : Client) (realm id : string) (names : option (list string))
    (current : list rep) (w : World St) :
  wp (group_realm_roles kc realm id names current false) (λ o _ l, ∃ b err, o = Some (b, err) ∧
    (err = None → realm_roles_enforced kc realm id names current b (requests l))) w.
Proof.
  unfold group_realm_roles. destruct names as [names|].
  2: { apply wp_ret. do 2 eexists. split; [done|]. by intros _. }
  unfold try_flag. apply wp_bind. eapply wp_mono; [apply resolveRealmRoles_wp|].
  intros ? w1 l1 (Hg & [e|roles] & -> & Hr); simpl; [apply wp_ret; by do 2 eexists|].
  eapply wp_mono; [apply diff_flag_wp|]. intros ? w2 l2 (b & err & -> & Hd).
  do 2 eexists. split; [done|]. intros ->. destruct (Hd eq_refl) as (d & -> & Hp).
  exists (requests l1), (requests l2), roles. rewrite requests_app. auto.
Qed.

Lemma prune_clients_wp (kc : Client) (realm id : string) (desired : gmap string (list string))
    (cs : list (string * clientMapping)) (changed : bool) (w : World St) :
  wp (prune_clients kc realm id desired cs changed)
    (λ o _ l, flagged kc (omap (unlisted_call realm id desired) cs) changed o l) w.
Proof.
  revert changed w. induction cs as [|[clientID m] cs IH]; intros changed w; [apply flagged_nil|].
  cbn [prune_clients omap list_omap]. unfold unlisted_call at 1. cbn [fst snd].
  destruct (desired !! clientID); [by destruct (cm_mappings m); apply IH|].
  destruct (cm_mappings m) eqn:Hm; [apply IH|]. rewrite <- Hm. by apply flagged_call.
Qed.

Lemma enforce_clients_wp (kc : Client) (realm id : string) (current : gmap string clientMapping)
    (ds : list (string * list string)) (changed : bool) (w : World St) :
  wp (enforce_clients kc realm id current ds changed) (λ o _ l, ∃ b err, o = Some (b, err) ∧
    (err = None → ∃ d, b = changed || d ∧ clients_enforced kc realm id current ds d (requests l))) w.
Proof.
  revert changed w. induction ds as [|[clientID names] ds IH]; intros changed w.
  { apply wp_ret. do 2 eexists. split; [done|]. intros _. exists false.
    by rewrite orb_false_r; split; [|constructor]. }
  cbn [enforce_clients]. unfold try_flag. apply wp_bind.
  eapply wp_mono; [apply resolveClientRoles_wp|].
  intros ? w1 l1 (Hg1 & [e|roles] & -> & Hr); simpl; [apply wp_ret; by do 2 eexists|].
  destruct (Hr roles eq_refl) as (x & Hx & Hf). apply wp_bind.
  eapply wp_mono; [apply clientUUID_wp|].
  intros ? w2 l2 (Hg2 & [e|uuid] & -> & Hu); simpl; [apply wp_ret; by do 2 eexists|].
  destruct (Hu uuid eq_refl) as (y & Hy & ->). cbv zeta. unfold and_then. apply wp_bind.
  eapply wp_mono; [apply diff_flag_wp|]. intros ? w3 l3 (b & err & -> & Hd). simpl.
  destruct err as [e|]; [apply wp_ret; by do 2 eexists|].
  destruct (Hd eq_refl) as (d & -> & Hp). eapply wp_mono; [apply IH|].
  intros ? w4 l4 (b & err & -> & He). do 2 eexists. split; [done|]. intros ->.
  destruct (He eq_refl) as (d' & -> & Hrest). exists (d || d'). split; [by rewrite orb_assoc|].
  rewrite !requests_app, app_assoc.
  apply (clients_next kc realm id current clientID names ds x y roles); [|done..].
  by apply Forall_app.
Qed.

Lemma client_roles_wp (kc : Client) (realm id : string)
    (desired : option (gmap string (list string))) (mappings : rep) (changed : bool) (w : World St) :
  wp (group_client_roles kc realm id desired mappings changed) (λ o _ l, ∃ b err,
    o = Some (b, err) ∧ (err = None → ∃ d, b = changed || d ∧
      client_roles_enforced kc realm id desired mappings d (requests l))) w.
Proof.
  unfold group_client_roles. apply wp_bind, wp_range. intros entries s1 Hentries. simpl.
  destruct desired as [desired|].
  2: { apply wp_ret. do 2 eexists. split; [done|]. intros _. exists false.
       by rewrite orb_false_r. }
  apply wp_bind, wp_range. intros cs s2 Hcs. simpl. unfold and_then. apply wp_bind.
  eapply wp_mono; [apply prune_clients_wp|]. intros ? w1 l1 (b & err & -> & Hp). simpl.
  destruct err as [e|]; [apply wp_ret; by do 2 eexists|]. destruct (Hp eq_refl) as [Hperf ->].
  apply wp_bind, wp_range. intros ds s3 Hds. simpl.
  eapply wp_mono; [apply enforce_clients_wp|]. intros ? w2 l2 (b & err & -> & He).
  do 2 eexists. split; [done|]. intros ->. destruct (He eq_refl) as (d & -> & Henf).
  exists (nonempty (omap (unlisted_call realm id desired) cs) || d).
  split; [by rewrite orb_assoc|]. exists entries, cs, ds, d, (requests l1), (requests l2).
  rewrite !requests_app. done.
Qed.

(** What a successful run did. *)
Definition mappings_post (kc : Client) (spec : GroupTypes.GroupSpec) (id : string) (changed : bool)
    (rs : list HttpRequest) : Prop :=
  let realm := TargetRealm spec in
  ∃ mappings rs0 rs1 rs2 b1 b2, rs = rs0 ++ rs1 ++ rs2 ∧
    do_post kc "GET" (role_mappings_path realm id) None out_map rs0 (inr mappings) ∧
    realm_roles_enforced kc realm id (GroupTypes.RealmRoles spec)
      (objects_of (field_list mappings "realmMappings")) b1 rs1 ∧
    client_roles_enforced kc realm id (GroupTypes.ClientRoles spec) mappings b2 rs2 ∧
    changed = b1 || b2.

Lemma mappings_wp (kc : Client) (obj : ManagedObject GroupTypes.GroupSpec) (remote : rep)
    (w : World St) :
  wp (GroupDriver_mappings kc obj remote) (λ o _ l, ∃ changed err, o = Some (changed, err) ∧
    (err = None → field_or_empty remote "id" ≠ "" ∧
       mappings_post kc (GetSpec obj) (field_or_empty remote "id") changed (requests l))) w.
Proof.
  unfold GroupDriver_mappings. cbv zeta.
  destruct (String.eqb_spec (field_or_empty remote "id") "") as [|Hid];
    [apply wp_ret; by do 2 eexists|].
  unfold try_flag. apply wp_bind. eapply wp_mono; [apply Do_wp|].
  intros ? w1 l1 (_ & [e|mappings] & -> & Hd); simpl; [apply wp_ret; by do 2 eexists|].
  unfold and_then. apply wp_bind. eapply wp_mono; [apply realm_roles_wp|].
  intros ? w2 l2 (b1 & err & -> & Hr). simpl. destruct err as [e|]; [apply wp_ret; by do 2 eexists|].
  eapply wp_mono; [apply client_roles_wp|]. intros ? w3 l3 (b & err & -> & Hc).
  do 2 eexists. split; [done|]. intros ->. destruct (Hc eq_refl) as (b2 & -> & Hc').
  split; [done|]. exists mappings, (requests l1), (requests l2), (requests l3), b1, b2.
  rewrite !requests_app. auto 10.
Qed.
End GroupSpecs.

(** ** Theorems *)

Definition sim_kc : Client :=
  mkClient (mkConfig "team/kc" "https://kc.example" "master" "password" "a" "b" "" "" false) 0.

(** C15.  Identity-provider mappers are enforced exactly.  When [PostApply] succeeds, it has
    listed the mappers of the server once; then it has created each mapper of the spec that
    the server lacks, replaced each that differs in a managed key, deleted each that the
    spec does not have, all with success and once per name, and done nothing else; and it
    reports a change exactly when the server was not in sync. *)
Theorem mappers_enforced_exactly {St} `{EnvLaws St} (kc : Client)
    (obj : ManagedObject IdentityProviderTypes.IdentityProviderSpec) (w : World St) :
  ∃ changed err w' l, IdentityProviderDriver_mappers kc obj w = (Some (changed, err), w') ∧
    trace w' = trace w ++ l ∧
    (err = None → mappers_post kc (TargetRealm (GetSpec obj))
       (IdentityProviderTypes.Alias (GetSpec obj)) (IdentityProviderTypes.Mappers (GetSpec obj))
       changed (requests l)).
Proof.
  destruct (mappers_wp kc obj w) as (l & Hl & _ & changed & err & Ho & Hp).
  eexists changed, err, _, l. split; [by apply run_eq|done].
Qed.

(** An identity provider with one mapper; the server has another one. *)
Lemma mappers_enforced_exactly_witness :
  let spec := IdentityProviderTypes.mkIdentityProviderSpec sim_ref "acme" "github" "github" None None
    None None None None None None None None ∅ None
    [IdentityProviderMapperTypes.mkIdentityProviderMapper "email" (Some "attribute-importer") ∅] in
  let obj := sim_object "IdentityProvider" "github" None [] ∅ spec in
  let w := sim_world [ok_token; ok_json (JArr [JObj {["id" := JStr "m1"; "name" := JStr "old"]}]);
    status 201; status 204] in
  (IdentityProviderDriver_mappers sim_kc obj w).1 = Some (true, None) ∧
  ∃ l, mappers_post sim_kc "acme" "github" (IdentityProviderTypes.Mappers spec) true (requests l).
Proof.
  intros spec obj w.
  assert ((IdentityProviderDriver_mappers sim_kc obj w).1 = Some (true, None)) as E'
    by (vm_compute; reflexivity).
  split; [exact E'|].
  destruct (mappers_enforced_exactly sim_kc obj w) as (changed & err & w' & l & E & _ & Hp).
  rewrite E in E'. simpl in E'. injection E' as -> ->. exists l. by apply Hp.
Defined.

(** C16.  The role mappings of a group are enforced exactly.  When [PostApply] succeeds, it has
    read the mappings of the group once.  Realm roles without a list in the spec are left
    alone; with one, the roles it names are read and the difference to the mapped ones is
    added and removed.  Client roles without a map in the spec are left alone; with one,
    every client the spec does not list loses all its mappings, and for each listed client,
    once and in some order, the difference is added and removed.  A change is reported
    exactly when one of these had something to do. *)
Theorem group_roles_enforced_exactly {St} `{EnvLaws St} (kc : Client)
    (obj : ManagedObject GroupTypes.GroupSpec) (remote : rep) (w : World St) :
  ∃ changed err w' l, GroupDriver_mappings kc obj remote w = (Some (changed, err), w') ∧
    trace w' = trace w ++ l ∧
    (err = None → field_or_empty remote "id" ≠ "" ∧
       mappings_post kc (GetSpec obj) (field_or_empty remote "id") changed (requests l)).
Proof.
  destruct (mappings_wp kc obj remote w) as (l & Hl & _ & changed & err & Ho & Hp).
  eexists changed, err, _, l. split; [by apply run_eq|done].
Qed.

(** A group that loses a role and gains none. *)
Lemma group_roles_enforced_exactly_witness :
  let obj := sim_object "Group" "staff" None [] ∅ (sim_group "staff" None None (Some [])) in
  let w := sim_world [ok_token;
    ok_json (JObj {["realmMappings" := JArr [JObj {["id" := JStr "r1"; "name" := JStr "old"]}]]});
    status 204] in
  (GroupDriver_mappings sim_kc obj {["id" := JStr "g1"]} w).1 = Some (true, None) ∧
  ∃ l, mappings_post sim_kc (GetSpec obj) "g1" true (requests l).
Proof.
  intros obj w.
  assert ((GroupDriver_mappings sim_kc obj {["id" := JStr "g1"]} w).1 = Some (true, None)) as E'
    by (vm_compute; reflexivity).
  split; [exact E'|].
  destruct (group_roles_enforced_exactly sim_kc obj {["id" := JStr "g1"]} w)
    as (changed & err & w' & l & E & _ & Hp).
  rewrite E in E'. simpl in E'. injection E' as -> ->. exists l. by apply Hp.
Defined.
