(* ===== verification/Engine.v ===== *)
(** * The reconciliation engine (internal/controller/engine.go)

    The lifecycle every kind shares, over a [Driver].  An object a function changes in
    place is returned with its result; [base] is the copy taken at the start, against which
    patches are computed.  A Kubernetes write replaces the object by the server's answer.

    The spec always encodes and decodes ([toJSONMap_decodes]), so the branch for an encoding
    error of [Reconcile] and of [finalize] has no counterpart.  Logging is left out. *)

From Stdlib Require Import ZArith Lia.
From stdpp Require Import base gmap strings list.
From S2P Require Import Prelude Json JsonText GoError LastApplied ApiTypes World Sim Logic Url.
From S2P Require Import HttpClient AdminApi Provider DriverHelpers Drivers DriverLaws.

Local Open Scope string_scope.
Local Open Scope list_scope.

Definition DefaultResync : Z := Hour.
Definition connectionRetry : Z := (30 * Second)%Z.
Definition secretRetry : Z := (30 * Second)%Z.

(** [recorder] tells whether there is an event recorder. *)
Record Engine := mkEngine { eng_recorder : bool; eng_resync : Z }.

Definition NewEngine (recorder : bool) (resync : Z) : Engine :=
  mkEngine recorder (if (resync <=? 0)%Z then DefaultResync else resync).

(** [ctrl.Result] and the error. *)
Record Result := mkResult { RequeueAfter : Z }.
Definition Done : Result * option GoError := (mkResult 0, None).
Definition after (d : Z) : Result * option GoError := (mkResult d, None).
Definition failed (e : GoError) : Result * option GoError := (mkResult 0, Some e).

Definition EventTypeNormal : string := "Normal".
Definition EventTypeWarning : string := "Warning".

Definition cloneMap (m : rep) : rep := map_fold (λ k v out, <[k := v]> out) ∅ m.

Lemma cloneMap_id (m : rep) : cloneMap m = m.
Proof.
  unfold cloneMap. induction m as [|k v m Hk IH] using map_ind; [by rewrite map_fold_empty|].
  rewrite map_fold_insert_L; [by rewrite IH| |done].
  intros j1 j2 z1 z2 y Hne _ _. by apply insert_insert_ne.
Qed.

Definition annotation {S} (obj : ManagedObject S) (k : string) : string :=
  default "" (GetAnnotations (Meta obj) !! k).

Definition deleting {S} (obj : ManagedObject S) : bool :=
  match GetDeletionTimestamp (Meta obj) with Some _ => true | None => false end.

Section Engine.
Context {St : Type} `{Env St, KubeLib}.
Context {S : Type} `{Spec S}.
Implicit Types (obj base : ManagedObject S) (drv : Driver St S) (kc : Client).
Variable e : Engine.

Definition patchStatus obj base : M St (ManagedObject S) :=
  r ← kube_patch_status obj base; mret r.2.

Definition setCondition obj base (condType condStatus reason message : string)
    : M St (ManagedObject S) :=
  let cond := mkCondition condType condStatus (GetGeneration (Meta obj)) reason message in
  let status := mkResourceStatus (SetStatusCondition (Conditions (Status obj)) cond)
                  (ObservedGeneration (Status obj)) in
  patchStatus (set_Status status obj) base.

(** The event as it is handed to [Eventf], before that function reads the message as a
    format string. *)
Definition record (etype reason message : string) : M St () :=
  if eng_recorder e then emit (Event etype reason message) else mret ().

Definition fail obj base (reason message : string) : M St (ManagedObject S) :=
  let previous := FindStatusCondition (Conditions (Status obj)) ConditionReady in
  let changed :=
    match previous with
    | None => true
    | Some c => negb (String.eqb (cond_Reason c) reason) || negb (String.eqb (cond_Message c) message)
    end in
  obj ← setCondition obj base ConditionReady ConditionFalse reason message;
  obj ← setCondition obj base ConditionSynced ConditionFalse reason message;
  _ ← (if changed then record EventTypeWarning reason message else mret ());
  mret obj.

(** The two conditions of a step that is retried. *)
Definition not_ready obj base (reason message synced : string) : M St (ManagedObject S) :=
  obj ← setCondition obj base ConditionReady ConditionFalse reason message;
  setCondition obj base ConditionSynced ConditionFalse reason synced.

(** The outcome of a handler: the object as it is left, and what is returned. *)
Abbreviation Outcome := (ManagedObject S * (Result * option GoError))%type.

Definition finalize obj base (specMap : rep) (synced : bool) : M St Outcome :=
  let obj := set_Status (mkResourceStatus (Conditions (Status obj)) (GetGeneration (Meta obj))) obj in
  let encoded := marshal (JObj specMap) in
  r ← (if negb (String.eqb (annotation obj LastAppliedAnnotation) encoded) then
         let annotations := <[LastAppliedAnnotation := encoded]> (GetAnnotations (Meta obj)) in
         kube_patch (set_Meta (SetAnnotations annotations (Meta obj)) obj) base
       else mret (None, obj));
  match r with
  | (Some err, obj) => mret (obj, failed err)
  | (None, obj) =>
      let message := if synced then "Reconciliation succeeded" else "Server state matches spec" in
      obj ← setCondition obj base ConditionReady ConditionTrue ReasonSucceeded message;
      obj ← setCondition obj base ConditionSynced ConditionTrue ReasonSucceeded message;
      mret (obj, after (eng_resync e))
  end.

Definition handleCreate obj drv kc base (specMap payload : rep) : M St Outcome :=
  prepared ← drv_PreparePayload drv kc obj payload;
  match prepared with
  | inl err =>
      obj ← fail obj base ReasonSecretMissing (Error err);
      mret (obj, after secretRetry)
  | inr payload =>
      created ← drv_Create drv kc obj (drv_ManagedMarker drv payload);
      match created with
      | inl err =>
          if errors_Is err SConflict then
            obj ← fail obj base ReasonAlreadyExists
                    ("Resource appeared during reconciliation: " +:+ Error err);
            mret (obj, Done)
          else
            obj ← not_ready obj base ReasonRetrying (Error err) "Create failed";
            mret (obj, failed err)
      | inr _ =>
          _ ← record EventTypeNormal "Created" ("Created " +:+ Kind obj +:+ " on Keycloak server");
          remote ← drv_Get drv kc obj;
          match remote with
          | inl err =>
              obj ← setCondition obj base ConditionReady ConditionFalse ReasonRetrying (Error err);
              mret (obj, failed err)
          | inr remote =>
              posted ← drv_PostApply drv kc obj remote;
              match posted with
              | (obj, (_, Some err)) =>
                  obj ← fail obj base ReasonFailed (Error err);
                  mret (obj, after secretRetry)
              | (obj, (_, None)) => finalize obj base specMap true
              end
          end
      end
  end.

(** The part of [handleExisting] after the update: kind-specific state, then the end. *)
Definition after_update obj drv kc base (specMap remote : rep) (changed : bool) : M St Outcome :=
  posted ← drv_PostApply drv kc obj remote;
  match posted with
  | (obj, (_, Some err)) =>
      obj ← fail obj base ReasonFailed (Error err);
      mret (obj, after secretRetry)
  | (obj, (postChanged, None)) =>
      _ ← (if postChanged then metric DriftCorrectionsTotal [Kind obj] Inc else mret ());
      finalize obj base specMap (changed || postChanged)
  end.

(** The part of [handleExisting] once the resource is the operator's to write. *)
Definition apply_existing obj drv kc base (specMap payload remote : rep) (adopting : bool)
    : M St Outcome :=
  let payload := drv_ManagedMarker drv payload in
  prepared ← drv_PreparePayload drv kc obj payload;
  match prepared with
  | inl err =>
      obj ← fail obj base ReasonSecretMissing (Error err);
      mret (obj, after secretRetry)
  | inr payload =>
      if adopting || PayloadDiffers remote payload then
        _ ← metric DriftCorrectionsTotal [Kind obj] Inc;
        let merged := MergePayload (cloneMap remote) payload in
        updated ← drv_Update drv kc obj (drv_ID drv remote) merged;
        match updated with
        | inl err =>
            if errors_Is err SConflict then
              obj ← fail obj base ReasonAlreadyExists (Error err);
              mret (obj, Done)
            else
              obj ← not_ready obj base ReasonRetrying (Error err) "Update failed";
              mret (obj, failed err)
        | inr _ =>
            _ ← record EventTypeNormal "Updated" ("Updated " +:+ Kind obj +:+ " on Keycloak server");
            after_update obj drv kc base specMap remote true
        end
      else after_update obj drv kc base specMap remote false
  end.

Definition handleExisting obj drv kc base (specMap payload remote : rep) : M St Outcome :=
  let adoption := Adoption (GetSpec obj) in
  if String.eqb adoption AdoptionFailIfExists then
    obj ← fail obj base ReasonAlreadyExists
            "adoptionPolicy is FailIfExists and the resource exists on the server";
    mret (obj, Done)
  else
    let managed := drv_IsManaged drv remote
                   || negb (String.eqb (annotation obj LastAppliedAnnotation) "") in
    if managed then apply_existing obj drv kc base specMap payload remote false
    else if String.eqb adoption AdoptionAdopt then
      _ ← record EventTypeNormal "Adopted" ("Adopted existing " +:+ Kind obj);
      apply_existing obj drv kc base specMap payload remote true
    else
      obj ← fail obj base ReasonAlreadyExists
              "A foreign resource with the same key exists; set adoptionPolicy: Adopt to take it over";
      mret (obj, Done).

(** [controllerutil.RemoveFinalizer] and the update. *)
Definition remove_finalizer obj : M St (option GoError * ManagedObject S) :=
  let m := SetFinalizers (RemoveFinalizer (GetFinalizers (Meta obj)) FinalizerName) (Meta obj) in
  kube_update (set_Meta m obj).

Definition handleDeletion obj drv kc : M St (ManagedObject S * option GoError) :=
  deleted ← (if String.eqb (Deletion (GetSpec obj)) DeletionDelete then
               r ← drv_Delete drv kc obj;
               match r with
               | inl err =>
                   if errors_Is err SNotFound then
                     _ ← record EventTypeNormal "Deleted" "Deleted resource on Keycloak server";
                     mret None
                   else mret (Some err)
               | inr _ =>
                   _ ← record EventTypeNormal "Deleted" "Deleted resource on Keycloak server";
                   mret None
               end
             else mret None);
  match deleted with
  | Some err => mret (obj, Some err)
  | None => r ← remove_finalizer obj; mret (r.2, r.1)
  end.

(** The spec as the representation payload: operator fields are stripped. *)
Definition spec_map drv obj : rep :=
  foldl (λ m f, delete f m) (toJSONMap (GetSpec obj)) (drv_OperatorFields drv).

(** The part of [Reconcile] that compares spec and server. *)
Definition sync obj drv kc base : M St Outcome :=
  let specMap := spec_map drv obj in
  match EffectivePayload specMap (annotation obj LastAppliedAnnotation) with
  | inl err =>
      obj ← fail obj base ReasonFailed (Error err);
      mret (obj, Done)
  | inr payload =>
      remote ← drv_Get drv kc obj;
      match remote with
      | inl err =>
          if errors_Is err SNotFound then handleCreate obj drv kc base specMap payload
          else
            obj ← not_ready obj base ReasonRetrying (Error err) "Server unreachable";
            mret (obj, failed err)
      | inr remote => handleExisting obj drv kc base specMap payload remote
      end
  end.

(** The body of [Reconcile], without the deferred metrics. *)
Definition reconcile_body obj drv : M St Outcome :=
  let base := obj in
  if deleting obj && String.eqb (Deletion (GetSpec obj)) DeletionOrphan then
    r ← remove_finalizer obj;
    match r with
    | (Some err, obj) => mret (obj, failed err)
    | (None, obj) => mret (obj, Done)
    end
  else
    conn ← For (GetNamespace (Meta obj)) (ConnectionName (GetSpec obj));
    match conn with
    | inl err =>
        obj ← not_ready obj base ReasonConnectionUnavailable (Error err) "Connection unavailable";
        mret (obj, after connectionRetry)
    | inr kc =>
        if deleting obj then
          r ← handleDeletion obj drv kc;
          mret (r.1, (mkResult 0, r.2))
        else if negb (ContainsFinalizer (GetFinalizers (Meta obj)) FinalizerName) then
          let m := SetFinalizers (AddFinalizer (GetFinalizers (Meta obj)) FinalizerName) (Meta obj) in
          r ← kube_update (set_Meta m obj);
          match r with
          | (Some err, obj) => mret (obj, failed err)
          | (None, obj) => mret (obj, after Second)
          end
        else
          match drv_Protected drv obj with
          | (true, message) =>
              obj ← fail obj base ReasonProtectedRealm message;
              mret (obj, Done)
          | (false, _) => sync obj drv kc base
          end
    end.

(** The outcome label of the reconciliation counter, from the final conditions. *)
Definition outcome_label obj : string :=
  match FindStatusCondition (Conditions (Status obj)) ConditionReady with
  | Some c => if String.eqb (cond_Status c) ConditionFalse then OutcomeTerminal else OutcomeSuccess
  | None => OutcomeSuccess
  end.

(** [Reconcile].  The deferred function sees the object as the body left it; a panic leaves
    it unchanged, since only [Delete] panics. *)
Definition Reconcile obj drv : M St Outcome :=
  start ← now;
  deferred (reconcile_body obj drv) (λ o,
    let final := match o with Some (obj', _) => obj' | None => obj end in
    _ ← metric ReconciliationsTotal [Kind obj; outcome_label final] Inc;
    t ← now;
    metric ReconcileDuration [Kind obj] (Observe (t - start))).
End Engine.
