(* ===== verification/PayloadMemory.v ===== *)
(** * Payloads in memory (internal/controller/lastapplied.go, driver_helpers.go, engine.go)

    A [map[string]any] is a reference: the engine keeps the decoded spec for the annotation
    while the drivers write markers and secrets into the payload made from it, and merges the
    payload into the server's representation while that is still needed.  The other files
    take these maps as values.  Here they are cells of a memory, the functions that copy and
    write them are defined on it, and the theorem shows that the values are what the value
    model says and that nothing else changes.

    [tree m v j F]: in memory [m] the value [v] is the document [j], made of cells of [F], no
    cell used twice.  [shows m v j] is the same without the last condition.  A slice is a cell
    with its elements; [append] makes a new one, as it does for the slices that [deepCopyValue]
    makes, whose capacity is their length. *)

From Stdlib Require Import ZArith Lia.
From stdpp Require Import base gmap strings list.
From S2P Require Import Prelude Json.

Local Open Scope string_scope.
Local Open Scope list_scope.

(** ** Memory *)

Abbreviation loc := positive.

(** The type [any], as far as [encoding/json] produces it. *)
Inductive any :=
  | ANull
  | ABool (b : bool)
  | ANum (n : f64)
  | AStr (s : string)
  | ASlice (l : loc)
  | AMap (l : loc).

Inductive cell :=
  | SliceCell (vs : list any)
  | MapCell (kv : gmap string any).

Abbreviation mem := (gmap loc cell).

Definition alloc (c : cell) (m : mem) : loc * mem :=
  let l := fresh (dom m) in (l, <[l := c]> m).

Definition map_at (l : loc) (m : mem) : option (gmap string any) :=
  match m !! l with Some (MapCell kv) => Some kv | _ => None end.

Definition slice_at (l : loc) (m : mem) : option (list any) :=
  match m !! l with Some (SliceCell vs) => Some vs | _ => None end.

(** [x[k] = v] on a map, and on a slice, where an index out of range panics. *)
Definition set_key (k : string) (v : any) (c : cell) : option cell :=
  match c with MapCell kv => Some (MapCell (<[k := v]> kv)) | SliceCell _ => None end.
Definition set_index (i : nat) (v : any) (c : cell) : option cell :=
  match c with
  | SliceCell vs => if decide (i < length vs)%nat then Some (SliceCell (<[i := v]> vs)) else None
  | MapCell _ => None
  end.

Definition store {K} (set : K → any → cell → option cell) (l : loc) (k : K) (v : any) (m : mem)
    : option mem :=
  c ← m !! l; c' ← set k v c; Some (<[l := c']> m).

Inductive shows (m : mem) : any → json → Prop :=
  | shows_null : shows m ANull JNull
  | shows_bool (b : bool) : shows m (ABool b) (JBool b)
  | shows_num (n : f64) : shows m (ANum n) (JNum n)
  | shows_str (s : string) : shows m (AStr s) (JStr s)
  | shows_slice (l : loc) (vs : list any) (js : list json) :
      m !! l = Some (SliceCell vs) → length vs = length js →
      (∀ i v j, vs !! i = Some v → js !! i = Some j → shows m v j) →
      shows m (ASlice l) (JArr js)
  | shows_map (l : loc) (kv : gmap string any) (js : gmap string json) :
      m !! l = Some (MapCell kv) → dom kv = dom js →
      (∀ k v j, kv !! k = Some v → js !! k = Some j → shows m v j) →
      shows m (AMap l) (JObj js).

Inductive tree (m : mem) : any → json → gset loc → Prop :=
  | tree_null (F : gset loc) : tree m ANull JNull F
  | tree_bool (b : bool) (F : gset loc) : tree m (ABool b) (JBool b) F
  | tree_num (n : f64) (F : gset loc) : tree m (ANum n) (JNum n) F
  | tree_str (s : string) (F : gset loc) : tree m (AStr s) (JStr s) F
  | tree_slice (l : loc) (vs : list any) (js : list json) (fs : nat → gset loc) (F : gset loc) :
      m !! l = Some (SliceCell vs) → length vs = length js →
      (∀ i v j, vs !! i = Some v → js !! i = Some j → tree m v j (fs i)) →
      (∀ i i', i ≠ i' → fs i ## fs i') → (∀ i, l ∉ fs i) → (∀ i, fs i ⊆ F) → l ∈ F →
      tree m (ASlice l) (JArr js) F
  | tree_map (l : loc) (kv : gmap string any) (js : gmap string json) (fs : string → gset loc)
      (F : gset loc) :
      m !! l = Some (MapCell kv) → dom kv = dom js →
      (∀ k v j, kv !! k = Some v → js !! k = Some j → tree m v j (fs k)) →
      (∀ k k', k ≠ k' → fs k ## fs k') → (∀ k, l ∉ fs k) → (∀ k, fs k ⊆ F) → l ∈ F →
      tree m (AMap l) (JObj js) F.

Lemma tree_shows (m : mem) (v : any) (j : json) (F : gset loc) : tree m v j F → shows m v j.
Proof. induction 1; econstructor; eauto. Qed.

Lemma shows_sub (m m' : mem) (v : any) (j : json) : shows m v j → m ⊆ m' → shows m' v j.
Proof.
  intros Hs Hm. induction Hs; econstructor; eauto; by eapply lookup_weaken.
Qed.

Lemma tree_frame (m m' : mem) (v : any) (j : json) (F : gset loc) :
  tree m v j F → (∀ l, l ∈ F → m' !! l = m !! l) → tree m' v j F.
Proof.
  intros Ht. induction Ht as [| | | |l vs js fs F Hl Hlen _ IH Hd Hn Hsub HF
                             |l kv js fs F Hl Hdom _ IH Hd Hn Hsub HF]; intros Hm;
    [constructor..| |].
  - apply (tree_slice m' l vs js fs); [by rewrite Hm|done| |done..].
    intros i v j Hv Hj. apply (IH i v j Hv Hj). intros x Hx. apply Hm. by apply (Hsub i).
  - apply (tree_map m' l kv js fs); [by rewrite Hm|done| |done..].
    intros k v j Hv Hj. apply (IH k v j Hv Hj). intros x Hx. apply Hm. by apply (Hsub k).
Qed.

Lemma tree_mono (m : mem) (v : any) (j : json) (F F' : gset loc) :
  tree m v j F → F ⊆ F' → tree m v j F'.
Proof.
  intros Ht HF. destruct Ht; [constructor..| |].
  - eapply tree_slice; [done..| |]; [intros i; etrans; eauto|set_solver].
  - eapply tree_map; [done..| |]; [intros k; etrans; eauto|set_solver].
Qed.

Lemma tree_sub (m m' : mem) (v : any) (j : json) (F : gset loc) :
  tree m v j F → F ⊆ dom m → m ⊆ m' → tree m' v j F.
Proof.
  intros Ht HF Hm. apply (tree_frame m); [done|]. intros l Hl.
  apply HF, elem_of_dom in Hl as [c Hc]. transitivity (Some c); [|done].
  by apply (lookup_weaken m).
Qed.

Lemma alloc_fresh_loc (c : cell) (m : mem) :
  (alloc c m).1 ∉ dom m ∧ m ⊆ (alloc c m).2.
Proof.
  unfold alloc. simpl. pose proof (is_fresh (dom m)) as Hf. split; [done|].
  apply insert_subseteq, not_elem_of_dom, Hf.
Qed.

(** The document in memory, as far as [n] levels. *)
Fixpoint read (n : nat) (m : mem) (v : any) : option json :=
  match n with
  | O => None
  | S n =>
      match v with
      | ANull => Some JNull
      | ABool b => Some (JBool b)
      | ANum x => Some (JNum x)
      | AStr s => Some (JStr s)
      | ASlice l => vs ← slice_at l m; js ← mapM (read n m) vs; Some (JArr js)
      | AMap l =>
          kv ← map_at l m;
          let js : rep := omap (read n m) kv in
          if decide (dom kv = dom js) then Some (JObj js) else None
      end
  end.

Lemma read_shows (n : nat) (m : mem) (v : any) (j : json) : read n m v = Some j → shows m v j.
Proof.
  revert v j. induction n as [|n IH]; intros v j; [done|].
  destruct v as [| | | |l|l]; simpl; try by intros [= <-]; constructor.
  - unfold slice_at. destruct (m !! l) as [[vs|]|] eqn:Hl; try done. simpl.
    intros (js & Hjs%mapM_Some & [= <-])%bind_Some. apply (shows_slice m l vs js Hl).
    + by eapply Forall2_length.
    + intros i v j Hv Hj. apply IH. by apply (Forall2_lookup_lr _ _ _ i _ _ Hjs Hv Hj).
  - unfold map_at. destruct (m !! l) as [[|kv]|] eqn:Hl; try done. simpl.
    case_decide as Hdom; [|done]. intros [= <-]. apply (shows_map m l kv _ Hl Hdom).
    intros k v j Hv Hj. apply IH. by rewrite lookup_omap, Hv in Hj.
Qed.

(** ** The deep copy *)

(** [for k, v := range in { out[k] = copy(v) }]. *)
Fixpoint copy_loop {K} (set : K → any → cell → option cell)
    (copy : any → mem → option (any * mem)) (out : loc) (es : list (K * any)) (m : mem)
    : option mem :=
  match es with
  | [] => Some m
  | (k, v) :: es =>
      '(v', m1) ← copy v m;
      m2 ← store set out k v' m1;
      copy_loop set copy out es m2
  end.

Section Copy.
(** The order in which a map is visited. *)
Context (ord : list (string * any) → list (string * any)).

(** [deepCopyValue], with [deepCopyMap] as its case for maps; [n] bounds the depth. *)
Fixpoint mem_deepCopyValue (n : nat) (v : any) (m : mem) : option (any * mem) :=
  match n with
  | O => None
  | S n =>
      match v with
      | AMap l =>
          kv ← map_at l m;
          let '(out, m1) := alloc (MapCell ∅) m in
          m2 ← copy_loop set_key (mem_deepCopyValue n) out (ord (map_to_list kv)) m1;
          Some (AMap out, m2)
      | ASlice l =>
          vs ← slice_at l m;
          let '(out, m1) := alloc (SliceCell (replicate (length vs) ANull)) m in
          m2 ← copy_loop set_index (mem_deepCopyValue n) out (imap pair vs) m1;
          Some (ASlice out, m2)
      | _ => Some (v, m)
      end
  end.
End Copy.

(** A new value: the document [j] as a tree of new cells; what was there is unchanged. *)
Definition made (m : mem) (j : json) (r : option (any * mem)) : Prop :=
  ∃ v' m' F, r = Some (v', m') ∧ m ⊆ m' ∧ tree m' v' j F ∧ F ## dom m ∧ F ⊆ dom m'.

Section Loop.
Context {K : Type} `{EqDecision K}.
Context (set : K → any → cell → option cell) (get : cell → K → option any).
(** What the cell is when the given keys have been written. *)
Context (written : list K → cell → Prop).
Context (copy : any → mem → option (any * mem)) (doc : K → option json).
Context (m0 : mem) (out : loc).

Hypothesis out_new : out ∉ dom m0.
Hypothesis set_get : ∀ ks k v c c', written ks c → set k v c = Some c' →
  get c' k = Some v ∧ ∀ k', k' ≠ k → get c' k' = get c k'.

(** The copies made so far are apart from each other and from what was there. *)
Definition apart (m : mem) (fs : K → gset loc) : Prop :=
  m0 ⊆ m ∧ (∀ k k', k ≠ k' → fs k ## fs k') ∧ (∀ k, out ∉ fs k) ∧ (∀ k, fs k ## dom m0) ∧
  (∀ k, fs k ⊆ dom m).

Definition filled (ks : list K) (m : mem) (fs : K → gset loc) : Prop :=
  ∃ c, m !! out = Some c ∧ written ks c ∧
    ∀ k, k ∈ ks → ∃ v j, get c k = Some v ∧ doc k = Some j ∧ tree m v j (fs k).

Lemma copy_step (ks : list K) (k : K) (j : json) (v' : any) (m m1 : mem) (F : gset loc)
    (fs : K → gset loc) :
  apart m fs → filled ks m fs → doc k = Some j →
  (∀ c, written ks c → ∃ c', set k v' c = Some c' ∧ written (ks ++ [k]) c') →
  m ⊆ m1 → tree m1 v' j F → F ## dom m → F ⊆ dom m1 →
  ∃ m2 fs', store set out k v' m1 = Some m2 ∧ apart m2 fs' ∧ filled (ks ++ [k]) m2 fs' ∧
    m0 ⊆ m2.
Proof.
  intros (Hm0 & Hd & Ho & H0 & Hdom) (c & Hc & Hw & Hks) Hj Hset Hm Ht HF HFd.
  destruct (Hset c Hw) as (c' & Hc' & Hw'). destruct (set_get _ _ _ _ _ Hw Hc') as [Hk Hne].
  assert (m1 !! out = Some c) as Hc1 by by apply (lookup_weaken m).
  assert (out ∈ dom m) as Hout by by eapply elem_of_dom_2.
  assert (dom m ⊆ dom m1) as Hdm by by apply subseteq_dom.
  assert (dom m0 ⊆ dom m) as Hdm0 by by apply subseteq_dom.
  set (fs' := λ k', if decide (k' = k) then F else fs k').
  assert (out ∉ F) as HoF by set_solver.
  exists (<[out := c']> m1), fs'. unfold store. rewrite Hc1. simpl. rewrite Hc'. simpl.
  split; [done|].
  assert (m0 ⊆ <[out := c']> m1) as Hsub.
  { apply insert_subseteq_r; [by apply not_elem_of_dom|by etrans]. }
  split; [|split; [|done]].
  - assert (dom m1 ⊆ dom (<[out := c']> m1)) as Hd' by (rewrite dom_insert_L; set_solver).
    split; [done|]. unfold fs'.
    repeat split; intros; repeat case_decide; subst; try done; set_solver.
  - exists c'. rewrite lookup_insert_eq. split; [done|]. split; [done|].
    assert (∀ v j f, tree m1 v j f → out ∉ f → tree (<[out := c']> m1) v j f) as Hfr.
    { intros v0 j0 f Ht0 Hf. eapply tree_frame; [exact Ht0|]. intros l Hl.
      rewrite lookup_insert_ne; [done|]. set_solver. }
    intros k' Hk'. unfold fs'. case_decide as Hdec.
    + subst k'. exists v', j. auto.
    + apply elem_of_app in Hk' as [Hk'|Hk']; [|set_solver].
      destruct (Hks k' Hk') as (v0 & j0 & Hv0 & Hj0 & Ht0). exists v0, j0.
      rewrite Hne by done. split; [done|]. split; [done|]. apply Hfr; [|done].
      by apply (tree_sub m).
Qed.

Lemma copy_loop_spec (es : list (K * any)) (ks : list K) (m : mem) (fs : K → gset loc) :
  apart m fs → filled ks m fs →
  (∀ k v, (k, v) ∈ es → ∃ j, doc k = Some j ∧ ∀ m, m0 ⊆ m → made m j (copy v m)) →
  (∀ ks1 k ks2 v c, es.*1 = ks1 ++ k :: ks2 → written (ks ++ ks1) c →
     ∃ c', set k v c = Some c' ∧ written (ks ++ ks1 ++ [k]) c') →
  ∃ m' fs', copy_loop set copy out es m = Some m' ∧ apart m' fs' ∧ filled (ks ++ es.*1) m' fs'.
Proof.
  revert ks m fs. induction es as [|[k v] es IH]; intros ks m fs Hap Hf Hc Hset.
  { exists m, fs. simpl. by rewrite app_nil_r. }
  destruct (Hc k v) as (j & Hj & Hcp); [by left|].
  destruct (Hcp m) as (v' & m1 & F & E & Hm & Ht & HF & HFd); [apply Hap|].
  destruct (copy_step ks k j v' m m1 F fs) as (m2 & fs2 & E2 & Hap2 & Hf2 & _);
    [done|done|done| |done|done|done|done|].
  { intros c Hw. destruct (Hset [] k es.*1 v' c) as (c' & ? & ?); [done|by rewrite app_nil_r|].
    exists c'. by split. }
  cbn [copy_loop]. rewrite E. simpl. rewrite E2. simpl.
  destruct (IH (ks ++ [k]) m2 fs2) as (m' & fs' & E' & Hap' & Hf'); [done|done| | |].
  - intros k0 v0 Hin. apply Hc. by right.
  - intros ks1 k0 ks2 v0 c Hks Hw. rewrite <- !app_assoc in *.
    apply (Hset (k :: ks1) k0 ks2 v0 c); [|done]. simpl. by f_equal.
  - exists m', fs'. rewrite <- app_assoc in Hf'. done.
Qed.
End Loop.

Definition map_get (c : cell) (k : string) : option any :=
  match c with MapCell kv => kv !! k | SliceCell _ => None end.
Definition slice_get (c : cell) (i : nat) : option any :=
  match c with SliceCell vs => vs !! i | MapCell _ => None end.
Definition map_written (ks : list string) (c : cell) : Prop :=
  ∃ kv, c = MapCell kv ∧ dom kv = list_to_set ks.
Definition slice_written (n : nat) (_ : list nat) (c : cell) : Prop :=
  ∃ vs, c = SliceCell vs ∧ length vs = n.

Lemma map_set_get (ks : list string) (k : string) (v : any) (c c' : cell) :
  map_written ks c → set_key k v c = Some c' →
  map_get c' k = Some v ∧ ∀ k', k' ≠ k → map_get c' k' = map_get c k'.
Proof.
  intros (kv & -> & _) [= <-]. simpl. split; [apply lookup_insert_eq|].
  intros k' Hk. by rewrite lookup_insert_ne.
Qed.

Lemma slice_set_get (n : nat) (ks : list nat) (k : nat) (v : any) (c c' : cell) :
  slice_written n ks c → set_index k v c = Some c' →
  slice_get c' k = Some v ∧ ∀ k', k' ≠ k → slice_get c' k' = slice_get c k'.
Proof.
  intros (vs & -> & _). simpl. case_decide; [|done]. intros [= <-]. simpl.
  split; [by apply list_lookup_insert_eq|]. intros k' Hk. by rewrite list_lookup_insert_ne.
Qed.

(** A cell just made, before the first write. *)
Lemma apart_start {K} (m : mem) (c : cell) :
  apart (K := K) m (alloc c m).1 (alloc c m).2 (λ _, ∅).
Proof. destruct (alloc_fresh_loc c m) as [_ H]. repeat split; [done|set_solver..]. Qed.

(** When every key is written, the cell is a tree of new cells. *)
Lemma apart_out {K} (m0 m : mem) (out : loc) (fs : K → gset loc) (F := dom m ∖ dom m0) :
  out ∉ dom m0 → is_Some (m !! out) → apart m0 out m fs →
  (∀ k, fs k ⊆ F) ∧ out ∈ F ∧ F ## dom m0 ∧ F ⊆ dom m.
Proof.
  intros Ho Hs%elem_of_dom (_ & _ & _ & H0 & Hd). unfold F.
  repeat split; [intros k; specialize (H0 k); specialize (Hd k)| | |]; set_solver.
Qed.

Section CopyCorrect.
Context (ord : list (string * any) → list (string * any)).
Hypothesis ord_perm : ∀ es, ord es ≡ₚ es.

Lemma copy_map_made (copy : any → mem → option (any * mem)) (kv : gmap string any)
    (js : rep) (m : mem) :
  dom kv = dom js →
  (∀ k v j, kv !! k = Some v → js !! k = Some j → ∀ m', m ⊆ m' → made m' j (copy v m')) →
  made m (JObj js)
    (let '(out, m1) := alloc (MapCell ∅) m in
     m2 ← copy_loop set_key copy out (ord (map_to_list kv)) m1; Some (AMap out, m2)).
Proof.
  intros Hdom Hc. destruct (alloc_fresh_loc (MapCell ∅) m) as [Ho _].
  pose proof (apart_start (K := string) m (MapCell ∅)) as Hap.
  unfold alloc in *. simpl in *. set (out := fresh (dom m)) in *.
  destruct (copy_loop_spec set_key map_get map_written copy (λ k, js !! k) m out Ho map_set_get
    (ord (map_to_list kv)) [] _ _ Hap) as (m2 & fs & -> & Hap2 & c & Hc2 & (kv2 & -> & Hd2) & Hk).
  - exists (MapCell ∅). rewrite lookup_insert_eq. repeat split; [by exists ∅|set_solver].
  - intros k v Hin. rewrite ord_perm in Hin. apply elem_of_map_to_list in Hin.
    assert (k ∈ dom js) as [j Hj]%elem_of_dom by (rewrite <- Hdom; by eapply elem_of_dom_2).
    exists j. split; [done|]. by apply (Hc k v).
  - intros ks1 k ks2 v c _ (kv1 & -> & Hd1). eexists. split; [done|]. eexists. split; [done|].
    rewrite dom_insert_L, Hd1. set_solver.
  - destruct (apart_out m m2 out fs Ho ltac:(by eexists) Hap2) as (Hf & Hof & HF & HFd).
    destruct Hap2 as (Hsub & Hdis & Hout & _). simpl in *.
    assert (∀ k, k ∈ dom kv ↔ k ∈ (ord (map_to_list kv)).*1) as Hks.
    { intros k. rewrite ord_perm, list_elem_of_fmap, elem_of_dom. split.
      - intros [v Hv]. exists (k, v). by rewrite elem_of_map_to_list.
      - intros ([k' v] & -> & Hv%elem_of_map_to_list). by exists v. }
    eexists _, m2, _. split; [done|]. split; [done|]. split; [|by split].
    eapply (tree_map m2 out kv2 js fs); [done| | |done..].
    + apply set_eq. intros k. rewrite <- Hdom, Hd2, Hks. by rewrite elem_of_list_to_set.
    + intros k v j Hv Hj. destruct (Hk k) as (v' & j' & ? & ? & ?); [|by simplify_eq/=].
      apply Hks. rewrite Hdom. by eapply elem_of_dom_2.
Qed.

Lemma copy_slice_made (copy : any → mem → option (any * mem)) (vs : list any)
    (js : list json) (m : mem) :
  length vs = length js →
  (∀ i v j, vs !! i = Some v → js !! i = Some j → ∀ m', m ⊆ m' → made m' j (copy v m')) →
  made m (JArr js)
    (let '(out, m1) := alloc (SliceCell (replicate (length vs) ANull)) m in
     m2 ← copy_loop set_index copy out (imap pair vs) m1; Some (ASlice out, m2)).
Proof.
  intros Hlen Hc. set (c0 := SliceCell _). destruct (alloc_fresh_loc c0 m) as [Ho _].
  pose proof (apart_start (K := nat) m c0) as Hap.
  assert ((imap pair vs).*1 = seq 0 (length vs)) as Hfst.
  { clear. apply list_eq. intros i. rewrite list_lookup_fmap, list_lookup_imap.
    destruct (vs !! i) as [v|] eqn:E; simpl.
    - symmetry. apply lookup_seq. apply lookup_lt_Some in E. lia.
    - symmetry. apply lookup_seq_ge. by apply lookup_ge_None in E. }
  unfold alloc in *. simpl in *. set (out := fresh (dom m)) in *.
  destruct (copy_loop_spec set_index slice_get (slice_written (length vs)) copy (λ i, js !! i) m
    out Ho (slice_set_get _) (imap pair vs) [] _ _ Hap)
    as (m2 & fs & -> & Hap2 & c & Hc2 & (vs2 & -> & Hl2) & Hk).
  - exists c0. rewrite lookup_insert_eq. repeat split; [|set_solver].
    eexists. split; [done|]. apply length_replicate.
  - intros i v Hin. apply elem_of_lookup_imap in Hin as (i' & v' & [= -> ->] & Hv).
    destruct (lookup_lt_is_Some_2 js i') as [j Hj].
    { rewrite <- Hlen. by eapply lookup_lt_Some. }
    exists j. split; [done|]. by apply (Hc i' v').
  - intros ks1 k ks2 v c Hk (vs1 & -> & Hl1). simpl.
    assert (k < length vs)%nat as Hlt.
    { assert (k ∈ seq 0 (length vs)) as Hin by (rewrite <- Hfst, Hk; set_solver).
      apply elem_of_seq in Hin. lia. }
    rewrite decide_True by lia. eexists. split; [done|]. eexists. split; [done|].
    by rewrite length_insert.
  - destruct (apart_out m m2 out fs Ho ltac:(by eexists) Hap2) as (Hf & Hof & HF & HFd).
    destruct Hap2 as (Hsub & Hdis & Hout & _). simpl in *.
    eexists _, m2, _. split; [done|]. split; [done|]. split; [|by split].
    eapply (tree_slice m2 out vs2 js fs); [done|congruence| |done..].
    intros i v j Hv Hj. destruct (Hk i) as (v' & j' & ? & ? & ?); [|by simplify_eq/=].
    rewrite Hfst. apply elem_of_seq. apply lookup_lt_Some in Hv. lia.
Qed.

(** The copy of a document is that document, in new cells. *)
Lemma mem_deepCopyValue_ok (n : nat) (v : any) (j : json) (m : mem) :
  shows m v j → (jsize j ≤ n)%nat → made m j (mem_deepCopyValue ord n v m).
Proof.
  revert v j m. induction n as [|n IH]; intros v j m Hs Hn; [destruct j; simpl in Hn; lia|].
  assert (∀ w i, w = v → i = j → (∀ F, tree m v j F) → made m i (Some (w, m))) as Hscalar.
  { intros w i -> -> Ht. exists v, m, ∅. repeat split; [done|apply Ht|set_solver..]. }
  destruct Hs as [| | | |l vs js Hl Hlen Hs|l kv js Hl Hdom Hs]; simpl in Hn;
    try by apply Hscalar; [..|constructor].
  - simpl. unfold slice_at. rewrite Hl. apply (copy_slice_made _ vs js m Hlen).
    intros i v j Hv Hj m' Hm. apply IH; [by eapply shows_sub; eauto|].
    apply list_elem_of_lookup_2, (foldr_sum_elem jsize) in Hj. lia.
  - simpl. unfold map_at. rewrite Hl. apply (copy_map_made _ kv js m Hdom).
    intros k v j Hv Hj m' Hm. apply IH; [by eapply shows_sub; eauto|].
    apply (map_fold_sum_lookup jsize) in Hj. lia.
Qed.
End CopyCorrect.

(** ** Writing into a tree *)

(** From memory [m] to [m']: of what was there only cells of [F] may have changed, and the
    cells of [F'] are cells of [F] or new. *)
Record grows (m : mem) (F : gset loc) (m' : mem) (F' : gset loc) : Prop := {
  grows_kept : ∀ x, x ∈ dom m → x ∉ F → m' !! x = m !! x;
  grows_dom : dom m ⊆ dom m';
  grows_in : F' ⊆ dom m';
  grows_new : ∀ x, x ∈ F' → x ∈ F ∨ x ∉ dom m
}.

Lemma grows_trans (m1 m2 m3 : mem) (F1 F2 F3 : gset loc) :
  grows m1 F1 m2 F2 → grows m2 F2 m3 F3 → grows m1 F1 m3 F3.
Proof.
  intros [K1 D1 I1 N1] [K2 D2 I2 N2]. split; [|set_solver|done|].
  - intros x Hx HF. rewrite K2; [by apply K1|set_solver|].
    intros Hx2. destruct (N1 x Hx2); done.
  - intros x Hx. destruct (N2 x Hx) as [HF|HF]; [by apply N1|]. right. set_solver.
Qed.

(** A tree of new cells that only grows leaves the old memory as it was. *)
Lemma grows_outside (m0 m m' : mem) (F F' : gset loc) :
  grows m F m' F' → m0 ⊆ m → F ## dom m0 → m0 ⊆ m' ∧ F' ## dom m0.
Proof.
  intros [K D I N] Hm HF. assert (dom m0 ⊆ dom m) as Hd by by apply subseteq_dom. split.
  - apply map_subseteq_spec. intros x c Hx. assert (x ∈ dom m0) by by eapply elem_of_dom_2.
    rewrite K; [by apply (lookup_weaken m0)|set_solver..].
  - intros x Hx Hx0. destruct (N x Hx); set_solver.
Qed.

(** A field of a tree: its own cells, and what the tree is when the field is replaced. *)
Lemma tree_field (m : mem) (l : loc) (p : rep) (F : gset loc) (k : string) :
  tree m (AMap l) (JObj p) F →
  ∃ kv Fk, m !! l = Some (MapCell kv) ∧ dom kv = dom p ∧ Fk ⊆ F ∧ l ∉ Fk ∧ l ∈ F ∧
    (∀ v j, kv !! k = Some v → p !! k = Some j → tree m v j Fk) ∧
    ∀ m' v' j' G, m' !! l = Some (MapCell (<[k := v']> kv)) →
      (∀ x, x ∈ F → x ∉ Fk → x ≠ l → m' !! x = m !! x) →
      tree m' v' j' G → (∀ x, x ∈ G → x ∈ Fk ∨ x ∉ F) →
      tree m' (AMap l) (JObj (<[k := j']> p)) (F ∪ G).
Proof.
  inversion 1 as [| | | | |? kv ? fs ? Hl Hdom Ht Hdis Hn Hsub HlF]; subst.
  exists kv, (fs k). split_and!; [done|done|apply Hsub|apply Hn|done|by apply Ht|].
  intros m' v' j' G Hl' Hm Hv' HG.
  apply (tree_map m' l (<[k := v']> kv) (<[k := j']> p) (λ k', if decide (k' = k) then G else fs k')).
  - done.
  - by rewrite !dom_insert_L, Hdom.
  - intros k' v j. case_decide as Hk; [subst; rewrite !lookup_insert_eq; by intros [= <-] [= <-]|].
    rewrite !lookup_insert_ne by done. intros Hv Hj. eapply tree_frame; [by eapply Ht|].
    intros x Hx. apply Hm; [by eapply Hsub|specialize (Hdis k' k Hk); set_solver|].
    intros ->. by apply (Hn k').
  - intros k1 k2 Hne. repeat case_decide; subst; [done| | |by apply Hdis].
    + intros x Hx Hx2. destruct (HG x Hx) as [|HF]; [by eapply (Hdis k k2)|].
      apply HF. by eapply Hsub.
    + intros x Hx2 Hx. destruct (HG x Hx) as [|HF]; [by eapply (Hdis k1 k)|].
      apply HF. by eapply Hsub.
  - intros k'. case_decide; [|done]. intros Hx. by destruct (HG l Hx) as [?%Hn|?].
  - intros k'. case_decide; [set_solver|]. specialize (Hsub k'). set_solver.
  - set_solver.
Qed.

(** [payload[k] = v] for a value made of new cells and those of the field before. *)
Lemma tree_put_field (m : mem) (l : loc) (p : rep) (F : gset loc) (k : string) :
  tree m (AMap l) (JObj p) F → F ⊆ dom m →
  ∃ kv Fk, m !! l = Some (MapCell kv) ∧ dom kv = dom p ∧ Fk ⊆ F ∧
    (∀ v j, kv !! k = Some v → p !! k = Some j → tree m v j Fk) ∧
    ∀ m1 v j G, m ⊆ m1 → tree m1 v j G → (∀ x, x ∈ G → x ∈ Fk ∨ x ∉ dom m) → G ⊆ dom m1 →
      ∃ m' F', store set_key l k v m1 = Some m' ∧ tree m' (AMap l) (JObj (<[k := j]> p)) F' ∧
        grows m F m' F' ∧ (∃ kv, m' !! l = Some (MapCell kv) ∧ kv !! k = Some v).
Proof.
  intros Ht HF.
  destruct (tree_field m l p F k Ht) as (kv & Fk & Hl & Hdom & HFk & HlFk & HlF & Hk & Hput).
  exists kv, Fk. split_and!; [done..|]. intros m1 v j G Hm Hv HG HGd.
  assert (m1 !! l = Some (MapCell kv)) as Hl1 by by apply (lookup_weaken m).
  assert (∀ x, x ∈ dom m → m1 !! x = m !! x) as Hkeep.
  { intros x [c Hc]%elem_of_dom. transitivity (Some c); [by apply (lookup_weaken m)|done]. }
  assert (dom m ⊆ dom m1) as Hdm by by apply subseteq_dom.
  assert (l ∉ G) as HlG. { intros Hx. destruct (HG l Hx); [done|]. set_solver. }
  exists (<[l := MapCell (<[k := v]> kv)]> m1), (F ∪ G). unfold store. rewrite Hl1. simpl.
  split; [done|]. split; [|split].
  - apply (Hput _ v j G); [by rewrite lookup_insert_eq| | |].
    + intros x Hx _ Hne. rewrite lookup_insert_ne by done. apply Hkeep. set_solver.
    + eapply tree_frame; [done|]. intros x Hx. rewrite lookup_insert_ne; [done|set_solver].
    + intros x Hx. destruct (HG x Hx); [by left|]. right. set_solver.
  - split; rewrite ?dom_insert_L; [|set_solver..|].
    + intros x Hx HxF. rewrite lookup_insert_ne by set_solver. by apply Hkeep.
    + intros x [Hx|Hx]%elem_of_union; [by left|]. destruct (HG x Hx); [left|right]; set_solver.
  - eexists. rewrite lookup_insert_eq. split; [done|]. apply lookup_insert_eq.
Qed.

Lemma tree_put (m m1 : mem) (l : loc) (p : rep) (F : gset loc) (k : string) (v : any) (j : json)
    (G : gset loc) :
  tree m (AMap l) (JObj p) F → F ⊆ dom m → m ⊆ m1 → tree m1 v j G → G ## dom m → G ⊆ dom m1 →
  ∃ m' F', store set_key l k v m1 = Some m' ∧ tree m' (AMap l) (JObj (<[k := j]> p)) F' ∧
    grows m F m' F' ∧ (∃ kv, m' !! l = Some (MapCell kv) ∧ kv !! k = Some v).
Proof.
  intros Ht HF Hm Hv HG HGd.
  destruct (tree_put_field m l p F k Ht HF) as (kv & Fk & _ & _ & _ & _ & Hput).
  apply (Hput m1 v j G); [done|done| |done]. intros x Hx. right. set_solver.
Qed.
