(* ===== verification/PayloadWrites.v ===== *)
(** * Writing the payload (internal/controller/lastapplied.go, driver_helpers.go,
    driver_*.go, engine.go)

    The functions that write into the payload map, on the memory of [PayloadMemory], and that
    they do to the document in that map what the value model says, and nothing else. *)

From Stdlib Require Import ZArith Lia.
From stdpp Require Import base gmap strings list.
From S2P Require Import Prelude Json PayloadMemory JsonText GoError LastApplied ApiTypes World Sim DriverHelpers Drivers DriverExact Engine.

Local Open Scope string_scope.
Local Open Scope list_scope.

(** ** Ranging over a map *)

(** Statements that only look at and write the key they are for can be run in any order. *)
Lemma foldl_keywise {A V} (upd : string → A → gmap string V → gmap string V)
    (values : gmap string A) (es : list (string * A)) (p : gmap string V) (k : string) :
  (∀ k v q k', k' ≠ k → upd k v q !! k' = q !! k') →
  (∀ k v q q', q !! k = q' !! k → upd k v q !! k = upd k v q' !! k) →
  es ≡ₚ map_to_list values →
  foldl (λ q e, upd e.1 e.2 q) p es !! k =
    match values !! k with Some v => upd k v p !! k | None => p !! k end.
Proof.
  intros Hne Heq Hes.
  assert (NoDup es.*1) as Hnd by (rewrite Hes; apply NoDup_fst_map_to_list).
  assert (values = list_to_map es) as ->.
  { rewrite <- (list_to_map_to_list values). symmetry. by apply list_to_map_proper. }
  clear Hes. revert p. induction es as [|[k' v] es IH]; intros p.
  { simpl. by rewrite lookup_empty. }
  apply NoDup_cons in Hnd as [Hk' Hnd]. simpl in *. rewrite IH by done.
  destruct (decide (k = k')) as [->|Hk].
  - rewrite lookup_insert_eq, not_elem_of_list_to_map_1 by done. done.
  - rewrite lookup_insert_ne by done. destruct (list_to_map es !! k); [|by apply Hne].
    apply Heq. by apply Hne.
Qed.

(** ** Operations on a map that is a tree *)

(** [op] on the map at [l] does [f] to the document there. *)
Definition writes (op : mem → option mem) (l : loc) (f : rep → rep) : Prop :=
  ∀ m p F, tree m (AMap l) (JObj p) F → F ⊆ dom m →
    ∃ m' F', op m = Some m' ∧ tree m' (AMap l) (JObj (f p)) F' ∧ grows m F m' F'.

Lemma grows_refl (m : mem) (F : gset loc) : F ⊆ dom m → grows m F m F.
Proof. split; auto. Qed.

Lemma writes_id (l : loc) : writes Some l id.
Proof. intros m p F Ht HF. exists m, F. split; [done|]. split; [done|]. by apply grows_refl. Qed.

Lemma writes_comp (op1 op2 : mem → option mem) (l : loc) (f g : rep → rep) :
  writes op1 l f → writes op2 l g → writes (λ m, op1 m ≫= op2) l (g ∘ f).
Proof.
  intros H1 H2 m p F Ht HF. destruct (H1 m p F Ht HF) as (m1 & F1 & -> & Ht1 & G1).
  destruct (H2 m1 (f p) F1 Ht1) as (m2 & F2 & E2 & Ht2 & G2); [by apply (grows_in m F m1 F1)|].
  exists m2, F2. split; [done|]. split; [done|]. by eapply grows_trans.
Qed.

Lemma writes_ext (op : mem → option mem) (l : loc) (f g : rep → rep) :
  (∀ p, f p = g p) → writes op l f → writes op l g.
Proof. intros Hfg H m p F. rewrite <- Hfg. apply H. Qed.

(** [for k, v := range kv { f(k, v) }] *)
Fixpoint mem_range {A} (f : string → A → mem → option mem) (es : list (string * A)) (m : mem)
    : option mem :=
  match es with
  | [] => Some m
  | (k, v) :: es => f k v m ≫= mem_range f es
  end.

Lemma writes_range {A} (op : string → A → mem → option mem) (l : loc)
    (f : string → A → rep → rep) (es : list (string * A)) :
  (∀ k v, writes (op k v) l (f k v)) →
  writes (mem_range op es) l (λ p, foldl (λ p kv, f kv.1 kv.2 p) p es).
Proof.
  intros Hop. induction es as [|[k v] es IH]; [apply writes_id|].
  exact (writes_comp _ _ l _ _ (Hop k v) IH).
Qed.

(** [payload[k] = v] for a string, or for a map or a slice just made. *)
Lemma writes_new (l : loc) (k : string) (make : mem → option (any * mem)) (j : json) :
  (∀ m, made m j (make m)) →
  writes (λ m, '(v, m1) ← make m; store set_key l k v m1) l <[k := j]>.
Proof.
  intros Hmake m p F Ht HF. destruct (Hmake m) as (v & m1 & G & -> & Hm & Hv & HG & HGd). simpl.
  destruct (tree_put m m1 l p F k v j G) as (m' & F' & E & Ht' & Hg & _); [done..|].
  by exists m', F'.
Qed.

Lemma made_string (s : string) (m : mem) : made m (JStr s) (Some (AStr s, m)).
Proof. exists (AStr s), m, ∅. repeat split; [done|constructor|set_solver..]. Qed.

Lemma writes_string (l : loc) (k s : string) :
  writes (store set_key l k (AStr s)) l <[k := JStr s]>.
Proof. apply (writes_new l k (λ m, Some (AStr s, m))), made_string. Qed.

(** ** Maps and slices inside the payload *)

(** [x, _ := payload[k].(map[string]any); if x == nil { x = map[string]any{}; payload[k] = x }] *)
Definition mem_field_map (l : loc) (k : string) (m : mem) : option (loc * mem) :=
  kv ← map_at l m;
  match kv !! k with
  | Some (AMap x) => Some (x, m)
  | _ => let '(x, m1) := alloc (MapCell ∅) m in
         m2 ← store set_key l k (AMap x) m1; Some (x, m2)
  end.

(** A statement on the map that [payload[k]] is, or becomes. *)
Definition in_field (l : loc) (k : string) (op : loc → mem → option mem) (m : mem) : option mem :=
  '(x, m1) ← mem_field_map l k m; op x m1.

(** [list, _ := attrs[key].([]any); attrs[key] = append(list, value)] *)
Definition mem_append (l : loc) (key value : string) (m : mem) : option mem :=
  kv ← map_at l m;
  list ← match kv !! key with Some (ASlice x) => slice_at x m | _ => Some [] end;
  let '(x, m1) := alloc (SliceCell (list ++ [AStr value])) m in
  store set_key l key (ASlice x) m1.

Definition mem_stampStringAttribute (payload : loc) (key value : string) : mem → option mem :=
  in_field payload "attributes" (λ attrs, store set_key attrs key (AStr value)).

Definition mem_stampSliceAttribute (payload : loc) (key value : string) : mem → option mem :=
  in_field payload "attributes" (λ attrs, mem_append attrs key value).

(** [for key, value := range values { m[key] = value }] on [payload[k]]; [es] are the values in
    the order they are visited. *)
Definition mem_inject_values (payload : loc) (k : string) (es : list (string * string))
    : mem → option mem :=
  in_field payload k (λ x, mem_range (λ key value, store set_key x key (AStr value)) es).

Lemma alloc_tree_map (m : mem) :
  made m (JObj ∅) (let '(x, m1) := alloc (MapCell ∅) m in Some (AMap x, m1)).
Proof.
  destruct (alloc_fresh_loc (MapCell ∅) m) as [Hf Hm]. unfold alloc in *. simpl in *.
  exists (AMap (fresh (dom m))), (<[fresh (dom m) := MapCell ∅]> m), {[fresh (dom m)]}.
  split; [done|]. split; [done|]. split; [|set_solver].
  apply (tree_map _ _ ∅ ∅ (λ _, ∅)); [by rewrite lookup_insert_eq|set_solver..].
Qed.

Lemma alloc_tree_slice (m : mem) :
  made m (JArr []) (let '(x, m1) := alloc (SliceCell []) m in Some (ASlice x, m1)).
Proof.
  destruct (alloc_fresh_loc (SliceCell []) m) as [Hf Hm]. unfold alloc in *. simpl in *.
  exists (ASlice (fresh (dom m))), (<[fresh (dom m) := SliceCell []]> m), {[fresh (dom m)]}.
  split; [done|]. split; [done|]. split; [|set_solver].
  apply (tree_slice _ _ [] [] (λ _, ∅)); [by rewrite lookup_insert_eq|done|set_solver..].
Qed.

(** The value a tree has at a key and the document's are of one kind. *)
Lemma field_map_tree (m : mem) (v : any) (j : json) (F : gset loc) :
  tree m v j F → (∃ x a, v = AMap x ∧ j = JObj a) ∨ as_map j = None ∧ ∀ x, v ≠ AMap x.
Proof. destruct 1; eauto; by right. Qed.

(** The map at [l] has the map at [x] under [k]. *)
Definition points (m : mem) (l : loc) (k : string) (x : loc) : Prop :=
  ∃ kv, m !! l = Some (MapCell kv) ∧ kv !! k = Some (AMap x).

Lemma mem_field_map_ok (l : loc) (k : string) (m : mem) (p : rep) (F : gset loc) :
  tree m (AMap l) (JObj p) F → F ⊆ dom m →
  ∃ x m' F', mem_field_map l k m = Some (x, m') ∧
    tree m' (AMap l) (JObj (<[k := JObj (default ∅ (field_map p k))]> p)) F' ∧
    grows m F m' F' ∧ points m' l k x.
Proof.
  intros Ht HF. destruct (tree_field m l p F k Ht) as (kv & Fk & Hl & Hdom & _ & _ & _ & Hk & _).
  assert ((∃ x a, kv !! k = Some (AMap x) ∧ p !! k = Some (JObj a)) ∨
    field_map p k = None ∧ ∀ x, kv !! k ≠ Some (AMap x)) as [(x & a & Ex & Ea)|[Hn Hx]].
  { unfold field_map. destruct (kv !! k) as [v|] eqn:Ev.
    - assert (k ∈ dom p) as [j Hj]%elem_of_dom by (rewrite <- Hdom; by eapply elem_of_dom_2).
      rewrite Hj. simpl. destruct (field_map_tree m v j Fk) as [(x & a & -> & ->)|[-> Hne]]; [by apply Hk| |].
      + left. by exists x, a.
      + right. split; [done|]. intros x [= E]. by apply (Hne x).
    - right. split; [|done]. assert (k ∉ dom p) as ->%not_elem_of_dom; [|done].
      rewrite <- Hdom. by apply not_elem_of_dom. }
  - exists x, m, F. unfold mem_field_map, map_at. rewrite Hl. simpl. rewrite Ex.
    assert (field_map p k = Some a) as -> by (unfold field_map; by rewrite Ea).
    split; [done|]. split; [by rewrite insert_id|]. split; [by apply grows_refl|by exists kv].
  - unfold mem_field_map, map_at. rewrite Hl. simpl. rewrite Hn. simpl.
    destruct (alloc_tree_map m) as (v & m1 & G & E & Hm & Hv & HG & HGd).
    destruct (alloc (MapCell ∅) m) as [x m1'] eqn:Ea. injection E as <- <-.
    destruct (tree_put m m1' l p F k (AMap x) (JObj ∅) G)
      as (m' & F' & E' & Ht' & Hg & kv' & Hkv' & Hkx); [done..|].
    exists x, m', F'. split; [|split; [done|split; [done|by exists kv']]].
    unfold alloc in Ea. injection Ea as <- <-.
    destruct (kv !! k) as [[| | | | |y]|]; try by rewrite E'. by destruct (Hx y).
Qed.

(** A map inside a tree: what is done to it is done to the field. *)
Lemma tree_inner (m : mem) (l x : loc) (p a : rep) (F : gset loc) (k : string) :
  tree m (AMap l) (JObj p) F → F ⊆ dom m → points m l k x → p !! k = Some (JObj a) →
  ∃ Fk, tree m (AMap x) (JObj a) Fk ∧ Fk ⊆ dom m ∧
    ∀ m' a' F', tree m' (AMap x) (JObj a') F' → grows m Fk m' F' →
      ∃ F'', tree m' (AMap l) (JObj (<[k := JObj a']> p)) F'' ∧ grows m F m' F''.
Proof.
  intros Ht HF (kv0 & Hl0 & Hx) Hp.
  destruct (tree_field m l p F k Ht) as (kv & Fk & Hl & _ & HFk & HlFk & HlF & Hk & Hput).
  rewrite Hl in Hl0. injection Hl0 as <-. exists Fk. split; [by apply Hk|].
  split; [set_solver|]. intros m' a' F' Ht' [K D I N]. exists (F ∪ F'). split.
  - apply (Hput m' (AMap x) (JObj a') F'); [| |done|].
    + rewrite insert_id by done. rewrite K; [done|set_solver|done].
    + intros y Hy Hyk _. apply K; [set_solver|done].
    + intros y Hy. destruct (N y Hy); [by left|]. right. set_solver.
  - split; [|done|set_solver|].
    + intros y Hy HyF. apply K; [done|set_solver].
    + intros y [Hy|Hy]%elem_of_union; [by left|]. destruct (N y Hy); [left|right]; set_solver.
Qed.

Lemma writes_field (l : loc) (k : string) (op : loc → mem → option mem) (f : rep → rep) :
  (∀ x, writes (op x) x f) →
  writes (in_field l k op) l (λ p, <[k := JObj (f (default ∅ (field_map p k)))]> p).
Proof.
  intros Hop m p F Ht HF. unfold in_field.
  destruct (mem_field_map_ok l k m p F Ht HF) as (x & m1 & F1 & -> & Ht1 & G1 & Hx). simpl.
  destruct (tree_inner _ _ _ _ _ _ _ Ht1 (grows_in _ _ _ _ G1) Hx (lookup_insert_eq _ _ _))
    as (Fk & Hk & HFk & Hout).
  destruct (Hop x m1 _ Fk Hk HFk) as (m2 & F2 & E2 & Ht2 & G2).
  destruct (Hout _ _ _ Ht2 G2) as (F3 & Ht3 & G3). exists m2, F3. split; [done|].
  rewrite insert_insert_eq in Ht3. split; [done|]. by eapply grows_trans.
Qed.

(** [append] makes a slice of the elements there are and one more. *)
Lemma slice_append (m m1 : mem) (s x : loc) (vs : list any) (js : list json) (F : gset loc)
    (value : string) :
  tree m (ASlice s) (JArr js) F → slice_at s m = Some vs → F ⊆ dom m →
  m1 = <[x := SliceCell (vs ++ [AStr value])]> m → x ∉ dom m →
  tree m1 (ASlice x) (JArr (js ++ [JStr value])) (F ∪ {[x]}).
Proof.
  inversion 1 as [| | | |? vs' ? fs ? Hl Hlen Ht Hdis Hn Hsub HlF|]; subst.
  unfold slice_at. rewrite Hl. intros [= ->] HF -> Hx.
  apply (tree_slice _ x (vs ++ [AStr value]) (js ++ [JStr value])
    (λ i, if decide (i < length vs)%nat then fs i else ∅)).
  - by rewrite lookup_insert_eq.
  - rewrite !length_app. simpl. lia.
  - intros i v j Hv Hj. case_decide as Hi.
    + rewrite lookup_app_l in Hv by done. rewrite lookup_app_l in Hj by lia.
      eapply tree_frame; [by eapply Ht|]. intros y Hy. rewrite lookup_insert_ne; [done|].
      intros ->. by apply Hx, HF, (Hsub i).
    + rewrite lookup_app_r in Hv by lia. rewrite lookup_app_r, <- Hlen in Hj by lia.
      destruct (i - length vs)%nat; [|done]. simplify_eq/=. constructor.
  - intros i i' Hi. repeat case_decide; [by apply Hdis|set_solver..].
  - intros i. case_decide; [|set_solver]. intros Hi. by apply Hx, HF, (Hsub i).
  - intros i. specialize (Hsub i). case_decide; set_solver.
  - set_solver.
Qed.

Lemma slice_single (m : mem) (x : loc) (value : string) :
  tree (<[x := SliceCell [AStr value]]> m) (ASlice x) (JArr [JStr value]) {[x]}.
Proof.
  apply (tree_slice _ x [AStr value] [JStr value] (λ _, ∅)); [by rewrite lookup_insert_eq|done| |set_solver..].
  intros [|i] v j; [|done]. intros [= <-] [= <-]. constructor.
Qed.

Lemma field_list_tree (m : mem) (v : any) (j : json) (F : gset loc) :
  tree m v j F →
  (∃ s vs js, v = ASlice s ∧ j = JArr js ∧ slice_at s m = Some vs) ∨
  as_list j = None ∧ ∀ s, v ≠ ASlice s.
Proof.
  destruct 1 as [| | | |s vs js fs F Hs| ]; [by right..| |by right].
  left. exists s, vs, js. unfold slice_at. by rewrite Hs.
Qed.

Lemma writes_append (l : loc) (key value : string) :
  writes (mem_append l key value) l
    (λ a, <[key := JArr (default [] (field_list a key) ++ [JStr value])]> a).
Proof.
  intros m p F Ht HF.
  destruct (tree_put_field m l p F key Ht HF) as (kv & Fk & Hl & Hdom & HFk & Hk & Hput).
  unfold mem_append, map_at. rewrite Hl. simpl. pose proof (is_fresh (dom m)) as Hfr.
  set (x := fresh (dom m)) in *.
  assert (∃ list G, match kv !! key with Some (ASlice y) => slice_at y m | _ => Some [] end
    = Some list ∧ G ⊆ Fk ∧ tree (<[x := SliceCell (list ++ [AStr value])]> m) (ASlice x)
      (JArr (default [] (field_list p key) ++ [JStr value])) (G ∪ {[x]}))
    as (list & G & -> & HG & Hnew).
  { unfold field_list. destruct (kv !! key) as [v|] eqn:Ev.
    - assert (key ∈ dom p) as [j Hj]%elem_of_dom by (rewrite <- Hdom; by eapply elem_of_dom_2).
      specialize (Hk v j eq_refl Hj). rewrite Hj. simpl.
      destruct (field_list_tree m v j Fk Hk) as [(s & vs & js & -> & -> & Hs)|[-> Hne]].
      + exists vs, Fk. split; [done|]. split; [done|]. simpl.
        apply (slice_append m _ s x vs js Fk); [done|done|set_solver|done|done].
      + exists [], ∅. split; [by destruct v as [| | | |s|]; try by destruct (Hne s)|].
        split; [set_solver|]. rewrite union_empty_l_L. apply slice_single.
    - assert (key ∉ dom p) as ->%not_elem_of_dom by (rewrite <- Hdom; by apply not_elem_of_dom).
      exists [], ∅. split; [done|]. split; [set_solver|]. rewrite union_empty_l_L. apply slice_single. }
  simpl. destruct (Hput (<[x := SliceCell (list ++ [AStr value])]> m) (ASlice x) _ _
    (insert_subseteq _ _ _ (proj1 (not_elem_of_dom _ _) Hfr)) Hnew)
    as (m' & F' & E & Ht' & Hg & _).
  - intros y [Hy|Hy]%elem_of_union; [left; set_solver|]. right. set_solver.
  - rewrite dom_insert_L. set_solver.
  - by exists m', F'.
Qed.

Lemma writes_stampStringAttribute (l : loc) (key value : string) :
  writes (mem_stampStringAttribute l key value) l (λ p, stampStringAttribute p key value).
Proof. exact (writes_field _ _ _ _ (λ x, writes_string x key value)). Qed.

Lemma writes_stampSliceAttribute (l : loc) (key value : string) :
  writes (mem_stampSliceAttribute l key value) l (λ p, stampSliceAttribute p key value).
Proof. exact (writes_field _ _ _ _ (λ x, writes_append x key value)). Qed.

Lemma writes_inject_values (l : loc) (k : string) (values : gmap string string)
    (es : list (string * string)) :
  es ≡ₚ map_to_list values →
  writes (mem_inject_values l k es) l (λ p, inject_values p k values).
Proof.
  intros Hes. eapply writes_ext; [|exact (writes_field _ _ _ _ (λ x,
    writes_range _ x _ es (λ key value, writes_string x key value)))].
  intros p. unfold inject_values. do 2 f_equal. generalize (default ∅ (field_map p k)). intros a.
  apply map_eq. intros key. rewrite (foldl_keywise (λ key value, <[key := JStr value]>) values).
  - rewrite lookup_union, lookup_fmap. destruct (values !! key); simpl.
    + rewrite lookup_insert_eq. by destruct (a !! key).
    + by rewrite (left_id None _).
  - intros. by rewrite lookup_insert_ne.
  - intros. by rewrite !lookup_insert_eq.
  - done.
Qed.

(** ** EffectivePayload *)

(** [zeroFor]; [None] when the value cannot be reset. *)
Definition mem_zeroFor (previous : json) (m : mem) : option (any * mem) :=
  match previous with
  | JStr _ => Some (AStr "", m)
  | JBool _ => Some (ABool false, m)
  | JArr _ => let '(x, m1) := alloc (SliceCell []) m in Some (ASlice x, m1)
  | JObj _ => let '(x, m1) := alloc (MapCell ∅) m in Some (AMap x, m1)
  | _ => None
  end.

Definition mem_reset (payload : loc) (k : string) (previous : json) (m : mem) : option mem :=
  kv ← map_at payload m;
  match kv !! k with
  | Some _ => Some m
  | None => match mem_zeroFor previous m with
            | Some (zero, m1) => store set_key payload k zero m1
            | None => Some m
            end
  end.

Definition reset_key (k : string) (previous : json) (payload : rep) : rep :=
  match payload !! k with
  | Some _ => payload
  | None => match zeroFor previous with Some zero => <[k := zero]> payload | None => payload end
  end.

Lemma mem_zeroFor_ok (previous : json) :
  match zeroFor previous with
  | Some zero => ∀ m, made m zero (mem_zeroFor previous m)
  | None => ∀ m, mem_zeroFor previous m = None
  end.
Proof.
  destruct previous as [| | | |js|js]; simpl; intros m; try done.
  - exists (ABool false), m, ∅. repeat split; [done|constructor|set_solver..].
  - apply made_string.
  - apply alloc_tree_slice.
  - apply alloc_tree_map.
Qed.

Lemma writes_reset (l : loc) (k : string) (previous : json) :
  writes (mem_reset l k previous) l (reset_key k previous).
Proof.
  intros m p F Ht HF. destruct (tree_field m l p F k Ht) as (kv & _ & Hl & Hdom & _).
  unfold mem_reset, map_at, reset_key. rewrite Hl. simpl.
  destruct (kv !! k) as [v|] eqn:Ev.
  - assert (k ∈ dom p) as [j ->]%elem_of_dom by (rewrite <- Hdom; by eapply elem_of_dom_2).
    by apply writes_id.
  - assert (k ∉ dom p) as ->%not_elem_of_dom by (rewrite <- Hdom; by apply not_elem_of_dom).
    pose proof (mem_zeroFor_ok previous) as Hz. destruct (zeroFor previous) as [zero|].
    + destruct (writes_new l k (mem_zeroFor previous) zero Hz m p F Ht HF) as (m' & F' & E & H).
      exists m', F'. split; [|done]. rewrite <- E.
      by destruct (Hz m) as (v & m1 & G & -> & _).
    + rewrite (Hz m). by apply writes_id.
Qed.

(** ** The copy and the overlay on the server's representation *)

Definition mem_delete (l : loc) (k : string) (m : mem) : option mem :=
  kv ← map_at l m; Some (<[l := MapCell (delete k kv)]> m).

Definition mem_overlay (remote : loc) (k : string) (v : any) : mem → option mem :=
  match v with ANull => mem_delete remote k | _ => store set_key remote k v end.

Definition overlay (k : string) (v : any) (kv : gmap string any) : gmap string any :=
  match v with ANull => delete k kv | _ => <[k := v]> kv end.

(** Writes that all go into one cell. *)
Lemma range_cell {A} (op : string → A → mem → option mem) (l : loc)
    (upd : string → A → gmap string any → gmap string any) (es : list (string * A))
    (kv : gmap string any) (m : mem) :
  (∀ k v kv m, m !! l = Some (MapCell kv) → op k v m = Some (<[l := MapCell (upd k v kv)]> m)) →
  m !! l = Some (MapCell kv) →
  mem_range op es m = Some (<[l := MapCell (foldl (λ q e, upd e.1 e.2 q) kv es)]> m).
Proof.
  intros Hop. revert kv m. induction es as [|[k v] es IH]; intros kv m Hl; simpl.
  - by rewrite insert_id.
  - rewrite (Hop k v kv m Hl). simpl. rewrite (IH (upd k v kv)) by apply lookup_insert_eq.
    by rewrite insert_insert_eq.
Qed.

Lemma store_cell (l : loc) (k : string) (v : any) (kv : gmap string any) (m : mem) :
  m !! l = Some (MapCell kv) →
  store set_key l k v m = Some (<[l := MapCell (<[k := v]> kv)]> m).
Proof. intros Hl. unfold store. by rewrite Hl. Qed.

Lemma overlay_cell (l : loc) (k : string) (v : any) (kv : gmap string any) (m : mem) :
  m !! l = Some (MapCell kv) →
  mem_overlay l k v m = Some (<[l := MapCell (overlay k v kv)]> m).
Proof.
  intros Hl. destruct v; try by apply store_cell. simpl. unfold mem_delete, map_at. by rewrite Hl.
Qed.

Section Ordered.
(** The order in which [range] visits a map. *)
Context (ord : ∀ A, list (string * A) → list (string * A)).

Definition mem_cloneMap (l : loc) (m : mem) : option (loc * mem) :=
  kv ← map_at l m;
  let '(out, m1) := alloc (MapCell ∅) m in
  m2 ← mem_range (store set_key out) (ord any (map_to_list kv)) m1;
  Some (out, m2).

Definition mem_MergePayload (remote payload : loc) (m : mem) : option mem :=
  kv ← map_at payload m;
  mem_range (mem_overlay remote) (ord any (map_to_list kv)) m.

(** [n] bounds the depth of the spec. *)
Definition mem_EffectivePayload (n : nat) (specMap : loc) (lastAppliedJSON : string) (m : mem)
    : option (GoError + loc * mem) :=
  '(v, m1) ← mem_deepCopyValue (ord any) n (AMap specMap) m;
  match v with
  | AMap payload =>
      if String.eqb lastAppliedJSON "" then Some (inr (payload, m1))
      else match unmarshal_map lastAppliedJSON with
           | None => Some (inl (Wrapped "decode last-applied annotation: " JSONError ""))
           | Some last =>
               m2 ← mem_range (mem_reset payload) (ord json (map_to_list last)) m1;
               Some (inr (payload, m2))
           end
  | _ => None
  end.

Hypothesis ord_perm : ∀ A es, ord A es ≡ₚ es.

Lemma shows_map_iff (m : mem) (l : loc) (js : rep) :
  shows m (AMap l) (JObj js) ↔
  ∃ kv, m !! l = Some (MapCell kv) ∧ ∀ k, option_Forall2 (shows m) (kv !! k) (js !! k).
Proof.
  split.
  - inversion 1 as [| | | | |? kv ? Hl Hdom Hs]; subst. exists kv. split; [done|]. intros k.
    assert (is_Some (kv !! k) ↔ is_Some (js !! k)) as Hk by by rewrite <- !elem_of_dom, Hdom.
    destruct (kv !! k) eqn:?, (js !! k) eqn:?; [constructor; by eapply Hs| | |constructor].
    + by destruct (proj1 Hk ltac:(eauto)).
    + by destruct (proj2 Hk ltac:(eauto)).
  - intros (kv & Hl & Hk). apply (shows_map m l kv js Hl).
    + apply set_eq. intros k. rewrite !elem_of_dom. specialize (Hk k).
      inversion Hk; split; intros [? ?]; by eauto.
    + intros k v j Hv Hj. specialize (Hk k). rewrite Hv, Hj in Hk. by inversion Hk.
Qed.

Lemma mem_cloneMap_ok (l : loc) (kv : gmap string any) (m : mem) :
  m !! l = Some (MapCell kv) →
  ∃ out, out ∉ dom m ∧ mem_cloneMap l m = Some (out, <[out := MapCell kv]> m).
Proof.
  intros Hl. unfold mem_cloneMap, map_at. rewrite Hl. simpl.
  exists (fresh (dom m)). split; [apply is_fresh|].
  rewrite (range_cell (store set_key (fresh (dom m))) (fresh (dom m)) (λ k v, <[k := v]>) _ ∅);
    [| |by rewrite lookup_insert_eq].
  - simpl. rewrite insert_insert_eq. do 4 f_equal. apply map_eq. intros k.
    rewrite (foldl_keywise (λ k v, <[k := v]>) kv).
    + destruct (kv !! k); [apply lookup_insert_eq|done].
    + intros. by rewrite lookup_insert_ne.
    + intros. by rewrite !lookup_insert_eq.
    + apply ord_perm.
  - intros. by apply store_cell.
Qed.

Lemma mem_MergePayload_ok (remote payload : loc) (r p : gmap string any) (m : mem) :
  m !! remote = Some (MapCell r) → m !! payload = Some (MapCell p) →
  ∃ kv, mem_MergePayload remote payload m = Some (<[remote := MapCell kv]> m) ∧
    ∀ k, kv !! k = match p !! k with
                   | None => r !! k
                   | Some ANull => None
                   | Some v => Some v
                   end.
Proof.
  intros Hr Hp. unfold mem_MergePayload, map_at. rewrite Hp. simpl. eexists.
  split; [apply (range_cell _ _ overlay); [intros; by apply overlay_cell|done]|].
  intros k. rewrite (foldl_keywise overlay p).
  - destruct (p !! k) as [[]|]; simpl; by rewrite ?lookup_insert_eq, ?lookup_delete_eq.
  - intros k' [] q k'' Hne; simpl; by rewrite ?lookup_insert_ne, ?lookup_delete_ne by done.
  - intros k' [] q q' Hq; simpl; by rewrite ?lookup_insert_eq, ?lookup_delete_eq.
  - apply ord_perm.
Qed.

(** The representation sent to the server shares cells with the payload and with the
    representation read, and neither is changed. *)
Lemma merged_shows (remote payload : loc) (r p : rep) (m : mem) :
  shows m (AMap remote) (JObj r) → shows m (AMap payload) (JObj p) →
  ∃ merged m1 m2, mem_cloneMap remote m = Some (merged, m1) ∧
    mem_MergePayload merged payload m1 = Some m2 ∧ m ⊆ m2 ∧
    shows m2 (AMap merged) (JObj (MergePayload r p)).
Proof.
  intros (kr & Hr & Hkr)%shows_map_iff (kp & Hp & Hkp)%shows_map_iff.
  destruct (mem_cloneMap_ok remote kr m Hr) as (out & Hout & Ec).
  assert (m ⊆ <[out := MapCell kr]> m) as Hsub by by apply insert_subseteq, not_elem_of_dom.
  destruct (mem_MergePayload_ok out payload kr kp (<[out := MapCell kr]> m)) as (kv & Em & Hkv).
  { apply lookup_insert_eq. }
  { by apply (lookup_weaken m). }
  rewrite insert_insert_eq in Em.
  assert (m ⊆ <[out := MapCell kv]> m) as Hsub' by by apply insert_subseteq, not_elem_of_dom.
  exists out, (<[out := MapCell kr]> m), (<[out := MapCell kv]> m). do 3 (split; [done|]).
  apply shows_map_iff. exists kv. split; [apply lookup_insert_eq|]. intros k.
  rewrite Hkv, MergePayload_lookup. specialize (Hkr k). specialize (Hkp k).
  destruct Hkp as [v j Hv|].
  - assert (shows (<[out := MapCell kv]> m) v j) as Hv' by by eapply shows_sub.
    destruct Hv; constructor; done.
  - destruct Hkr; constructor. by eapply shows_sub.
Qed.

(** The payload is the one of the value model, in new cells. *)
Lemma mem_EffectivePayload_ok (n : nat) (specMap : loc) (spec : rep) (lastAppliedJSON : string)
    (m : mem) :
  shows m (AMap specMap) (JObj spec) → (jsize (JObj spec) ≤ n)%nat →
  match EffectivePayload spec lastAppliedJSON with
  | inl err => mem_EffectivePayload n specMap lastAppliedJSON m = Some (inl err)
  | inr p => ∃ payload m' F, mem_EffectivePayload n specMap lastAppliedJSON m = Some (inr (payload, m')) ∧
      m ⊆ m' ∧ tree m' (AMap payload) (JObj p) F ∧ F ## dom m ∧ F ⊆ dom m'
  end.
Proof.
  intros Hs Hn. unfold EffectivePayload, mem_EffectivePayload. rewrite deepCopyMap_id.
  destruct (mem_deepCopyValue_ok (ord any) (ord_perm any) n (AMap specMap) (JObj spec) m Hs Hn)
    as (v & m1 & F & -> & Hm & Ht & HF & HFd). simpl.
  assert (∃ payload, v = AMap payload) as [payload ->] by (inversion Ht; eauto).
  destruct (String.eqb lastAppliedJSON ""); [by exists payload, m1, F|].
  destruct (unmarshal_map lastAppliedJSON) as [last|]; [|done].
  destruct (writes_range (mem_reset payload) payload reset_key (ord json (map_to_list last))
    (writes_reset payload) m1 spec F Ht HFd) as (m2 & F2 & -> & Ht2 & G2). simpl.
  destruct (grows_outside m m1 m2 F F2 G2 Hm HF) as [Hm2 HF2].
  exists payload, m2, F2. split; [done|]. split; [done|].
  split; [|split; [done|by apply (grows_in m1 F m2 F2)]].
  erewrite (map_eq (map_fold _ _ _)); [exact Ht2|]. intros k. rewrite reset_lookup.
  rewrite (foldl_keywise reset_key last); [| | |apply ord_perm].
  - unfold reset_key. destruct (last !! k) as [z|], (spec !! k) eqn:E; simpl; rewrite ?E; try done.
    destruct (zeroFor z); by rewrite ?lookup_insert_eq.
  - intros k' z q k'' Hne. unfold reset_key. destruct (q !! k'); [done|].
    destruct (zeroFor z); by rewrite ?lookup_insert_ne.
  - intros k' z q q' Hq. unfold reset_key. rewrite <- Hq.
    destruct (q !! k') eqn:Eq; [congruence|].
    destruct (zeroFor z); rewrite ?lookup_insert_eq; congruence.
Qed.
End Ordered.

(** ** What the drivers write *)

Inductive PayloadOp :=
  | StampString (key value : string)
  | StampSlice (key value : string)
  | InjectValues (k : string) (values : gmap string string)
  | SetString (k value : string).

Definition apply_op (p : rep) (op : PayloadOp) : rep :=
  match op with
  | StampString key value => stampStringAttribute p key value
  | StampSlice key value => stampSliceAttribute p key value
  | InjectValues k values => inject_values p k values
  | SetString k value => <[k := JStr value]> p
  end.

(** The writes of a driver: those of [ManagedMarker], and those that [PreparePayload] makes
    when what it reads is there.  In the code both write into the map they are given. *)
Class PayloadWriter {St S} (drv : Driver St S) := {
  writer_marker : list PayloadOp;
  writer_prepare : Client → ManagedObject S → M St (GoError + list PayloadOp);
  writer_marker_ok (p : rep) : drv_ManagedMarker drv p = foldl apply_op p writer_marker;
  writer_prepare_ok (kc : Client) (obj : ManagedObject S) (p : rep) (w : World St) :
    drv_PreparePayload drv kc obj p w =
    (try ops ← writer_prepare kc obj; mret (inr (foldl apply_op p ops))) w
}.

Section Writers.
Context {St : Type} `{Env St, KubeLib}.

Definition mark_string : list PayloadOp := [StampString ManagedAnnotation ManagedValue].
Definition mark_slice : list PayloadOp := [StampSlice ManagedAnnotation ManagedValue].

Definition prepare_values {S} (k : string) (ref : ManagedObject S → option SecretKeysSelector)
    (kc : Client) (obj : ManagedObject S) : M St (GoError + list PayloadOp) :=
  match ref obj with
  | None => mret (inr [])
  | Some ref =>
      try values ← readSecretValues (GetNamespace (Meta obj)) ref;
      mret (inr [InjectValues k values])
  end.

Definition prepare_secret (kc : Client) (obj : ManagedObject ClientTypes.ClientSpec)
    : M St (GoError + list PayloadOp) :=
  match ClientTypes.SecretRef (GetSpec obj) with
  | None => mret (inr [])
  | Some ref =>
      try value ← readSecretValue (GetNamespace (Meta obj)) ref ClientSecretKey;
      mret (inr [SetString "secret" value])
  end.

Definition prepare_nothing {S} (kc : Client) (obj : ManagedObject S)
    : M St (GoError + list PayloadOp) := mret (inr []).

(** [PreparePayload] reads, and then writes or fails. *)
Lemma try_then {A B C} (m : M St (GoError + A)) (f : A → B) (g : B → C) (w : World St) :
  (try a ← m; mret (inr (g (f a)))) w =
  (try b ← (try a ← m; mret (inr (f a))); mret (inr (g b))) w.
Proof.
  unfold try_bind, mbind, M_bind. destruct (m w) as [[[e|a]|] w']; done.
Qed.

#[export, program] Instance RealmWriter : PayloadWriter (RealmDriver (St := St)) := {|
  writer_marker := mark_string;
  writer_prepare := prepare_values "smtpServer" (λ obj, RealmTypes.SMTPServerSecretRef (GetSpec obj))
|}.
Next Obligation. done. Qed.
Next Obligation.
  intros kc obj p w. simpl. unfold RealmDriver_PreparePayload, prepare_values.
  destruct (RealmTypes.SMTPServerSecretRef (GetSpec obj)); [|done].
  exact (try_then _ (λ v, [InjectValues "smtpServer" v]) (foldl apply_op p) w).
Qed.

#[export, program] Instance ClientWriter : PayloadWriter (ClientDriver (St := St)) := {|
  writer_marker := mark_string; writer_prepare := prepare_secret
|}.
Next Obligation. done. Qed.
Next Obligation.
  intros kc obj p w. simpl. unfold ClientDriver_PreparePayload, prepare_secret.
  destruct (ClientTypes.SecretRef (GetSpec obj)); [|done].
  exact (try_then _ (λ v, [SetString "secret" v]) (foldl apply_op p) w).
Qed.

#[export, program] Instance ClientScopeWriter : PayloadWriter (ClientScopeDriver (St := St)) := {|
  writer_marker := mark_string; writer_prepare := prepare_nothing
|}.
Next Obligation. done. Qed.
Next Obligation. done. Qed.

#[export, program] Instance RealmRoleWriter : PayloadWriter (RealmRoleDriver (St := St)) := {|
  writer_marker := mark_slice; writer_prepare := prepare_nothing
|}.
Next Obligation. done. Qed.
Next Obligation. done. Qed.

#[export, program] Instance IdentityProviderWriter
    : PayloadWriter (IdentityProviderDriver (St := St)) := {|
  writer_marker := [];
  writer_prepare := prepare_values "config" (λ obj, IdentityProviderTypes.ConfigSecretRef (GetSpec obj))
|}.
Next Obligation. done. Qed.
Next Obligation.
  intros kc obj p w. simpl. unfold IdentityProviderDriver_PreparePayload, prepare_values.
  destruct (IdentityProviderTypes.ConfigSecretRef (GetSpec obj)); [|done].
  exact (try_then _ (λ v, [InjectValues "config" v]) (foldl apply_op p) w).
Qed.

#[export, program] Instance GroupWriter : PayloadWriter (GroupDriver (St := St)) := {|
  writer_marker := mark_slice; writer_prepare := prepare_nothing
|}.
Next Obligation. done. Qed.
Next Obligation. done. Qed.
End Writers.

(** ** The payload of a pass *)

Section Pass.
Context (ord : ∀ A, list (string * A) → list (string * A)).
Context {St S : Type} `{Env St} (drv : Driver St S) `{!PayloadWriter drv}.

Definition mem_op (payload : loc) (op : PayloadOp) : mem → option mem :=
  match op with
  | StampString key value => mem_stampStringAttribute payload key value
  | StampSlice key value => mem_stampSliceAttribute payload key value
  | InjectValues k values => mem_inject_values payload k (ord string (map_to_list values))
  | SetString k value => store set_key payload k (AStr value)
  end.

Fixpoint mem_ops (payload : loc) (ops : list PayloadOp) (m : mem) : option mem :=
  match ops with
  | [] => Some m
  | op :: ops => mem_op payload op m ≫= mem_ops payload ops
  end.

(** A write that the memory does not allow is a panic. *)
Definition in_memory {A} (r : option A) : M St A :=
  match r with Some a => mret a | None => panic end.

Definition mem_ManagedMarker (payload : loc) (m : mem) : M St mem :=
  in_memory (mem_ops payload writer_marker m).

Definition mem_PreparePayload (kc : Client) (obj : ManagedObject S) (payload : loc) (m : mem)
    : M St (GoError + mem) :=
  try ops ← writer_prepare kc obj; m' ← in_memory (mem_ops payload ops m); mret (inr m').

(** The payload as [Reconcile] and [handleCreate] make it, and the map sent. *)
Definition mem_create_payload (n : nat) (kc : Client) (obj : ManagedObject S) (specMap : loc)
    (lastApplied : string) (m : mem) : M St (GoError + loc * mem) :=
  try pm ← in_memory (mem_EffectivePayload ord n specMap lastApplied m);
  let '(payload, m) := pm in
  try m ← mem_PreparePayload kc obj payload m;
  m ← mem_ManagedMarker payload m;
  mret (inr (payload, m)).

(** The payload as [Reconcile] and [handleExisting] make it, and the merged map sent. *)
Definition mem_update_payload (n : nat) (kc : Client) (obj : ManagedObject S)
    (specMap remote : loc) (lastApplied : string) (m : mem) : M St (GoError + loc * loc * mem) :=
  try pm ← in_memory (mem_EffectivePayload ord n specMap lastApplied m);
  let '(payload, m) := pm in
  m ← mem_ManagedMarker payload m;
  try m ← mem_PreparePayload kc obj payload m;
  cloned ← in_memory (mem_cloneMap ord remote m);
  let '(merged, m) := cloned in
  m ← in_memory (mem_MergePayload ord merged payload m);
  mret (inr (payload, merged, m)).

(** The same in the value model, as [handleCreate] and [apply_existing] compute it. *)
Definition create_payload (kc : Client) (obj : ManagedObject S) (spec : rep) (lastApplied : string)
    : M St (GoError + rep) :=
  try p ← mret (EffectivePayload spec lastApplied);
  try p ← drv_PreparePayload drv kc obj p;
  mret (inr (drv_ManagedMarker drv p)).

Definition update_payload (kc : Client) (obj : ManagedObject S) (spec remote : rep)
    (lastApplied : string) : M St (GoError + rep * rep) :=
  try p ← mret (EffectivePayload spec lastApplied);
  try p ← drv_PreparePayload drv kc obj (drv_ManagedMarker drv p);
  mret (inr (p, MergePayload (cloneMap remote) p)).
End Pass.

(** Two programs do the same to the world and give related results. *)
Definition refines {St A B} (R : A → B → Prop) (prog : M St (GoError + A))
    (spec : M St (GoError + B)) : Prop :=
  ∀ w, (prog w).2 = (spec w).2 ∧
    match (prog w).1, (spec w).1 with
    | Some (inr a), Some (inr b) => R a b
    | Some (inl e), Some (inl e') => e = e'
    | None, None => True
    | _, _ => False
    end.

Section PassCorrect.
Context (ord : ∀ A, list (string * A) → list (string * A)).
Hypothesis ord_perm : ∀ A es, ord A es ≡ₚ es.

Lemma writes_op (l : loc) (op : PayloadOp) : writes (mem_op ord l op) l (λ p, apply_op p op).
Proof.
  destruct op; [apply writes_stampStringAttribute|apply writes_stampSliceAttribute| |apply writes_string].
  by apply writes_inject_values.
Qed.

Lemma writes_ops (l : loc) (ops : list PayloadOp) :
  writes (mem_ops ord l ops) l (λ p, foldl apply_op p ops).
Proof.
  induction ops as [|op ops IH]; [apply writes_id|].
  exact (writes_comp _ _ l _ _ (writes_op l op) IH).
Qed.

(** A payload of cells that [m0] does not have. *)
Definition owned (m0 m : mem) (l : loc) (p : rep) : Prop :=
  ∃ F, m0 ⊆ m ∧ tree m (AMap l) (JObj p) F ∧ F ## dom m0 ∧ F ⊆ dom m.

Lemma owned_ops (m0 m : mem) (l : loc) (p : rep) (ops : list PayloadOp) :
  owned m0 m l p → ∃ m', mem_ops ord l ops m = Some m' ∧ owned m0 m' l (foldl apply_op p ops).
Proof.
  intros (F & Hm & Ht & HF & HFd).
  destruct (writes_ops l ops m p F Ht HFd) as (m' & F' & E & Ht' & Hg).
  destruct (grows_outside m0 m m' F F' Hg Hm HF) as [Hm' HF'].
  exists m'. split; [done|]. exists F'. repeat (split; [done|]). by apply (grows_in m F m' F').
Qed.

Context {St S : Type} `{Env St} (drv : Driver St S) `{!PayloadWriter drv}.

Lemma refines_bind {A A' B B'} (R : A → A' → Prop) (Q : B → B' → Prop)
    (m : M St (GoError + A)) (m' : M St (GoError + A')) (f : A → M St (GoError + B))
    (f' : A' → M St (GoError + B')) :
  refines R m m' → (∀ a a', R a a' → refines Q (f a) (f' a')) →
  refines Q (try_bind m f) (try_bind m' f').
Proof.
  intros Hm Hf w. destruct (Hm w) as [Ew Hr]. unfold try_bind, mbind, M_bind.
  destruct (m w) as [[[e|a]|] w1], (m' w) as [[[e'|a']|] w2]; simpl in *; subst; try done.
  apply (Hf a a' Hr w2).
Qed.

Lemma refines_effective (n : nat) (specMap : loc) (spec : rep) (lastApplied : string) (m : mem) :
  shows m (AMap specMap) (JObj spec) → (jsize (JObj spec) ≤ n)%nat →
  refines (λ r p, owned m r.2 r.1 p)
    (in_memory (mem_EffectivePayload ord n specMap lastApplied m))
    (mret (EffectivePayload spec lastApplied) : M St _).
Proof.
  intros Hs Hn. pose proof (mem_EffectivePayload_ok ord ord_perm n specMap spec lastApplied m Hs Hn) as Hp.
  intros w. destruct (EffectivePayload spec lastApplied) as [e|p].
  - by rewrite Hp.
  - destruct Hp as (payload & m' & F & -> & Hm & Ht & HF & HFd). simpl. split; [done|]. by exists F.
Qed.

Lemma refines_prepare (kc : Client) (obj : ManagedObject S) (m0 m : mem) (l : loc) (p : rep) :
  owned m0 m l p →
  refines (λ m' p', owned m0 m' l p') (mem_PreparePayload ord drv kc obj l m)
    (drv_PreparePayload drv kc obj p).
Proof.
  intros Ho w. rewrite writer_prepare_ok. revert w. apply (refines_bind eq).
  - intros w. split; [done|]. by destruct (writer_prepare kc obj w) as [[[]|] ].
  - intros ops ? <- w. destruct (owned_ops m0 m l p ops Ho) as (m' & E & Ho').
    unfold in_memory. by rewrite E.
Qed.

Lemma refines_step {A B X} (R : A → B → Prop) (step : M St X) (x : X)
    (f : X → M St (GoError + A)) (spec : M St (GoError + B)) :
  step = mret x → refines R (f x) spec → refines R (step ≫= f) spec.
Proof. intros -> Hf w. apply Hf. Qed.

Lemma marker_run (m0 m : mem) (l : loc) (p : rep) :
  owned m0 m l p → ∃ m', mem_ManagedMarker ord drv l m = mret m' ∧
    owned m0 m' l (drv_ManagedMarker drv p).
Proof.
  intros Ho. destruct (owned_ops m0 m l p writer_marker Ho) as (m' & E & Ho').
  exists m'. rewrite writer_marker_ok. unfold mem_ManagedMarker. by rewrite E.
Qed.

Lemma owned_shows (m0 m : mem) (l : loc) (p : rep) :
  owned m0 m l p → m0 ⊆ m ∧ shows m (AMap l) (JObj p).
Proof. intros (F & Hm & Ht & _). split; [done|]. by eapply tree_shows. Qed.
End PassCorrect.

(** ** Samples *)

(** A spec with a nested map at 1, the server's representation at 3. *)
Definition sample_mem : mem := {[
  1%positive := MapCell {["alias" := AStr "github"; "config" := AMap 2]};
  2%positive := MapCell {["clientId" := AStr "acme"]};
  3%positive := MapCell {["alias" := AStr "github"; "enabled" := ABool true]}
]}.
Definition sample_spec : rep :=
  {["alias" := JStr "github"; "config" := JObj {["clientId" := JStr "acme"]}]}.
Definition sample_config : rep := {["clientId" := JStr "acme"; "clientSecret" := JStr "s3cret"]}.
Definition sample_remote : rep := {["alias" := JStr "github"; "enabled" := JBool true]}.

(** Were the payload a shallow copy, a secret written into it would be in the spec snapshot. *)
Lemma shallow_copy_leaks :
  ('(payload, m1) ← mem_cloneMap (λ _ es, es) 1 sample_mem;
   m2 ← mem_inject_values payload "config" [("clientSecret", "s3cret")] m1;
   read 3 m2 (AMap 1)) =
  Some (JObj {["alias" := JStr "github"; "config" := JObj sample_config]}).
Proof. vm_compute. reflexivity. Qed.

(** ** Theorem *)

(** C17.  Where the code mutates shared maps the value model takes them as values, and that
    is sound.  The spec snapshot and the server's representation are maps in memory; the
    payload is made from the first by [EffectivePayload], [ManagedMarker] and
    [PreparePayload] write into it in place, and [MergePayload] overlays it on a shallow
    clone of the second.  For every driver that writes through those helpers, every order of
    map iteration and every memory in which the two documents may even share cells: the
    program ends with the same world, the same errors and no panic, the payload and the map
    that is sent are the documents of the value model, and every cell there was is as before,
    so no marker and no secret reaches the snapshot that becomes the last-applied
    annotation. *)
Theorem payload_writes_refine (ord : ∀ A, list (string * A) → list (string * A)) {St S}
    `{Env St} (drv : Driver St S) `{!PayloadWriter drv} (n : nat) (kc : Client)
    (obj : ManagedObject S) (m : mem) (specMap remote : loc) (spec r : rep)
    (lastApplied : string) :
  (∀ A es, ord A es ≡ₚ es) →
  shows m (AMap specMap) (JObj spec) → shows m (AMap remote) (JObj r) →
  (jsize (JObj spec) ≤ n)%nat →
  refines (λ '(payload, m') p,
      m ⊆ m' ∧ shows m' (AMap payload) (JObj p) ∧ shows m' (AMap specMap) (JObj spec))
    (mem_create_payload ord drv n kc obj specMap lastApplied m)
    (create_payload drv kc obj spec lastApplied) ∧
  refines (λ '(payload, merged, m') '(p, sent),
      m ⊆ m' ∧ shows m' (AMap payload) (JObj p) ∧ shows m' (AMap merged) (JObj sent) ∧
      shows m' (AMap specMap) (JObj spec) ∧ shows m' (AMap remote) (JObj r))
    (mem_update_payload ord drv n kc obj specMap remote lastApplied m)
    (update_payload drv kc obj spec r lastApplied).
Proof.
  intros Hord Hs Hr Hn. split.
  - eapply refines_bind; [by apply refines_effective|]. intros [payload m1] p Ho.
    eapply refines_bind; [by apply refines_prepare|]. intros m2 p2 Ho2.
    destruct (marker_run ord Hord drv m m2 payload p2 Ho2) as (m3 & E & [Hm Hp]%owned_shows).
    eapply refines_step; [done|]. intros w. simpl. split_and!; [done..|]. by eapply shows_sub.
  - eapply refines_bind; [by apply refines_effective|]. intros [payload m1] p Ho.
    destruct (marker_run ord Hord drv m m1 payload p Ho) as (m2 & E & Ho2).
    eapply refines_step; [done|].
    eapply refines_bind; [by apply refines_prepare|]. intros m3 p3 [Hm Hp]%owned_shows.
    destruct (merged_shows ord Hord remote payload r p3 m3) as (merged & m4 & m5 & Ec & Em & Hm5 & Hq);
      [by eapply shows_sub|done|].
    eapply (refines_step _ _ (merged, m4)); [by rewrite Ec|].
    eapply (refines_step _ _ m5); [by rewrite Em|]. intros w. rewrite cloneMap_id. simpl.
    split_and!; [done|by etrans|by eapply shows_sub|done|eapply shows_sub; [done|by etrans]..].
Qed.

(** An identity provider whose configuration gets a value from a Secret. *)
Lemma payload_writes_refine_witness :
  let spec := IdentityProviderTypes.mkIdentityProviderSpec sim_ref "acme" "github" "github" None None
    None None None None None None None None ∅
    (Some (mkSecretKeysSelector "kc-admin" {["clientSecret" := "password"]})) [] in
  let obj := sim_object "IdentityProvider" "github" None [] ∅ spec in
  ∃ payload merged m',
    (mem_update_payload (λ _ es, es) (IdentityProviderDriver (St := Sim)) 5 sim_kc obj 1 3 ""
       sample_mem (sim_world [])).1 = Some (inr (payload, merged, m')) ∧
    shows m' (AMap merged) (JObj (<["config" := JObj sample_config]> sample_remote)) ∧
    shows m' (AMap 1) (JObj sample_spec).
Proof.
  intros spec obj.
  destruct (payload_writes_refine (λ _ es, es) (IdentityProviderDriver (St := Sim)) 5 sim_kc obj
    sample_mem 1 3 sample_spec sample_remote "") as [_ H].
  - done.
  - apply (read_shows 3). vm_compute. reflexivity.
  - apply (read_shows 3). vm_compute. reflexivity.
  - vm_compute. lia.
  - assert ((update_payload (IdentityProviderDriver (St := Sim)) sim_kc obj sample_spec
      sample_remote "" (sim_world [])).1 = Some (inr (<["config" := JObj sample_config]> sample_spec,
        <["config" := JObj sample_config]> sample_remote))) as E by (vm_compute; reflexivity).
    destruct (H (sim_world [])) as [_ Hr]. rewrite E in Hr. clear H E.
    destruct (mem_update_payload _ _ _ _ _ _ _ _ _ _) as [[[e|[[payload merged] m']]|] w'];
      [done| |done].
    exists payload, merged, m'. destruct Hr as (_ & _ & Hm & Hs & _). by repeat split.
Defined.
