(* ===== verification/EngineLaws.v ===== *)
(** * What the engine guarantees

    Proved against [DriverLaws], so for all six kinds: which actions each path of
    [Reconcile] can perform, when it writes to the server, and what it leaves behind. *)

From Stdlib Require Import ZArith Lia.
From stdpp Require Import base gmap strings list.
From S2P Require Import Prelude Json JsonText GoError LastApplied ApiTypes World Sim Logic Url.
From S2P Require Import HttpClient AdminApi Provider DriverHelpers Drivers DriverLaws Engine.

Local Open Scope string_scope.
Local Open Scope list_scope.

(** ** Action classes *)

(** Bookkeeping on the object itself: status patches, events, metrics. *)
Definition bookkeeping (a : Action) : Prop :=
  match a with
  | KubePatchStatus _ _ | Event _ _ _ | Metric _ _ _ => True
  | _ => False
  end.

(** Everything a reconciliation of [obj] with the client [kc] may do. *)
Definition engine_act {St S} `{Spec S} (drv : Driver St S) (kc : Client) (obj : ManagedObject S)
    (writes : bool) (a : Action) : Prop :=
  match a with
  | KubePatchStatus _ _ | Event _ _ _ | Metric _ _ _ | KubeUpdate _ _ | KubePatch _ _ => True
  | KubeGet resource ns _ =>
      resource ∈ ["keycloakconnections"; "secrets"] ∧ ns = GetNamespace (Meta obj)
  | _ => if writes then create_act drv kc obj a else obj_act kc obj false a
  end.

Lemma create_act_engine {St S} `{Spec S} (drv : Driver St S) (kc : Client) (obj : ManagedObject S)
    (a : Action) :
  create_act drv kc obj a → engine_act drv kc obj true a.
Proof.
  destruct a; try done; intros [[]|(_ & r & [=] & _)]; simpl; try done. subst. set_solver.
Qed.

Lemma obj_act_engine {St S} `{Spec S} (drv : Driver St S) (kc : Client) (obj : ManagedObject S)
    (b : bool) (a : Action) :
  obj_act kc obj b a → engine_act drv kc obj b a.
Proof.
  destruct b; [intros Ha; by apply create_act_engine; left|].
  destruct a; simpl; try done. intros [-> ->]. set_solver.
Qed.

Lemma bookkeeping_engine {St S} `{Spec S} (drv : Driver St S) (kc : Client)
    (obj : ManagedObject S) (b : bool) (a : Action) :
  bookkeeping a → engine_act drv kc obj b a.
Proof. by destruct a. Qed.

Lemma engine_act_writes {St S} `{Spec S} (drv : Driver St S) (kc : Client)
    (obj : ManagedObject S) (a : Action) :
  engine_act drv kc obj false a → engine_act drv kc obj true a.
Proof.
  destruct a; try done; simpl; intros Ha; left; by apply driver_act_writes.
Qed.

(** Reads only: nothing on the server and no Secret is changed. *)
Definition quiet (a : Action) : Prop :=
  ¬ admin_write a ∧ match a with SecretCreate _ | SecretUpdate _ => False | _ => True end.

Lemma engine_act_quiet {St S} `{Spec S} (drv : Driver St S) (kc : Client)
    (obj : ManagedObject S) (a : Action) :
  engine_act drv kc obj false a → quiet a.
Proof.
  intros Ha. split.
  - destruct a; try (simpl; tauto). by apply (driver_act_reads _ _ _ _ Ha).
  - destruct a; simpl in *; try done; unfold obj_act in Ha; simpl in Ha; by destruct Ha.
Qed.

Definition no_http (a : Action) : Prop := match a with Http _ => False | _ => True end.

Lemma delete_fields_lookup (fields : list string) (m : rep) (k : string) :
  foldl (λ m f, delete f m) m fields !! k = if decide (k ∈ fields) then None else m !! k.
Proof.
  revert m. induction fields as [|f fields IH]; intros m; cbn [foldl].
  { case_decide as Hk; [by apply not_elem_of_nil in Hk|done]. }
  rewrite IH. destruct (decide (k = f)) as [->|Hne].
  - rewrite lookup_delete_eq. repeat case_decide; try done; set_solver.
  - rewrite lookup_delete_ne by done. repeat case_decide; try done; set_solver.
Qed.

(** ** The parts of the engine *)

Section Parts.
Context {St : Type} `{Env St, KubeLib}.
Context {S : Type} `{Spec S}.
Implicit Types (obj base : ManagedObject S) (drv : Driver St S) (kc : Client).
Variable e : Engine.

Section Bookkeeping.
Context (P : Action → Prop) (HP : ∀ a, bookkeeping a → P a).

Lemma setCondition_safe obj base (t s r m : string) :
  safe P (setCondition (St := St) obj base t s r m).
Proof. unfold setCondition, patchStatus, kube_patch_status. safe_solve. by apply HP. Qed.

Lemma record_safe (t r m : string) : safe P (record (St := St) e t r m).
Proof. unfold record. safe_solve. by apply HP. Qed.

Lemma fail_safe obj base (r m : string) : safe P (fail (St := St) e obj base r m).
Proof. unfold fail. safe_solve; auto using setCondition_safe, record_safe. Qed.

Lemma not_ready_safe obj base (r m s : string) : safe P (not_ready (St := St) obj base r m s).
Proof. unfold not_ready. safe_solve; auto using setCondition_safe. Qed.

Lemma drift_metric_safe (k : string) : safe P (metric (St := St) DriftCorrectionsTotal [k] Inc).
Proof. apply safe_metric; [done|]. by apply HP. Qed.
End Bookkeeping.

Lemma finalize_safe (P : Action → Prop) obj base (m : rep) (b : bool) :
  (∀ a, bookkeeping a → P a) → (∀ m st, P (KubePatch m st)) →
  safe P (finalize (St := St) e obj base m b).
Proof.
  intros HP Hpatch. unfold finalize, kube_patch. safe_solve; auto using setCondition_safe.
Qed.

Context (drv : Driver St S) `{!DriverLaws drv}.

Section Paths.
Variables (kc : Client) (obj : ManagedObject S).
Local Abbreviation act b := (engine_act drv kc obj b).

Lemma act_bookkeeping (b : bool) (a : Action) : bookkeeping a → act b a.
Proof. apply bookkeeping_engine. Qed.

Lemma safe_act {A} (b : bool) (m : M St A) :
  safe (obj_act kc obj b) m → safe (act b) m.
Proof. intros Hm. eapply safe_mono; [exact Hm|]. apply obj_act_engine. Qed.

Lemma safe_act_writes {A} (m : M St A) : safe (act false) m → safe (act true) m.
Proof. intros Hm. eapply safe_mono; [exact Hm|]. apply engine_act_writes. Qed.

Lemma get_act (b : bool) : safe (act b) (drv_Get drv kc obj).
Proof.
  assert (safe (act false) (drv_Get drv kc obj)) by apply safe_act, get_reads.
  destruct b; [by apply safe_act_writes|done].
Qed.

Lemma prepare_act (b : bool) (p : rep) : safe (act b) (drv_PreparePayload drv kc obj p).
Proof.
  assert (safe (act false) (drv_PreparePayload drv kc obj p)) by apply safe_act, prepare_reads.
  destruct b; [by apply safe_act_writes|done].
Qed.

Lemma after_update_safe base (m r : rep) (b : bool) :
  safe (act true) (after_update e obj drv kc base m r b).
Proof.
  unfold after_update. apply safe_bind; [apply safe_act, post_scoped|].
  intros [obj' [b' [err|]]]; safe_solve; auto using fail_safe, act_bookkeeping.
  - done.
  - apply finalize_safe; [apply act_bookkeeping|done].
Qed.

(** The payload of a realm carries its name through the injections and the marker. *)
Lemma prepared_names_realm (p q : rep) (w w' : World St) :
  drv_PreparePayload drv kc obj p w = (Some (inr q), w') → names_realm drv obj p →
  names_realm drv obj (drv_ManagedMarker drv q).
Proof.
  intros Hq Hp Hk v Hv. rewrite marker_frame by done.
  rewrite (prepare_frame _ _ _ _ _ _ _ Hq) by (unfold injected_fields; set_solver). by apply Hp.
Qed.

Lemma effective_names_realm (p : rep) (recorded : string) :
  EffectivePayload (spec_map drv obj) recorded = inr p → names_realm drv obj p.
Proof.
  intros [last Hp]%EffectivePayload_inv Hk v Hv. rewrite Hp. unfold spec_map.
  rewrite delete_fields_lookup. unfold realm_kind in Hk. apply bool_decide_eq_true in Hk.
  rewrite decide_False by done. by rewrite Hv.
Qed.

Lemma handleCreate_safe base (m p : rep) :
  names_realm drv obj p → safe (act true) (handleCreate e obj drv kc base m p).
Proof.
  intros Hp w. unfold handleCreate. apply safe_at_bind; [by apply prepare_act|].
  intros [err|q] w' Hq; refine ((_ : safe (act true) _) w').
  { safe_solve. auto using fail_safe, act_bookkeeping. }
  pose proof (prepared_names_realm _ _ _ _ Hq Hp) as Hn. clear w' Hq.
  safe_solve; auto using fail_safe, not_ready_safe, record_safe,
    setCondition_safe, act_bookkeeping, get_act.
  - eapply safe_mono; [by apply create_scoped|]. apply create_act_engine.
  - apply safe_act, post_scoped.
  - apply finalize_safe; [apply act_bookkeeping|done].
Qed.

Lemma apply_existing_safe base (m p r : rep) (b : bool) :
  safe (act true) (apply_existing e obj drv kc base m p r b).
Proof.
  unfold apply_existing. safe_solve; auto using fail_safe, not_ready_safe, record_safe,
    act_bookkeeping, prepare_act, after_update_safe.
  - done.
  - apply safe_act, update_scoped.
Qed.

Lemma handleExisting_safe base (m p r : rep) :
  safe (act true) (handleExisting e obj drv kc base m p r).
Proof.
  unfold handleExisting. safe_solve; auto using fail_safe, record_safe, act_bookkeeping,
    apply_existing_safe.
Qed.

Lemma sync_safe base : safe (act true) (sync e obj drv kc base).
Proof.
  unfold sync. cbv zeta. destruct (EffectivePayload _ _) as [err|payload] eqn:Hp.
  - safe_solve; auto using fail_safe, act_bookkeeping.
  - safe_solve; auto using not_ready_safe, act_bookkeeping, get_act, handleExisting_safe.
    by eapply handleCreate_safe, effective_names_realm.
Qed.

Lemma remove_finalizer_safe (P : Action → Prop) obj' :
  (∀ m st, P (KubeUpdate m st)) → safe P (remove_finalizer (St := St) obj').
Proof. intros HP. unfold remove_finalizer, kube_update. safe_solve. apply HP. Qed.

Lemma handleDeletion_emits : emits (act true) (handleDeletion e obj drv kc).
Proof.
  unfold handleDeletion. emits_solve;
    try solve [apply safe_emits; auto using record_safe, act_bookkeeping, remove_finalizer_safe].
  - eapply emits_mono; [apply delete_scoped|]. apply obj_act_engine.
  - by apply safe_emits, remove_finalizer_safe.
Qed.
End Paths.

(** ** Whole reconciliations *)

(** The world after the start time was read. *)
Definition started (w : World St) : World St := set_env (env_now (env w)).2 w.

(** This run resolves the connection to [kc]. *)
Definition connects obj (w : World St) (kc : Client) (w' : World St) : Prop :=
  For (GetNamespace (Meta obj)) (ConnectionName (GetSpec obj)) (started w) = (Some (inr kc), w').

Lemma finish_safe (P : Action → Prop) obj (k : string) (start : Z) :
  (∀ a, bookkeeping a → P a) →
  safe P (_ ← metric (St := St) ReconciliationsTotal [k; outcome_label obj] Inc;
          t ← now; metric ReconcileDuration [k] (Observe (t - start))).
Proof. intros HP. unfold now. safe_solve; by apply HP. Qed.

Lemma now_started {A} (f : Z → M St A) (P : Action → Prop) (w : World St) :
  safe_at P (f (env_now (env w)).1) (started w) → safe_at P (t ← now; f t) w.
Proof. intros Hf. apply wp_bind, wp_call_env; [apply _|]. exact Hf. Qed.

Lemma reconcile_safe_at (P : Action → Prop) obj (w : World St) :
  (∀ a, bookkeeping a → P a) →
  (∀ r n, r ∈ ["keycloakconnections"; "secrets"] → P (KubeGet r (GetNamespace (Meta obj)) n)) →
  P (KubeUpdate (SetFinalizers (AddFinalizer (GetFinalizers (Meta obj)) FinalizerName) (Meta obj))
       (Status obj)) →
  deleting obj = false →
  (∀ kc w', connects obj w kc w' →
     ContainsFinalizer (GetFinalizers (Meta obj)) FinalizerName = true →
     (drv_Protected drv obj).1 = false → safe_at P (sync e obj drv kc obj) w') →
  safe_at P (Reconcile e obj drv) w.
Proof.
  intros HP Hget Hupd Hdel Hsync. apply now_started.
  apply safe_at_deferred; [|intros; by apply finish_safe].
  unfold reconcile_body. rewrite Hdel. simpl.
  apply safe_at_bind; [apply For_safe; intros; apply Hget; set_solver|].
  intros [err|kc] w' Hfor.
  { apply safe_bind; [by apply not_ready_safe|]. intros. apply safe_ret. }
  destruct (ContainsFinalizer _ _) eqn:Hfin; simpl.
  - destruct (drv_Protected drv obj) as [[] message] eqn:Hprot; [|by apply Hsync; rewrite ?Hprot].
    apply safe_bind; [by apply fail_safe|]. intros. apply safe_ret.
  - apply safe_bind; [unfold kube_update; safe_solve; apply Hupd|]. intros [[err|] o]; apply safe_ret.
Qed.

(** Deletion: the same, but [Delete] may panic. *)
Lemma reconcile_deleting_emits (P : Action → Prop) obj (w : World St) :
  (∀ a, bookkeeping a → P a) →
  (∀ r n, r ∈ ["keycloakconnections"; "secrets"] → P (KubeGet r (GetNamespace (Meta obj)) n)) →
  (∀ m st, P (KubeUpdate m st)) →
  deleting obj = true →
  (∀ kc w', connects obj w kc w' → emits P (handleDeletion e obj drv kc)) →
  wp (Reconcile e obj drv) (λ _ _ l, Forall P l) w.
Proof.
  intros HP Hget Hupd Hdel Hh. apply wp_bind, wp_call_env; [apply _|]. cbn [wp_then].
  apply wp_deferred. eapply wp_mono with (Q := λ _ _ l, Forall P l).
  2: { intros o w' l Hl. eapply wp_mono; [by apply finish_safe|]. simpl. intros _ _ l' [_ Hl'].
       by apply Forall_app. }
  unfold reconcile_body. rewrite Hdel. simpl. case_match.
  { apply safe_emits. apply safe_bind; [by apply remove_finalizer_safe|].
    intros [[err|] o]; apply safe_ret. }
  fold (started w).
  assert (safe P (For (St := St) (GetNamespace (Meta obj)) (ConnectionName (GetSpec obj)))) as Hs
    by (apply For_safe; intros; apply Hget; set_solver).
  destruct (Hs (started w)) as (l & Hl & Hrun & [r Hr] & HPl). apply wp_bind.
  exists l. split; [done|]. split; [done|]. rewrite Hr. simpl.
  assert (∀ {A} (m : M St A) w', emits P m → wp m (λ _ _ l', Forall P (l ++ l')) w') as Hlift.
  { intros A m w' Hm. eapply wp_mono; [apply Hm|]. simpl. intros _ _ l' Hl'. by apply Forall_app. }
  apply Hlift. destruct r as [err|kc].
  - apply safe_emits, safe_bind; [by apply not_ready_safe|]. intros. apply safe_ret.
  - apply emits_bind; [|intros; apply emits_ret].
    apply (Hh kc (For (GetNamespace (Meta obj)) (ConnectionName (GetSpec obj)) (started w)).2).
    unfold connects. rewrite <- Hr. by destruct (For _ _ (started w)).
Qed.

Lemma reconcile_isolated_wp obj (w : World St) :
  wp (Reconcile e obj drv) (λ o _ l, (deleting obj = false → is_Some o) ∧
    ∃ kc, Forall (engine_act drv kc obj true) l) w.
Proof.
  assert (∃ kc, ∀ kc' w', connects obj w kc' w' → kc' = kc) as [kc Hkc].
  { destruct (For (GetNamespace (Meta obj)) (ConnectionName (GetSpec obj)) (started w))
      as [[[err|kc]|] w'] eqn:E.
    2: { exists kc. intros kc' w''. unfold connects. rewrite E. naive_solver. }
    all: exists (mkClient (mkConfig "" "" "" "" "" "" "" "" false) 0);
      intros kc' w''; unfold connects; rewrite E; naive_solver. }
  destruct (deleting obj) eqn:Hdel.
  - eapply wp_mono; [apply (reconcile_deleting_emits (engine_act drv kc obj true))|]; try done.
    + apply bookkeeping_engine.
    + intros kc' w' ->%Hkc. apply handleDeletion_emits.
    + simpl. intros o _ l Hl. split; [done|]. by exists kc.
  - eapply wp_mono; [apply (reconcile_safe_at (engine_act drv kc obj true))|]; try done.
    + apply bookkeeping_engine.
    + intros kc' w' ->%Hkc _ _. apply sync_safe.
    + simpl. intros o _ l [Ho Hl]. split; [done|]. by exists kc.
Qed.

(** A run that is all reads on the server, given the answer to the first [Get]. *)
Lemma sync_quiet (kc : Client) obj base (w w' : World St) (r : GoError + rep) :
  drv_Get drv kc obj w = (Some r, w') →
  (∀ err, r = inl err → errors_Is err SNotFound = false) →
  (∀ remote m p, r = inr remote →
     safe_at bookkeeping (handleExisting e obj drv kc base m p remote) w') →
  safe_at (engine_act drv kc obj false) (sync e obj drv kc base) w.
Proof.
  intros Hr Herr Hex. unfold sync. cbv zeta.
  assert (∀ {A} (m : M St A) w, safe_at bookkeeping m w → safe_at (engine_act drv kc obj false) m w)
    as Hlift.
  { intros A m w0 Hm. eapply wp_mono; [exact Hm|]. simpl. intros o _ l [? Hl]. split; [done|].
    eapply Forall_impl; [exact Hl|]. apply bookkeeping_engine. }
  destruct (EffectivePayload _ _) as [err|payload].
  { apply safe_bind; [apply fail_safe, bookkeeping_engine|]. intros. apply safe_ret. }
  apply safe_at_bind; [by apply get_act|]. intros r' w'' Hr'. rewrite Hr in Hr'. simplify_eq.
  destruct r' as [err|remote]; [|by apply Hlift, Hex].
  rewrite (Herr err eq_refl). apply safe_bind; [apply not_ready_safe, bookkeeping_engine|].
  intros. apply safe_ret.
Qed.

(** An existing resource the policy does not allow to write is only reported. *)
Definition refused obj (remote : rep) : Prop :=
  Adoption (GetSpec obj) = AdoptionFailIfExists ∨
  Adoption (GetSpec obj) ≠ AdoptionAdopt ∧ drv_IsManaged drv remote = false ∧
  annotation obj LastAppliedAnnotation = "".

Lemma handleExisting_refused (kc : Client) obj base (m p remote : rep) :
  refused obj remote → ∃ message,
  handleExisting e obj drv kc base m p remote =
    (obj ← fail e obj base ReasonAlreadyExists message; mret (obj, Done)).
Proof.
  intros Hr. unfold handleExisting. cbv zeta.
  destruct (String.eqb_spec (Adoption (GetSpec obj)) AdoptionFailIfExists) as [Hf|Hf]; [by eexists|].
  destruct Hr as [Hr|(Ha & Hm & Hl)]; [done|]. rewrite Hm, Hl. simpl.
  rewrite (proj2 (String.eqb_neq _ _) Ha). by eexists.
Qed.

Lemma handleExisting_refused_safe (kc : Client) obj base (m p remote : rep) :
  refused obj remote → safe bookkeeping (handleExisting e obj drv kc base m p remote).
Proof.
  intros [message ->]%(handleExisting_refused kc obj base m p).
  apply safe_bind; [by apply fail_safe|]. intros. apply safe_ret.
Qed.
End Parts.

(** ** Status reports *)

Section Reports.
Context {St : Type} `{Env St, KubeLib, !KubeLibLaws}.
Context {S : Type} `{Spec S}.
Implicit Types (obj base : ManagedObject S) (drv : Driver St S) (kc : Client).
Variable e : Engine.

(** A status patch of the trace carries the condition. *)
Definition reported (l : list Action) (t s r m : string) : Prop :=
  ∃ meta st g, KubePatchStatus meta st ∈ l ∧
    FindStatusCondition (Conditions st) t = Some (mkCondition t s g r m).

Lemma reported_app_l (l k : list Action) (t s r m : string) :
  reported l t s r m → reported (l ++ k) t s r m.
Proof. intros (x & y & g & Hin & Hf). exists x, y, g. split; [set_solver|done]. Qed.

Lemma reported_app_r (l k : list Action) (t s r m : string) :
  reported k t s r m → reported (l ++ k) t s r m.
Proof. intros (x & y & g & Hin & Hf). exists x, y, g. split; [set_solver|done]. Qed.

Lemma setCondition_wp obj base (t s r m : string) (w : World St) :
  wp (setCondition obj base t s r m) (λ o _ l,
    is_Some o ∧ Forall bookkeeping l ∧ reported l t s r m) w.
Proof.
  unfold setCondition, patchStatus, kube_patch_status. apply wp_bind, wp_call; [apply _|]. intros x s' _. simpl.
  apply wp_ret. split; [by eexists|]. split; [by constructor|].
  do 3 eexists. split; [by left|]. simpl. by rewrite find_set_eq.
Qed.

(** Both conditions are reported, and nothing but bookkeeping happens. *)
Definition two_reports (s r m sm : string) (l : list Action) : Prop :=
  Forall bookkeeping l ∧ reported l ConditionReady s r m ∧ reported l ConditionSynced s r sm.

Lemma both_conditions_wp {A} obj base (s r m sm : string) (f : ManagedObject S → M St A)
    (Q : option A → World St → list Action → Prop) (w : World St) :
  (∀ obj' w' l, two_reports s r m sm l → wp (f obj') (λ o w'' l', Q o w'' (l ++ l')) w') →
  wp (obj ← setCondition obj base ConditionReady s r m;
      obj ← setCondition obj base ConditionSynced s r sm; f obj) Q w.
Proof.
  intros Hf. apply wp_bind. eapply wp_mono; [apply setCondition_wp|].
  intros o w1 l1 ([obj1 ->] & Hb1 & Hr1). simpl.
  apply wp_bind. eapply wp_mono; [apply setCondition_wp|].
  intros o w2 l2 ([obj2 ->] & Hb2 & Hr2). simpl.
  eapply wp_mono; [apply Hf|].
  - split; [apply Forall_app; split; [exact Hb1|exact Hb2]|].
    split; [by apply reported_app_l|by apply reported_app_r].
  - simpl. intros o w3 l3 HQ. by rewrite app_assoc.
Qed.

Lemma not_ready_wp obj base (r m sm : string) (w : World St) :
  wp (not_ready obj base r m sm) (λ o _ l,
    is_Some o ∧ two_reports ConditionFalse r m sm l) w.
Proof.
  assert (not_ready (St := St) obj base r m sm =
    (obj ← setCondition obj base ConditionReady ConditionFalse r m;
     setCondition obj base ConditionSynced ConditionFalse r sm)) as -> by done.
  apply wp_bind. eapply wp_mono; [apply setCondition_wp|].
  intros o w1 l1 ([obj1 ->] & Hb1 & Hr1). simpl.
  eapply wp_mono; [apply setCondition_wp|]. simpl. intros o w2 l2 (Ho & Hb2 & Hr2).
  split; [done|]. split; [by apply Forall_app|].
  split; [by apply reported_app_l|by apply reported_app_r].
Qed.

(** Whether a failure is new: the reason or the message of Ready changes. *)
Definition new_failure obj (reason message : string) : Prop :=
  ∀ c, FindStatusCondition (Conditions (Status obj)) ConditionReady = Some c →
       cond_Reason c = reason → cond_Message c ≠ message.

Definition events (l : list Action) : list (string * string * string) :=
  omap (λ a, match a with Event t r m => Some (t, r, m) | _ => None end) l.

Lemma setCondition_events obj base (t s r m : string) (w : World St) :
  wp (setCondition obj base t s r m) (λ o _ l, is_Some o ∧ events l = []) w.
Proof.
  unfold setCondition, patchStatus, kube_patch_status. apply wp_bind, wp_call; [apply _|]. intros x s' _. simpl.
  apply wp_ret. split; [by eexists|done].
Qed.

Lemma fail_wp obj base (reason message : string) (w : World St) :
  wp (fail e obj base reason message) (λ o _ l,
    is_Some o ∧ two_reports ConditionFalse reason message message l) w.
Proof.
  unfold fail. cbv zeta. apply both_conditions_wp. intros obj' w' l (Hb & Hr & Hs).
  apply wp_bind. eapply wp_mono.
  { assert (∀ b : bool, safe bookkeeping (if b then record (St := St) e EventTypeWarning reason message
      else mret ())) as Hrec; [|apply Hrec].
    intros []; [by apply record_safe|apply safe_ret]. }
  intros o w2 l2 [[u ->] Hl2]. simpl. apply wp_ret. split; [by eexists|]. rewrite app_nil_r.
  split; [by apply Forall_app|]. split; by apply reported_app_l.
Qed.

Lemma events_app (l k : list Action) : events (l ++ k) = events l ++ events k.
Proof. apply omap_app. Qed.

Lemma new_failure_spec obj (reason message : string) :
  match FindStatusCondition (Conditions (Status obj)) ConditionReady with
  | None => true
  | Some c => negb (String.eqb (cond_Reason c) reason) || negb (String.eqb (cond_Message c) message)
  end = true ↔ new_failure obj reason message.
Proof.
  unfold new_failure. destruct (FindStatusCondition _ _) as [c|]; [|naive_solver].
  rewrite orb_true_iff, !negb_true_iff, !String.eqb_neq. split.
  - intros Hor c' [= <-] Hr. destruct Hor as [?|?]; [done|done].
  - intros Hn. destruct (decide (cond_Reason c = reason)); [right|by left]. by apply (Hn c).
Qed.

Lemma fail_events obj base (reason message : string) (w : World St) :
  eng_recorder e = true →
  wp (fail e obj base reason message) (λ _ _ l,
    events l = [(EventTypeWarning, reason, message)] ∧ new_failure obj reason message
    ∨ events l = [] ∧ ¬ new_failure obj reason message) w.
Proof.
  intros He. unfold fail. cbv zeta. apply wp_bind. eapply wp_mono; [apply setCondition_events|].
  intros o w1 l1 ([obj1 ->] & H1'). simpl. apply wp_bind.
  eapply wp_mono; [apply setCondition_events|]. intros o w2 l2 ([obj2 ->] & H2'). simpl.
  pose proof (new_failure_spec obj reason message) as Hnew. revert Hnew.
  destruct (match FindStatusCondition _ _ with None => true | _ => _ end); intros Hnew.
  - apply wp_bind. unfold record. rewrite He. apply wp_emit; [apply _|]. simpl. apply wp_ret. left.
    split; [by rewrite !events_app, H1', H2'|by apply Hnew].
  - apply wp_bind, wp_ret. simpl. apply wp_ret. right.
    split; [by rewrite !events_app, H1', H2'|]. intros ?%Hnew. done.
Qed.

(** ** The end of a successful pass *)

Definition success_message (synced : bool) : string :=
  if synced then "Reconciliation succeeded" else "Server state matches spec".

(** The patch records [encoded] when it is not recorded yet, and nothing else. *)
Definition records obj (encoded : string) (patch : list Action) : Prop :=
  if String.eqb (annotation obj LastAppliedAnnotation) encoded then patch = []
  else ∃ m st, patch = [KubePatch m st] ∧
    GetAnnotations m = <[LastAppliedAnnotation := encoded]> (GetAnnotations (Meta obj)) ∧
    GetFinalizers m = GetFinalizers (Meta obj).

(** What follows the patch: success, or the error of the patch. *)
Definition ends (message : string) (patch rest : list Action) (r : Result * option GoError)
    : Prop :=
  r = after (eng_resync e) ∧ two_reports ConditionTrue ReasonSucceeded message message rest ∨
  ∃ err, r = failed err ∧ rest = [] ∧ patch ≠ [].

Definition finalize_post obj (encoded message : string)
    (o : option (ManagedObject S * (Result * option GoError))) (l : list Action) : Prop :=
  ∃ obj' r patch rest, o = Some (obj', r) ∧ l = patch ++ rest ∧ records obj encoded patch ∧
    ends message patch rest r.

Lemma success_wp obj obj2 base (encoded message : string) (patch : list Action) (w : World St) :
  records obj encoded patch →
  wp (obj ← setCondition obj2 base ConditionReady ConditionTrue ReasonSucceeded message;
      obj ← setCondition obj base ConditionSynced ConditionTrue ReasonSucceeded message;
      mret (obj, after (eng_resync e)))
    (λ o _ l, finalize_post obj encoded message o (patch ++ l)) w.
Proof.
  intros Hrec. apply both_conditions_wp. intros obj' w' l Hrep. apply wp_ret. rewrite app_nil_r.
  do 4 eexists. split; [done|]. split; [done|]. split; [done|]. by left.
Qed.

Lemma finalize_wp obj base (specMap : rep) (synced : bool) (w : World St) :
  wp (finalize e obj base specMap synced) (λ o _ l,
    finalize_post obj (marshal (JObj specMap)) (success_message synced) o l) w.
Proof.
  unfold finalize. fold (success_message synced). cbv zeta.
  set (obj1 := set_Status _ obj). set (encoded := marshal (JObj specMap)).
  change (annotation obj1 LastAppliedAnnotation) with (annotation obj LastAppliedAnnotation).
  apply wp_bind. destruct (String.eqb (annotation obj LastAppliedAnnotation) encoded) eqn:Ha;
    cbn [negb].
  - apply wp_ret. cbn [wp_then]. apply (success_wp obj _ _ _ _ []). unfold records. by rewrite Ha.
  - assert (records obj encoded [KubePatch (SetAnnotations
      (<[LastAppliedAnnotation := encoded]> (GetAnnotations (Meta obj))) (Meta obj)) (Status obj1)])
      as Hrec by (unfold records; rewrite Ha; do 2 eexists; split; [reflexivity|done]).
    unfold kube_patch. apply wp_call; [apply _|]. intros [[err|] obj2] s _; cbn [wp_then].
    + apply wp_ret. eexists _, _, [_], []. split; [done|]. split; [done|].
      split; [exact Hrec|]. right. by exists err.
    + exact (success_wp obj _ _ _ _ _ _ Hrec).
Qed.
End Reports.


(** ** The payload *)

Lemma spec_map_lookup {St S} `{Spec S, !SpecLaws S} (drv : Driver St S) (obj : ManagedObject S)
    (k : string) (v : json) :
  spec_map drv obj !! k = Some v ↔
  (k, Some v) ∈ spec_fields (GetSpec obj) ∧ k ∉ drv_OperatorFields drv.
Proof.
  unfold spec_map. rewrite toJSONMap_fields, delete_fields_lookup.
  case_decide as Hf; [naive_solver|]. split.
  - intros Hv. split; [by apply obj_keys|done].
  - intros [Hin _]. apply (obj_lookup _ _ _ (spec_tags_nodup (GetSpec obj)) Hin).
Qed.

Lemma spec_map_not_null {St S} `{Spec S, !SpecLaws S} (drv : Driver St S)
    (obj : ManagedObject S) (k : string) : spec_map drv obj !! k ≠ Some JNull.
Proof.
  intros [Hin _]%spec_map_lookup. pose proof (spec_no_null (GetSpec obj)) as Hn.
  rewrite Forall_forall in Hn. by apply (Hn _ Hin).
Qed.

Lemma spec_map_no_id {St S} `{Spec S, !SpecLaws S} (drv : Driver St S) (obj : ManagedObject S) :
  spec_map drv obj !! "id" = None.
Proof.
  destruct (spec_map drv obj !! "id") as [v|] eqn:E; [|done]. exfalso.
  apply spec_map_lookup in E as [Hin _]. apply (spec_no_id (GetSpec obj)).
  apply list_elem_of_fmap. by exists ("id", Some v).
Qed.

(** The stamped spec is part of the stamped payload: resets add keys the spec lacks. *)
(** A reset field holds no map that could be merged into. *)
Lemma effective_maps (specMap payload : rep) (recorded k : string) :
  EffectivePayload specMap recorded = inr payload →
  default ∅ (field_map specMap k) = default ∅ (field_map payload k).
Proof.
  intros [last Hp]%EffectivePayload_inv. unfold field_map. rewrite Hp.
  destruct (specMap !! k); [done|]. destruct (last !! k) as [[]|]; done.
Qed.

Lemma marker_part {St S} `{Env St, Spec S} (drv : Driver St S) `{!DriverLaws drv}
    (specMap payload : rep) (recorded : string) :
  EffectivePayload specMap recorded = inr payload →
  drv_ManagedMarker drv specMap ⊆ drv_ManagedMarker drv payload.
Proof.
  intros He. apply marker_mono; [|by eapply effective_maps].
  apply EffectivePayload_inv in He as [last Hp].
  apply map_subseteq_spec. intros k v Hk. by rewrite Hp, Hk.
Qed.

(** The same after the injection of Secrets. *)
Lemma prepared_part {St S} `{Env St, Spec S} (drv : Driver St S) `{!DriverLaws drv} (kc : Client)
    (obj : ManagedObject S) (specMap payload prepared : rep) (recorded : string) (w w' : World St) :
  EffectivePayload specMap recorded = inr payload →
  drv_PreparePayload drv kc obj (drv_ManagedMarker drv payload) w = (Some (inr prepared), w') →
  ∃ next, drv_PreparePayload drv kc obj (drv_ManagedMarker drv specMap) w = (Some (inr next), w') ∧
    next ⊆ prepared.
Proof.
  intros He Hq. apply (prepare_mono _ _ _ _ _ _ _ Hq); [by eapply marker_part|].
  intros k Hk. assert (k ≠ "attributes") as Hne by (unfold injected_fields in Hk; set_solver).
  unfold field_map. rewrite !marker_frame by done. by eapply (effective_maps _ _ _ k).
Qed.

(** A payload with the spec recorded is the spec. *)
Lemma EffectivePayload_recorded (specMap : rep) :
  EffectivePayload specMap (marshal (JObj specMap)) = inr specMap.
Proof.
  destruct (EffectivePayload_marshal specMap specMap) as (p & -> & Hk). f_equal.
  apply map_eq. intros k. rewrite Hk. by destruct (specMap !! k).
Qed.

(** The end of a deletion: perhaps an event, then one update without the finalizer. *)
Lemma release_run {St} `{Env St, KubeLib, !KubeLibLaws} {S} `{Spec S} (e : Engine)
    (obj : ManagedObject S) (w : World St) :
  wp (_ ← record e EventTypeNormal "Deleted" "Deleted resource on Keycloak server";
      r ← remove_finalizer obj; mret (r.2, r.1)) (λ o _ l, is_Some o ∧ ∃ evs meta st,
    l = evs ++ [KubeUpdate meta st] ∧ length (events evs) = length evs ∧
    ∀ f, f ∈ GetFinalizers meta ↔ f ∈ GetFinalizers (Meta obj) ∧ f ≠ FinalizerName) w.
Proof.
  assert (∀ evs w, length (events evs) = length evs →
    wp (r ← remove_finalizer obj; mret (r.2, r.1)) (λ o _ l, is_Some o ∧ ∃ evs' meta st,
      evs ++ l = evs' ++ [KubeUpdate meta st] ∧ length (events evs') = length evs' ∧
      ∀ f, f ∈ GetFinalizers meta ↔ f ∈ GetFinalizers (Meta obj) ∧ f ≠ FinalizerName) w) as Hrel.
  { intros evs w0 Hevs. unfold remove_finalizer, kube_update. apply wp_bind, wp_call; [apply _|].
    intros x s _. simpl. apply wp_ret. split; [by eexists|]. exists evs. do 2 eexists.
    split; [done|]. split; [done|]. intros f. simpl. apply remove_spec. }
  apply wp_bind. unfold record. destruct (eng_recorder e).
  - apply wp_emit; [apply _|]. apply (Hrel [_]). done.
  - apply wp_ret. by apply (Hrel []).
Qed.
