(* ===== verification/EngineTheorems.v ===== *)
(** * Theorems about the engine

    The guarantees of the reconciliation lifecycle, for every driver that keeps the
    contract of DriverLaws.v, every server, every failure and every iteration order. *)

From Stdlib Require Import ZArith Lia.
From stdpp Require Import base gmap strings list.
From S2P Require Import Prelude Json JsonText GoError LastApplied ApiTypes World Sim Logic Url.
From S2P Require Import HttpClient AdminApi Provider DriverHelpers Drivers DriverLaws Engine EngineLaws.

Local Open Scope string_scope.
Local Open Scope list_scope.

(** ** Foreign resources *)

(** C1.  A foreign resource is never written.  When the server holds the resource and the
    policy does not allow to take it over (FailIfExists; or anything but Adopt, with
    neither the marker on the server nor a record of an earlier reconciliation), the whole
    reconciliation of a live object only reads: no Admin API request but GET, no change to
    any Secret. *)
Theorem foreign_untouched {St} `{Env St, KubeLib} {S} `{Spec S} (drv : Driver St S)
    `{!DriverLaws drv} (e : Engine) (obj : ManagedObject S) (w w1 w2 : World St) (kc : Client)
    (remote : rep) :
  deleting obj = false → connects obj w kc w1 →
  drv_Get drv kc obj w1 = (Some (inr remote), w2) → refused drv obj remote →
  ∃ r w' l, Reconcile e obj drv w = (Some r, w') ∧ trace w' = trace w ++ l ∧ Forall quiet l.
Proof.
  intros Hdel Hconn Hget Href. apply safe_at_trace.
  assert (safe_at (engine_act drv kc obj false) (Reconcile e obj drv) w) as Hs.
  { apply (reconcile_safe_at e drv); [apply bookkeeping_engine|done|done|done|].
    intros kc' w' Hconn' _ _. unfold connects in *. rewrite Hconn in Hconn'. simplify_eq.
    eapply (sync_quiet e drv); [exact Hget|done|]. intros remote' m p [= <-].
    by apply handleExisting_refused_safe. }
  eapply wp_mono; [exact Hs|]. simpl. intros o _ l [Ho Hl]. split; [done|].
  eapply Forall_impl; [exact Hl|]. apply engine_act_quiet.
Qed.

Definition foreign_group : json := JObj {["id" := JStr "g1"; "name" := JStr "ops"]}.

Lemma foreign_untouched_witness :
  let obj := sim_object "Group" "ops" None [FinalizerName] ∅ (sim_group "ops" None None None) in
  let w := sim_world [ok_token; ok_json (JArr [foreign_group]); ok_json foreign_group] in
  ∃ r w' l, Reconcile (NewEngine true 0) obj GroupDriver w = (Some r, w') ∧
    trace w' = trace w ++ l ∧ Forall quiet l.
Proof.
  intros obj w.
  eapply (foreign_untouched GroupDriver (NewEngine true 0) obj w);
    [reflexivity|apply run_eq; vm_compute; reflexivity|apply run_eq; vm_compute; reflexivity|].
  right. split; [discriminate|]. split; vm_compute; reflexivity.
Defined.

(** ** Protected realms, finalizers, orphaned resources *)

(** C27.  A protected realm is refused.  Reconciling a live Realm object that targets a
    protected realm, without the annotation that allows it, sends no request at all. *)
Theorem protected_realm_refused {St} `{EnvLaws St, KubeLib, !KubeLibLaws} (e : Engine)
    (obj : ManagedObject RealmTypes.RealmSpec) (w : World St) :
  deleting obj = false → TargetRealm (GetSpec obj) ∈ ProtectedRealmNames →
  annotation obj AllowProtectedAnnotation ≠ "true" →
  ∃ r w' l, Reconcile e obj RealmDriver w = (Some r, w') ∧ trace w' = trace w ++ l ∧
    Forall no_http l.
Proof.
  intros Hdel Hrealm Hann. apply safe_at_trace.
  apply (reconcile_safe_at e RealmDriver); [by intros []|done|done|done|].
  intros kc w' _ _ Hprot. exfalso. simpl in Hprot. unfold RealmDriver_Protected in Hprot.
  rewrite bool_decide_true in Hprot by done. simpl in Hprot.
  unfold annotation in Hann. by rewrite (proj2 (String.eqb_neq _ _) Hann) in Hprot.
Qed.

Lemma protected_realm_refused_witness :
  let obj := sim_object "Realm" "m" None [FinalizerName] ∅ (sim_realm "master" None None) in
  ∃ r w' l, Reconcile (NewEngine true 0) obj RealmDriver (sim_world []) = (Some r, w') ∧
    trace w' = [] ++ l ∧ Forall no_http l.
Proof.
  intros obj. apply (protected_realm_refused (NewEngine true 0) obj (sim_world []));
    [reflexivity|vm_compute; set_solver|discriminate].
Defined.

(** No request, and no write of the object but one that has the finalizer. *)
Definition adds_finalizer (a : Action) : Prop :=
  match a with
  | Http _ | KubePatch _ _ => False
  | KubeUpdate m _ => FinalizerName ∈ GetFinalizers m
  | _ => True
  end.

(** C8.  The finalizer comes first.  A live object without the finalizer is reconciled
    without any request to the server, and the one write of the object it may see adds the
    finalizer: no server-side state exists that deletion would not clean up. *)
Theorem finalizer_first {St} `{Env St, KubeLib, !KubeLibLaws} {S} `{Spec S} (drv : Driver St S)
    `{!DriverLaws drv} (e : Engine) (obj : ManagedObject S) (w : World St) :
  deleting obj = false → FinalizerName ∉ GetFinalizers (Meta obj) →
  ∃ r w' l, Reconcile e obj drv w = (Some r, w') ∧ trace w' = trace w ++ l ∧
    Forall adds_finalizer l.
Proof.
  intros Hdel Hfin. apply safe_at_trace.
  apply (reconcile_safe_at e drv); [by intros []|done| |done|].
  - simpl. apply add_spec. by left.
  - intros kc w' _ Hc. by apply contains_spec in Hc.
Qed.

Lemma finalizer_first_witness :
  let obj := sim_object "Group" "ops" None [] ∅ (sim_group "ops" None None None) in
  ∃ r w' l, Reconcile (NewEngine true 0) obj GroupDriver (sim_world []) = (Some r, w') ∧
    trace w' = [] ++ l ∧ Forall adds_finalizer l.
Proof.
  intros obj. apply (finalizer_first GroupDriver (NewEngine true 0) obj (sim_world []));
    [reflexivity|apply not_elem_of_nil].
Defined.

(** C28.  Orphaning needs no server.  An object being deleted under the Orphan policy loses
    its finalizer in one update, with no request to Keycloak and no read of the connection
    or its Secret, whatever driver and environment. *)
Theorem orphan_needs_no_server {St} `{Env St, KubeLib, !KubeLibLaws} {S} `{Spec S}
    (drv : Driver St S) (e : Engine) (obj : ManagedObject S) (w : World St) :
  deleting obj = true → Deletion (GetSpec obj) = DeletionOrphan →
  ∃ r w' m st label d, Reconcile e obj drv w = (Some r, w') ∧
    trace w' = trace w ++ [KubeUpdate m st;
                           Metric ReconciliationsTotal [Kind obj; label] Inc;
                           Metric ReconcileDuration [Kind obj] (Observe d)] ∧
    (∀ f, f ∈ GetFinalizers m ↔ f ∈ GetFinalizers (Meta obj) ∧ f ≠ FinalizerName).
Proof.
  intros Hdel Hpol.
  assert (wp (Reconcile e obj drv) (λ o _ l, is_Some o ∧ ∃ m st label d,
    l = [KubeUpdate m st; Metric ReconciliationsTotal [Kind obj; label] Inc;
         Metric ReconcileDuration [Kind obj] (Observe d)] ∧
    ∀ f, f ∈ GetFinalizers m ↔ f ∈ GetFinalizers (Meta obj) ∧ f ≠ FinalizerName) w)
    as (l & Hl & _ & [r Hr] & m & st & label & d & -> & Hm).
  { apply wp_bind, wp_call_env; [apply _|]. simpl. apply wp_deferred. unfold reconcile_body.
    rewrite Hdel, Hpol. simpl. unfold remove_finalizer, kube_update.
    apply wp_bind, wp_call; [apply _|]. intros [o obj'] s' _. simpl.
    destruct o; apply wp_ret; apply wp_bind, wp_metric; try done; simpl;
      (apply wp_bind, wp_call_env; [apply _|]); simpl; apply wp_metric; try done;
      (split; [by eexists|]; do 4 eexists; split; [done|]; intros f; simpl; apply remove_spec). }
  destruct (Reconcile e obj drv w) as [o w'] eqn:E. simpl in *. subst o. eauto 10.
Qed.

Lemma orphan_needs_no_server_witness :
  let obj := sim_object "Realm" "r" (Some 5%Z) [FinalizerName] ∅ (sim_realm "acme" None None) in
  ∃ r w' m st label d, Reconcile (NewEngine true 0) obj RealmDriver (sim_world []) = (Some r, w') ∧
    trace w' = [] ++ [KubeUpdate m st; Metric ReconciliationsTotal ["Realm"; label] Inc;
                      Metric ReconcileDuration ["Realm"] (Observe d)] ∧
    (∀ f, f ∈ GetFinalizers m ↔ f ∈ [FinalizerName] ∧ f ≠ FinalizerName).
Proof.
  intros obj. exact (orphan_needs_no_server RealmDriver (NewEngine true 0) obj (sim_world [])
    eq_refl eq_refl).
Defined.

(** ** Deletion *)

(** The object was released: perhaps an event, then one update without the finalizer. *)
Definition released {St S} (obj : ManagedObject S) (m : M St (ManagedObject S * option GoError))
    (w w' : World St) : Prop :=
  ∃ r w'' evs meta st, m w = (Some r, w'') ∧
    trace w'' = trace w' ++ evs ++ [KubeUpdate meta st] ∧ length (events evs) = length evs ∧
    (∀ f, f ∈ GetFinalizers meta ↔ f ∈ GetFinalizers (Meta obj) ∧ f ≠ FinalizerName).

(** C7.  Deletion under the Delete policy.  The finalizer is removed exactly when the
    driver's delete succeeded or found nothing to delete; any other error, and a panic,
    ends the reconciliation before the object is written, so that it is retried. *)
Theorem deletion_order {St} `{Env St, KubeLib, !KubeLibLaws} {S} `{Spec S} (drv : Driver St S)
    (e : Engine) (obj : ManagedObject S) (kc : Client) (w : World St) :
  Deletion (GetSpec obj) = DeletionDelete →
  match drv_Delete drv kc obj w with
  | (Some (inl err), w') =>
      if errors_Is err SNotFound then released obj (handleDeletion e obj drv kc) w w'
      else handleDeletion e obj drv kc w = (Some (obj, Some err), w')
  | (Some (inr _), w') => released obj (handleDeletion e obj drv kc) w w'
  | (None, w') => handleDeletion e obj drv kc w = (None, w')
  end.
Proof.
  intros Hpol.
  assert (∀ w', handleDeletion e obj drv kc w =
      (_ ← record e EventTypeNormal "Deleted" "Deleted resource on Keycloak server";
       r ← remove_finalizer obj; mret (r.2, r.1)) w' →
      released obj (handleDeletion e obj drv kc) w w') as Hrel.
  { intros w' E. destruct (release_run e obj w') as (l & Hl & _ & [r Hr] & evs & meta & st & -> & Hev & Hf).
    rewrite <- E in Hl, Hr. destruct (handleDeletion e obj drv kc w) as [o w''] eqn:Hrun.
    simpl in *. subst o. exists r, w'', evs, meta, st. by rewrite Hrun. }
  unfold handleDeletion in *. rewrite Hpol in *. simpl in *.
  unfold mbind, M_bind, mret, M_ret in *.
  destruct (drv_Delete drv kc obj w) as [[[err|u]|] w'].
  - destruct (errors_Is err SNotFound); [|done]. apply Hrel. unfold record.
    by destruct (eng_recorder e).
  - apply Hrel. unfold record. by destruct (eng_recorder e).
  - done.
Qed.

Lemma deletion_order_witness :
  let kc := mkClient (mkConfig "team/kc" "https://kc.example" "master" "password" "a" "b" "" "" false) 0 in
  let obj := sim_object "Realm" "r" (Some 5%Z) [FinalizerName] ∅ (sim_realm "acme" None (Some "Delete")) in
  (handleDeletion (NewEngine true 0) obj RealmDriver kc (sim_world [ok_token; status 404])).1 =
     Some (set_Meta (SetFinalizers [] (Meta obj)) obj, None) ∧
  match drv_Delete RealmDriver kc obj (sim_world [ok_token; status 204]) with
  | (Some (inl err), w') =>
      if errors_Is err SNotFound
      then released obj (handleDeletion (NewEngine true 0) obj RealmDriver kc)
             (sim_world [ok_token; status 204]) w'
      else handleDeletion (NewEngine true 0) obj RealmDriver kc (sim_world [ok_token; status 204])
           = (Some (obj, Some err), w')
  | (Some (inr _), w') =>
      released obj (handleDeletion (NewEngine true 0) obj RealmDriver kc)
        (sim_world [ok_token; status 204]) w'
  | (None, w') =>
      handleDeletion (NewEngine true 0) obj RealmDriver kc (sim_world [ok_token; status 204])
      = (None, w')
  end.
Proof.
  intros kc obj. split; [vm_compute; reflexivity|].
  exact (deletion_order RealmDriver (NewEngine true 0) obj kc (sim_world [ok_token; status 204])
    eq_refl).
Defined.

(** ** Errors, success, events *)

(** C29.  A transient read error changes nothing and is retried.  When the resource cannot
    be read for any reason but absence, the engine only reads, reports Ready and Synced
    as False with reason Retrying and the error as the message, and returns the error, so
    that the object is requeued with backoff. *)
Theorem transient_error_retried {St} `{Env St, KubeLib, !KubeLibLaws} {S} `{Spec S}
    (drv : Driver St S) `{!DriverLaws drv} (e : Engine) (obj base : ManagedObject S) (kc : Client)
    (w w1 : World St) (payload : rep) (err : GoError) :
  EffectivePayload (spec_map drv obj) (annotation obj LastAppliedAnnotation) = inr payload →
  drv_Get drv kc obj w = (Some (inl err), w1) → errors_Is err SNotFound = false →
  ∃ obj' w' l, sync e obj drv kc base w = (Some (obj', failed err), w') ∧
    trace w' = trace w ++ l ∧ Forall quiet l ∧
    reported l ConditionReady ConditionFalse ReasonRetrying (Error err) ∧
    reported l ConditionSynced ConditionFalse ReasonRetrying "Server unreachable".
Proof.
  intros Hp Hget Herr.
  assert (sync e obj drv kc base w =
    (obj ← not_ready obj base ReasonRetrying (Error err) "Server unreachable";
     mret (obj, failed err)) w1) as E.
  { unfold sync. rewrite Hp. unfold mbind, M_bind at 1. by rewrite Hget, Herr. }
  assert (wp (obj ← not_ready obj base ReasonRetrying (Error err) "Server unreachable";
     mret (obj, failed err)) (λ o _ l, (∃ obj', o = Some (obj', failed err)) ∧
       two_reports ConditionFalse ReasonRetrying (Error err) "Server unreachable" l) w1)
    as (l2 & Hl2 & _ & [obj' Ho] & Hb & Hr & Hs).
  { apply wp_bind. eapply wp_mono; [apply not_ready_wp|]. intros o w' l ([obj' ->] & Hrep). simpl.
    apply wp_ret. rewrite app_nil_r. eauto. }
  rewrite <- E in Hl2, Ho.
  destruct (get_reads (drv := drv) kc obj w) as (l1 & Hl1 & _ & _ & Hq1). rewrite Hget in Hl1. simpl in Hl1.
  destruct (sync e obj drv kc base w) as [o w'] eqn:Hrun. simpl in *. subst o.
  exists obj', w', (l1 ++ l2). split; [done|]. split; [by rewrite Hl2, Hl1, app_assoc|].
  split; [|by split; apply reported_app_r].
  apply Forall_app. split.
  - eapply Forall_impl; [exact Hq1|]. intros a Ha.
    by eapply (engine_act_quiet drv kc obj), obj_act_engine.
  - eapply Forall_impl; [exact Hb|]. intros []; simpl; try done; by intros; split; [tauto|].
Qed.

Lemma transient_error_retried_witness :
  let kc := mkClient (mkConfig "team/kc" "https://kc.example" "master" "password" "a" "b" "" "" false) 0 in
  let obj := sim_object "Group" "ops" None [FinalizerName] ∅ (sim_group "ops" None None None) in
  let w := sim_world [ok_token; status 503] in
  ∃ err obj' w' l, sync (NewEngine true 0) obj GroupDriver kc obj w = (Some (obj', failed err), w') ∧
    trace w' = [] ++ l ∧ Forall quiet l ∧
    reported l ConditionReady ConditionFalse ReasonRetrying (Error err) ∧
    reported l ConditionSynced ConditionFalse ReasonRetrying "Server unreachable".
Proof.
  intros kc obj w. eexists.
  eapply (transient_error_retried GroupDriver (NewEngine true 0) obj obj kc w);
    [reflexivity|vm_compute; reflexivity|reflexivity].
Defined.



(** Failures are announced once.  [fail] reports the failure in both conditions, and
    records its warning event exactly when the Ready condition did not already carry the
    same reason and message. *)
Lemma failures_announced_once {St} `{Env St, KubeLib, !KubeLibLaws} {S} `{Spec S} (e : Engine)
    (obj base : ManagedObject S) (reason message : string) (w : World St) :
  eng_recorder e = true →
  ∃ obj' w' l, fail e obj base reason message w = (Some obj', w') ∧ trace w' = trace w ++ l ∧
    two_reports ConditionFalse reason message message l ∧
    (events l = [(EventTypeWarning, reason, message)] ∧ new_failure obj reason message
     ∨ events l = [] ∧ ¬ new_failure obj reason message).
Proof.
  intros He. destruct (fail_wp e obj base reason message w) as (l & Hl & _ & [obj' Ho] & Hrep).
  destruct (fail_events e obj base reason message w He) as (l' & Hl' & _ & Hev).
  rewrite Hl in Hl'. apply app_inv_head in Hl' as <-.
  destruct (fail e obj base reason message w) as [o w'] eqn:E. simpl in *. subst o. eauto 10.
Qed.

Lemma failures_announced_once_witness :
  let obj := sim_object "Group" "ops" None [FinalizerName] ∅ (sim_group "ops" None None None) in
  ∃ obj' w' l, fail (NewEngine true 0) obj obj ReasonFailed "boom" (sim_world []) = (Some obj', w') ∧
    trace w' = [] ++ l ∧ two_reports ConditionFalse ReasonFailed "boom" "boom" l ∧
    (events l = [(EventTypeWarning, ReasonFailed, "boom")] ∧ new_failure obj ReasonFailed "boom"
     ∨ events l = [] ∧ ¬ new_failure obj ReasonFailed "boom").
Proof.
  intros obj. exact (failures_announced_once (NewEngine true 0) obj obj ReasonFailed "boom"
    (sim_world []) eq_refl).
Defined.

(** ** Isolation *)

(** C2.  A reconciliation stays in its tenant.  Everything one [Reconcile] does, deletion
    included, is: requests to one server, for a token or inside the one realm the spec
    targets, or, for the kind that manages realms, the creation of that realm, with a body
    that carries its name; reads of connections and Secrets and writes of
    Secrets in the object's own namespace; writes of the object itself; events and metrics.
    It always returns while the object is live. *)
Theorem reconcile_isolated {St} `{Env St, KubeLib} {S} `{Spec S} (drv : Driver St S)
    `{!DriverLaws drv} (e : Engine) (obj : ManagedObject S) (w : World St) :
  ∃ kc o w' l, Reconcile e obj drv w = (o, w') ∧ trace w' = trace w ++ l ∧
    Forall (engine_act drv kc obj true) l ∧ (deleting obj = false → is_Some o).
Proof.
  destruct (reconcile_isolated_wp e drv obj w) as (l & Hl & _ & Ho & kc & Hk).
  exists kc, (Reconcile e obj drv w).1, (Reconcile e obj drv w).2, l.
  by destruct (Reconcile e obj drv w).
Qed.

Lemma reconcile_isolated_witness :
  let obj := sim_object "Realm" "r" (Some 5%Z) [FinalizerName] ∅ (sim_realm "acme" None (Some "Delete")) in
  let w := sim_world [ok_token; status 204] in
  (∃ r, (Reconcile (NewEngine true 0) obj RealmDriver w).1 = Some r) ∧
  ∃ kc o w' l, Reconcile (NewEngine true 0) obj RealmDriver w = (o, w') ∧ trace w' = [] ++ l ∧
    Forall (engine_act (RealmDriver (St := Sim)) kc obj true) l ∧ (deleting obj = false → is_Some o).
Proof.
  intros obj w. split; [eexists; vm_compute; reflexivity|].
  exact (reconcile_isolated RealmDriver (NewEngine true 0) obj w).
Defined.

(** ** Convergence *)

(** C5.  One update converges.  Let a pass compute its payload from the spec and whatever was
    recorded before, stamp the marker, inject the Secrets ([PreparePayload] included), and let
    the server hold what that pass sends: its own representation with the prepared payload
    laid over it.  Let a later pass, with any client and any object of the kind, find the
    same values in the Secrets.  Then that pass, which finds the spec recorded, computes the
    spec as its payload, its preparation succeeds, the drift test finds nothing to correct,
    whatever the server held before, and [apply_existing] goes on without an update. *)
Theorem one_update_converges {St} `{Env St, KubeLib} {S} `{Spec S} (drv : Driver St S)
    `{!DriverLaws drv} (e : Engine) (kc kc2 : Client) (obj obj2 base : ManagedObject S)
    (specMap payload prepared remote : rep) (recorded : string) (w w' v : World St) :
  EffectivePayload specMap recorded = inr payload →
  drv_PreparePayload drv kc obj (drv_ManagedMarker drv payload) w = (Some (inr prepared), w') →
  (∀ p, (drv_PreparePayload drv kc2 obj2 p v).1 = (drv_PreparePayload drv kc obj p w).1) →
  let sent := MergePayload (cloneMap remote) prepared in
  EffectivePayload specMap (marshal (JObj specMap)) = inr specMap ∧
  ∃ next v', drv_PreparePayload drv kc2 obj2 (drv_ManagedMarker drv specMap) v = (Some (inr next), v') ∧
    PayloadDiffers sent next = false ∧
    apply_existing e obj2 drv kc2 base specMap specMap sent false v =
    after_update e obj2 drv kc2 base specMap sent false v'.
Proof.
  intros He Hq Hsame sent. split; [apply EffectivePayload_recorded|].
  destruct (prepared_part drv kc obj _ _ _ _ _ _ He Hq) as (next & Hn & Hsub).
  specialize (Hsame (drv_ManagedMarker drv specMap)). rewrite Hn in Hsame. simpl in Hsame.
  destruct (drv_PreparePayload drv kc2 obj2 _ v) as [o v'] eqn:Hv. simpl in Hsame. subst o.
  assert (PayloadDiffers sent next = false) as Hd by by apply merge_covers_part.
  exists next, v'. split; [done|]. split; [done|].
  unfold apply_existing. cbv zeta. rewrite (bind_eq _ _ _ _ _ Hv). by rewrite Hd.
Qed.

(** An identity provider whose configuration gets its password from a Secret; the server held
    another name and a stale password. *)
Lemma one_update_converges_witness :
  let spec := IdentityProviderTypes.mkIdentityProviderSpec sim_ref "acme" "github" "github" None None
    None None None None None None None None ∅
    (Some (mkSecretKeysSelector "kc-admin" {["clientSecret" := "password"]})) [] in
  let obj := sim_object "IdentityProvider" "github" None [] ∅ spec in
  let kc := mkClient (mkConfig "team/kc" "https://kc.example" "master" "password" "a" "b" "" "" false) 0 in
  let specMap := spec_map (IdentityProviderDriver (St := Sim)) obj in
  let prepared := <["config" := JObj {["clientSecret" := JStr "s3cret"]}]> specMap in
  let remote : rep := {["alias" := JStr "old"; "config" := JObj {["clientSecret" := JStr "stale"]}]} in
  let sent := MergePayload (cloneMap remote) prepared in
  PayloadDiffers remote prepared = true ∧
  ∃ next v', IdentityProviderDriver_PreparePayload kc obj specMap (sim_world []) =
      (Some (inr next), v') ∧ PayloadDiffers sent next = false.
Proof.
  intros spec obj kc specMap prepared remote sent. split; [vm_compute; reflexivity|].
  destruct (one_update_converges (IdentityProviderDriver (St := Sim)) (NewEngine true 0) kc kc obj obj
    obj specMap specMap prepared remote "" (sim_world [])
    (IdentityProviderDriver_PreparePayload kc obj specMap (sim_world [])).2 (sim_world []))
    as (_ & next & v' & Hn & Hd & _).
  - apply EffectivePayload_fresh.
  - vm_compute. reflexivity.
  - done.
  - exists next, v'. exact (conj Hn Hd).
Defined.

(** A pass without drift is quiet.  For a managed resource whose representation
    satisfies the prepared payload, and a driver with nothing to do after the update, the
    pass sends only reads and ends by scheduling the next one, unless recording the spec
    fails. *)
Lemma in_sync_quiet {St} `{Env St, KubeLib, !KubeLibLaws} {S} `{Spec S}
    (drv : Driver St S) `{!DriverLaws drv} (e : Engine) (obj base : ManagedObject S) (kc : Client)
    (w w1 w2 : World St) (payload prepared remote : rep) :
  EffectivePayload (spec_map drv obj) (annotation obj LastAppliedAnnotation) = inr payload →
  drv_Get drv kc obj w = (Some (inr remote), w1) →
  Adoption (GetSpec obj) ≠ AdoptionFailIfExists →
  drv_IsManaged drv remote = true ∨ annotation obj LastAppliedAnnotation ≠ "" →
  drv_PreparePayload drv kc obj (drv_ManagedMarker drv payload) w1 = (Some (inr prepared), w2) →
  PayloadDiffers remote prepared = false →
  drv_PostApply drv kc obj remote w2 = (Some (obj, (false, None)), w2) →
  ∃ obj' r w' l, sync e obj drv kc base w = (Some (obj', r), w') ∧ trace w' = trace w ++ l ∧
    Forall quiet l ∧ (r = after (eng_resync e) ∨ ∃ err, r = failed err).
Proof.
  intros Hp Hget Hpol Hman Hprep Hdiff Hpost.
  assert (sync e obj drv kc base w =
    finalize e obj base (spec_map drv obj) false w2) as E.
  { unfold sync. rewrite Hp. unfold mbind, M_bind at 1. rewrite Hget.
    unfold handleExisting. rewrite (proj2 (String.eqb_neq _ _) Hpol).
    replace (drv_IsManaged drv remote || _) with true.
    2: { destruct Hman as [->|Ha]; [done|]. rewrite (proj2 (String.eqb_neq _ _) Ha). by rewrite orb_true_r. }
    unfold apply_existing, after_update, mbind, M_bind. rewrite Hprep, Hdiff. simpl.
    by rewrite Hpost. }
  destruct (get_reads (drv := drv) kc obj w) as (l1 & Hl1 & _ & _ & Hq1). rewrite Hget in Hl1.
  destruct (prepare_reads (drv := drv) kc obj (drv_ManagedMarker drv payload) w1)
    as (l2 & Hl2 & _ & _ & Hq2). rewrite Hprep in Hl2. simpl in *.
  destruct (finalize_wp e obj base (spec_map drv obj) false w2)
    as (l3 & Hl3 & _ & obj' & r & patch & rest & Ho & -> & _ & Hend).
  assert (safe (engine_act drv kc obj false) (finalize e obj base (spec_map drv obj) false)) as Hs
    by (apply finalize_safe; [apply bookkeeping_engine|done]).
  destruct (Hs w2) as (l3' & Hl3' & _ & _ & Hq3). rewrite Hl3 in Hl3'.
  apply app_inv_head in Hl3' as <-. rewrite <- E in Hl3, Ho.
  destruct (sync e obj drv kc base w) as [o w'] eqn:Hrun. simpl in *. subst o.
  exists obj', r, w', (l1 ++ l2 ++ patch ++ rest).
  split; [done|]. split; [by rewrite Hl3, Hl2, Hl1, !app_assoc|]. split.
  - rewrite !Forall_app in *. destruct Hq3 as [Hq3 Hq4].
    split_and!; (eapply Forall_impl; [eassumption|]; intros a Ha;
      eapply (engine_act_quiet drv kc obj); auto using obj_act_engine).
  - destruct Hend as [[-> _]|(err & -> & _)]; eauto.
Qed.

Lemma in_sync_quiet_witness :
  let kc := mkClient (mkConfig "team/kc" "https://kc.example" "master" "password" "a" "b" "" "" false) 0 in
  let obj := sim_object "ClientScope" "s" None [FinalizerName] ∅ (sim_scope "phone") in
  let remote : rep := {["name" := JStr "phone";
                        "attributes" := JObj {[ManagedAnnotation := JStr ManagedValue]}]} in
  let w := sim_world [ok_token; ok_json (JArr [JObj remote])] in
  ∃ obj' r w' l, sync (NewEngine true 0) obj ClientScopeDriver kc obj w = (Some (obj', r), w') ∧
    trace w' = [] ++ l ∧ Forall quiet l ∧
    (r = after (eng_resync (NewEngine true 0)) ∨ ∃ err, r = failed err).
Proof.
  intros kc obj remote w.
  eapply (in_sync_quiet ClientScopeDriver (NewEngine true 0) obj obj kc w);
    [reflexivity|apply (run_eq _ _ (inr remote)); vm_compute; reflexivity|discriminate
    |left; vm_compute; reflexivity|reflexivity|vm_compute; reflexivity|reflexivity].
Defined.

(** ** Behaviour that differs from the documentation *)

(** The methods and paths of the Admin API writes of a trace. *)
Definition admin_writes (l : list Action) : list (string * string) :=
  omap (λ a, match a with
             | Http r => if String.eqb (rq_authorization r) "" || String.eqb (rq_method r) "GET"
                         then None else Some (rq_method r, rq_path r)
             | _ => None
             end) l.

(** Deletion checks neither ownership nor protection.  A Client object with the
    default policies that was refused because the client on the server is foreign, and that
    is then deleted, has that foreign client deleted; a Realm object for the protected
    realm [master], refused for lack of the annotation, has [master] deleted when it is
    deleted under the Delete policy. *)
Lemma deletion_bypasses_guards :
  let foreign := ok_json (JArr [JObj {["id" := JStr "c1"; "clientId" := JStr "app"]}]) in
  let client d := sim_object "Client" "app" d [FinalizerName] ∅ (sim_client "app" None None None) in
  let realm d := sim_object "Realm" "m" d [FinalizerName] ∅ (sim_realm "master" None (Some "Delete")) in
  let run {S} `{Spec S} (drv : Driver Sim S) (o : ManagedObject S) answers :=
    admin_writes (trace (Reconcile (NewEngine true 0) o drv (sim_world answers)).2) in
  run ClientDriver (client None) [ok_token; foreign] = [] ∧
  run ClientDriver (client (Some 5%Z)) [ok_token; foreign; status 204] =
    [("DELETE", "/admin/realms/acme/clients/c1")] ∧
  run RealmDriver (realm None) [ok_token] = [] ∧
  run RealmDriver (realm (Some 5%Z)) [ok_token; status 204] = [("DELETE", "/admin/realms/master")].
Proof. cbv zeta beta. split_and!; vm_compute; reflexivity. Qed.

(** A transient failure is counted as terminal.  When the server answers 503 the
    reconciliation returns the error and is retried with backoff, and the reconciliation
    counter is incremented under the outcome "terminal", not "error". *)
Lemma transient_error_counted_terminal :
  let obj := sim_object "Group" "ops" None [FinalizerName] ∅ (sim_group "ops" None None None) in
  let run := Reconcile (NewEngine true 0) obj GroupDriver (sim_world [ok_token; status 503]) in
  (∃ obj' err, run.1 = Some (obj', failed err)) ∧
  Metric ReconciliationsTotal ["Group"; OutcomeTerminal] Inc ∈ trace run.2.
Proof.
  cbv zeta. split; [do 2 eexists; vm_compute; reflexivity|].
  apply list_elem_of_In. vm_compute. tauto.
Qed.

(** ** The payload *)

(** The payload is the spec, one to one.  The document a kind sends, and records,
    holds exactly the fields of the spec that are set, each under its own key and with its
    own value, less the operator's bookkeeping fields; nothing is renamed, added or
    encoded as null. *)
Lemma payload_is_spec {St S} `{Spec S, !SpecLaws S} (drv : Driver St S)
    (obj : ManagedObject S) (k : string) :
  (∀ v, spec_map drv obj !! k = Some v ↔
     (k, Some v) ∈ spec_fields (GetSpec obj) ∧ k ∉ drv_OperatorFields drv) ∧
  spec_map drv obj !! k ≠ Some JNull.
Proof. split; [intros v; apply spec_map_lookup|apply spec_map_not_null]. Qed.

Lemma payload_is_spec_witness :
  let obj := sim_object "Realm" "r" None [] ∅ (sim_realm "acme" None None) in
  (∀ v, spec_map (RealmDriver (St := Sim)) obj !! "keycloakRef" = Some v ↔
     ("keycloakRef", Some v) ∈ spec_fields (GetSpec obj) ∧
     "keycloakRef" ∉ drv_OperatorFields (RealmDriver (St := Sim))) ∧
  spec_map (RealmDriver (St := Sim)) obj !! "keycloakRef" ≠ Some JNull.
Proof. intros obj. exact (payload_is_spec (RealmDriver (St := Sim)) obj "keycloakRef"). Defined.
