(* ===== verification/Convergence.v ===== *)
(** * Reconciliations against the fake server

    The engine, the drivers, the client and the server together.  [Hosted] is what the
    server promises a driver: it stores one representation for an object, hands it out,
    creates it, merges updates into it and deletes it, and what [PostApply] enforces beside
    it settles.  Against that interface, one reconciliation brings the server to the spec,
    every later one finds nothing to do, and the reconciliation of a deleted object removes
    the resource; Hosting, HostingScopes and HostingClients implement it.  A reconciliation
    leaves every other realm of the server as it was. *)

From Stdlib Require Import Ascii ZArith Lia.
From stdpp Require Import base gmap strings list.
From S2P Require Import Prelude Json JsonText GoError LastApplied ApiTypes World Sim Logic Url.
From S2P Require Import HttpClient AdminApi FakeServer FakeLaws FakeClient Provider.
From S2P Require Import DriverHelpers Drivers DriverLaws Engine EngineLaws.

Local Open Scope string_scope.
Local Open Scope list_scope.

(** ** Isolation on the server *)

Section ServerIsolation.
Context {St : Type} `{FakeEnv St, KubeLib}.
Context {S : Type} `{Spec S}.
Implicit Types obj : ManagedObject S.

(** One step of a reconciliation keeps every existing realm but the target's. *)
Lemma step_keeps_realm (drv : Driver St S) (kc : Client) obj (a : option Action) (t t' : St) (other : string) :
  plain (TargetRealm (GetSpec obj)) → other ≠ TargetRealm (GetSpec obj) →
  is_Some (realms (server t) !! other) →
  env_step a t t' → (∀ x, a = Some x → engine_act drv kc obj true x) →
  realm_view (server t') other = realm_view (server t) other.
Proof.
  intros Hr Hne Hx Hs Ha.
  assert ((∃ r, a = Some (Http r)) ∨ ¬ ∃ r, a = Some (Http r)) as [[r ->]|Hno].
  { destruct a as [[]|]; first [by left; eexists|right; by intros [? ?]]. }
  2: { f_equal. eapply unserved; [done|]. intros r ->. apply Hno. by exists r. }
  specialize (Ha _ eq_refl). unfold engine_act, create_act, obj_act, driver_act in Ha.
  inversion Hs as [| |x y Hlog|r' s'| | | | | | | |]; subst; [done|].
  destruct (decide (rq_base r = fake_url)) as [Hb|Hb]; [|by rewrite elsewhere].
  destruct (served r t Hb) as [-> _].
  destruct Ha as [[->|[[_ Hin] _]]|(_ & r'' & [= ->] & _ & Hp & Hm & _)].
  - by eapply serve_token.
  - by apply serve_only with (realm := TargetRealm (GetSpec obj)).
  - by apply serve_create.
Qed.
End ServerIsolation.

(** ** The interface of a hosted kind *)

(** The result of a lookup. *)
Definition found (r : option rep) (o : option (GoError + rep)) : Prop :=
  match r with
  | Some x => o = Some (inr x)
  | None => ∃ e, o = Some (inl e) ∧ errors_Is e SNotFound = true
  end.

(** What the server promises a driver for one object: [holds s r] says that the server
    stores [r] for it, [room s y] that the server can store and hand out [y] instead, and
    [settled s] that what [PostApply] enforces outside the representation is in place.
    [oid] is the id the server gives it. *)
Class Hosted {St S : Type} `{FakeEnv St, Spec S} (drv : Driver St S) (kc : Client)
    (obj : ManagedObject S) (oid : string) (holds : Server → option rep → Prop)
    (room : Server → rep → Prop) (settled : Server → Prop) := {
  hosted_get (w : World St) (r : option rep) :
    holds (server (env w)) r →
    wp (drv_Get drv kc obj) (λ o w' _, holds (server (env w')) r ∧
      (∀ y, room (server (env w)) y → room (server (env w')) y) ∧
      (settled (server (env w)) → settled (server (env w'))) ∧ found r o) w;
  hosted_create (w : World St) (p : rep) :
    holds (server (env w)) None → room (server (env w)) (with_id oid p) → p !! "id" = None →
    wp (drv_Create drv kc obj p) (λ o w' _,
      o = Some (inr ()) ∧ holds (server (env w')) (Some (with_id oid p))) w;
  hosted_update (w : World St) (x p : rep) :
    holds (server (env w)) (Some x) → room (server (env w)) (merge x p) →
    wp (drv_Update drv kc obj (drv_ID drv x) p) (λ o w' _,
      o = Some (inr ()) ∧ holds (server (env w')) (Some (merge x p))) w;
  hosted_post (w : World St) (x y : rep) :
    holds (server (env w)) (Some y) → drv_ID drv x = drv_ID drv y →
    wp (drv_PostApply drv kc obj x) (λ o w' l, ∃ changed, o = Some (obj, (changed, None)) ∧
      holds (server (env w')) (Some y) ∧ settled (server (env w')) ∧
      (settled (server (env w)) → changed = false ∧ Forall (obj_act kc obj false) l)) w;
  hosted_delete (w : World St) (r : option rep) :
    holds (server (env w)) r →
    wp (drv_Delete drv kc obj) (λ o w' _, holds (server (env w')) None ∧
      ∃ e, o = Some e ∧ match r with
                        | Some _ => e = inr ()
                        | None => ∃ err, e = inl err ∧ errors_Is err SNotFound = true
                        end) w;
  hosted_prepare (w : World St) (p : rep) : drv_PreparePayload drv kc obj p w = (Some (inr p), w);
  hosted_marker_id (p : rep) : drv_ManagedMarker drv p !! "id" = p !! "id";
  hosted_marker_null (p : rep) :
    (∀ k, p !! k ≠ Some JNull) → ∀ k, drv_ManagedMarker drv p !! k ≠ Some JNull;
  hosted_id (x y : rep) : x !! "id" = y !! "id" → drv_ID drv x = drv_ID drv y;
}.

(** ** Payloads on the server *)

Lemma merge_no_null (x p : rep) :
  (∀ k, p !! k ≠ Some JNull) → merge x (MergePayload x p) = MergePayload x p.
Proof.
  intros Hn. apply map_eq. intros k. unfold merge. rewrite lookup_union, MergePayload_lookup.
  specialize (Hn k). destruct (p !! k) as [[]|]; try done; by destruct (x !! k).
Qed.

Lemma differs_part (x payload part : rep) :
  part ⊆ payload → PayloadDiffers x payload = false → PayloadDiffers x part = false.
Proof.
  intros Hsub Hd. apply payload_differs_false. intros k v Hk.
  apply (proj1 (payload_differs_false _ _ _) Hd). by eapply lookup_weaken.
Qed.

Lemma differs_created (oid : string) (payload part : rep) :
  part ⊆ payload → part !! "id" = None → (∀ k, part !! k ≠ Some JNull) →
  PayloadDiffers (with_id oid payload) part = false.
Proof.
  intros Hsub Hid Hn. apply payload_differs_false. intros k v Hk. unfold with_id.
  rewrite lookup_insert_ne by congruence. rewrite (lookup_weaken _ _ _ _ Hk Hsub).
  apply key_differs_refl.
Qed.

(** ** One pass *)

Section Passes.
Context {St : Type} `{FakeEnv St, KubeLib, !KubeLibLaws}.
Context {S : Type} `{Spec S, !SpecLaws S}.
Context (drv : Driver St S) `{!DriverLaws drv}.
Variable e : Engine.
Implicit Types (obj base : ManagedObject S) (kc : Client).

(** A pass that ended: Ready is reported and the next pass scheduled, or the annotation
    could not be written and the error is returned. *)
Definition finished (l : list Action) (res : Result * option GoError) : Prop :=
  res = after (eng_resync e) ∧
    (∃ msg, reported l ConditionReady ConditionTrue ReasonSucceeded msg) ∨
  ∃ err m st, res = failed err ∧ KubePatch m st ∈ l.

Lemma finished_app (l k : list Action) (res : Result * option GoError) :
  finished k res → finished (l ++ k) res.
Proof.
  intros [[-> [msg Hr]]|(err & m & st & -> & Hin)]; [left|right].
  - split; [done|]. exists msg. by apply reported_app_r.
  - exists err, m, st. set_solver.
Qed.

Lemma finished_app_r (l k : list Action) (res : Result * option GoError) :
  finished l res → finished (l ++ k) res.
Proof.
  intros [[-> [msg Hr]]|(err & m & st & -> & Hin)]; [left|right].
  - split; [done|]. exists msg. by apply reported_app_l.
  - exists err, m, st. set_solver.
Qed.

(** The postcondition of a pass: the state of the server, and how the pass ended. *)
Definition pass (P : Server → list Action → Prop) (o : option (ManagedObject S * (Result * option GoError)))
    (w' : World St) (l : list Action) : Prop :=
  ∃ obj' res, o = Some (obj', res) ∧ finished l res ∧ P (server (env w')) l.

Lemma finalize_pass kc obj base (m : rep) (b : bool) (w : World St) :
  wp (finalize e obj base m b)
    (pass (λ s l, s = server (env w) ∧ Forall (engine_act drv kc obj false) l)) w.
Proof.
  assert (safe (engine_act drv kc obj false) (finalize (St := St) e obj base m b)) as Hs
    by (apply finalize_safe; [apply bookkeeping_engine|done]).
  assert (safe no_request (finalize (St := St) e obj base m b)) as Hn
    by (apply finalize_safe; [by intros []|done]).
  eapply wp_mono;
    [apply wp_and; [apply finalize_wp|apply wp_and; [apply (Hs w)|by apply wp_kept]]|].
  intros o w' l [(obj' & res & patch & rest & -> & -> & Hrec & Hend) [[_ Hl] [_ Hsrv]]].
  exists obj', res. split; [done|]. split; [|done].
  destruct Hend as [(-> & _ & Hrep & _)|(err & -> & -> & Hne)].
  - left. split; [done|]. eexists. by apply reported_app_r.
  - right. unfold records in Hrec. case_match; [done|]. destruct Hrec as (m' & st & -> & _).
    exists err, m', st. set_solver.
Qed.

(** A step of a pass that sends nothing. *)
Lemma bind_kept {A B} (m : M St A) (f : A → M St B)
    (Q : option B → World St → list Action → Prop) (w : World St) :
  safe no_request m →
  (∀ a w' l, server (env w') = server (env w) → wp (f a) (λ o w'' k, Q o w'' (l ++ k)) w') →
  wp (m ≫= f) Q w.
Proof.
  intros Hm Hf. apply wp_bind. eapply wp_mono; [by apply wp_kept|].
  intros o w' l [[a ->] Hs]. cbn [wp_then]. by apply Hf.
Qed.

(** The metric of a correction made by [PostApply]. *)
Lemma drift_if_kept (kind : string) (changed : bool) (w : World St) :
  wp (if changed then metric DriftCorrectionsTotal [kind] Inc else mret ()) (λ o w' l,
    o = Some () ∧ server (env w') = server (env w) ∧ (changed = false → l = [])) w.
Proof.
  destruct changed; [|by apply wp_ret].
  eapply wp_mono; [apply wp_kept; by apply drift_metric_safe; intros []|].
  intros o w' l [[[] ->] Hs]. by split_and!.
Qed.

Section Hosting.
Variables (kc : Client) (obj : ManagedObject S) (oid : string).
Context (holds : Server → option rep → Prop) (room : Server → rep → Prop).
Context (settled : Server → Prop) `{!Hosted drv kc obj oid holds room settled}.
Local Abbreviation spec := (spec_map drv obj).

(** The server satisfies the spec with [y]. *)
Definition in_spec (y : rep) : Prop := PayloadDiffers y (drv_ManagedMarker drv spec) = false.

Lemma after_update_pass base (x y : rep) (b : bool) (w : World St) :
  holds (server (env w)) (Some y) → drv_ID drv x = drv_ID drv y →
  wp (after_update e obj drv kc base spec x b)
    (pass (λ s l, holds s (Some y) ∧ settled s ∧
       (settled (server (env w)) → Forall (engine_act drv kc obj false) l))) w.
Proof.
  intros Hy Hid. unfold after_update. apply wp_bind.
  eapply wp_mono; [by apply (hosted_post w x y)|].
  intros o w1 l1 (changed & -> & Hy1 & Hset & Hq). cbn [wp_then].
  apply wp_bind. eapply wp_mono; [apply (drift_if_kept _ changed)|].
  intros o w2 l2 (-> & Hs2 & Hl2). cbn [wp_then].
  eapply wp_mono; [apply (finalize_pass kc)|]. intros o w3 l3 (obj' & res & -> & Hf & Hs3 & Hl3).
  exists obj', res. split; [done|]. split; [by repeat apply finished_app|]. rewrite Hs3, Hs2.
  split; [done|]. split; [done|]. intros [-> Hl1]%Hq. rewrite (Hl2 eq_refl). cbn [app].
  apply Forall_app. split; [|done]. eapply Forall_impl; [exact Hl1|]. apply obj_act_engine.
Qed.

Lemma payload_not_null (payload : rep) :
  EffectivePayload spec (annotation obj LastAppliedAnnotation) = inr payload →
  ∀ k, payload !! k ≠ Some JNull.
Proof.
  intros [last Hp]%EffectivePayload_inv k. rewrite Hp. pose proof (spec_map_not_null drv obj k).
  destruct (spec !! k); [done|]. by destruct (last !! k) as [[]|].
Qed.

(** Whether the engine may write the resource. *)
Definition managed (x : rep) : Prop :=
  Adoption (GetSpec obj) ≠ AdoptionFailIfExists ∧
  (drv_IsManaged drv x = true ∨ annotation obj LastAppliedAnnotation ≠ "").
Definition adoptable (x : rep) : Prop :=
  managed x ∨ Adoption (GetSpec obj) = AdoptionAdopt.

(** The server has room for what the pass writes, if it writes. *)
Definition has_room (s : Server) (payload : rep) (r : option rep) : Prop :=
  let p := drv_ManagedMarker drv payload in
  match r with
  | None => room s (with_id oid p)
  | Some x => (managed x → PayloadDiffers x p = true) → room s (MergePayload x p)
  end.

Lemma apply_existing_pass base (payload x : rep) (adopting : bool) (w : World St) :
  EffectivePayload spec (annotation obj LastAppliedAnnotation) = inr payload →
  holds (server (env w)) (Some x) → payload !! "id" = None →
  let p := drv_ManagedMarker drv payload in
  (adopting || PayloadDiffers x p = true → room (server (env w)) (MergePayload x p)) →
  wp (apply_existing e obj drv kc base spec payload x adopting)
    (pass (λ s l, ∃ y, holds s (Some y) ∧ settled s ∧ in_spec y ∧
       (adopting = false → PayloadDiffers x p = false → y = x ∧
          (settled (server (env w)) → Forall (engine_act drv kc obj false) l)))) w.
Proof.
  intros Hp Hx Hid p Hroom. pose proof (marker_part drv _ _ _ Hp) as Hsub. fold p in Hsub.
  unfold apply_existing. cbv zeta. fold p. eapply wp_bind_run; [apply hosted_prepare|]. cbv beta iota.
  destruct (adopting || PayloadDiffers x p) eqn:Hd.
  - apply bind_kept; [by apply drift_metric_safe; intros []|]. intros _ w1 l1 Hs1.
    rewrite cloneMap_id. apply wp_bind.
    assert (merge x (MergePayload x p) = MergePayload x p) as Hm.
    { apply merge_no_null, hosted_marker_null. by apply payload_not_null. }
    eapply wp_mono; [apply (hosted_update w1 x (MergePayload x p)); rewrite Hs1, ?Hm; auto|].
    rewrite Hm. intros o w2 l2 (-> & Hy). cbn [wp_then].
    apply bind_kept; [by apply record_safe; intros []|]. intros _ w3 l3 Hs3.
    eapply wp_mono; [apply (after_update_pass base x (MergePayload x p)); [by rewrite Hs3|]|].
    { apply hosted_id. rewrite MergePayload_lookup. unfold p. by rewrite hosted_marker_id, Hid. }
    intros o w4 l4 (obj' & res & -> & Hf & Hy4 & Hset & _). exists obj', res. split; [done|].
    split; [by repeat apply finished_app|]. exists (MergePayload x p). split; [done|].
    split; [done|]. split; [by apply merge_covers_part|]. intros -> Hnd. by rewrite Hnd in Hd.
  - apply orb_false_iff in Hd as [-> Hd].
    eapply wp_mono; [by apply (after_update_pass base x x)|].
    intros o w1 l1 (obj' & res & -> & Hf & Hy & Hset & Hl). exists obj', res. split; [done|].
    split; [done|]. exists x. split; [done|]. split; [done|]. split; [by eapply differs_part|]. done.
Qed.

Lemma handleCreate_pass base (payload : rep) (w : World St) :
  EffectivePayload spec (annotation obj LastAppliedAnnotation) = inr payload →
  holds (server (env w)) None → payload !! "id" = None →
  let p := drv_ManagedMarker drv payload in
  room (server (env w)) (with_id oid p) →
  wp (handleCreate e obj drv kc base spec payload)
    (pass (λ s _, holds s (Some (with_id oid p)) ∧ settled s ∧ in_spec (with_id oid p))) w.
Proof.
  intros Hp Hnone Hid p Hroom. pose proof (marker_part drv _ _ _ Hp) as Hsub. fold p in Hsub.
  unfold handleCreate. eapply wp_bind_run; [apply hosted_prepare|]. cbv beta iota. fold p.
  apply wp_bind. eapply wp_mono; [apply (hosted_create w p); [done..|]|].
  { unfold p. by rewrite hosted_marker_id. }
  intros o w1 l1 (-> & Hy). cbn [wp_then].
  apply bind_kept; [by apply record_safe; intros []|]. intros _ w2 l2 Hs2. apply wp_bind.
  eapply wp_mono; [apply (hosted_get w2 (Some (with_id oid p))); by rewrite Hs2|].
  intros o w3 l3 (Hy3 & _ & _ & ->). cbn [wp_then]. apply wp_bind.
  eapply wp_mono; [by apply (hosted_post w3 (with_id oid p) (with_id oid p))|].
  intros o w4 l4 (changed & -> & Hy4 & Hset & _). cbn [wp_then].
  eapply wp_mono; [apply (finalize_pass kc)|]. intros o w5 l5 (obj' & res & -> & Hf & Hs5 & _).
  exists obj', res. split; [done|]. split; [by repeat apply finished_app|].
  rewrite Hs5. split; [done|]. split; [done|]. apply differs_created; [done| |].
  - rewrite hosted_marker_id. apply spec_map_no_id.
  - apply hosted_marker_null. apply spec_map_not_null.
Qed.

(** What a pass leaves on the server: a representation that satisfies the spec, and the rest
    settled; the representation that was there, when it satisfied the payload and was
    managed, and then only reads when the rest was settled too. *)
Definition passed (payload : rep) (r : option rep) (s0 s : Server) (l : list Action) : Prop :=
  ∃ y, holds s (Some y) ∧ settled s ∧ in_spec y ∧
    ∀ x, r = Some x → managed x → PayloadDiffers x (drv_ManagedMarker drv payload) = false →
      y = x ∧ (settled s0 → Forall (engine_act drv kc obj false) l).

Lemma handleExisting_pass base (payload x : rep) (w : World St) :
  EffectivePayload spec (annotation obj LastAppliedAnnotation) = inr payload →
  holds (server (env w)) (Some x) → payload !! "id" = None →
  Adoption (GetSpec obj) ≠ AdoptionFailIfExists → adoptable x →
  has_room (server (env w)) payload (Some x) →
  wp (handleExisting e obj drv kc base spec payload x) (pass (passed payload (Some x) (server (env w)))) w.
Proof.
  intros Hp Hx Hid Hnf Had Hroom. unfold handleExisting. cbv zeta.
  rewrite (proj2 (String.eqb_neq _ _) Hnf).
  destruct (drv_IsManaged drv x || _) eqn:Hm.
  - eapply wp_mono; [apply (apply_existing_pass base payload x false); [done..|by cbn; auto]|].
    intros o w1 l1 (obj' & res & -> & Hf & y & Hy & Hset & Hin & Hq). exists obj', res.
    split; [done|]. split; [done|]. exists y. split_and!; [done..|].
    intros ? [= <-] _ Hd. by apply Hq.
  - apply orb_false_iff in Hm as [Hm Ha]. apply negb_false_iff, String.eqb_eq in Ha.
    assert (¬ managed x) as Hnm by (intros [_ [?|?]]; congruence).
    destruct Had as [?|Had]; [done|]. rewrite Had, String.eqb_refl.
    apply bind_kept; [by apply record_safe; intros []|]. intros _ w1 l1 Hs1.
    eapply wp_mono; [apply (apply_existing_pass base payload x true); rewrite ?Hs1; try done|].
    { intros _. by apply Hroom. }
    intros o w2 l2 (obj' & res & -> & Hf & y & Hy & Hset & Hin & _). exists obj', res.
    split; [done|]. split; [by apply finished_app|]. exists y. split_and!; [done..|].
    by intros ? [= <-] ?.
Qed.

(** The policies let the engine bring the server to the spec. *)
Definition writable (r : option rep) : Prop :=
  match r with
  | None => True
  | Some x => Adoption (GetSpec obj) ≠ AdoptionFailIfExists ∧ adoptable x
  end.

Lemma sync_pass base (payload : rep) (r : option rep) (w : World St) :
  EffectivePayload spec (annotation obj LastAppliedAnnotation) = inr payload →
  holds (server (env w)) r → payload !! "id" = None → writable r →
  has_room (server (env w)) payload r →
  wp (sync e obj drv kc base) (pass (passed payload r (server (env w)))) w.
Proof.
  intros Hp Hr Hid Hw Hroom. unfold sync. cbv zeta. rewrite Hp. apply wp_bind.
  eapply wp_mono; [apply wp_and; [by apply (hosted_get w r)|apply (get_act drv kc obj false w)]|].
  intros o w1 l1 [(Hr1 & Hk & Hset1 & Ho) [_ Hq1]].
  assert (has_room (server (env w1)) payload r) as Hroom1.
  { destruct r as [x|]; cbn in *; auto. }
  destruct r as [x|].
  - unfold found in Ho. subst o. cbn [wp_then]. destruct Hw as [Hnf Had].
    eapply wp_mono; [by apply (handleExisting_pass base payload x)|].
    intros o w2 l2 (obj' & res & -> & Hf & y & Hy & Hset & Hin & Hq). exists obj', res.
    split; [done|]. split; [by apply finished_app|]. exists y. split_and!; [done..|].
    intros z [= <-] Hm Hd. destruct (Hq x eq_refl Hm Hd) as [-> Hl2]. split; [done|].
    intros Hs. apply Forall_app. auto.
  - destruct Ho as (err & -> & He). cbn [wp_then]. rewrite He.
    eapply wp_mono; [by apply (handleCreate_pass base payload)|].
    intros o w2 l2 (obj' & res & -> & Hf & Hy & Hset & Hin). exists obj', res.
    split; [done|]. split; [by apply finished_app|]. by exists (with_id oid (drv_ManagedMarker drv payload)).
Qed.

(** [Reconcile] of an object whose connection is found: what comes after that, between steps
    that send nothing. *)
Lemma reconcile_connected (f : GoError → M St (ManagedObject S * (Result * option GoError))) (k : Client → M St (ManagedObject S * (Result * option GoError)))
    (Q : option (ManagedObject S * (Result * option GoError)) → World St → list Action → Prop) (w w1 : World St) :
  reconcile_body e obj drv = (conn ← For (GetNamespace (Meta obj)) (ConnectionName (GetSpec obj));
    match conn with inl err => f err | inr kc => k kc end) →
  connects obj w kc w1 →
  (server (env w1) = server (env w) →
   wp (k kc) (λ o w2 l2, is_Some o ∧ ∀ l1 w3 l3, server (env w3) = server (env w2) →
     Forall (engine_act drv kc obj false) l1 → Forall (engine_act drv kc obj false) l3 →
     Q o w3 (l1 ++ l2 ++ l3)) w1) →
  wp (Reconcile e obj drv) Q w.
Proof.
  intros Hbody Hconn Hk. unfold Reconcile.
  apply wp_bind, wp_call_env; [apply _|]. cbn [wp_then]. fold (started w). apply wp_deferred.
  rewrite Hbody. apply wp_bind.
  assert (safe (λ a, no_request a ∧ engine_act drv kc obj false a)
    (For (St := St) (GetNamespace (Meta obj)) (ConnectionName (GetSpec obj)))) as Hfor
    by (apply For_safe; simpl; intros; (split; [done|set_solver])).
  destruct (Hfor (started w)) as (l1 & Hl1 & Hrun & _ & Hact). exists l1.
  split; [done|]. split; [done|]. rewrite Forall_and in Hact. destruct Hact as [Hno Hact].
  pose proof (server_kept _ _ _ Hrun Hno) as Hs1. unfold connects in Hconn. rewrite Hconn in *.
  cbn [fst snd wp_then] in *.
  assert (server (env w1) = server (env w)) as Hs by (rewrite Hs1; apply server_now).
  eapply wp_mono; [by apply Hk|]. intros o w2 l2 [[[obj' res] ->] HQ].
  assert (∀ P : Action → Prop, (∀ a, bookkeeping a → P a) → safe P
    (_ ← metric (St := St) ReconciliationsTotal [Kind obj; outcome_label obj'] Inc;
     t ← now; metric ReconcileDuration [Kind obj] (Observe (t - (env_now (env w)).1)))) as Hend
    by (intros; by apply finish_safe).
  eapply wp_mono; [apply wp_and; [apply (Hend (engine_act drv kc obj false))|apply wp_kept, Hend]|].
  { apply bookkeeping_engine. }
  { by intros []. }
  intros _ w3 l3 [[_ Hl3] [_ Hs3]]. rewrite <- app_assoc. by apply HQ.
Qed.

(** [Reconcile] around [sync]. *)
Lemma reconcile_pass (payload : rep) (r : option rep) (w w1 : World St) :
  deleting obj = false → ContainsFinalizer (GetFinalizers (Meta obj)) FinalizerName = true →
  (drv_Protected drv obj).1 = false → connects obj w kc w1 →
  EffectivePayload spec (annotation obj LastAppliedAnnotation) = inr payload →
  holds (server (env w)) r → payload !! "id" = None → writable r →
  has_room (server (env w)) payload r →
  wp (Reconcile e obj drv) (pass (passed payload r (server (env w)))) w.
Proof.
  intros Hdel Hfin Hprot Hconn Hp Hr Hid Hw Hroom. eapply reconcile_connected; [|exact Hconn|].
  { unfold reconcile_body. rewrite Hdel. cbn [andb]. reflexivity. }
  intros Hs. cbv beta. rewrite Hfin. cbn [negb].
  destruct (drv_Protected drv obj) as [[] msg]; [done|].
  eapply wp_mono; [apply (sync_pass obj payload r); rewrite ?Hs; done|].
  intros o w2 l2 (obj' & res & -> & Hf & y & Hy & Hset & Hin & Hq). split; [by eexists|].
  intros l1 w3 l3 Hs3 Hl1 Hl3. exists obj', res. split; [done|].
  split; [by apply finished_app, finished_app_r|].
  exists y. rewrite Hs3. split_and!; [done..|]. intros x Hx Hm Hd.
  destruct (Hq x Hx Hm Hd) as [-> Hl2]. split; [done|]. rewrite Hs in Hl2.
  intros Hs0. rewrite !Forall_app. auto.
Qed.

(** What is left after the deletion of the resource: one update of the object, without the
    finalizer. *)
Definition unbound (l : list Action) : Prop :=
  ∃ meta st, KubeUpdate meta st ∈ l ∧
    ∀ f, f ∈ GetFinalizers meta ↔ f ∈ GetFinalizers (Meta obj) ∧ f ≠ FinalizerName.

Lemma handleDeletion_pass (r : option rep) (w : World St) :
  Deletion (GetSpec obj) = DeletionDelete → holds (server (env w)) r →
  wp (handleDeletion e obj drv kc) (λ o w' l, is_Some o ∧ holds (server (env w')) None ∧ unbound l) w.
Proof.
  intros Hpol Hr.
  assert (∀ (w1 : World St) l1, holds (server (env w1)) None →
    wp (_ ← record e EventTypeNormal "Deleted" "Deleted resource on Keycloak server";
        r ← remove_finalizer obj; mret (r.2, r.1))
      (λ o w' l, is_Some o ∧ holds (server (env w')) None ∧ unbound (l1 ++ l)) w1) as Hrest.
  { intros w1 l1 Hn. eapply wp_mono; [apply wp_and; [apply release_run|apply wp_kept]|].
    - apply safe_bind; [by apply record_safe; intros []|]. intros _.
      apply safe_bind; [|intros; apply safe_ret]. unfold remove_finalizer, kube_update.
      apply safe_call; [apply _|done].
    - intros o w2 l2 [(Ho & evs & meta & st & -> & _ & Hf) [_ Hs]]. split; [done|].
      rewrite Hs. split; [done|]. exists meta, st. split; [set_solver|done]. }
  assert (handleDeletion e obj drv kc w = (d ← drv_Delete drv kc obj;
    let finish := _ ← record e EventTypeNormal "Deleted" "Deleted resource on Keycloak server";
                  r ← remove_finalizer obj; mret (r.2, r.1) in
    match d with
    | inl err => if errors_Is err SNotFound then finish else mret (obj, Some err)
    | inr _ => finish
    end) w) as E.
  { unfold handleDeletion. rewrite Hpol. change (String.eqb DeletionDelete DeletionDelete) with true.
    unfold mbind, M_bind, mret, M_ret, record. destruct (drv_Delete drv kc obj w) as [[[err|]|] w'];
      [destruct (errors_Is err SNotFound)|..]; by destruct (eng_recorder e). }
  eapply wp_run; [exact E|]. apply wp_bind. eapply wp_mono; [by apply (hosted_delete w r)|].
  intros o w1 l1 (Hn & d & -> & Hd). cbn [wp_then]. cbv zeta. destruct r as [x|].
  - subst d. by apply Hrest.
  - destruct Hd as (err & -> & ->). by apply Hrest.
Qed.

(** [Reconcile] of an object that is being deleted. *)
Lemma deletion_pass (r : option rep) (w w1 : World St) :
  deleting obj = true → Deletion (GetSpec obj) = DeletionDelete → connects obj w kc w1 →
  holds (server (env w)) r →
  wp (Reconcile e obj drv) (λ o w' l, is_Some o ∧ holds (server (env w')) None ∧ unbound l) w.
Proof.
  intros Hdel Hpol Hconn Hr. eapply reconcile_connected; [|exact Hconn|].
  { unfold reconcile_body. rewrite Hdel, Hpol. reflexivity. }
  intros Hs. cbv beta. apply wp_bind.
  eapply wp_mono; [apply (handleDeletion_pass r); by rewrite ?Hs|].
  intros o w2 l2 [[[obj' err] ->] [Hn (meta & st & Hin & Hf)]]. cbn [wp_then]. apply wp_ret.
  split; [by eexists|]. intros l1 w3 l3 Hs3 _ _. split; [by eexists|]. rewrite Hs3.
  split; [done|]. exists meta, st. split; [set_solver|done].
Qed.
End Hosting.
End Passes.
