(* ===== verification/Hosting.v ===== *)
(** * The kinds the fake server hosts

    [Hosted] for realms, realm roles and groups: each driver method, through the
    client, the path it builds, the router and the handler, does to the store what the
    interface says.  Names are single path segments; features that need other resources
    (secrets, composites, role mappings) are switched off in the object. *)

From Stdlib Require Import Ascii ZArith Lia.
From stdpp Require Import base gmap strings list.
From S2P Require Import Prelude Json JsonText GoError LastApplied ApiTypes World Sim Logic Url.
From S2P Require Import HttpClient AdminApi FakeServer FakeLaws FakeClient Provider.
From S2P Require Import DriverHelpers Drivers DriverLaws Engine EngineLaws Convergence.

Local Open Scope string_scope.
Local Open Scope list_scope.

(** ** Calls by address *)

Definition body_text (body : option json) : string :=
  match body with Some j => marshal j | None => "" end.

(** The request a handler sees for a call. *)
Definition request_of (method query : string) (body : option json) (r : Request) : Prop :=
  r_Method r = method ∧ r_Query r = query ∧ r_Body r = body_text body.

Section Calls.
Context {St : Type} `{FakeEnv St}.

(** The handler of an address, on a call's request with any token. *)
Definition addressed (method decoded query realm : string) (body : option json) (sub : list string)
    : Handler := λ ord t s,
  realm_sub ord (mkRequest method decoded query ("Bearer " +:+ t)
    (if body is Some _ then "application/json" else "") (body_text body)) realm sub s.

Lemma addressed_handled (c : Client) (method path query realm : string) (body : option json)
    (sub : list string) :
  addresses path realm sub query →
  ∃ decoded, handled c method path body (addressed method decoded query realm body sub).
Proof.
  intros [decoded Ha]. exists decoded. split.
  - intros ord t s. unfold admin_request, addressed. by rewrite Ha.
  - intros ord t s. apply realm_sub_ok.
  - intros ord t s. apply (realm_sub_ok ord).
Qed.

(** A call to an address, answered by the handler of that address. *)
Lemma Do_addressed {A} (c : Client) (method path query realm : string) (body : option json)
    (out : Out A) (sub : list string) (w : World St)
    (Q : option (GoError + A) → Server → Prop) :
  connected c (server (env w)) → addresses path realm sub query →
  (∀ ord r n b, (∀ X (l : list X), ord X l ≡ₚ l) → request_of method query body r →
     let a := realm_sub ord r realm sub (set_token n b (server (env w))) in
     match a.1 with
     | Some resp => Q (Some (answer method path out (inr resp))) a.2
     | None => ∀ err, Q (Some (answer method path out (inl err))) a.2
     end) →
  wp (Do c method path body out) (λ o w' _, Q o (server (env w'))) w.
Proof.
  intros Hc Ha HQ. destruct (addressed_handled c method path query realm body sub Ha) as [decoded Hf].
  eapply wp_mono; [by apply (Do_served c method path body out _ w Hc Hf)|].
  intros o w' _ (ord & t & n & b & Hp & -> & Ho). unfold addressed in *.
  set (req := mkRequest _ _ _ _ _ _) in *.
  assert (request_of method query body req) as Hreq by done.
  specialize (HQ ord req n b Hp Hreq). cbv zeta in HQ, Ho.
  destruct (realm_sub ord req realm sub (set_token n b (server (env w)))).1; [by subst o|].
  destruct Ho as [err ->]. apply HQ.
Qed.

(** A read, with the actions it takes. *)
Lemma Do_read_addressed {A} (c : Client) (ns path query realm : string) (out : Out A)
    (sub : list string) (w : World St) (Q : option (GoError + A) → Server → Prop) :
  connected c (server (env w)) → addresses path realm sub query → in_realm realm path →
  (∀ ord r n b, (∀ X (l : list X), ord X l ≡ₚ l) → request_of "GET" query None r →
     let a := realm_sub ord r realm sub (set_token n b (server (env w))) in
     match a.1 with
     | Some resp => Q (Some (answer "GET" path out (inr resp))) a.2
     | None => ∀ err, Q (Some (answer "GET" path out (inl err))) a.2
     end) →
  wp (Do c "GET" path None out) (λ o w' l,
    Q o (server (env w')) ∧ Forall (driver_act c ns realm false) l) w.
Proof.
  intros Hc Ha Hin HQ. eapply wp_mono; [apply wp_and; [by eapply Do_addressed|]|].
  - exact (Do_reads c ns realm path false out Hin w).
  - by intros o w' l [? [_ ?]].
Qed.

Lemma Do_create_realm {A} (c : Client) (body : json) (out : Out A) (w : World St)
    (Q : option (GoError + A) → Server → Prop) :
  connected c (server (env w)) →
  (∀ r n b, request_of "POST" "" (Some body) r →
     let a := createRealm r (set_token n b (server (env w))) in
     match a.1 with
     | Some resp => Q (Some (answer "POST" "/admin/realms" out (inr resp))) a.2
     | None => ∀ err, Q (Some (answer "POST" "/admin/realms" out (inl err))) a.2
     end) →
  wp (Do c "POST" "/admin/realms" (Some body) out) (λ o w' _, Q o (server (env w'))) w.
Proof.
  intros Hc HQ.
  set (req t := mkRequest "POST" "/admin/realms" "" ("Bearer " +:+ t) "application/json"
    (marshal body)).
  eapply wp_mono; [apply (Do_served c "POST" "/admin/realms" (Some body) out
    (λ _ t s, createRealm (req t) s)); [done|]|].
  - split; [done|..]; intros _ t s; unfold createRealm, with_map, with_nonnil.
    + repeat case_match; by intros ? [= <-].
    + repeat case_match; done.
  - intros o w' _ (ord & t & n & b & Hp & Hs & Ho). rewrite Hs.
    assert (request_of "POST" "" (Some body) (req t)) as Hreq by done.
    specialize (HQ (req t) n b Hreq). cbv zeta in HQ, Ho.
    destruct (createRealm (req t) (set_token n b (server (env w)))).1; [by subst o|].
    destruct Ho as [err ->]. apply HQ.
Qed.
End Calls.

Lemma decode_sent (p : rep) : decode_map (marshal (JObj p)) = Some (Some p).
Proof.
  unfold decode_map. rewrite <- (append_nil_r (marshal (JObj p))).
  by rewrite decode_first_marshal.
Qed.

(** ** Markers and answers *)

Lemma stamped_id (v : json) (p : rep) : (<["attributes" := v]> p : rep) !! "id" = p !! "id".
Proof. by rewrite lookup_insert_ne. Qed.

Lemma stamped_null (v : json) (p : rep) :
  v ≠ JNull → (∀ k, p !! k ≠ Some JNull) → ∀ k, (<["attributes" := v]> p : rep) !! k ≠ Some JNull.
Proof. intros Hv Hp k. rewrite lookup_insert. case_decide; congruence. Qed.

Lemma read_not_found {A} (m p body : string) (out : Out A) :
  ∃ e, answer m p out (inr (mkHttpResponse 404 body)) = inl e ∧ errors_Is e SNotFound = true.
Proof. eexists. split; [reflexivity|done]. Qed.

Lemma set_token_connected `{FakeEnv St} (c : Client) (n : Z) (b : bool) (s : Server) :
  connected c s → connected c (set_token n b s).
Proof. by apply connected_creds. Qed.

(** Nothing is enforced outside the representation. *)
Definition no_rest (s : Server) : Prop := True.

(** The outcome of a delete. *)
Definition gone (r : option rep) (o : option (GoError + ())) : Prop :=
  ∃ e, o = Some e ∧ match r with
                    | Some _ => e = inr ()
                    | None => ∃ err, e = inl err ∧ errors_Is err SNotFound = true
                    end.

Lemma gone_not_found (m p body : string) : gone None (Some (answer m p out_nil (inr (mkHttpResponse 404 body)))).
Proof. destruct (read_not_found m p body out_nil) as (e & -> & He). by exists (inl e); eauto. Qed.

(** ** Realms *)

Section HostedRealm.
Context {St : Type} `{FakeEnv St}.
Variables (kc : Client) (obj : ManagedObject RealmTypes.RealmSpec).
Local Abbreviation realm := (TargetRealm (GetSpec obj)).

Definition realm_holds (s : Server) (r : option rep) : Prop :=
  connected kc s ∧ realms s !! realm = r ∧ ∀ x, r = Some x → fits (JObj x).
Definition realm_room (s : Server) (y : rep) : Prop :=
  fits (JObj y) ∧ y !! "realm" = Some (JStr realm).

Lemma realm_addresses : plain realm → addresses (realmPath realm) realm [] "".
Proof. intros. apply addresses_path; [done|constructor|solve_path]. Qed.

Lemma realm_hosted :
  plain realm → RealmTypes.SMTPServerSecretRef (GetSpec obj) = None →
  Hosted (RealmDriver (St := St)) kc obj realm realm_holds realm_room no_rest.
Proof.
  intros Hr Hsmtp. pose proof (realm_addresses Hr) as Haddr. split.
  - intros w r (Hc & Hx & Hf). cbn [drv_Get RealmDriver]. unfold RealmDriver_Get, GetRealm.
    apply (Do_addressed kc _ _ _ _ _ _ _ w (λ o s', realm_holds s' r ∧
      (∀ y, realm_room (server (env w)) y → realm_room s' y) ∧
      (no_rest (server (env w)) → no_rest s') ∧ found r o) Hc Haddr).
    intros ord q n b _ (Hm & _). cbn [realm_sub]. unfold handleRealm. rewrite Hm.
    cbn [String.eqb Ascii.eqb Bool.eqb realms set_token]. rewrite Hx.
    assert (realm_holds (set_token n b (server (env w))) r) as Hh
      by (split; [by apply set_token_connected|done]).
    destruct r as [x|]; cbn [fst snd writeJSON NotFound http_Error respond].
    + split_and!; [done..|]. rewrite read_ok_map; [done|by apply Hf].
    + split_and!; [done..|].
      destruct (read_not_found "GET" (realmPath realm) ("404 page not found" +:+ newline) out_map)
        as (e & -> & He). by exists e.
  - intros w p (Hc & Hx & _) [Hfits Hname] Hid. cbn [drv_Create RealmDriver].
    unfold RealmDriver_Create, CreateRealm.
    apply (Do_create_realm kc (JObj p) out_nil w (λ o s', o = Some (inr ()) ∧ realm_holds s' _) Hc).
    intros q n b (_ & _ & Hb). unfold createRealm, with_map. rewrite Hb. cbn [body_text].
    rewrite decode_sent. cbv beta iota.
    assert (gm_string (Some p) "realm" = realm) as ->.
    { unfold with_id in Hname. rewrite lookup_insert_ne in Hname by done.
      unfold gm_string, gm_get. cbn [mbind option_bind]. by rewrite Hname. }
    assert (String.eqb realm "" = false) as ->.
    { apply String.eqb_neq. destruct Hr as [[Hr _] _]. set_solver. }
    cbn [with_nonnil realms set_token]. rewrite bool_decide_eq_false_2 by (rewrite Hx; by intros []).
    cbn [fst snd WriteHeader respond]. split; [done|]. split; [by apply (connected_creds kc (server (env w)))|].
    cbn [realms set_realms]. rewrite lookup_insert_eq. split; [done|]. by intros ? [= <-].
  - intros w x p (Hc & Hx & _) [Hfits Hname]. cbn [drv_Update RealmDriver].
    unfold RealmDriver_Update, UpdateRealm.
    apply (Do_addressed kc _ _ _ _ _ _ _ w (λ o s', o = Some (inr ()) ∧ realm_holds s' _) Hc Haddr).
    intros ord q n b _ (Hm & _ & Hb). cbn [realm_sub]. unfold handleRealm. rewrite Hm.
    cbn [String.eqb Ascii.eqb Bool.eqb]. unfold with_map. rewrite Hb. cbn [body_text].
    rewrite decode_sent. cbv beta iota. cbn [realms set_token]. rewrite Hx.
    cbn [fst snd WriteHeader respond default from_option id]. split; [done|].
    split; [by apply (connected_creds kc (server (env w)))|]. cbn [realms set_realms]. rewrite lookup_insert_eq.
    split; [done|]. by intros ? [= <-].
  - intros w x y Hy _. apply wp_ret. exists false. split_and!; [done..|]. by intros _.
  - intros w r (Hc & Hx & _). cbn [drv_Delete RealmDriver]. unfold RealmDriver_Delete, DeleteRealm.
    apply (Do_addressed kc _ _ _ _ _ _ _ w (λ o s', realm_holds s' None ∧ gone r o) Hc Haddr).
    intros ord q n b _ (Hm & _). cbn [realm_sub]. unfold handleRealm. rewrite Hm.
    cbn [String.eqb Ascii.eqb Bool.eqb realms set_token]. rewrite Hx.
    destruct r as [x|]; cbn [fst snd NotFound WriteHeader http_Error respond].
    + rewrite bool_decide_eq_true_2 by (by eexists). cbn [fst snd WriteHeader respond].
      split; [|by exists (inr ())]. split; [by apply (connected_creds kc (server (env w)))|].
      cbn [realms set_realms]. by rewrite lookup_delete_eq.
    + rewrite bool_decide_eq_false_2 by (by intros []). cbn [fst snd NotFound http_Error respond].
      split; [|apply gone_not_found]. split; [by apply set_token_connected|done].
  - intros w p. cbn [drv_PreparePayload RealmDriver]. unfold RealmDriver_PreparePayload.
    by rewrite Hsmtp.
  - intros p. apply stamped_id.
  - intros p. by apply stamped_null.
  - done.
Qed.
End HostedRealm.

(** ** Collections *)

Lemma singleton_list {A} (l : list A) (a : A) : NoDup l → (∀ y, y ∈ l ↔ y = a) → l = [a].
Proof.
  intros Hn Hl. assert (l ≡ₚ [a]) as Hp.
  { apply NoDup_Permutation; [done|apply NoDup_singleton|]. intros y. rewrite Hl. set_solver. }
  by apply Permutation_singleton_r in Hp.
Qed.

Section Collections.
Variable ord : ∀ A : Type, list A → list A.
Hypothesis ord_perm : ∀ A (l : list A), ord A l ≡ₚ l.
Variables (keep : rep → bool) (m : gmap string rep).

Lemma entries_spec (id : string) (y : rep) : (id, y) ∈ entries ord m ↔ m !! id = Some y.
Proof. unfold entries. by rewrite ord_perm, elem_of_map_to_list. Qed.

(** The listing of a collection of which one member is kept, or none. *)
Lemma list_one (oid : string) (x : rep) :
  m !! oid = Some x → keep x = true → (∀ id y, m !! id = Some y → keep y = true → id = oid) →
  list_with_ids ord keep m = [with_id oid x].
Proof.
  intros Hx Hk Hu. unfold list_with_ids. rewrite (singleton_list _ (oid, x)); [done| |].
  - apply NoDup_filter. unfold entries. rewrite ord_perm. apply NoDup_map_to_list.
  - intros [id y]. rewrite list_elem_of_filter, entries_spec. cbn [snd]. split.
    + intros [Hy Hm]. pose proof (Hu id y Hm Hy) as ->. congruence.
    + by intros [= -> ->].
Qed.

Lemma list_none : (∀ id y, m !! id = Some y → keep y = false) → list_with_ids ord keep m = [].
Proof.
  intros Hn. unfold list_with_ids. destruct (filter _ (entries ord m)) as [|[id y] l] eqn:E; [done|].
  assert ((id, y) ∈ filter (λ e, keep e.2 = true) (entries ord m)) as Hin by (rewrite E; set_solver).
  rewrite list_elem_of_filter, entries_spec in Hin. destruct Hin as [Hy Hm%Hn]. simpl in Hy. congruence.
Qed.

Lemma some_has_false (k v : string) :
  (∀ id y, m !! id = Some y → field_is y k v = false) → some_has ord k v m = false.
Proof.
  intros Hn. apply not_true_iff_false. unfold some_has. rewrite existsb_exists.
  intros ([id y] & Hin & Hy). apply list_elem_of_In, entries_spec, Hn in Hin. simpl in Hy. congruence.
Qed.

(** Writing the ids back changes nothing when they are there. *)
Lemma store_same :
  (∀ id y, m !! id = Some y → keep y = true → y !! "id" = Some (JStr id)) →
  store_with_ids keep m = m.
Proof.
  intros Hid. apply map_eq. intros id. unfold store_with_ids. rewrite map_lookup_imap.
  destruct (m !! id) as [y|] eqn:Hy; [|done]. cbn [mbind option_bind]. f_equal.
  destruct (keep y) eqn:Hk; [|done]. by apply insert_id, Hid.
Qed.
End Collections.

Lemma alter_same {A} (f : gmap string A → gmap string A) (realm : string)
    (x : gmap string (gmap string A)) :
  f (of_realm x realm) = of_realm x realm → alter f realm x = x.
Proof.
  intros Hf. apply map_eq. intros k. destruct (decide (k = realm)) as [-> |Hk].
  - rewrite lookup_alter_eq. unfold of_realm in Hf. destruct (x !! realm) as [v|]; [|done].
    cbn in *. by f_equal.
  - by rewrite lookup_alter_ne.
Qed.

Lemma of_realm_put {A} (x : gmap string (gmap string A)) (realm k : string) (v : A) :
  of_realm (put x realm k v) realm = <[k := v]> (of_realm x realm).
Proof. unfold of_realm at 1, put. by rewrite lookup_insert_eq. Qed.

Lemma of_realm_remove {A} (x : gmap string (gmap string A)) (realm k : string) :
  of_realm (remove_from x realm k) realm = delete k (of_realm x realm).
Proof.
  unfold of_realm, remove_from. rewrite lookup_alter_eq. destruct (x !! realm); [done|].
  simpl. symmetry. apply delete_empty.
Qed.

(** A representation a collection keeps under [oid] for the name [name]. *)
Definition stored (key name oid : string) (x : rep) : Prop :=
  x !! key = Some (JStr name) ∧ x !! "id" = Some (JStr oid) ∧ fits (JArr [JObj x]).
(** Nothing else in the collection has the name. *)
Definition one_of (key name oid : string) (m : gmap string rep) (r : option rep) : Prop :=
  (∀ id y, m !! id = Some y → field_is y key name = true → id = oid) ∧
  match r with
  | Some x => m !! oid = Some x ∧ stored key name oid x
  | None => ∀ id y, m !! id = Some y → field_is y key name = false
  end.

Lemma one_of_put (key name oid : string) (m : gmap string rep) (r : option rep) (y : rep) :
  one_of key name oid m r → stored key name oid y → one_of key name oid (<[oid := y]> m) (Some y).
Proof.
  intros [Hu _] Hy. split; [|by rewrite lookup_insert_eq].
  intros id z. destruct (decide (id = oid)) as [-> |Hne]; [done|].
  rewrite lookup_insert_ne by done. by apply Hu.
Qed.

Lemma one_of_delete (key name oid : string) (m : gmap string rep) (r : option rep) :
  one_of key name oid m r → one_of key name oid (delete oid m) None.
Proof.
  intros [Hu _]. split.
  - intros id y [_ Hy]%lookup_delete_Some. by apply Hu.
  - intros id y [Hne Hy]%lookup_delete_Some. apply not_true_iff_false. intros Hk.
    by destruct Hne, (Hu id y Hy Hk).
Qed.

Section OneOf.
Variable ord : ∀ A : Type, list A → list A.
Hypothesis ord_perm : ∀ A (l : list A), ord A l ≡ₚ l.
Variables (key name oid : string) (m : gmap string rep).
Local Abbreviation keep := (λ x, String.eqb name "" || field_is x key name).

(** The listing by name has the member, and leaves the collection as it is. *)
Lemma one_of_listed (r : option rep) :
  name ≠ "" → one_of key name oid m r →
  list_with_ids ord keep m = option_list r ∧ store_with_ids keep m = m.
Proof.
  intros Hne [Hu Hr]. rewrite (proj2 (String.eqb_neq _ _) Hne). cbn [orb].
  destruct r as [x|]; cbn [option_list].
  - destruct Hr as (Hm & Hk & Hid & _). split.
    + rewrite (list_one _ ord_perm _ _ oid x); [|done|by apply field_is_spec|done].
      unfold with_id. by rewrite insert_id.
    + apply store_same. intros id y Hy Hf. pose proof (Hu id y Hy Hf) as ->. congruence.
  - split; [by apply list_none|]. apply store_same. intros id y Hy%Hr Hf. congruence.
Qed.

Lemma one_of_absent : one_of key name oid m None → some_has ord key name m = false.
Proof. intros [_ Hn]. by apply some_has_false. Qed.
End OneOf.

(** A list the client reads back. *)
Lemma read_ok_maps (m p : string) (r : option rep) :
  (∀ x, r = Some x → fits (JArr [JObj x])) →
  answer m p out_maps (inr (mkHttpResponse 200 (marshal (reps_out (option_list r)) +:+ newline))) =
  inr (option_list r).
Proof.
  intros Hf. unfold answer, read_response. cbn [rs_body rs_status]. 
  destruct r as [x|]; [|done].
  change (reps_out (option_list (Some x))) with (JArr [JObj x]).
  rewrite (fits_body (JArr [JObj x])) by (by apply Hf). change ((200 <=? 200)%Z && (200 <? 300)%Z) with true. cbv iota.
  assert (∀ j, String.eqb (marshal j +:+ newline) "" = false) as ->
    by (intros j; pose proof (marshal_nonempty j); by destruct (marshal j)).
  cbn [negb out_decode out_maps]. unfold unmarshal_maps. by rewrite decode_newline.
Qed.

Lemma gm_string_of (p : rep) (k v : string) : p !! k = Some (JStr v) → gm_string (Some p) k = v.
Proof. intros E. unfold gm_string, gm_get. cbn [mbind option_bind]. by rewrite E. Qed.

(** A name of a collection, with the prefix the server makes an id of. *)
Lemma prefixed_segment (prefix name : string) :
  (2 < String.length prefix)%nat → no_char "/" prefix = true → no_char "/" name = true →
  segment (prefix +:+ name).
Proof.
  intros Hl Hp Hn. split.
  - assert (2 < String.length (prefix +:+ name))%nat as Hlen by (rewrite length_append; lia).
    intros Hin. rewrite !elem_of_cons, elem_of_nil in Hin.
    destruct Hin as [E|[E|[E|[]]]]; rewrite E in Hlen; simpl in Hlen; lia.
  - unfold no_char in *. by rewrite str_all_append, Hp.
Qed.

(** The member of a listing that has the name. *)
Lemma listed_find (key name oid : string) (m : gmap string rep) (r : option rep) :
  one_of key name oid m r →
  list_find (λ x, field_is x key name = true) (option_list r) = (λ x, (0%nat, x)) <$> r.
Proof.
  intros [_ Hr]. destruct r as [x|]; [|done]. destruct Hr as (_ & Hk & _).
  apply list_find_Some. split; [done|]. split; [by apply field_is_spec|]. intros j y _ Hj. lia.
Qed.

Lemma one_of_id (key name oid : string) (m : gmap string rep) (x : rep) :
  one_of key name oid m (Some x) → field_or_empty x "id" = oid.
Proof. intros (_ & _ & _ & Hid & _). unfold field_or_empty, field_string. by rewrite Hid. Qed.

Lemma stored_name (key name oid : string) (p : rep) :
  key ≠ "id" → stored key name oid (with_id oid p) → p !! key = Some (JStr name).
Proof. intros Hk [Hp _]. unfold with_id in Hp. by rewrite lookup_insert_ne in Hp. Qed.

(** ** Realm roles *)

Section HostedRole.
Context {St : Type} `{FakeEnv St, !EnvLaws St}.
Variables (kc : Client) (obj : ManagedObject RealmRoleTypes.RealmRoleSpec).
Local Abbreviation realm := (TargetRealm (GetSpec obj)).
Local Abbreviation name := (RealmRoleTypes.Name (GetSpec obj)).
Local Abbreviation oid := ("role-" +:+ name).

Definition role_holds (s : Server) (r : option rep) : Prop :=
  connected kc s ∧ is_Some (realms s !! realm) ∧
  of_realm (roles s) realm !! name = (λ x, mkRole x None) <$> r ∧ ∀ x, r = Some x → fits (JObj x).
Definition role_room (s : Server) (y : rep) : Prop :=
  fits (JObj y) ∧ y !! "name" = Some (JStr name).

(** The role is no composite. *)
Definition simple_role : Prop :=
  RealmRoleTypes.Composite (GetSpec obj) ≠ Some true ∨ RealmRoleTypes.Composites (GetSpec obj) = None.

Lemma simple_role_desired : simple_role → desired_composites (St := St) kc obj = mret (inr []).
Proof.
  unfold simple_role, desired_composites. intros [Hc| ->]; repeat case_match; congruence.
Qed.

Lemma role_diff_nil (w : World St) : wp (role_diff [] []) (λ o w' l, o = Some ([], []) ∧ l = [] ∧
  server (env w') = server (env w)) w.
Proof.
  eapply wp_mono; [apply wp_and; [apply (role_diff_wp [] [])|apply wp_kept, role_diff_safe]|].
  intros o w' l [(-> & a & b & -> & (_ & Ha & _) & (_ & Hb & _)) [_ ?]]. split_and!; [|done..].
  destruct a as [|x a]; [|by destruct (Ha x) as [?%not_elem_of_nil _]; [left|]].
  destruct b as [|x b]; [done|by destruct (Hb x) as [?%not_elem_of_nil _]; [left|]].
Qed.

Lemma role_post (w : World St) (y : rep) :
  plain realm → segment name → simple_role → role_holds (server (env w)) (Some y) →
  wp (RealmRoleDriver_composites kc obj) (λ o w' l, o = Some (false, None) ∧
    role_holds (server (env w')) (Some y) ∧ Forall (obj_act kc obj false) l) w.
Proof.
  intros Hr Hn Hs (Hc & Hx & Hy & Hf). unfold RealmRoleDriver_composites. cbv zeta.
  assert (addresses (composites_path realm name) realm ["roles"; name; "composites"] "") as Haddr
    by (apply addresses_path; [done|solve_segments|solve_path]).
  unfold try_flag at 1. apply wp_bind. eapply wp_mono; [apply (Do_read_addressed kc
    (GetNamespace (Meta obj)) _ _ _ _ _ w (λ o s', o = Some (inr []) ∧ role_holds s' (Some y)) Hc Haddr)|].
  { solve_in_realm. }
  { intros ord q n b _ (Hm & _). cbn [realm_sub]. unfold handleRoles.
    rewrite bool_decide_eq_true_2 by done.
    change (len_is [name; "composites"] 2 && at_is [name; "composites"] 1 "composites") with true.
    cbn [negb]. unfold role_composites_handler. cbn [roles set_token]. rewrite Hy, Hm.
    split; [done|]. split; [by apply (connected_creds kc (server (env w)))|done]. }
  intros o w1 l1 [[-> Hh] Hl1]. cbn [wp_then]. unfold try_flag at 1. rewrite simple_role_desired by done.
  apply wp_bind, wp_ret. cbn [wp_then]. apply wp_bind. eapply wp_mono; [apply role_diff_nil|].
  intros o w2 l2 (-> & -> & Hs2). cbn [wp_then]. apply wp_ret. split; [done|]. rewrite Hs2.
  split; [done|]. by rewrite !app_nil_r.
Qed.

Lemma role_hosted :
  plain realm → segment name → simple_role →
  Hosted (RealmRoleDriver (St := St)) kc obj oid role_holds role_room no_rest.
Proof.
  intros Hr Hn Hs.
  assert (addresses (roles_path realm) realm ["roles"] "") as Hcoll
    by (apply addresses_path; [done|solve_segments|solve_path]).
  assert (addresses (role_path realm name) realm ["roles"; name] "") as Hitem
    by (apply addresses_path; [done|solve_segments|solve_path]).
  split.
  - intros w r (Hc & Hx & Hy & Hf). cbn [drv_Get RealmRoleDriver]. unfold RealmRoleDriver_Get, GetRole.
    apply (Do_addressed kc _ _ _ _ _ _ _ w (λ o s', role_holds s' r ∧
      (∀ y, role_room (server (env w)) y → role_room s' y) ∧
      (no_rest (server (env w)) → no_rest s') ∧ found r o) Hc Hitem).
    intros ord q n b _ (Hm & _). cbn [realm_sub]. unfold handleRoles.
    rewrite bool_decide_eq_true_2 by done. cbn [negb len_is length Nat.eqb andb]. unfold role_item.
    cbn [roles set_token]. rewrite Hy, Hm. cbn [String.eqb Ascii.eqb Bool.eqb].
    assert (role_holds (set_token n b (server (env w))) r) as Hh
      by (split; [by apply set_token_connected|done]).
    destruct r as [x|]; cbn [fmap option_fmap option_map fst snd writeJSON NotFound http_Error respond role_map role_composites role_rep].
    + split_and!; [done..|]. rewrite read_ok_map; [done|by apply Hf].
    + split_and!; [done..|].
      destruct (read_not_found "GET" (role_path realm name) ("404 page not found" +:+ newline) out_map)
        as (e & -> & He). by exists e.
  - intros w p (Hc & Hx & Hy & _) [Hfits Hname] Hid. cbn [drv_Create RealmRoleDriver].
    apply (Do_addressed kc _ _ _ _ _ _ _ w (λ o s', o = Some (inr ()) ∧ role_holds s' _) Hc Hcoll).
    intros ord q n b _ (Hm & _ & Hb). cbn [realm_sub]. unfold handleRoles.
    rewrite bool_decide_eq_true_2 by done. unfold roles_collection, with_map. rewrite Hm, Hb.
    cbn [negb String.eqb Ascii.eqb Bool.eqb roles set_token body_text]. rewrite decode_sent.
    cbv beta iota zeta. unfold with_id in Hname. rewrite lookup_insert_ne in Hname by done.
    rewrite (gm_string_of p _ name Hname), Hy. rewrite bool_decide_eq_false_2 by (by intros []).
    cbn [with_nonnil fst snd WriteHeader respond]. split; [done|].
    split; [by apply (connected_creds kc (server (env w)))|]. split; [done|].
    cbn [roles set_roles]. rewrite of_realm_put, lookup_insert_eq. split; [done|]. by intros ? [= <-].
  - intros w x p (Hc & Hx & Hy & _) [Hfits Hname]. cbn [drv_Update RealmRoleDriver].
    apply (Do_addressed kc _ _ _ _ _ _ _ w (λ o s', o = Some (inr ()) ∧ role_holds s' _) Hc Hitem).
    intros ord q n b _ (Hm & _ & Hb). cbn [realm_sub]. unfold handleRoles.
    rewrite bool_decide_eq_true_2 by done. cbn [negb len_is length Nat.eqb andb].
    unfold role_item, with_map. cbn [roles set_token]. rewrite Hy, Hm, Hb.
    cbn [fmap option_fmap option_map String.eqb Ascii.eqb Bool.eqb body_text]. rewrite decode_sent.
    cbn [fst snd WriteHeader respond default from_option id]. split; [done|].
    split; [by apply (connected_creds kc (server (env w)))|]. split; [done|].
    cbn [roles set_roles]. rewrite of_realm_put, lookup_insert_eq. split; [|by intros ? [= <-]].
    unfold merge_role. cbn [role_rep role_composites fmap option_fmap option_map].
    by destruct (p !! "composites").
  - intros w x y Hy _. cbn [drv_PostApply RealmRoleDriver]. unfold RealmRoleDriver_PostApply, same_obj.
    apply wp_bind. eapply wp_mono; [by apply (role_post w y)|]. intros o w' l (-> & Hh & Hl).
    cbn [wp_then]. apply wp_ret. exists false. rewrite app_nil_r. by split_and!.
  - intros w r (Hc & Hx & Hy & _). cbn [drv_Delete RealmRoleDriver].
    unfold RealmRoleDriver_Delete, DeleteRole.
    apply (Do_addressed kc _ _ _ _ _ _ _ w (λ o s', role_holds s' None ∧ gone r o) Hc Hitem).
    intros ord q n b _ (Hm & _). cbn [realm_sub]. unfold handleRoles.
    rewrite bool_decide_eq_true_2 by done. cbn [negb len_is length Nat.eqb andb]. unfold role_item.
    cbn [roles set_token]. rewrite Hy, Hm. cbn [String.eqb Ascii.eqb Bool.eqb].
    destruct r as [x|]; cbn [fmap option_fmap option_map fst snd WriteHeader NotFound http_Error respond].
    + split; [|by exists (inr ())]. split; [by apply (connected_creds kc (server (env w)))|].
      split; [done|]. cbn [roles set_roles]. by rewrite of_realm_remove, lookup_delete_eq.
    + split; [|apply gone_not_found]. split; [by apply set_token_connected|done].
  - done.
  - intros p. apply stamped_id.
  - intros p. by apply stamped_null.
  - intros x y E. cbn [drv_ID RealmRoleDriver]. unfold RealmRoleDriver_ID, field_or_empty, field_string.
    by rewrite E.
Qed.
End HostedRole.

(** ** Groups *)

Section HostedGroup.
Context {St : Type} `{FakeEnv St, !EnvLaws St}.
Variables (kc : Client) (obj : ManagedObject GroupTypes.GroupSpec).
Local Abbreviation realm := (TargetRealm (GetSpec obj)).
Local Abbreviation name := (GroupTypes.Name (GetSpec obj)).
Local Abbreviation oid := ("group-" +:+ name).

Definition group_holds (s : Server) (r : option rep) : Prop :=
  connected kc s ∧ is_Some (realms s !! realm) ∧
  one_of "name" name oid (of_realm (groups s) realm) r ∧ ∀ x, r = Some x → fits (JObj x).
Definition group_room (s : Server) (y : rep) : Prop := stored "name" name oid y ∧ fits (JObj y).

(** The role mappings are not managed. *)
Definition simple_group : Prop :=
  GroupTypes.RealmRoles (GetSpec obj) = None ∧ GroupTypes.ClientRoles (GetSpec obj) = None.

Hypothesis realm_plain : plain realm.
Hypothesis name_nonempty : name ≠ "".
Hypothesis name_slash : no_char "/" name = true.

Lemma group_segment : segment oid.
Proof. apply prefixed_segment; [simpl; lia|done..]. Qed.

(** A read of the group itself, by either of the paths the server answers it at. *)
Lemma group_read (w : World St) (ns path : string) (rest : list string) (x : rep) :
  addresses path realm ("groups" :: oid :: rest) "" → in_realm realm path → (length rest <= 1)%nat →
  group_holds (server (env w)) (Some x) →
  wp (Do kc "GET" path None out_map) (λ o w' l,
    (o = Some (inr x) ∧ group_holds (server (env w')) (Some x)) ∧
    Forall (driver_act kc ns realm false) l) w.
Proof.
  intros Haddr Hin Hlen (Hc & Hx & Hone & Hf).
  apply (Do_read_addressed kc ns _ _ _ _ _ w (λ o s', o = Some (inr x) ∧ group_holds s' (Some x)) Hc Haddr Hin).
  intros ord q n b _ (Hm & _). cbn [realm_sub]. unfold handleGroups.
  rewrite bool_decide_eq_true_2 by done.
  assert (len_min (oid :: rest) 3 = false) as -> by (apply Nat.leb_gt; cbn [length]; lia).
  cbn [negb andb]. unfold group_item. cbn [groups set_token].
  destruct Hone as (Hu & Hst & Hs). rewrite Hst, Hm. cbn [String.eqb Ascii.eqb Bool.eqb].
  cbn [fst snd writeJSON respond]. rewrite read_ok_map by (by apply Hf). split; [done|].
  split; [by apply (connected_creds kc (server (env w)))|done].
Qed.

Lemma group_get (w : World St) (r : option rep) :
  group_holds (server (env w)) r →
  wp (GroupDriver_Get kc obj) (λ o w' _, group_holds (server (env w')) r ∧ found r o) w.
Proof.
  intros (Hc & Hx & Hone & Hf). unfold GroupDriver_Get, FindGroup. apply wp_try.
  eapply wp_mono; [apply (Do_addressed kc _ _ _ _ _ _ _ w (λ o s',
    group_holds s' r ∧ o = Some (inr (option_list r))) Hc (group_addresses _ name realm_plain))|].
  - intros ord q n b Hord (Hm & Hq & _). cbn [realm_sub]. unfold handleGroups.
    rewrite bool_decide_eq_true_2 by done. unfold groups_collection. rewrite Hm, Hq.
    cbn [negb String.eqb Ascii.eqb Bool.eqb groups set_token]. rewrite group_search.
    destruct (one_of_listed ord Hord _ _ _ _ _ name_nonempty Hone) as [-> Hstore].
    rewrite (alter_same _ _ _ Hstore). cbn [fst snd writeJSON respond]. split.
    + split; [by apply (connected_creds kc (server (env w)))|done].
    + rewrite read_ok_maps; [done|]. intros x ->. apply Hone.
  - intros o w' _ [Hh ->]. rewrite (listed_find _ _ _ _ _ Hone).
    destruct r as [x|]; cbn [fmap option_fmap option_map].
    2: { apply wp_ret. split; [done|]. eexists. split; done. }
    cbv zeta. rewrite (one_of_id _ _ _ _ _ Hone). change (String.eqb oid "") with false. cbv iota.
    eapply wp_mono; [apply (group_read w' "" _ [] x); [|solve_in_realm|simpl; lia|done]|].
    + apply addresses_path; [done|pose proof group_segment; solve_segments|solve_path].
    + by intros o w2 l [[-> ?] _].
Qed.

Lemma group_post (w : World St) (x y : rep) :
  simple_group → group_holds (server (env w)) (Some y) → field_or_empty x "id" = oid →
  wp (GroupDriver_mappings kc obj x) (λ o w' l, o = Some (false, None) ∧
    group_holds (server (env w')) (Some y) ∧ Forall (obj_act kc obj false) l) w.
Proof.
  intros [Hrr Hcr] Hy Hid. unfold GroupDriver_mappings. cbv zeta. rewrite Hid.
  change (String.eqb oid "") with false. cbv iota. unfold try_flag. apply wp_bind.
  eapply wp_mono; [apply (group_read w (GetNamespace (Meta obj)) _ ["role-mappings"] y);
    [|solve_in_realm|simpl; lia|done]|].
  { apply addresses_path; [done|pose proof group_segment; solve_segments|solve_path]. }
  intros o w1 l1 [[-> Hh] Hl]. cbn [wp_then]. rewrite Hrr, Hcr. unfold group_realm_roles, and_then.
  apply wp_bind, wp_ret. cbn [wp_then]. unfold group_client_roles.
  unfold range. apply wp_bind, wp_call_env; [apply _|]. cbn [wp_then]. apply wp_ret. split; [done|].
  cbn [env set_env]. rewrite server_range. split; [done|]. by rewrite !app_nil_r.
Qed.

Lemma group_hosted :
  simple_group → Hosted (GroupDriver (St := St)) kc obj oid group_holds group_room no_rest.
Proof.
  intros Hs. pose proof group_segment.
  assert (addresses (groups_path realm) realm ["groups"] "") as Hcoll
    by (apply addresses_path; [done|solve_segments|solve_path]).
  assert (addresses (group_path realm oid) realm ["groups"; oid] "") as Hitem
    by (apply addresses_path; [done|solve_segments|solve_path]).
  split.
  - intros w r Hh. eapply wp_mono; [by apply group_get|]. by intros o w' _ [].
  - intros w p (Hc & Hx & Hone & _) [Hroom Hfits] Hid. cbn [drv_Create GroupDriver].
    assert (p !! "name" = Some (JStr name)) as Hname
      by (eapply stored_name; [|exact Hroom]; done).
    apply (Do_addressed kc _ _ _ _ _ _ _ w (λ o s', o = Some (inr ()) ∧ group_holds s' _) Hc Hcoll).
    intros ord q n b Hord (Hm & _ & Hb). cbn [realm_sub]. unfold handleGroups.
    rewrite bool_decide_eq_true_2 by done. unfold groups_collection, with_map. rewrite Hm, Hb.
    cbn [negb String.eqb Ascii.eqb Bool.eqb groups set_token body_text]. rewrite decode_sent.
    cbv beta iota zeta. rewrite (gm_string_of p _ name Hname), (one_of_absent ord Hord _ _ _ _ Hone).
    cbn [with_nonnil fst snd WriteHeader respond]. split; [done|].
    split; [by apply (connected_creds kc (server (env w)))|]. split; [done|].
    cbn [groups set_groups]. rewrite of_realm_put. split; [by eapply one_of_put|by intros ? [= <-]].
  - intros w x p (Hc & Hx & Hone & _) [Hroom Hfits]. cbn [drv_Update drv_ID GroupDriver].
    unfold GroupDriver_ID. rewrite (one_of_id _ _ _ _ _ Hone).
    apply (Do_addressed kc _ _ _ _ _ _ _ w (λ o s', o = Some (inr ()) ∧ group_holds s' _) Hc Hitem).
    intros ord q n b Hord (Hm & _ & Hb). cbn [realm_sub]. unfold handleGroups.
    rewrite bool_decide_eq_true_2 by done.
    cbn [negb len_min length Nat.leb andb]. unfold group_item, with_map.
    cbn [groups set_token]. destruct Hone as [Hu [Hm' Hst]]. rewrite Hm', Hm, Hb.
    cbn [String.eqb Ascii.eqb Bool.eqb body_text]. rewrite decode_sent.
    cbn [fst snd WriteHeader respond default from_option id]. split; [done|].
    split; [by apply (connected_creds kc (server (env w)))|]. split; [done|].
    cbn [groups set_groups]. rewrite of_realm_put.
    split; [by apply (one_of_put _ _ _ _ (Some x))|by intros ? [= <-]].
  - intros w x y Hh E. cbn [drv_PostApply drv_ID GroupDriver] in *. unfold GroupDriver_PostApply, same_obj.
    apply wp_bind. eapply wp_mono; [apply (group_post w x y); [done..|]|].
    { unfold GroupDriver_ID in E. rewrite E. destruct Hh as (_ & _ & Hone & _). by eapply one_of_id. }
    intros o w' l (-> & Hh' & Hl). cbn [wp_then]. apply wp_ret. exists false.
    rewrite app_nil_r. by split_and!.
  - intros w r Hh. cbn [drv_Delete GroupDriver]. unfold GroupDriver_Delete. cbv zeta. apply wp_try.
    eapply wp_mono; [by apply group_get|]. intros o w1 l1 [Hh1 Hfound].
    destruct r as [x|]; [|destruct Hfound as (err & -> & He); split; [done|]; eauto].
    rewrite Hfound. destruct Hh1 as (Hc & Hx & Hone & Hf). pose proof Hone as (_ & Hm' & _ & Hid & _).
    eapply wp_bind_run; [unfold must_string, field_string; by rewrite Hid|].
    apply (Do_addressed kc _ _ _ _ _ _ _ w1 (λ o s', group_holds s' None ∧ gone (Some x) o) Hc Hitem).
    intros ord q n b _ (Hm & _). cbn [realm_sub]. unfold handleGroups.
    rewrite bool_decide_eq_true_2 by done.
    cbn [negb len_min length Nat.leb andb]. unfold group_item. cbn [groups set_token].
    rewrite Hm', Hm. cbn [String.eqb Ascii.eqb Bool.eqb fst snd WriteHeader respond].
    split; [|by exists (inr ())]. split; [by apply (connected_creds kc (server (env w1)))|].
    split; [done|]. cbn [groups set_groups]. rewrite of_realm_remove.
    split; [by eapply one_of_delete|done].
  - done.
  - intros p. apply stamped_id.
  - intros p. by apply stamped_null.
  - intros x y E. cbn [drv_ID GroupDriver]. unfold GroupDriver_ID, field_or_empty, field_string.
    by rewrite E.
Qed.
End HostedGroup.
