(* ===== verification/HostingScopes.v ===== *)
(** * Client scopes on the fake server

    [Hosted] for client scopes.  The Admin API has no search for them: the client lists the
    whole collection and picks the name, so that all scopes of the realm, in whatever order
    they are listed, have to fit into one answer. *)

From Stdlib Require Import Ascii ZArith Lia.
From stdpp Require Import base gmap strings list.
From S2P Require Import Prelude Json JsonText GoError LastApplied ApiTypes World Sim Logic Url.
From S2P Require Import HttpClient AdminApi FakeServer FakeLaws FakeClient Provider.
From S2P Require Import DriverHelpers Drivers DriverLaws Engine EngineLaws Convergence Hosting.

Local Open Scope string_scope.
Local Open Scope list_scope.

(** ** Whole collections *)

(** A bound on the length of a list of representations as it is sent. *)
Definition weight (l : list rep) : N :=
  foldr (λ x a, N.of_nat (String.length (marshal (JObj x))) + 1 + a)%N 4%N l.

Lemma weight_cons (x : rep) (l : list rep) :
  weight (x :: l) = (N.of_nat (String.length (marshal (JObj x))) + 1 + weight l)%N.
Proof. done. Qed.

Lemma weight_sent (l : list rep) : (N.of_nat (String.length (marshal (reps_out l))) <= weight l)%N.
Proof.
  assert (∀ l : list rep, N.of_nat (String.length (join (map marshal (JObj <$> l)))) + 4 <= weight l)%N as H.
  { clear l. induction l as [|x l IH]; [done|].
    destruct l as [|y l]; [cbn [fmap list_fmap map join weight foldr]; lia|].
    change (join (map marshal (JObj <$> x :: y :: l)))
      with (marshal (JObj x) +:+ "," +:+ join (map marshal (JObj <$> y :: l))).
    change (weight (x :: y :: l))
      with (N.of_nat (String.length (marshal (JObj x))) + 1 + weight (y :: l))%N.
    rewrite !length_append. change (String.length ",") with 1%nat. lia. }
  destruct l as [|x l]; [done|]. specialize (H (x :: l)).
  change (marshal (reps_out (x :: l))) with ("[" +:+ join (map marshal (JObj <$> x :: l)) +:+ "]").
  rewrite !length_append. change (String.length "[") with 1%nat. change (String.length "]") with 1%nat.
  lia.
Qed.

Lemma weight_sub (l k : list rep) : l ⊆+ k → (weight l <= weight k)%N.
Proof. induction 1; rewrite ?weight_cons; lia. Qed.

(** Every member has its id, and every listing of members fits into an answer. *)
Definition listable (m : gmap string rep) : Prop :=
  (∀ id y, m !! id = Some y → y !! "id" = Some (JStr id)) ∧
  (weight (map_to_list m).*2 < 2 ^ 23)%N.

Lemma listable_fits (m : gmap string rep) (l : list rep) :
  listable m → l ⊆+ (map_to_list m).*2 → fits (reps_out l).
Proof.
  intros [_ Hw] Hl%weight_sub. unfold fits. pose proof (weight_sent l). lia.
Qed.

Lemma listable_delete (m : gmap string rep) (id : string) : listable m → listable (delete id m).
Proof.
  intros [Hid Hw]. split; [intros id' y [_ Hy]%lookup_delete_Some; by apply Hid|].
  eapply N.le_lt_trans; [|exact Hw]. apply weight_sub.
  apply fmap_submseteq, map_to_list_submseteq, delete_subseteq.
Qed.

Lemma as_rep_list (l : list rep) : mapM as_rep (JObj <$> l) = Some l.
Proof. induction l as [|x l IH]; [done|]. cbn. by rewrite IH. Qed.

Lemma read_ok_list (m p : string) (l : list rep) :
  fits (reps_out l) →
  answer m p out_maps (inr (mkHttpResponse 200 (marshal (reps_out l) +:+ newline))) = inr l.
Proof.
  intros Hf. unfold answer, read_response. cbn [rs_body rs_status]. rewrite fits_body by done.
  change ((200 <=? 200)%Z && (200 <? 300)%Z) with true. cbv iota.
  assert (String.eqb (marshal (reps_out l) +:+ newline) "" = false) as ->
    by (pose proof (marshal_nonempty (reps_out l)); by destruct (marshal (reps_out l))).
  cbn [negb out_decode out_maps]. unfold unmarshal_maps. rewrite decode_newline.
  destruct l as [|x l]; [done|]. change (reps_out (x :: l)) with (JArr (JObj <$> x :: l)). cbv iota.
  by rewrite as_rep_list.
Qed.

Lemma filter_whole {A} (l : list A) : filter (λ _, true = true) l = l.
Proof. induction l as [|x l IH]; [done|]. by rewrite filter_cons_True, IH. Qed.

Section Listing.
Variable ord : ∀ A : Type, list A → list A.
Hypothesis ord_perm : ∀ A (l : list A), ord A l ≡ₚ l.
Variables (key name oid : string) (m : gmap string rep).
Hypothesis m_listable : listable m.

Lemma listed_whole :
  list_with_ids ord (λ _, true) m = (entries ord m).*2 ∧ store_with_ids (λ _, true) m = m ∧
  fits (reps_out (entries ord m).*2).
Proof.
  destruct m_listable as [Hid Hw]. split_and!.
  - unfold list_with_ids. rewrite filter_whole. apply list_fmap_ext.
    intros i [id y] Hi%list_elem_of_lookup_2. apply (entries_spec _ ord_perm) in Hi.
    apply insert_id, Hid, Hi.
  - apply store_same. intros id y Hy _. by apply Hid.
  - apply (listable_fits m); [done|]. unfold entries. by rewrite ord_perm.
Qed.

(** The member of the name is found wherever it is listed. *)
Lemma find_listed (r : option rep) :
  one_of key name oid m r →
  snd <$> list_find (λ x, field_is x key name = true) (entries ord m).*2 = r.
Proof.
  intros [Hu Hr]. destruct (list_find _ _) as [[i x]|] eqn:E; simpl.
  - apply list_find_Some in E as (Hi & Hx & _).
    apply list_elem_of_lookup_2, list_elem_of_fmap in Hi as ([id x'] & -> & Hin).
    apply (entries_spec _ ord_perm) in Hin. destruct r as [y|].
    + destruct Hr as [Hy _]. pose proof (Hu id x' Hin Hx) as ->. simpl. congruence.
    + apply Hr in Hin. simpl in Hx. congruence.
  - destruct r as [y|]; [|done]. exfalso. apply list_find_None in E.
    destruct Hr as [Hy (Hk & _)]. rewrite Forall_forall in E. apply (E y); [|by apply field_is_spec].
    apply list_elem_of_fmap. exists (oid, y). split; [done|]. by apply (entries_spec _ ord_perm).
Qed.
End Listing.

(** ** Client scopes *)

Section HostedScope.
Context {St : Type} `{FakeEnv St}.
Variables (kc : Client) (obj : ManagedObject ClientScopeTypes.ClientScopeSpec).
Local Abbreviation realm := (TargetRealm (GetSpec obj)).
Local Abbreviation name := (ClientScopeTypes.Name (GetSpec obj)).
Local Abbreviation oid := ("scope-" +:+ name).

Definition scope_holds (s : Server) (r : option rep) : Prop :=
  connected kc s ∧ is_Some (realms s !! realm) ∧
  one_of "name" name oid (of_realm (scopes s) realm) r ∧ listable (of_realm (scopes s) realm).
Definition scope_room (s : Server) (y : rep) : Prop :=
  stored "name" name oid y ∧ listable (<[oid := y]> (of_realm (scopes s) realm)).

Lemma scope_get (w : World St) (r : option rep) :
  plain realm → scope_holds (server (env w)) r →
  wp (ClientScopeDriver_Get kc obj) (λ o w' _, scope_holds (server (env w')) r ∧
    (∀ y, scope_room (server (env w)) y → scope_room (server (env w')) y) ∧
    (no_rest (server (env w)) → no_rest (server (env w'))) ∧ found r o) w.
Proof.
  intros Hr (Hc & Hx & Hone & Hl). unfold ClientScopeDriver_Get, FindClientScope, ListClientScopes.
  assert (addresses (scopes_path realm) realm ["client-scopes"] "") as Hcoll
    by (apply addresses_path; [done|solve_segments|solve_path]).
  apply wp_try. eapply wp_mono; [apply (Do_addressed kc _ _ _ _ _ _ _ w (λ o s',
    scope_holds s' r ∧ (∀ y, scope_room (server (env w)) y → scope_room s' y) ∧
    ∃ l, o = Some (inr l) ∧ snd <$> list_find (λ x, field_is x "name" name = true) l = r) Hc Hcoll)|].
  - intros ord q n b Hord (Hm & _). cbn [realm_sub]. unfold handleClientScopes.
    rewrite bool_decide_eq_true_2 by done. rewrite Hm.
    cbn [negb String.eqb Ascii.eqb Bool.eqb scopes set_token].
    destruct (listed_whole ord Hord _ Hl) as (-> & Hstore & Hfit).
    rewrite (alter_same _ _ _ Hstore). cbn [fst snd writeJSON respond]. split.
    + split; [by apply (connected_creds kc (server (env w)))|done].
    + split; [done|]. exists (entries ord (of_realm (scopes (server (env w))) realm)).*2.
      rewrite read_ok_list by done. split; [done|]. by eapply (find_listed ord Hord).
  - intros o w' _ (Hh & Hroom & l & -> & Hf).
    destruct (list_find _ l) as [[i x]|]; simpl in Hf; subst r; apply wp_ret; (split; [done|]);
      (split; [done|]); (split; [done|]); [done|]. eexists. split; done.
Qed.

Lemma scope_hosted :
  plain realm → no_char "/" name = true →
  Hosted (ClientScopeDriver (St := St)) kc obj oid scope_holds scope_room no_rest.
Proof.
  intros Hr Hslash. assert (segment oid) by (apply prefixed_segment; [simpl; lia|done..]).
  assert (addresses (scopes_path realm) realm ["client-scopes"] "") as Hcoll
    by (apply addresses_path; [done|solve_segments|solve_path]).
  assert (addresses (scope_path realm oid) realm ["client-scopes"; oid] "") as Hitem
    by (apply addresses_path; [done|solve_segments|solve_path]).
  split.
  - intros w r Hh. by apply scope_get.
  - intros w p (Hc & Hx & Hone & Hl) [Hst Hroom] Hid. cbn [drv_Create ClientScopeDriver].
    assert (p !! "name" = Some (JStr name)) as Hname
      by (eapply stored_name; [|exact Hst]; done).
    apply (Do_addressed kc _ _ _ _ _ _ _ w (λ o s', o = Some (inr ()) ∧ scope_holds s' _) Hc Hcoll).
    intros ord q n b Hord (Hm & _ & Hb). cbn [realm_sub]. unfold handleClientScopes, with_map.
    rewrite bool_decide_eq_true_2 by done. rewrite Hm, Hb.
    cbn [negb String.eqb Ascii.eqb Bool.eqb scopes set_token body_text]. rewrite decode_sent.
    cbv beta iota zeta. rewrite (gm_string_of p _ name Hname), (one_of_absent ord Hord _ _ _ _ Hone).
    cbn [with_nonnil fst snd WriteHeader respond]. split; [done|].
    split; [by apply (connected_creds kc (server (env w)))|]. split; [done|].
    cbn [scopes set_scopes]. rewrite of_realm_put. split; [by eapply one_of_put|done].
  - intros w x p (Hc & Hx & Hone & Hl) [Hst Hroom]. cbn [drv_Update drv_ID ClientScopeDriver].
    unfold ClientScopeDriver_ID. rewrite (one_of_id _ _ _ _ _ Hone).
    apply (Do_addressed kc _ _ _ _ _ _ _ w (λ o s', o = Some (inr ()) ∧ scope_holds s' _) Hc Hitem).
    intros ord q n b Hord (Hm & _ & Hb). cbn [realm_sub]. unfold handleClientScopes, with_map.
    rewrite bool_decide_eq_true_2 by done. cbn [negb scopes set_token].
    destruct Hone as [Hu [Hm' Hst']]. rewrite Hm', Hm, Hb.
    cbn [String.eqb Ascii.eqb Bool.eqb body_text]. rewrite decode_sent.
    cbn [fst snd WriteHeader respond default from_option id]. split; [done|].
    split; [by apply (connected_creds kc (server (env w)))|]. split; [done|].
    cbn [scopes set_scopes]. rewrite of_realm_put.
    split; [by apply (one_of_put _ _ _ _ (Some x))|done].
  - intros w x y Hy _. apply wp_ret. exists false. split_and!; [done..|]. by intros _.
  - intros w r Hh. cbn [drv_Delete ClientScopeDriver]. unfold ClientScopeDriver_Delete. cbv zeta.
    apply wp_try. eapply wp_mono; [by apply scope_get|]. intros o w1 l1 (Hh1 & _ & _ & Hfound).
    destruct r as [x|]; [|destruct Hfound as (err & -> & He); split; [done|]; eauto].
    rewrite Hfound. destruct Hh1 as (Hc & Hx & Hone & Hl). pose proof Hone as (_ & Hm' & _ & Hid & _).
    eapply wp_bind_run; [unfold must_string, field_string; by rewrite Hid|].
    apply (Do_addressed kc _ _ _ _ _ _ _ w1 (λ o s', scope_holds s' None ∧ gone (Some x) o) Hc Hitem).
    intros ord q n b _ (Hm & _). cbn [realm_sub]. unfold handleClientScopes.
    rewrite bool_decide_eq_true_2 by done. cbn [negb scopes set_token]. rewrite Hm', Hm.
    cbn [String.eqb Ascii.eqb Bool.eqb fst snd WriteHeader respond].
    split; [|by exists (inr ())]. split; [by apply (connected_creds kc (server (env w1)))|].
    split; [done|]. cbn [scopes set_scopes]. rewrite of_realm_remove.
    split; [by eapply one_of_delete|by apply listable_delete].
  - done.
  - intros p. apply stamped_id.
  - intros p. by apply stamped_null.
  - intros x y E. cbn [drv_ID ClientScopeDriver].
    unfold ClientScopeDriver_ID, field_or_empty, field_string. by rewrite E.
Qed.
End HostedScope.
