(* ===== verification/HostingClients.v ===== *)
(** * Clients on the fake server

    [Hosted] for clients, with the default and optional client scopes that [PostApply]
    assigns: whatever is assigned before, [enforceScopeAssignments] leaves exactly the scopes
    of the spec assigned, and when they are already it only reads. *)

From Stdlib Require Import Ascii ZArith Lia.
From stdpp Require Import base gmap strings list.
From S2P Require Import Prelude Json JsonText GoError LastApplied ApiTypes World Sim Logic Url.
From S2P Require Import HttpClient AdminApi FakeServer FakeLaws FakeClient Provider.
From S2P Require Import DriverHelpers Drivers DriverLaws Engine EngineLaws Convergence Hosting.
From S2P Require Import HostingScopes.

Local Open Scope string_scope.
Local Open Scope list_scope.

(** ** Assignments *)

Section Assignments.
Variables (realm cid : string) (optional : bool).

(** The ids of the scopes assigned to a client, and their names. *)
Definition assigned (s : Server) : list string :=
  default [] (of_realm (scope_store optional s) realm !! cid).
Definition assigned_reps (s : Server) : list rep :=
  omap (λ id, of_realm (scopes s) realm !! id) (assigned s).
Definition assigned_names (s : Server) : list string := rep_names (assigned_reps s).

(** Exactly the scopes [names] are assigned. *)
Definition scopes_settled (names : list string) (s : Server) : Prop :=
  ∀ n, n ∈ assigned_names s ↔ n ∈ names.

(** The collection of scopes: listable, names are unique, ids are path segments. *)
Record scopes_ready (names : list string) (s : Server) : Prop := {
  ready_listable : listable (of_realm (scopes s) realm);
  ready_unique id id' y y' n :
    of_realm (scopes s) realm !! id = Some y → of_realm (scopes s) realm !! id' = Some y' →
    field_string y "name" = Some n → field_string y' "name" = Some n → id = id';
  ready_segment id : is_Some (of_realm (scopes s) realm !! id) → segment id;
  ready_exists n : n ∈ names →
    ∃ id y, of_realm (scopes s) realm !! id = Some y ∧ field_string y "name" = Some n;
  ready_nodup : NoDup (assigned s)
}.

(** Only the assignments of this list may have changed. *)
Record only_assigned (s s' : Server) : Prop := {
  only_creds : creds s' = creds s;
  only_realms : realms s' = realms s;
  only_clients : clients s' = clients s;
  only_scopes : scopes s' = scopes s;
  only_other : scope_store (negb optional) s' = scope_store (negb optional) s;
}.
End Assignments.

#[export] Instance only_assigned_preorder (optional : bool) : PreOrder (only_assigned optional).
Proof.
  split; [by intros s|]. intros s1 s2 s3 [] []. split; etrans; eauto.
Qed.

Lemma only_token (optional : bool) (n : Z) (b : bool) (s : Server) :
  only_assigned optional s (set_token n b s).
Proof. by destruct optional. Qed.

Lemma only_store (optional : bool) (x : gmap string (gmap string (list string))) (s : Server) :
  only_assigned optional s (set_scope_store optional x s).
Proof. by destruct optional. Qed.

(** Members of a collection, by a list of ids without repetition. *)
Lemma members_sub (m : gmap string rep) (ids : list string) :
  NoDup ids → omap (λ id, m !! id) ids ⊆+ (map_to_list m).*2.
Proof.
  intros Hn. assert (omap (λ id, m !! id) ids = (omap (λ id, (λ y, (id, y)) <$> m !! id) ids).*2) as ->.
  { clear Hn. induction ids as [|i ids IH]; [done|]. cbn [omap list_omap].
    destruct (m !! i); cbn [fmap option_fmap option_map list_fmap]; by rewrite IH. }
  apply fmap_submseteq, NoDup_submseteq.
  - induction Hn as [|i ids Hi Hn IH]; [constructor|]. cbn [omap list_omap].
    destruct (m !! i) as [y|]; [|done]. cbn [fmap option_fmap option_map]. constructor; [|done].
    rewrite list_elem_of_omap. intros (i' & Hi' & E). by destruct (m !! i'); simplify_eq/=.
  - intros [i y]. rewrite list_elem_of_omap, elem_of_map_to_list. intros (i' & _ & E).
    destruct (m !! i') eqn:Em; simplify_eq/=. done.
Qed.

Lemma appendUnique_spec (l : list string) (x : string) :
  (NoDup l → NoDup (appendUnique l x)) ∧ ∀ i, i ∈ appendUnique l x ↔ i ∈ l ∨ i = x.
Proof.
  unfold appendUnique. case_bool_decide as Hx; split; try done; [set_solver| |set_solver].
  intros Hl. apply NoDup_app. split; [done|]. split; [set_solver|apply NoDup_singleton].
Qed.

Lemma removeValue_spec (l : list string) (x : string) :
  (NoDup l → NoDup (removeValue l x)) ∧ ∀ i, i ∈ removeValue l x ↔ i ∈ l ∧ i ≠ x.
Proof.
  unfold removeValue. split; [apply NoDup_filter|]. intros i. rewrite list_elem_of_filter. tauto.
Qed.

(** The ids of a list of names, one name more. *)
Lemma named_cons (ids : gmap string string) (n i j : string) (names : list string) :
  ids !! n = Some i →
  (∃ n', n' ∈ n :: names ∧ ids !! n' = Some j) ↔ j = i ∨ ∃ n', n' ∈ names ∧ ids !! n' = Some j.
Proof.
  intros Hi. setoid_rewrite elem_of_cons. split.
  - intros (n' & [->|Hn] & E); [left; congruence|right; by exists n'].
  - intros [->|(n' & ? & ?)]; [exists n|exists n']; auto.
Qed.

Lemma named_cons_none (ids : gmap string string) (n j : string) (names : list string) :
  ids !! n = None →
  (∃ n', n' ∈ n :: names ∧ ids !! n' = Some j) ↔ ∃ n', n' ∈ names ∧ ids !! n' = Some j.
Proof.
  intros Hi. setoid_rewrite elem_of_cons. split.
  - intros (n' & [->|Hn] & E); [congruence|by exists n'].
  - intros (n' & ? & ?). exists n'. auto.
Qed.

Lemma named_nil (ids : gmap string string) (j : string) :
  ¬ ∃ n', n' ∈ @nil string ∧ ids !! n' = Some j.
Proof. by intros (n' & Hn%elem_of_nil & _). Qed.

Lemma rep_names_elem (l : list rep) (n : string) :
  n ∈ rep_names l ↔ ∃ y, y ∈ l ∧ field_string y "name" = Some n.
Proof. unfold rep_names. rewrite list_elem_of_omap. done. Qed.

(** The ids by name, when each name stands for one id. *)
Lemma ids_by_name_spec (l : list rep) (n id : string) :
  (∀ y y' n i i', y ∈ l → y' ∈ l → field_string y "name" = Some n → field_string y' "name" = Some n →
     field_string y "id" = Some i → field_string y' "id" = Some i' → i = i') →
  (∀ y, y ∈ l → is_Some (field_string y "id")) →
  ids_by_name l ∅ !! n = Some id ↔
    ∃ y, y ∈ l ∧ field_string y "name" = Some n ∧ field_string y "id" = Some id.
Proof.
  intros Hu Hid.
  assert (∀ acc, ids_by_name l acc !! n = Some id ↔
    (∃ y, y ∈ l ∧ field_string y "name" = Some n ∧ field_string y "id" = Some id) ∨
    (acc !! n = Some id ∧ ∀ y, y ∈ l → field_string y "name" ≠ Some n)) as H.
  { induction l as [|x l IH]; intros acc; cbn [ids_by_name]; [set_solver|].
    destruct (Hid x) as [i Hi]; [by left|]. rewrite Hi. rewrite IH; [|set_solver..].
    destruct (field_string x "name") as [nx|] eqn:Hnx; [|set_solver].
    rewrite lookup_insert_Some. split.
    - intros [(y & ? & ? & ?)|[[[-> ->]|[Hne Hacc]] Hno]]; [left; exists y; set_solver| |].
      + left. exists x. set_solver.
      + right. split; [done|]. intros y [->|Hy]%elem_of_cons; [congruence|by apply Hno].
    - intros [(y & [->|Hy]%elem_of_cons & Hyn & Hyi)|[Hacc Hno]].
      + assert (nx = n ∧ i = id) as [-> ->] by (split; congruence).
        destruct (decide (Exists (λ y, field_string y "name" = Some n) l)) as [He|Hno].
        * apply Exists_exists in He as (y & Hy & Hyn').
          left. destruct (Hid y) as [i' Hi']; [by right|]. exists y. split_and!; [done..|].
          rewrite Hi'. f_equal. eapply (Hu y x n); [by right|by left|done..].
        * right. split; [by left|]. intros y Hy E. apply Hno, Exists_exists. by exists y.
      + left. by exists y.
      + right. split; [right; split; [|done]|]; [|set_solver].
        intros ->. apply (Hno x); [by left|done]. }
  rewrite H, lookup_empty. naive_solver.
Qed.

(** ** Enforcing the assignments *)

Section Enforce.
Context {St : Type} `{FakeEnv St, !EnvLaws St, KubeLib}.
Variables (kc : Client) (realm cid : string) (optional : bool).
Hypothesis realm_plain : plain realm.
Hypothesis cid_segment : segment cid.
Local Abbreviation ids_of := (assigned realm cid optional).
Local Abbreviation same := (only_assigned optional).

Lemma kind_cases (s : Server) (sub : list string) (ord : ∀ A, list A → list A) (r : Request) :
  is_Some (realms s !! realm) →
  realm_sub ord r realm ("clients" :: cid :: scope_kind optional :: sub) s =
  client_scopes_handler r realm cid optional (cid :: scope_kind optional :: sub) s.
Proof.
  intros Hx. cbn [realm_sub]. unfold handleClients. rewrite bool_decide_eq_true_2 by done.
  by destruct optional, sub as [|? [|]].
Qed.

Lemma assigned_store (l : list string) (s : Server) :
  ids_of (set_scope_store optional (put (scope_store optional s) realm cid l) s) = l.
Proof.
  unfold assigned. destruct optional; cbn [scope_store set_scope_store optScope defScope];
    by rewrite of_realm_put, lookup_insert_eq.
Qed.

Lemma assign_addresses (id : string) :
  segment id →
  addresses (assignment_path realm cid (scope_kind optional) id) realm
    ["clients"; cid; scope_kind optional; id] "".
Proof. intros Hid. destruct optional; apply addresses_path; [done|solve_segments|solve_path|done|solve_segments|solve_path]. Qed.

(** One assignment added. *)
Lemma assign_add (w : World St) (id : string) :
  connected kc (server (env w)) → is_Some (realms (server (env w)) !! realm) →
  is_Some (of_realm (scopes (server (env w))) realm !! id) → segment id →
  wp (scope_assign kc realm cid optional id true) (λ o w' _, o = Some (inr ()) ∧
    same (server (env w)) (server (env w')) ∧
    ids_of (server (env w')) = appendUnique (ids_of (server (env w))) id ∧
    is_Some (scope_store optional (server (env w')) !! realm)) w.
Proof.
  intros Hc Hx Hid Hs. rewrite scope_assign_Do.
  apply (Do_addressed kc _ _ _ _ _ _ _ w (λ o s', o = Some (inr ()) ∧ same (server (env w)) s' ∧
    ids_of s' = appendUnique (ids_of (server (env w))) id ∧ is_Some (scope_store optional s' !! realm))
    Hc (assign_addresses id Hs)).
  intros ord q n b _ (Hm & _). rewrite kind_cases by done. unfold client_scopes_handler. rewrite Hm.
  cbn [String.eqb Ascii.eqb Bool.eqb lookup list_lookup].
  rewrite bool_decide_eq_true_2 by done. cbn [fst snd WriteHeader respond].
  split; [done|]. split; [etrans; [apply only_token|apply only_store]|].
  split; [rewrite assigned_store; by destruct optional|].
  destruct optional; cbn [scope_store set_scope_store optScope defScope]; unfold put;
    rewrite lookup_insert_eq; by eexists.
Qed.

(** One assignment removed. *)
Lemma assign_remove (w : World St) (id : string) :
  connected kc (server (env w)) → is_Some (realms (server (env w)) !! realm) →
  is_Some (scope_store optional (server (env w)) !! realm) → segment id →
  wp (scope_assign kc realm cid optional id false) (λ o w' _, o = Some (inr ()) ∧
    same (server (env w)) (server (env w')) ∧
    ids_of (server (env w')) = removeValue (ids_of (server (env w))) id ∧
    is_Some (scope_store optional (server (env w')) !! realm)) w.
Proof.
  intros Hc Hx [m Hst] Hs. rewrite scope_assign_Do.
  apply (Do_addressed kc _ _ _ _ _ _ _ w (λ o s', o = Some (inr ()) ∧ same (server (env w)) s' ∧
    ids_of s' = removeValue (ids_of (server (env w))) id ∧ is_Some (scope_store optional s' !! realm))
    Hc (assign_addresses id Hs)).
  intros ord q n b _ (Hm & _). rewrite kind_cases by done. unfold client_scopes_handler. rewrite Hm.
  cbn [String.eqb Ascii.eqb Bool.eqb lookup list_lookup].
  assert (scope_store optional (set_token n b (server (env w))) !! realm = Some m) as Hst'
    by by destruct optional.
  rewrite Hst'. cbn [fst snd WriteHeader respond].
  split; [done|]. split; [etrans; [apply only_token|apply only_store]|].
  split; [rewrite assigned_store; unfold assigned, of_realm; by rewrite Hst|].
  destruct optional; cbn [scope_store set_scope_store optScope defScope]; unfold put;
    rewrite lookup_insert_eq; by eexists.
Qed.

(** What both loops keep. *)
Definition enforcing (s : Server) : Prop :=
  connected kc s ∧ is_Some (realms s !! realm).

Lemma enforcing_same (s s' : Server) : enforcing s → same s s' → enforcing s'.
Proof.
  intros [Hc Hx] [Ec Er]. split; [by apply (connected_creds kc s)|]. by rewrite Er.
Qed.

Lemma assign_missing_served (ids : gmap string string) (names : list string) (w : World St) :
  enforcing (server (env w)) → NoDup (ids_of (server (env w))) →
  (∀ n, n ∈ names → ∃ i, ids !! n = Some i) →
  (∀ n i, ids !! n = Some i → is_Some (of_realm (scopes (server (env w))) realm !! i) ∧ segment i) →
  wp (assign_missing (scope_assign kc realm cid optional) realm ids names) (λ o w' _,
    o = Some (inr ()) ∧ same (server (env w)) (server (env w')) ∧ NoDup (ids_of (server (env w'))) ∧
    (∀ i, i ∈ ids_of (server (env w')) ↔
       i ∈ ids_of (server (env w)) ∨ ∃ n, n ∈ names ∧ ids !! n = Some i) ∧
    (is_Some (scope_store optional (server (env w)) !! realm) →
     is_Some (scope_store optional (server (env w')) !! realm))) w.
Proof.
  revert w. induction names as [|n names IH]; intros w He Hnd Hn Hids; cbn [assign_missing].
  { apply wp_ret. split_and!; [done..| |done]. intros i. pose proof (named_nil ids i). tauto. }
  destruct (Hn n) as [i Hi]; [by left|]. rewrite Hi. destruct (Hids n i Hi) as [Hsc Hseg].
  apply wp_try. eapply wp_mono; [apply (assign_add w i); [apply He|apply He|exact Hsc|exact Hseg]|].
  intros o w1 l1 (-> & Hsame & Hids1 & Hst). 
  eapply wp_mono; [apply IH|].
  - by eapply enforcing_same.
  - rewrite Hids1. by apply appendUnique_spec.
  - intros n' Hn'. apply Hn. by right.
  - by rewrite (only_scopes _ _ _ Hsame).
  - intros o w2 l2 (-> & Hsame2 & Hnd2 & Hel & Hst2). split; [done|].
    split; [by etrans|]. split; [done|]. split; [|auto]. intros j.
    rewrite Hel, Hids1, (proj2 (appendUnique_spec _ _)), (named_cons ids n i) by done. tauto.
Qed.

Lemma remove_extra_served (ids : gmap string string) (names : list string) (w : World St) :
  enforcing (server (env w)) → NoDup (ids_of (server (env w))) →
  (names = [] ∨ is_Some (scope_store optional (server (env w)) !! realm)) →
  (∀ n i, ids !! n = Some i → segment i) →
  wp (remove_extra (scope_assign kc realm cid optional) ids names) (λ o w' _,
    o = Some (inr ()) ∧ same (server (env w)) (server (env w')) ∧ NoDup (ids_of (server (env w'))) ∧
    (∀ i, i ∈ ids_of (server (env w')) ↔
       i ∈ ids_of (server (env w)) ∧ ¬ ∃ n, n ∈ names ∧ ids !! n = Some i)) w.
Proof.
  revert w. induction names as [|n names IH]; intros w He Hnd Hst Hids; cbn [remove_extra].
  { apply wp_ret. split_and!; [done..|]. intros i. pose proof (named_nil ids i). tauto. }
  destruct Hst as [?|Hst]; [done|]. destruct (ids !! n) as [i|] eqn:Hi.
  2: { eapply wp_mono; [apply IH; [done|done|by right|done]|].
       intros o w1 l1 (-> & Hsame & Hnd1 & Hel). split_and!; [done..|]. intros i.
       by rewrite Hel, named_cons_none. }
  apply wp_try. eapply wp_mono; [apply (assign_remove w i); [apply He|apply He|exact Hst|exact (Hids n i Hi)]|].
  intros o w1 l1 (-> & Hsame & Hids1 & Hst1).
  eapply wp_mono; [apply IH; [by eapply enforcing_same| |by right|done]|].
  - rewrite Hids1. by apply removeValue_spec.
  - intros o w2 l2 (-> & Hsame2 & Hnd2 & Hel). split; [done|]. split; [by etrans|]. split; [done|].
    intros j. rewrite Hel, Hids1, (proj2 (removeValue_spec _ _)), (named_cons ids n i) by done. tauto.
Qed.

(** The scope of a name. *)
Definition named (s : Server) (n i : string) : Prop :=
  ∃ y, of_realm (scopes s) realm !! i = Some y ∧ field_string y "name" = Some n.

Lemma assigned_names_elem (s : Server) (n : string) :
  n ∈ assigned_names realm cid optional s ↔ ∃ i, i ∈ ids_of s ∧ named s n i.
Proof.
  unfold assigned_names, assigned_reps. rewrite rep_names_elem. setoid_rewrite list_elem_of_omap.
  split; [intros (y & (i & Hi & Hy) & Hn); exists i; split; [done|by exists y]|].
  intros (i & Hi & y & Hy & Hn). exists y. split; [by exists i|done].
Qed.

(** The difference of two lists of names, applied to the ids, leaves the desired names. *)
Lemma difference_settles (names toAdd toRemove : list string) (ids : gmap string string)
    (s s' : Server) :
  scopes_ready realm cid optional names s → scopes s' = scopes s →
  (∀ n i, ids !! n = Some i ↔ named s n i) →
  (∀ n, n ∈ toAdd ↔ n ∈ names ∧ n ∉ assigned_names realm cid optional s) →
  (∀ n, n ∈ toRemove ↔ n ∈ assigned_names realm cid optional s ∧ n ∉ names) →
  (∀ i, i ∈ ids_of s' ↔ (i ∈ ids_of s ∨ ∃ n, n ∈ toAdd ∧ ids !! n = Some i) ∧
     ¬ ∃ n, n ∈ toRemove ∧ ids !! n = Some i) →
  scopes_settled realm cid optional names s'.
Proof.
  intros Hr Hsc Hids Ha Hd Hel n. rewrite assigned_names_elem.
  assert (∀ i, named s' n i ↔ named s n i) as Hnm by (intros; unfold named; by rewrite Hsc).
  assert (∀ n n' i, named s n i → named s n' i → n = n') as Hfun
    by (intros n1 n2 i (y & Hy & E) (y' & Hy' & E'); congruence).
  setoid_rewrite Hnm. setoid_rewrite Hel. split.
  - intros (i & [[Hi|(n' & Hn' & E)] Hno] & Hn).
    + destruct (decide (n ∈ names)) as [|Hout]; [done|]. destruct Hno. exists n.
      rewrite Hids, Hd. split; [|done]. split; [|done]. apply assigned_names_elem. by exists i.
    + rewrite Hids in E. rewrite (Hfun n n' i Hn E). by apply Ha.
  - intros Hn. assert (∀ i, named s n i → ¬ ∃ n', n' ∈ toRemove ∧ ids !! n' = Some i) as Hkeep.
    { intros i Hi (n' & Hn' & E). rewrite Hids in E. rewrite (Hfun n n' i Hi E) in Hn.
      apply Hd in Hn' as [_ Hout]. done. }
    destruct (decide (n ∈ assigned_names realm cid optional s)) as [Hc|Hc].
    + apply assigned_names_elem in Hc as (i & Hi & Hni). exists i. auto.
    + destruct (ready_exists _ _ _ _ _ Hr n Hn) as (i & y & Hy & Hny).
      assert (named s n i) as Hni by by exists y. exists i. split; [|done]. split; [|auto].
      right. exists n. by rewrite Ha, Hids.
Qed.

(** The listing of all scopes gives the ids by name. *)
Lemma listed_ids (names : list string) (l : list rep) (s : Server) (n i : string) :
  scopes_ready realm cid optional names s → l ≡ₚ (map_to_list (of_realm (scopes s) realm)).*2 →
  ids_by_name l ∅ !! n = Some i ↔ named s n i.
Proof.
  intros [[Hid _] Hu _ _ _] Hl.
  assert (∀ y, y ∈ l ↔ ∃ j, of_realm (scopes s) realm !! j = Some y) as Hin.
  { intros y. rewrite Hl, list_elem_of_fmap. split.
    - intros ([j y'] & -> & Hj%elem_of_map_to_list). by exists j.
    - intros (j & Hj). exists (j, y). by rewrite elem_of_map_to_list. }
  assert (∀ y j, of_realm (scopes s) realm !! j = Some y → field_string y "id" = Some j) as Hids.
  { intros y j Hj. unfold field_string. by rewrite (Hid j y Hj). }
  rewrite ids_by_name_spec.
  - unfold named. setoid_rewrite Hin. split.
    + intros (y & (j & Hj) & Hn & Hi). exists y. rewrite (Hids y j Hj) in Hi. by injection Hi as <-.
    + intros (y & Hy & Hn). exists y. split; [by exists i|]. split; [done|]. by apply Hids.
  - intros y y' n' j j' [k Hk]%Hin [k' Hk']%Hin Hn Hn' Hj Hj'.
    rewrite (Hids y k Hk) in Hj. rewrite (Hids y' k' Hk') in Hj'.
    pose proof (Hu k k' y y' n' Hk Hk' Hn Hn'). congruence.
  - intros y [j Hj]%Hin. by rewrite (Hids y j Hj).
Qed.

Lemma same_ready (names : list string) (s s' : Server) :
  scopes_ready realm cid optional names s → same s s' → NoDup (ids_of s') →
  scopes_ready realm cid optional names s'.
Proof. intros [] [_ _ _ E _] Hnd. by split; rewrite ?E. Qed.

Lemma scopes_listed (names : list string) (w : World St) :
  enforcing (server (env w)) → scopes_ready realm cid optional names (server (env w)) →
  wp (ListClientScopes kc realm) (λ o w' _, ∃ l, o = Some (inr l) ∧
    l ≡ₚ (map_to_list (of_realm (scopes (server (env w))) realm)).*2 ∧
    same (server (env w)) (server (env w')) ∧
    scope_store optional (server (env w')) = scope_store optional (server (env w))) w.
Proof.
  intros [Hc Hx] [Hl _ _ _ _].
  assert (addresses (scopes_path realm) realm ["client-scopes"] "") as Hcoll
    by (apply addresses_path; [done|solve_segments|solve_path]).
  apply (Do_addressed kc _ _ _ _ _ _ _ w (λ o s', ∃ l, o = Some (inr l) ∧
    l ≡ₚ (map_to_list (of_realm (scopes (server (env w))) realm)).*2 ∧ same (server (env w)) s' ∧
    scope_store optional s' = scope_store optional (server (env w))) Hc Hcoll).
  intros ord q n b Hord (Hm & _). cbn [realm_sub]. unfold handleClientScopes.
  rewrite bool_decide_eq_true_2 by done. rewrite Hm.
  cbn [negb String.eqb Ascii.eqb Bool.eqb scopes set_token].
  destruct (listed_whole ord Hord _ Hl) as (-> & Hstore & Hfit).
  rewrite (alter_same _ _ _ Hstore). cbn [fst snd writeJSON respond].
  exists (entries ord (of_realm (scopes (server (env w))) realm)).*2.
  rewrite read_ok_list by done. split; [done|]. unfold entries. rewrite Hord. split; [done|].
  by destruct optional.
Qed.

Lemma assignments_read (ns : string) (names : list string) (w : World St) :
  enforcing (server (env w)) → scopes_ready realm cid optional names (server (env w)) →
  wp (if optional then ClientOptionalScopeAssignments kc realm cid
      else ClientDefaultScopeAssignments kc realm cid) (λ o w' l,
    (o = Some (inr (assigned_reps realm cid optional (server (env w)))) ∧
     same (server (env w)) (server (env w')) ∧
     scope_store optional (server (env w')) = scope_store optional (server (env w))) ∧
    Forall (driver_act kc ns realm false) l) w.
Proof.
  intros [Hc Hx] Hr.
  assert (addresses (assignments_path realm cid (scope_kind optional)) realm
    ["clients"; cid; scope_kind optional] "") as Haddr.
  { destruct optional; apply addresses_path;
      [done|solve_segments|solve_path|done|solve_segments|solve_path]. }
  assert ((if optional then ClientOptionalScopeAssignments kc realm cid
      else ClientDefaultScopeAssignments kc realm cid) =
    Do (St := St) kc "GET" (assignments_path realm cid (scope_kind optional)) None out_maps) as ->
    by by destruct optional.
  apply (Do_read_addressed kc ns _ _ _ _ _ w (λ o s',
     o = Some (inr (assigned_reps realm cid optional (server (env w)))) ∧ same (server (env w)) s' ∧
     scope_store optional s' = scope_store optional (server (env w))) Hc Haddr).
  { destruct optional; solve_in_realm. }
  intros ord q n b _ (Hm & _). rewrite kind_cases by done. unfold client_scopes_handler. rewrite Hm.
  cbn [String.eqb Ascii.eqb Bool.eqb fst snd writeJSON respond].
  assert (scope_store optional (set_token n b (server (env w))) = scope_store optional (server (env w)))
    as Hst by by destruct optional.
  rewrite Hst. cbn [scopes set_token].
  rewrite read_ok_list; [by split_and!; [|apply only_token|]|].
  eapply listable_fits; [apply Hr|]. apply members_sub, Hr.
Qed.

Lemma wp_range_kept {V} (m : gmap string V)
    (Q : option (list (string * V)) → World St → list Action → Prop) (w : World St) :
  (∀ es w', es ≡ₚ map_to_list m → server (env w') = server (env w) → Q (Some es) w' []) →
  wp (range m) Q w.
Proof.
  intros HQ. apply wp_call_env; [apply _|]. apply HQ; [apply range_perm|].
  cbn [env set_env]. apply server_range.
Qed.

(** The calls for a difference: afterwards the desired scopes are assigned. *)
Lemma apply_scopes_served (names toAdd toRemove : list string) (w : World St) :
  enforcing (server (env w)) → scopes_ready realm cid optional names (server (env w)) →
  (∀ n, n ∈ toAdd ↔ n ∈ names ∧ n ∉ assigned_names realm cid optional (server (env w))) →
  (∀ n, n ∈ toRemove ↔ n ∈ assigned_names realm cid optional (server (env w)) ∧ n ∉ names) →
  wp (apply_scopes kc realm (scope_assign kc realm cid optional) toAdd toRemove) (λ o w' _,
    o = Some (inr true) ∧ same (server (env w)) (server (env w')) ∧
    scopes_ready realm cid optional names (server (env w')) ∧
    scopes_settled realm cid optional names (server (env w'))) w.
Proof.
  intros He Hr Ha Hd. unfold apply_scopes. apply wp_try.
  eapply wp_mono; [by apply (scopes_listed names)|].
  intros o w1 l1 (l & -> & Hl & Hs1 & Hst1). cbv zeta.
  pose proof (λ n i, listed_ids names l (server (env w)) n i Hr Hl) as Hids.
  set (ids := ids_by_name l ∅) in *.
  assert (ids_of (server (env w1)) = ids_of (server (env w))) as Eids
    by (unfold assigned; by rewrite Hst1).
  assert (∀ n i, ids !! n = Some i → is_Some (of_realm (scopes (server (env w))) realm !! i) ∧ segment i)
    as Hmem.
  { intros n i (y & Hy & _)%Hids. split; [by eexists|]. eapply ready_segment; [done|by eexists]. }
  apply wp_try. eapply wp_mono; [apply (assign_missing_served ids toAdd w1)|].
  { by eapply enforcing_same. }
  { rewrite Eids. apply Hr. }
  { intros n [Hn _]%Ha. destruct (ready_exists _ _ _ _ _ Hr n Hn) as (i & y & Hy & Hny).
    exists i. apply Hids. by exists y. }
  { by rewrite (only_scopes _ _ _ Hs1). }
  intros o w2 l2 (-> & Hs2 & Hnd2 & Hel2 & Hst2).
  apply wp_try. eapply wp_mono; [apply (remove_extra_served ids toRemove w2)|].
  { eapply enforcing_same; [|done]. by eapply enforcing_same. }
  { done. }
  { destruct toRemove as [|n toRemove]; [by left|]. right. apply Hst2. rewrite Hst1.
    destruct (proj1 (Hd n)) as [(i & Hi & _)%assigned_names_elem _]; [by left|].
    unfold assigned, of_realm in Hi. destruct (scope_store optional (server (env w)) !! realm); [by eexists|].
    by apply elem_of_nil in Hi. }
  { intros n i [_ ?]%Hmem. done. }
  intros o w3 l3 (-> & Hs3 & Hnd3 & Hel3). apply wp_ret. split; [done|].
  assert (same (server (env w)) (server (env w3))) as Hs by (etrans; [done|by etrans]).
  split; [done|]. split; [by eapply same_ready|].
  apply (difference_settles names toAdd toRemove ids (server (env w)));
    [done|by apply (only_scopes optional)|done..|].
  intros i. by rewrite Hel3, Hel2, Eids.
Qed.

(** [enforceScopeAssignments] against the server. *)
Lemma enforce_served (ns : string) (names : list string) (w : World St) :
  enforcing (server (env w)) → scopes_ready realm cid optional names (server (env w)) →
  wp (enforceScopeAssignments kc realm cid names optional) (λ o w' l, ∃ changed,
    o = Some (inr changed) ∧ same (server (env w)) (server (env w')) ∧
    scopes_ready realm cid optional names (server (env w')) ∧
    scopes_settled realm cid optional names (server (env w')) ∧
    (scopes_settled realm cid optional names (server (env w)) →
       changed = false ∧ ids_of (server (env w')) = ids_of (server (env w)) ∧
       Forall (driver_act kc ns realm false) l)) w.
Proof.
  intros He Hr. unfold enforceScopeAssignments. cbv zeta. apply wp_try.
  eapply wp_mono; [by apply (assignments_read ns names)|].
  intros o w1 l1 [(-> & Hs1 & Hst1) Hl1].
  assert (∀ s', same (server (env w)) s' → scope_store optional s' = scope_store optional (server (env w)) →
    ids_of s' = ids_of (server (env w)) ∧ scopes_ready realm cid optional names s' ∧
    ∀ n, n ∈ assigned_names realm cid optional s' ↔ n ∈ assigned_names realm cid optional (server (env w)))
    as Hsame.
  { intros s' Hs' Hst'. assert (ids_of s' = ids_of (server (env w))) as E
      by (unfold assigned; by rewrite Hst').
    split; [done|]. split; [eapply same_ready; [done|done|]; rewrite E; apply Hr|].
    intros n. unfold assigned_names, assigned_reps. by rewrite E, (only_scopes _ _ _ Hs'). }
  apply wp_bind, wp_range_kept. intros ds w2 Hds Es2. cbn [wp_then].
  apply wp_bind, wp_range_kept. intros cs w3 Hcs Es3. cbn [wp_then].
  destruct (missing_from_spec names (rep_names (assigned_reps realm cid optional (server (env w)))) ds Hds)
    as [_ Ha].
  destruct (missing_from_spec (rep_names (assigned_reps realm cid optional (server (env w)))) names cs Hcs)
    as [_ Hd].
  set (toAdd := missing_from _ ds) in *. set (toRemove := missing_from _ cs) in *.
  assert (server (env w3) = server (env w1)) as Es by congruence.
  destruct (Hsame (server (env w1)) Hs1 Hst1) as (E1 & Hr1 & Hn1).
  destruct (decide (toAdd = [] ∧ toRemove = [])) as [[Ea Er]|Hne].
  - rewrite Ea, Er in *. apply wp_ret. exists false. rewrite Es. split_and!; [done..| |].
    + intros n. rewrite Hn1. change (n ∈ assigned_names realm cid optional (server (env w)))
        with (n ∈ rep_names (assigned_reps realm cid optional (server (env w)))).
      specialize (Ha n). specialize (Hd n). rewrite elem_of_nil in Ha, Hd.
      destruct (decide (n ∈ names)), (decide (n ∈ rep_names (assigned_reps realm cid optional (server (env w)))));
        tauto.
    + intros _. by rewrite !app_nil_r.
  - assert (∀ X (a b : X), match toAdd, toRemove with [], [] => a | _, _ => b end = b) as Hmatch
      by (intros; destruct toAdd, toRemove; naive_solver).
    rewrite Hmatch. eapply wp_mono; [apply (apply_scopes_served names toAdd toRemove w3)|].
    + rewrite Es. by eapply enforcing_same.
    + by rewrite Es.
    + intros n. rewrite Es, Ha, Hn1. done.
    + intros n. rewrite Es, Hd, Hn1. done.
    + intros o w4 l4 (-> & Hs4 & Hr4 & Hset). exists true. rewrite Es in Hs4.
      split_and!; [done|by etrans|done..|]. intros Hsettled. destruct Hne.
      split; apply elem_of_nil_inv; intros n; [rewrite Ha|rewrite Hd]; specialize (Hsettled n);
        unfold assigned_names in Hsettled; tauto.
Qed.
End Enforce.

(** ** Clients *)

Section HostedClient.
Context {St : Type} `{FakeEnv St, !EnvLaws St, KubeLib}.
Variables (kc : Client) (obj : ManagedObject ClientTypes.ClientSpec).
Local Abbreviation realm := (TargetRealm (GetSpec obj)).
Local Abbreviation name := (ClientTypes.ClientID (GetSpec obj)).
Local Abbreviation oid := ("client-" +:+ name).

(** The scopes the spec lists; a list that is not set is not managed. *)
Definition listed_scopes (optional : bool) : option (list string) :=
  if optional then ClientTypes.OptionalClientScopes (GetSpec obj)
  else ClientTypes.DefaultClientScopes (GetSpec obj).
Definition lists_ready (optional : bool) (s : Server) : Prop :=
  ∀ names, listed_scopes optional = Some names → scopes_ready realm oid optional names s.
Definition lists_settled (optional : bool) (s : Server) : Prop :=
  ∀ names, listed_scopes optional = Some names → scopes_settled realm oid optional names s.

Definition client_holds (s : Server) (r : option rep) : Prop :=
  connected kc s ∧ is_Some (realms s !! realm) ∧
  one_of "clientId" name oid (of_realm (clients s) realm) r ∧
  lists_ready false s ∧ lists_ready true s.
Definition client_room (s : Server) (y : rep) : Prop := stored "clientId" name oid y.
Definition client_settled (s : Server) : Prop := lists_settled false s ∧ lists_settled true s.

(** No secret is read from or written to a Secret. *)
Definition simple_client : Prop :=
  ClientTypes.SecretRef (GetSpec obj) = None ∧ ClientTypes.SecretOutput (GetSpec obj) = None.

(** The lists depend on the scopes and their assignments only. *)
Lemma lists_same (optional : bool) (s s' : Server) :
  scopes s' = scopes s → scope_store optional s' = scope_store optional s →
  (lists_ready optional s → lists_ready optional s') ∧
  (lists_settled optional s → lists_settled optional s').
Proof.
  intros Esc Est. assert (assigned realm oid optional s' = assigned realm oid optional s) as E
    by (unfold assigned; by rewrite Est).
  split; intros Hl names Hn; specialize (Hl names Hn).
  - destruct Hl. by split; rewrite ?Esc, ?E.
  - intros n. rewrite <- (Hl n). unfold assigned_names, assigned_reps. by rewrite E, Esc.
Qed.

Hypothesis realm_plain : plain realm.
Hypothesis name_nonempty : name ≠ "".
Hypothesis name_slash : no_char "/" name = true.

Lemma client_segment : segment oid.
Proof. apply prefixed_segment; [simpl; lia|done..]. Qed.

(** A step that leaves the data of clients and scopes keeps what is held and settled. *)
Lemma client_kept (s s' : Server) (r : option rep) :
  creds s' = creds s → realms s' = realms s → scopes s' = scopes s →
  defScope s' = defScope s → optScope s' = optScope s →
  one_of "clientId" name oid (of_realm (clients s') realm) r →
  connected kc s → is_Some (realms s !! realm) → lists_ready false s → lists_ready true s →
  client_holds s' r ∧ (client_settled s → client_settled s').
Proof.
  intros Ec Er Esc Ed Eo Hone Hc Hx Hd1 Ho2. split; [split_and!|].
  - by apply (connected_creds kc s).
  - by rewrite Er.
  - done.
  - by eapply lists_same; [..|exact Hd1].
  - by eapply lists_same; [..|exact Ho2].
  - intros [S1 S2]. split; by eapply lists_same; [..|done].
Qed.

Lemma client_get (w : World St) (r : option rep) :
  client_holds (server (env w)) r →
  wp (ClientDriver_Get kc obj) (λ o w' _, client_holds (server (env w')) r ∧
    (client_settled (server (env w)) → client_settled (server (env w'))) ∧ found r o) w.
Proof.
  intros (Hc & Hx & Hone & Hd1 & Ho2). unfold ClientDriver_Get, FindClient. apply wp_try.
  eapply wp_mono; [apply (Do_addressed kc _ _ _ _ _ _ _ w (λ o s',
    (client_holds s' r ∧ (client_settled (server (env w)) → client_settled s')) ∧
    o = Some (inr (option_list r))) Hc (client_addresses _ name realm_plain))|].
  - intros ord q n b Hord (Hm & Hq & _). cbn [realm_sub]. unfold handleClients.
    rewrite bool_decide_eq_true_2 by done. unfold clients_collection. rewrite Hm, Hq.
    cbn [negb String.eqb Ascii.eqb Bool.eqb clients set_token]. rewrite client_search.
    destruct (one_of_listed ord Hord _ _ _ _ _ name_nonempty Hone) as [-> Hstore].
    rewrite (alter_same _ _ _ Hstore). cbn [fst snd writeJSON respond]. split.
    + by apply (client_kept (server (env w))).
    + rewrite read_ok_maps; [done|]. intros x ->. apply Hone.
  - intros o w' _ [[Hh Hset] ->]. rewrite (listed_find _ _ _ _ _ Hone).
    destruct r as [x|]; apply wp_ret; (split; [done|]); (split; [done|]); [done|].
    eexists. split; done.
Qed.

(** One list of [PostApply]. *)
Lemma enforce_list (optional : bool) (w : World St) :
  connected kc (server (env w)) → is_Some (realms (server (env w)) !! realm) →
  lists_ready optional (server (env w)) →
  wp (enforce_optional kc realm oid (listed_scopes optional) optional) (λ o w' l, ∃ changed,
    o = Some (inr changed) ∧ only_assigned optional (server (env w)) (server (env w')) ∧
    lists_ready optional (server (env w')) ∧ lists_settled optional (server (env w')) ∧
    (lists_settled optional (server (env w)) → changed = false ∧ Forall (obj_act kc obj false) l)) w.
Proof.
  intros Hc Hx Hr. unfold enforce_optional, lists_ready, lists_settled in *.
  destruct (listed_scopes optional) as [names|].
  - eapply wp_mono; [by apply (enforce_served kc realm oid optional realm_plain client_segment
      (GetNamespace (Meta obj)) names w (conj Hc Hx) (Hr names eq_refl))|].
    intros o w' l (changed & -> & Hs & Hr' & Hset & Hq). exists changed. split_and!; [done..| | |].
    + by intros ? [= <-].
    + by intros ? [= <-].
    + intros Hall. by destruct (Hq (Hall names eq_refl)) as (-> & _ & Hl).
  - apply wp_ret. exists false. by split_and!.
Qed.

Lemma client_post (w : World St) (y : rep) :
  client_holds (server (env w)) (Some y) →
  wp (ClientDriver_scopes kc obj oid false) (λ o w' l, ∃ changed, o = Some (changed, None) ∧
    client_holds (server (env w')) (Some y) ∧ client_settled (server (env w')) ∧
    (client_settled (server (env w)) → changed = false ∧ Forall (obj_act kc obj false) l)) w.
Proof.
  intros (Hc & Hx & Hone & Hd & Ho). unfold ClientDriver_scopes. cbv zeta.
  unfold try_flag at 1. apply wp_bind. eapply wp_mono; [by apply (enforce_list false)|].
  intros o w1 l1 (c1 & -> & [Ec Er Ecl Esc Est] & Hr1 & Hset1 & Hq1). cbn [wp_then].
  destruct (lists_same true (server (env w)) (server (env w1)) Esc Est) as [Hk1 Hk1'].
  unfold try_flag at 1. apply wp_bind. eapply wp_mono; [apply (enforce_list true)|].
  { by apply (connected_creds kc (server (env w))). }
  { by rewrite Er. }
  { by apply Hk1. }
  intros o w2 l2 (c2 & -> & [Ec2 Er2 Ecl2 Esc2 Est2] & Hr2 & Hset2 & Hq2). cbn [wp_then].
  destruct (lists_same false (server (env w1)) (server (env w2)) Esc2 Est2) as [Hk2 Hk2'].
  apply wp_ret. exists (c1 || c2). split; [done|]. split_and!.
  - split_and!; [|by rewrite Er2, Er|by rewrite Ecl2, Ecl|by apply Hk2|done].
    apply (connected_creds kc (server (env w))); [congruence|done].
  - split; [by apply Hk2'|done].
  - intros [Hs1 Hs2]. destruct (Hq1 Hs1) as [-> Hl1]. destruct (Hq2 (Hk1' Hs2)) as [-> Hl2].
    split; [done|]. rewrite app_nil_r, Forall_app. done.
Qed.

Lemma client_item_addresses : addresses (client_path realm oid) realm ["clients"; oid] "".
Proof. pose proof client_segment. apply addresses_path; [done|solve_segments|solve_path]. Qed.

Lemma client_create (w : World St) (p : rep) :
  client_holds (server (env w)) None → client_room (server (env w)) (with_id oid p) →
  p !! "id" = None →
  wp (drv_Create ClientDriver kc obj p) (λ o w' _,
    o = Some (inr ()) ∧ client_holds (server (env w')) (Some (with_id oid p))) w.
Proof.
  intros (Hc & Hx & Hone & Hd1 & Ho2) Hroom Hid. cbn [drv_Create ClientDriver].
  assert (addresses (clients_path realm) realm ["clients"] "") as Hcoll
    by (apply addresses_path; [done|solve_segments|solve_path]).
  assert (p !! "clientId" = Some (JStr name)) as Hname
    by (eapply stored_name; [|exact Hroom]; done).
  apply (Do_addressed kc _ _ _ _ _ _ _ w (λ o s', o = Some (inr ()) ∧ client_holds s' _) Hc Hcoll).
  intros ord q n b Hord (Hm & _ & Hb). cbn [realm_sub]. unfold handleClients.
  rewrite bool_decide_eq_true_2 by done. unfold clients_collection, with_map. rewrite Hm, Hb.
  cbn [negb String.eqb Ascii.eqb Bool.eqb clients set_token body_text]. rewrite decode_sent.
  cbv beta iota zeta. rewrite (gm_string_of p _ name Hname).
  rewrite (proj2 (String.eqb_neq _ _) name_nonempty), (one_of_absent ord Hord _ _ _ _ Hone).
  cbn [with_nonnil fst snd WriteHeader respond]. split; [done|].
  eapply (client_kept (server (env w))); [done..| |done|done|done|done].
  cbn [clients set_clients]. rewrite of_realm_put. by eapply one_of_put.
Qed.

Lemma client_update (w : World St) (x p : rep) :
  client_holds (server (env w)) (Some x) → client_room (server (env w)) (merge x p) →
  wp (drv_Update ClientDriver kc obj (drv_ID (ClientDriver (St := St)) x) p) (λ o w' _,
    o = Some (inr ()) ∧ client_holds (server (env w')) (Some (merge x p))) w.
Proof.
  intros (Hc & Hx & Hone & Hd1 & Ho2) Hroom. cbn [drv_Update drv_ID ClientDriver].
  unfold ClientDriver_ID. rewrite (one_of_id _ _ _ _ _ Hone).
  apply (Do_addressed kc _ _ _ _ _ _ _ w (λ o s', o = Some (inr ()) ∧ client_holds s' _) Hc
    client_item_addresses).
  intros ord q n b Hord (Hm & _ & Hb). cbn [realm_sub]. unfold handleClients.
  rewrite bool_decide_eq_true_2 by done.
  cbn [negb len_is len_min length Nat.eqb Nat.leb andb]. unfold client_item, with_map.
  cbn [clients set_token]. pose proof Hone as (_ & Hm' & _). rewrite Hm', Hm, Hb.
  cbn [String.eqb Ascii.eqb Bool.eqb body_text]. rewrite decode_sent.
  cbn [fst snd WriteHeader respond default from_option id]. split; [done|].
  eapply (client_kept (server (env w))); [done..| |done|done|done|done].
  cbn [clients set_clients]. rewrite of_realm_put. by apply (one_of_put _ _ _ _ (Some x)).
Qed.

Lemma client_delete (w : World St) (r : option rep) :
  client_holds (server (env w)) r →
  wp (drv_Delete ClientDriver kc obj) (λ o w' _,
    client_holds (server (env w')) None ∧ gone r o) w.
Proof.
  intros Hh. cbn [drv_Delete ClientDriver]. unfold ClientDriver_Delete. cbv zeta. apply wp_try.
  eapply wp_mono; [by apply client_get|]. intros o w1 l1 (Hh1 & _ & Hfound).
  destruct r as [x|]; [|destruct Hfound as (err & -> & He); split; [done|]; unfold gone; eauto].
  rewrite Hfound. destruct Hh1 as (Hc & Hx & Hone & Hd1 & Ho2).
  pose proof Hone as (_ & Hm' & _ & Hid & _).
  eapply wp_bind_run; [unfold must_string, field_string; by rewrite Hid|].
  apply (Do_addressed kc _ _ _ _ _ _ _ w1 (λ o s', client_holds s' None ∧ gone (Some x) o) Hc
    client_item_addresses).
  intros ord q n b _ (Hm & _). cbn [realm_sub]. unfold handleClients.
  rewrite bool_decide_eq_true_2 by done.
  cbn [negb len_is len_min length Nat.eqb Nat.leb andb]. unfold client_item.
  cbn [clients set_token]. rewrite Hm', Hm.
  cbn [String.eqb Ascii.eqb Bool.eqb fst snd WriteHeader respond]. split; [|by exists (inr ())].
  eapply (client_kept (server (env w1))); [done..| |done|done|done|done].
  cbn [clients set_clients]. rewrite of_realm_remove. by eapply one_of_delete.
Qed.

Lemma client_hosted :
  simple_client → Hosted (ClientDriver (St := St)) kc obj oid client_holds client_room client_settled.
Proof.
  intros (Href & Hout). split.
  - intros w r Hh. eapply wp_mono; [by apply client_get|]. by intros o w' _ (? & ? & ?).
  - intros w p. apply client_create.
  - intros w x p. apply client_update.
  - intros w x y Hh E. cbn [drv_PostApply drv_ID ClientDriver] in *.
    unfold ClientDriver_ID, ClientDriver_PostApply in *. cbv zeta. pose proof Hh as (_ & _ & Hone & _).
    rewrite E, (one_of_id _ _ _ _ _ Hone), Hout.
    change (String.eqb oid "") with false. cbv iota. unfold same_obj. apply wp_bind.
    eapply wp_mono; [by apply (client_post w y)|]. intros o w' l (changed & -> & Hh' & Hset & Hq).
    cbn [wp_then]. apply wp_ret. exists changed. by rewrite app_nil_r.
  - intros w r. apply client_delete.
  - intros w p. cbn [drv_PreparePayload ClientDriver]. unfold ClientDriver_PreparePayload.
    by rewrite Href.
  - intros p. apply stamped_id.
  - intros p. by apply stamped_null.
  - intros x y E. cbn [drv_ID ClientDriver]. unfold ClientDriver_ID, field_or_empty, field_string.
    by rewrite E.
Qed.
End HostedClient.
