(* ===== verification/FakeTheorems.v ===== *)
(** * The operator and the fake server

    What holds of operator and server together: calls are answered by the handlers they
    are meant for, the server hosts the kinds, a reconciliation brings the server to the
    spec and the next ones leave it there, and other realms are left alone. *)

From Stdlib Require Import Ascii ZArith Lia.
From stdpp Require Import base gmap strings list.
From S2P Require Import Prelude Json JsonText GoError LastApplied ApiTypes World Sim Logic Url.
From S2P Require Import HttpClient AdminApi FakeServer FakeLaws FakeClient FakeSim Provider.
From S2P Require Import DriverHelpers Drivers DriverLaws Engine EngineLaws Convergence Hosting HostingScopes.
From S2P Require Import HostingClients.

Local Open Scope string_scope.
Local Open Scope list_scope.

(** ** Samples *)

(** A realm object. *)
Definition fs_realm_object (annotations : gmap string string) : ManagedObject RealmTypes.RealmSpec :=
  sim_object "Realm" "acme" None [FinalizerName] annotations (sim_realm "acme" None None).
Definition fs_client : Client := mkClient fs_config 0.

(** ** Calls *)

Lemma decode_list_sent (l : list rep) : decode_maps (marshal (reps_json l)) = Some (Some <$> l).
Proof.
  unfold decode_maps. rewrite <- (append_nil_r (marshal (reps_json l))), decode_first_marshal by done.
  unfold reps_json.
  induction l as [|x l IH]; [done|]. cbn [fmap list_fmap mapM as_gomap].
  cbn [mbind option_bind]. by rewrite IH.
Qed.

(** The paths of the Admin API below a realm, and the segments each is to be read as. *)
Definition routes (realm a b kind : string) : list (string * list string) :=
  [(realmPath realm, []);
   (clients_path realm, ["clients"]);
   (client_path realm a, ["clients"; a]);
   (client_secret_path realm a, ["clients"; a; "client-secret"]);
   (assignments_path realm a kind, ["clients"; a; kind]);
   (assignment_path realm a kind b, ["clients"; a; kind; b]);
   (client_role_path realm a b, ["clients"; a; "roles"; b]);
   (scopes_path realm, ["client-scopes"]);
   (scope_path realm a, ["client-scopes"; a]);
   (roles_path realm, ["roles"]);
   (role_path realm a, ["roles"; a]);
   (composites_path realm a, ["roles"; a; "composites"]);
   (idps_path realm, ["identity-provider"; "instances"]);
   (idp_path realm a, ["identity-provider"; "instances"; a]);
   (mappers_path realm a, ["identity-provider"; "instances"; a; "mappers"]);
   (mapper_path realm a b, ["identity-provider"; "instances"; a; "mappers"; b]);
   (groups_path realm, ["groups"]);
   (group_path realm a, ["groups"; a]);
   (role_mappings_path realm a, ["groups"; a; "role-mappings"]);
   (realm_mappings_path realm a, ["groups"; a; "role-mappings"; "realm"]);
   (client_mappings_path realm a b, ["groups"; a; "role-mappings"; "clients"; b])].

(** C21.  Requests are read as they were written.  For a plain realm and names that are one
    path segment, every path the client builds reaches the handlers of that realm with
    exactly its segments, decoded, whatever the method, body and state; the two searches
    arrive with the value searched for; a representation, a list of representations and
    the token form are decoded to what was encoded. *)
Theorem requests_read_back (realm a b kind : string) (p : rep) (l : list rep) (cfg : Config) :
  plain realm → segment a → segment b → kind ∈ ["default-client-scopes"; "optional-client-scopes"] →
  Forall (λ route, addresses route.1 realm route.2 "") (routes realm a b kind) ∧
  (∃ query, addresses (client_query_path realm a) realm ["clients"] query ∧
     Values_Get (ParseQuery query) "clientId" = a) ∧
  (∃ query, addresses (group_query_path realm a) realm ["groups"] query ∧
     Values_Get (ParseQuery query) "search" = a) ∧
  decode_map (marshal (JObj p)) = Some (Some p) ∧
  decode_maps (marshal (reps_json l)) = Some (Some <$> l) ∧
  ∀ k, Values_Get (ParseQuery (rq_body (token_request cfg))) k = default "" (token_form cfg !! k).
Proof.
  intros Hr Ha Hb Hk. split_and!.
  - rewrite !elem_of_cons, elem_of_nil in Hk. destruct Hk as [-> |[-> |[]]].
    all: repeat (apply Forall_cons_2;
      [cbn [fst snd]; apply addresses_path; [done|solve_segments|solve_path]|]); apply Forall_nil_2.
  - eexists. split; [by apply client_addresses|apply client_search].
  - eexists. split; [by apply group_addresses|apply group_search].
  - apply decode_sent.
  - apply decode_list_sent.
  - intros k. apply form_roundtrip.
Qed.

Lemma requests_read_back_witness :
  Forall (λ route, addresses route.1 "acme" route.2 "")
    (routes "acme" "my app?" "50% off" "default-client-scopes") ∧
  ∃ query, addresses (client_query_path "acme" "my app?") "acme" ["clients"] query ∧
    Values_Get (ParseQuery query) "clientId" = "my app?".
Proof.
  destruct (requests_read_back "acme" "my app?" "50% off" "default-client-scopes" ∅ [] fs_config)
    as (H1 & H2 & _); [decide_name|decide_name|decide_name|left|]. exact (conj H1 H2).
Defined.

(** C22.  Calls are answered by their handlers.  A client with granted credentials that
    calls a path of a realm gets the answer of that realm's handler, which ran once, on the
    server's data as they were, even when the token was revoked: the refusal costs a retry
    and is not seen by the caller.  The answer is never an authentication error. *)
Theorem calls_delivered {St} `{FakeEnv St} {A} (c : Client) (method path query realm : string)
    (sub : list string) (body : option json) (out : Out A) (w : World St) :
  connected c (server (env w)) → addresses path realm sub query →
  ∃ o w' ord r n b, Do c method path body out w = (Some o, w') ∧
    (∀ X (l : list X), ord X l ≡ₚ l) ∧ request_of method query body r ∧
    let '(resp, s') := realm_sub ord r realm sub (set_token n b (server (env w))) in
    server (env w') = s' ∧
    match resp with
    | Some resp => o = answer method path out (inr resp)
    | None => ∃ err, o = answer method path out (inl err)
    end ∧
    ∀ e, o = inl e → errors_Is e SAuth = false.
Proof.
  intros Hc Ha. destruct (addressed_handled c method path query realm body sub Ha) as [decoded Hf].
  destruct (Do_served c method path body out _ w Hc Hf) as (_ & _ & _ & Hd).
  pose proof Hd as (ord & t & n & b & Hp & Hs & Ho). unfold addressed in Hs, Ho.
  set (req := mkRequest _ _ _ _ _ _) in Hs, Ho.
  assert (∃ o, (Do c method path body out w).1 = Some o) as [o E].
  { destruct (realm_sub ord req realm sub _).1; [by eexists|]. destruct Ho as [err ->]. by eexists. }
  exists o, (Do c method path body out w).2, ord, req, n, b. split; [by apply run_eq|].
  split; [done|]. split; [done|]. rewrite E in *.
  destruct (realm_sub ord req realm sub _) as [resp s']. cbn [fst snd] in *.
  split; [done|]. split; [destruct resp; [by simplify_eq|destruct Ho as [err Ho]; exists err; by simplify_eq]|].
  intros e ->. by eapply (delivered_auth c method path body out _ _ _ e Hf).
Qed.

Lemma calls_delivered_witness :
  let w := fs_world (RevokeTokens fs_start) in
  ∃ o w', Do fs_client "GET" (realmPath "other") None out_map w = (Some o, w') ∧
    ∀ e, o = inl e → errors_Is e SAuth = false.
Proof.
  intros w.
  destruct (calls_delivered fs_client "GET" (realmPath "other") "" "other" [] None out_map w)
    as (o & w' & ord & r & n & b & Hrun & _ & _ & Hrest); [by apply fs_connected|..].
  - apply addresses_path; [decide_name|constructor|solve_path].
  - exists o, w'. split; [exact Hrun|]. destruct (realm_sub _ _ _ _ _). apply Hrest.
Defined.

(** ** Hosting *)

(** C20.  The fake server hosts the kinds.  For realms, clients, realm roles, groups and
    client scopes whose names are path segments and whose specs need no Secret, composite or
    role mapping, the driver's methods, run through the client, the router and the handlers,
    do to the server's store what the interface [Hosted] promises: lookups find exactly what
    is stored, a create stores the payload with its id, an update merges, a delete removes.
    [PostApply] only reads, but for clients it leaves exactly the default and optional scopes
    of the spec assigned, whatever was assigned before, and only reads when they are. *)
Theorem fake_hosts {St} `{FakeEnv St, !EnvLaws St, KubeLib} (kc : Client) :
  (∀ obj : ManagedObject RealmTypes.RealmSpec, let realm := TargetRealm (GetSpec obj) in
     plain realm → RealmTypes.SMTPServerSecretRef (GetSpec obj) = None →
     Hosted (RealmDriver (St := St)) kc obj realm (realm_holds kc obj) (realm_room obj) no_rest) ∧
  (∀ obj : ManagedObject ClientTypes.ClientSpec, let name := ClientTypes.ClientID (GetSpec obj) in
     plain (TargetRealm (GetSpec obj)) → name ≠ "" → no_char "/" name = true → simple_client obj →
     Hosted (ClientDriver (St := St)) kc obj ("client-" +:+ name)
       (client_holds kc obj) (client_room obj) (client_settled obj)) ∧
  (∀ obj : ManagedObject RealmRoleTypes.RealmRoleSpec, let name := RealmRoleTypes.Name (GetSpec obj) in
     plain (TargetRealm (GetSpec obj)) → segment name → simple_role obj →
     Hosted (RealmRoleDriver (St := St)) kc obj ("role-" +:+ name)
       (role_holds kc obj) (role_room obj) no_rest) ∧
  (∀ obj : ManagedObject GroupTypes.GroupSpec, let name := GroupTypes.Name (GetSpec obj) in
     plain (TargetRealm (GetSpec obj)) → name ≠ "" → no_char "/" name = true → simple_group obj →
     Hosted (GroupDriver (St := St)) kc obj ("group-" +:+ name)
       (group_holds kc obj) (group_room obj) no_rest) ∧
  (∀ obj : ManagedObject ClientScopeTypes.ClientScopeSpec,
     let name := ClientScopeTypes.Name (GetSpec obj) in
     plain (TargetRealm (GetSpec obj)) → no_char "/" name = true →
     Hosted (ClientScopeDriver (St := St)) kc obj ("scope-" +:+ name)
       (scope_holds kc obj) (scope_room obj) no_rest).
Proof.
  split; [intros; by apply realm_hosted|]. split; [intros; by apply client_hosted|].
  split; [intros; by apply role_hosted|]. split; [intros; by apply group_hosted|].
  intros; by apply scope_hosted.
Qed.

Lemma fake_hosts_witness :
  let obj := sim_object "Group" "ops" None [FinalizerName] ∅ (sim_group "ops" None None None) in
  Hosted (GroupDriver (St := FakeSim)) fs_client obj "group-ops"
    (group_holds fs_client obj) (group_room obj) no_rest.
Proof.
  intros obj. apply (fake_hosts (St := FakeSim) fs_client); [decide_name|discriminate|reflexivity|by split].
Defined.

(** ** Reconciliations *)

(** C3.  A reconciliation brings the server to the spec, and the next ones leave it
    there.  Take a live object with its finalizer whose resource the policies allow to be
    written, on a server that hosts it and has room for it, absent or with any contents.
    One [Reconcile] returns with the server holding a representation that the drift test
    finds in spec and everything [PostApply] enforces settled, and reports Ready (or returns
    the error of recording the spec).  Every later [Reconcile] of the object with the spec
    recorded, from any world in which the server still is as it was left, sends only reads,
    leaves the server's representation as it is and ends the same way. *)
Theorem reconcile_converges {St} `{FakeEnv St, KubeLib, !KubeLibLaws} {S} `{Spec S, !SpecLaws S}
    (drv : Driver St S) `{!DriverLaws drv} (e : Engine) (kc : Client) (obj : ManagedObject S)
    (oid : string) (holds : Server → option rep → Prop) (room : Server → rep → Prop)
    (settled : Server → Prop) `{!Hosted drv kc obj oid holds room settled}
    (payload : rep) (r : option rep) (w w1 : World St) :
  deleting obj = false → ContainsFinalizer (GetFinalizers (Meta obj)) FinalizerName = true →
  (drv_Protected drv obj).1 = false → connects obj w kc w1 →
  EffectivePayload (spec_map drv obj) (annotation obj LastAppliedAnnotation) = inr payload →
  payload !! "id" = None → holds (server (env w)) r →
  Adoption (GetSpec obj) ≠ AdoptionFailIfExists → writable drv obj r →
  has_room drv obj oid room (server (env w)) payload r →
  ∃ obj' res w' l y, Reconcile e obj drv w = (Some (obj', res), w') ∧
    trace w' = trace w ++ l ∧ finished e l res ∧
    holds (server (env w')) (Some y) ∧ settled (server (env w')) ∧ in_spec drv obj y ∧
    ∀ (kc2 : Client) (obj2 : ManagedObject S) (w2 w3 : World St),
      Hosted drv kc2 obj2 oid holds room settled → GetSpec obj2 = GetSpec obj →
      deleting obj2 = false → ContainsFinalizer (GetFinalizers (Meta obj2)) FinalizerName = true →
      (drv_Protected drv obj2).1 = false → connects obj2 w2 kc2 w3 →
      annotation obj2 LastAppliedAnnotation = marshal (JObj (spec_map drv obj)) →
      holds (server (env w2)) (Some y) → settled (server (env w2)) →
      ∃ obj2' res2 w2' l2, Reconcile e obj2 drv w2 = (Some (obj2', res2), w2') ∧
        trace w2' = trace w2 ++ l2 ∧ finished e l2 res2 ∧
        holds (server (env w2')) (Some y) ∧ settled (server (env w2')) ∧ Forall quiet l2.
Proof.
  intros Hdel Hfin Hprot Hconn Hp Hid Hr Hnf Hw Hroom.
  destruct (reconcile_pass drv e kc obj oid holds room settled payload r w w1 Hdel Hfin Hprot Hconn Hp
    Hr Hid Hw Hroom) as (l & Hl & _ & obj' & res & Ho & Hf & y & Hy & Hset & Hin & _).
  exists obj', res, (Reconcile e obj drv w).2, l, y. split; [by apply run_eq|].
  split_and!; [done..|]. intros kc2 obj2 w2 w3 Hh2 Hspec Hdel2 Hfin2 Hprot2 Hconn2 Hann Hy2 Hset2.
  assert (spec_map drv obj2 = spec_map drv obj) as Esp by (unfold spec_map; by rewrite Hspec).
  assert (PayloadDiffers y (drv_ManagedMarker drv (spec_map drv obj)) = false) as Hnd by done.
  assert (managed drv obj2 y) as Hm.
  { split; [by rewrite Hspec|]. right. rewrite Hann. apply marshal_nonempty. }
  destruct (reconcile_pass drv e kc2 obj2 oid holds room settled (spec_map drv obj) (Some y) w2 w3)
    as (l2 & Hl2 & _ & obj2' & res2 & Ho2 & Hf2 & y2 & Hy2' & Hset2' & _ & Hq); try done.
  { rewrite Hann, Esp. apply EffectivePayload_recorded. }
  { rewrite <- Esp. apply spec_map_no_id. }
  { split; [by rewrite Hspec|by left]. }
  { intros Hd. rewrite Hnd in Hd. by discriminate Hd. }
  destruct (Hq y eq_refl Hm) as [-> Hq2]; [done|].
  exists obj2', res2, (Reconcile e obj2 drv w2).2, l2. split; [by apply run_eq|].
  split_and!; [done..|]. eapply Forall_impl; [exact (Hq2 Hset2)|].
  intros a Ha. by eapply engine_act_quiet.
Qed.

(** A client with one default scope and no optional ones, on a server that has another scope
    assigned to it. *)
Definition fs_scope (name : string) : rep := {["id" := JStr ("scope-" +:+ name); "name" := JStr name]}.
Definition fs_scoped : Server :=
  set_scope_store false {["acme" := {["client-app" := ["scope-email"]]}]}
    (set_scopes {["acme" := {["scope-email" := fs_scope "email"; "scope-profile" := fs_scope "profile"]}]}
      (set_realms {["acme" := {["realm" := JStr "acme"]}]} (fake_New "admin" "s3cret"))).
Definition fs_app (annotations : gmap string string) : ManagedObject ClientTypes.ClientSpec :=
  sim_object "Client" "app" None [FinalizerName] annotations
    (ClientTypes.mkClientSpec sim_ref "acme" "app" None None None None None None None None None None
      None None None None None None None None None None None None None None None [] [] None None []
      (Some ["profile"]) (Some []) ∅ ∅).
Definition fs_app_recorded : gmap string string :=
  {[LastAppliedAnnotation := marshal (JObj (spec_map (ClientDriver (St := FakeSim)) (fs_app ∅)))]}.

Lemma fs_scoped_cases (id : string) (y : rep) :
  of_realm (scopes fs_scoped) "acme" !! id = Some y →
  (id = "scope-email" ∧ y = fs_scope "email") ∨ (id = "scope-profile" ∧ y = fs_scope "profile").
Proof.
  change (of_realm (scopes fs_scoped) "acme") with
    ({["scope-email" := fs_scope "email"; "scope-profile" := fs_scope "profile"]} : gmap string rep).
  rewrite !lookup_insert_Some, lookup_singleton_Some. naive_solver.
Qed.

Lemma fs_scoped_ready (optional : bool) (names : list string) :
  names ⊆ ["profile"; "email"] → scopes_ready "acme" "client-app" optional names fs_scoped.
Proof.
  intros Hn. split.
  - split; [|vm_compute; reflexivity]. intros id y [[-> ->]|[-> ->]]%fs_scoped_cases; reflexivity.
  - intros id id' y y' n [[-> ->]|[-> ->]]%fs_scoped_cases [[-> ->]|[-> ->]]%fs_scoped_cases;
      vm_compute; congruence.
  - intros id [y [[-> _]|[-> _]]%fs_scoped_cases]; decide_name.
  - intros n Hin%Hn. rewrite !elem_of_cons, elem_of_nil in Hin. destruct Hin as [->|[->|[]]].
    + by exists "scope-profile", (fs_scope "profile").
    + by exists "scope-email", (fs_scope "email").
  - destruct optional; vm_compute; repeat constructor; set_solver.
Qed.

Lemma reconcile_converges_witness :
  let e := NewEngine true 0 in
  let obj := fs_app ∅ in
  let w := fs_world fs_scoped in
  let w2 := (Reconcile e obj ClientDriver w).2 in
  let drv := ClientDriver (St := FakeSim) in
  ∃ y obj2 res2 w2' l2, client_holds fs_client obj (server (env w2)) (Some y) ∧
    client_settled obj (server (env w2)) ∧ in_spec drv obj y ∧
    Reconcile e (fs_app fs_app_recorded) ClientDriver w2 = (Some (obj2, res2), w2') ∧
    trace w2' = trace w2 ++ l2 ∧ finished e l2 res2 ∧
    client_holds fs_client obj (server (env w2')) (Some y) ∧ client_settled obj (server (env w2')) ∧
    Forall quiet l2.
Proof.
  intros e obj w w2 drv.
  assert (∀ a, Hosted drv fs_client (fs_app a) "client-app" (client_holds fs_client obj)
    (client_room obj) (client_settled obj)) as Hh.
  { intros a. apply (client_hosted fs_client (fs_app a)); [decide_name|discriminate|reflexivity|by split]. }
  pose proof (Hh ∅).
  edestruct (reconcile_converges drv e fs_client obj "client-app" (client_holds fs_client obj)
    (client_room obj) (client_settled obj) (spec_map drv obj) None w)
    as (obj' & res & w' & l & y & Hrun & _ & _ & Hy & Hset & Hin & Hnext).
  - reflexivity.
  - reflexivity.
  - reflexivity.
  - apply run_eq. vm_compute. reflexivity.
  - reflexivity.
  - reflexivity.
  - split; [by apply fs_connected|]. split; [by eexists|]. split; [by split|].
    split; intros names [= <-]; apply fs_scoped_ready; set_solver.
  - discriminate.
  - exact I.
  - split_and!; vm_compute; reflexivity.
  - assert (w' = w2) as -> by exact (f_equal snd (eq_sym Hrun)).
    destruct (Hnext fs_client (fs_app fs_app_recorded) w2 (For "team" "kc" (started w2)).2)
      as (obj2 & res2 & w2' & l2 & Hs).
    + apply Hh.
    + reflexivity.
    + reflexivity.
    + reflexivity.
    + reflexivity.
    + apply run_eq. vm_compute. reflexivity.
    + reflexivity.
    + exact Hy.
    + exact Hset.
    + exists y, obj2, res2, w2', l2. exact (conj Hy (conj Hset (conj Hin Hs))).
Defined.

(** C4.  Deletion is carried out.  Take an object that is being deleted under the Delete
    policy, on a server that hosts it, whether or not the resource is still there.  One
    [Reconcile] returns, the server no longer holds the resource, and an update of the object
    was sent in which the operator's finalizer is removed and every other one kept; a second
    [Reconcile] finds nothing to delete and ends the same way. *)
Theorem deletion_completes {St} `{FakeEnv St, KubeLib, !KubeLibLaws} {S} `{Spec S, !SpecLaws S}
    (drv : Driver St S) `{!DriverLaws drv} (e : Engine) (kc : Client) (obj : ManagedObject S)
    (oid : string) (holds : Server → option rep → Prop) (room : Server → rep → Prop)
    (settled : Server → Prop) `{!Hosted drv kc obj oid holds room settled}
    (r : option rep) (w w1 : World St) :
  deleting obj = true → Deletion (GetSpec obj) = DeletionDelete → connects obj w kc w1 →
  holds (server (env w)) r →
  ∃ obj' res w' l, Reconcile e obj drv w = (Some (obj', res), w') ∧ trace w' = trace w ++ l ∧
    holds (server (env w')) None ∧ unbound obj l ∧
    ∀ w2, connects obj w' kc w2 → ∃ obj2 res2 w3 l2,
      Reconcile e obj drv w' = (Some (obj2, res2), w3) ∧ trace w3 = trace w' ++ l2 ∧
      holds (server (env w3)) None ∧ unbound obj l2.
Proof.
  intros Hdel Hpol Hconn Hr.
  assert (∀ r w w1, connects obj w kc w1 → holds (server (env w)) r →
    ∃ obj' res w' l, Reconcile e obj drv w = (Some (obj', res), w') ∧ trace w' = trace w ++ l ∧
      holds (server (env w')) None ∧ unbound obj l) as Hone.
  { clear w w1 r Hconn Hr. intros r w w1 Hconn Hr.
    destruct (deletion_pass drv e kc obj oid holds room settled r w w1 Hdel Hpol Hconn Hr)
      as (l & Hl & _ & [[obj' res] Ho] & Hn & Hu).
    exists obj', res, (Reconcile e obj drv w).2, l. split; [by apply run_eq|]. done. }
  destruct (Hone r w w1 Hconn Hr) as (obj' & res & w' & l & Hrun & Hl & Hn & Hu).
  exists obj', res, w', l. split_and!; [done..|]. intros w2 Hconn2. by apply (Hone None w' w2).
Qed.

Lemma deletion_completes_witness :
  let e := NewEngine true 0 in
  let obj := sim_object "Realm" "other" (Some 5%Z) [FinalizerName; "keep"] ∅
    (sim_realm "other" None (Some "Delete")) in
  let w := fs_world fs_start in
  ∃ obj' res w' l, Reconcile e obj RealmDriver w = (Some (obj', res), w') ∧ trace w' = trace w ++ l ∧
    realm_holds fs_client obj (server (env w')) None ∧ unbound obj l.
Proof.
  intros e obj w.
  assert (Hosted (RealmDriver (St := FakeSim)) fs_client obj "other" (realm_holds fs_client obj)
    (realm_room obj) no_rest) as Hh by (apply (realm_hosted fs_client obj); [decide_name|reflexivity]).
  edestruct (deletion_completes RealmDriver e fs_client obj "other" (realm_holds fs_client obj)
    (realm_room obj) no_rest (Some {["id" := JStr "other"; "realm" := JStr "other"]}) w)
    as (obj' & res & w' & l & Hrun & Hl & Hn & Hu & _).
  - reflexivity.
  - reflexivity.
  - apply run_eq. vm_compute. reflexivity.
  - split; [by apply fs_connected|]. split; [reflexivity|]. intros x [= <-]. vm_compute. reflexivity.
  - exists obj', res, w', l. by split_and!.
Defined.

(** C23.  A reconciliation leaves the other realms alone.  Whatever the server holds and
    whatever Kubernetes answers, one [Reconcile] of an object whose target realm is one
    plain path segment, deletion included, leaves every other existing realm of the fake
    server with everything in it exactly as it was. *)
Theorem reconcile_keeps_other_realms {St} `{FakeEnv St, KubeLib} {S} `{Spec S}
    (drv : Driver St S) `{!DriverLaws drv} (e : Engine) (obj : ManagedObject S) (w : World St)
    (other : string) :
  plain (TargetRealm (GetSpec obj)) → other ≠ TargetRealm (GetSpec obj) →
  is_Some (realms (server (env w)) !! other) →
  realm_view (server (env (Reconcile e obj drv w).2)) other = realm_view (server (env w)) other.
Proof.
  intros Hr Hne Hx. destruct (reconcile_isolated_wp e drv obj w) as (l & _ & Hrun & _ & kc & Hl).
  refine (env_run_preserves (λ t, realm_view (server t) other = realm_view (server (env w)) other)
    (engine_act drv kc obj true) _ _ l _ Hrun Hl eq_refl).
  intros a t t' Hs Ha HI. rewrite <- HI. eapply step_keeps_realm; try done.
  assert (realms (server t) !! other = realms (server (env w)) !! other) as ->; [|done].
  unfold realm_view in HI. congruence.
Qed.

Lemma reconcile_keeps_other_realms_witness :
  let obj := fs_realm_object ∅ in
  let w := fs_world fs_start in
  realm_view (server (env (Reconcile (NewEngine true 0) obj RealmDriver w).2)) "other" =
  realm_view (server (env w)) "other".
Proof.
  intros obj w. apply (reconcile_keeps_other_realms RealmDriver (NewEngine true 0) obj w "other");
    [decide_name|discriminate|by eexists].
Defined.
