(* ===== verification/Controllers.v ===== *)
(** * The controllers (internal/controller/*_controller.go)

    [KeycloakConnectionReconciler] probes a connection and reports its state; the six other
    reconcilers fetch their object and run the engine with their driver.  [KubeStore] is the
    typed read of a managed object. *)

From Stdlib Require Import ZArith Lia.
From stdpp Require Import base gmap strings list.
From S2P Require Import Prelude Json JsonText GoError LastApplied ApiTypes World Sim Logic Url.
From S2P Require Import HttpClient AdminApi Provider DriverHelpers Drivers DriverLaws Engine EngineLaws.

Local Open Scope string_scope.
Local Open Scope list_scope.

Definition connectionRetryInterval : Z := (5 * Minute)%Z.

(** [r.Get] for a managed kind: the resource name and the answer. *)
Class KubeStore (St S : Type) := {
  store_resource : string;
  store_get : string → string → St → (GoError + ManagedObject S) * St;
}.

(** [client.IgnoreNotFound]. *)
Definition IgnoreNotFound (err : GoError) : option GoError :=
  if IsNotFound err then None else Some err.

Definition setConnectionCondition `{KubeLib} (conn : KeycloakConnection)
    (condType status reason message : string) (generation : Z) : KeycloakConnection :=
  let st := Conn_Status conn in
  mkKeycloakConnection (Conn_Meta conn) (Conn_Spec conn)
    (mkKeycloakConnectionStatus
       (SetStatusCondition (Conn_Conditions st)
          (mkCondition condType status generation reason message))
       (Conn_ObservedGeneration st) (ServerVersion st)).

Definition set_ServerVersion (v : string) (conn : KeycloakConnection) : KeycloakConnection :=
  mkKeycloakConnection (Conn_Meta conn) (Conn_Spec conn)
    (mkKeycloakConnectionStatus (Conn_Conditions (Conn_Status conn))
       (Conn_ObservedGeneration (Conn_Status conn)) v).

Definition serverVersion (info : rep) : string :=
  match field_map info "systemInfo" with
  | None => ""
  | Some systemInfo => field_or_empty systemInfo "version"
  end.

Section Controllers.
Context {St : Type} `{Env St, KubeLib}.

(** The common ending of the two failures: Ready is False, the gauge is 0. *)
Definition connection_down (conn : KeycloakConnection) (ns name reason message : string)
    : M St (Result * option GoError) :=
  let failed := setConnectionCondition conn ConditionReady ConditionFalse reason message
                  (GetGeneration (Conn_Meta conn)) in
  _ ← kube_patch_connection_status failed conn;
  _ ← metric ConnectionUp [ns; name] (Set_ 0);
  mret (after connectionRetry).

Definition connection_up (conn : KeycloakConnection) (ns name version : string)
    : M St (Result * option GoError) :=
  _ ← metric ConnectionUp [ns; name] (Set_ 1);
  _ ← metric_delete metrics_ServerInfo [("namespace", ns); ("connection", name)];
  _ ← (if negb (String.eqb version "")
       then metric metrics_ServerInfo [ns; name; version] (Set_ 1) else mret ());
  let ready := setConnectionCondition (set_ServerVersion version conn) ConditionReady ConditionTrue
                 ReasonSucceeded ("Connected to Keycloak " +:+ version)
                 (GetGeneration (Conn_Meta conn)) in
  r ← kube_patch_connection_status ready conn;
  mret (match r with
        | Some err => if IsNotFound err then after connectionRetryInterval else failed err
        | None => after connectionRetryInterval
        end).

Definition KeycloakConnectionReconciler_Reconcile (ns name : string)
    : M St (Result * option GoError) :=
  r ← kube_get_connection ns name;
  match r with
  | inl err => mret (mkResult 0, IgnoreNotFound err)
  | inr conn =>
      kc ← For ns name;
      match kc with
      | inl err => connection_down conn ns name ReasonConnectionUnavailable (Error err)
      | inr kc =>
          token ← Token kc;
          match token with
          | inl err =>
              let reason := if errors_Is err SAuth then ReasonConnectionUnavailable
                            else ReasonRetrying in
              connection_down conn ns name reason (Error err)
          | inr _ =>
              info ← ServerInfo kc;
              connection_up conn ns name
                (match info with inl _ => "" | inr info => serverVersion info end)
          end
      end
  end.

(** The shape the six reconcilers share. *)
Definition reconcile_kind {S} `{Spec S, KubeStore St S} (e : Engine) (drv : Driver St S)
    (ns name : string) : M St (Result * option GoError) :=
  _ ← emit (KubeGet store_resource ns name);
  r ← call_env (store_get ns name);
  match r with
  | inl err => mret (mkResult 0, IgnoreNotFound err)
  | inr obj => o ← Reconcile e obj drv; mret o.2
  end.

Definition RealmReconciler_Reconcile `{KubeStore St RealmTypes.RealmSpec} (e : Engine)
    (ns name : string) : M St (Result * option GoError) := reconcile_kind e RealmDriver ns name.
Definition ClientReconciler_Reconcile `{KubeStore St ClientTypes.ClientSpec} (e : Engine)
    (ns name : string) : M St (Result * option GoError) := reconcile_kind e ClientDriver ns name.
Definition ClientScopeReconciler_Reconcile `{KubeStore St ClientScopeTypes.ClientScopeSpec}
    (e : Engine) (ns name : string) : M St (Result * option GoError) :=
  reconcile_kind e ClientScopeDriver ns name.
Definition RealmRoleReconciler_Reconcile `{KubeStore St RealmRoleTypes.RealmRoleSpec} (e : Engine)
    (ns name : string) : M St (Result * option GoError) := reconcile_kind e RealmRoleDriver ns name.
Definition IdentityProviderReconciler_Reconcile
    `{KubeStore St IdentityProviderTypes.IdentityProviderSpec} (e : Engine) (ns name : string)
    : M St (Result * option GoError) := reconcile_kind e IdentityProviderDriver ns name.
Definition GroupReconciler_Reconcile `{KubeStore St GroupTypes.GroupSpec} (e : Engine)
    (ns name : string) : M St (Result * option GoError) := reconcile_kind e GroupDriver ns name.
End Controllers.

(** ** The connection probe *)

(** What a probe reports: the reason of the Ready condition, with the gauge it sets. *)
Definition probe_reports `{KubeLib} (ns name : string) (up : bool) (reason : string)
    (l : list Action) : Prop :=
  ∃ c msg g, ConnectionPatchStatus c ∈ l ∧
    FindStatusCondition (Conn_Conditions (Conn_Status c)) ConditionReady =
      Some (mkCondition ConditionReady (if up then ConditionTrue else ConditionFalse) g reason msg) ∧
    Metric ConnectionUp [ns; name] (Set_ (if up then 1 else 0)) ∈ l ∧
    ∀ v, Metric ConnectionUp [ns; name] (Set_ v) ∈ l → v = (if up then 1 else 0)%Z.

(** Reads and reports only. *)
Definition probe_act (a : Action) : Prop :=
  match a with
  | Http r => rq_authorization r = "" ∨ rq_method r = "GET"
  | KubeGet _ _ _ | ConnectionPatchStatus _ | Metric _ _ _ | MetricDelete _ _ => True
  | _ => False
  end.

Section ProbeSpecs.
Context {St : Type} `{Env St, KubeLib, !KubeLibLaws}.

Lemma connection_down_wp (conn : KeycloakConnection) (ns name reason message : string)
    (w : World St) :
  wp (connection_down conn ns name reason message) (λ o _ l,
    o = Some (after connectionRetry) ∧ probe_reports ns name false reason l) w.
Proof.
  unfold connection_down, kube_patch_connection_status.
  apply wp_bind, wp_call; [apply _|]. intros r s _. simpl. apply wp_bind, wp_metric; [done|]. simpl.
  apply wp_ret. split; [done|]. do 3 eexists. split; [by left|]. simpl.
  rewrite find_set_eq. split; [done|]. split; [set_solver|]. set_solver.
Qed.

Lemma connection_up_wp (conn : KeycloakConnection) (ns name version : string) (w : World St) :
  wp (connection_up conn ns name version) (λ o _ l,
    (o = Some (after connectionRetryInterval) ∨ ∃ err, o = Some (failed err)) ∧
    probe_reports ns name true ReasonSucceeded l) w.
Proof.
  unfold connection_up. apply wp_bind, wp_metric; [done|]. simpl.
  apply wp_bind, wp_emit; [apply _|]. simpl.
  assert (∀ pre w, (∀ v, Metric ConnectionUp [ns; name] (Set_ v) ∈ pre → v = 1%Z) →
    Metric ConnectionUp [ns; name] (Set_ 1) ∈ pre →
    wp (r ← kube_patch_connection_status (setConnectionCondition (set_ServerVersion version conn)
          ConditionReady ConditionTrue ReasonSucceeded ("Connected to Keycloak " +:+ version)
          (GetGeneration (Conn_Meta conn))) conn;
        mret (match r with
              | Some err => if IsNotFound err then after connectionRetryInterval else failed err
              | None => after connectionRetryInterval
              end)) (λ o _ l, (o = Some (after connectionRetryInterval) ∨ ∃ err, o = Some (failed err)) ∧
       probe_reports ns name true ReasonSucceeded (pre ++ l)) w) as Htail.
  { intros pre w0 Hpre Hin. unfold kube_patch_connection_status.
    apply wp_bind, wp_call; [apply _|]. intros r s _. simpl. apply wp_ret. split.
    - destruct r as [err|]; [|by left]. destruct (IsNotFound err); [by left|right; by eexists].
    - do 3 eexists. split; [apply elem_of_app; right; by left|]. simpl. rewrite find_set_eq.
      split; [done|]. split; set_solver. }
  set (up := Metric ConnectionUp [ns; name] (Set_ 1)) in *.
  set (del := MetricDelete metrics_ServerInfo _).
  apply wp_bind. destruct (String.eqb version ""); simpl.
  - apply wp_ret. eapply wp_mono; [apply (Htail [up; del])|simpl; tauto]; set_solver.
  - apply wp_metric; [done|].
    eapply wp_mono; [apply (Htail [up; del; Metric metrics_ServerInfo [ns; name; version] (Set_ 1)])
                    |simpl; tauto]; set_solver.
Qed.
End ProbeSpecs.

Section Probe.
Context {St : Type} `{Env St, KubeLib, !KubeLibLaws}.

(** Actions that come before the report and are no part of it. *)
Definition unrelated (a : Action) : Prop :=
  match a with Metric v _ _ => mv_name v ≠ mv_name ConnectionUp | _ => True end.

Lemma probe_reports_app (ns name reason : string) (up : bool) (l k : list Action) :
  Forall unrelated l → probe_reports ns name up reason k → probe_reports ns name up reason (l ++ k).
Proof.
  intros Hl (c & msg & g & Hin & Hf & Hm & Hu). exists c, msg, g.
  split; [set_solver|]. split; [done|]. split; [set_solver|].
  intros v [Hv|Hv]%elem_of_app; [|by apply Hu].
  rewrite Forall_forall in Hl. exfalso. by apply (Hl _ Hv).
Qed.

(** The report of a probe whose connection resolved to [kc]. *)
Definition token_report (ns name : string) (token : option (GoError + string))
    (r : Result * option GoError) (l : list Action) : Prop :=
  match token with
  | Some (inr _) => probe_reports ns name true ReasonSucceeded l
  | Some (inl err) =>
      r = after connectionRetry ∧
      probe_reports ns name false
        (if errors_Is err SAuth then ReasonConnectionUnavailable else ReasonRetrying) l
  | None => False
  end.

Lemma token_report_wp (conn : KeycloakConnection) (ns name : string) (kc : Client) (w : World St) :
  wp (token ← Token kc;
      match token with
      | inl err =>
          connection_down conn ns name
            (if errors_Is err SAuth then ReasonConnectionUnavailable else ReasonRetrying) (Error err)
      | inr _ =>
          info ← ServerInfo kc;
          connection_up conn ns name (match info with inl _ => "" | inr info => serverVersion info end)
      end) (λ o _ l, ∃ r, o = Some r ∧ token_report ns name (Token kc w).1 r l) w.
Proof.
  destruct (Token_safe (St := St) unrelated kc I w) as (l1 & Hl1 & Hrun & [t Ht] & Hu1).
  apply wp_bind. exists l1. split; [done|]. split; [done|]. rewrite Ht. simpl. destruct t as [err|t].
  - eapply wp_mono; [apply connection_down_wp|]. simpl. intros o _ l2 [-> Hr].
    eexists. split; [done|]. split; [done|]. by apply probe_reports_app.
  - apply wp_bind. eapply wp_mono.
    { apply (Do_safe unrelated); [done|done|]. intros v ls k [-> | ->]; done. }
    intros o w2 l2 [[info ->] Hu2]. simpl. eapply wp_mono; [apply connection_up_wp|]. simpl.
    intros o _ l3 [Ho Hr]. destruct Ho as [->|[err ->]]; (eexists; split; [done|]);
      simpl; by apply probe_reports_app, probe_reports_app.
Qed.
End Probe.

(** ** Theorems *)

(** C31.  A connection is Ready exactly when a token was granted.  For a connection that
    can be read, the probe reports Ready as True, and the gauge as 1, when the token
    request succeeds, whatever the version lookup answers; otherwise Ready is False with
    reason ConnectionUnavailable when the connection does not resolve or the credentials
    are refused and Retrying for every other error, the gauge is 0, and the probe is
    repeated after 30 seconds. *)
Theorem connection_ready_iff_token {St} `{Env St, KubeLib, !KubeLibLaws} (ns name : string)
    (conn : KeycloakConnection) (w w1 : World St) :
  kube_get_connection ns name w = (Some (inr conn), w1) →
  match For ns name w1 with
  | (Some (inl err), w2) => ∃ r w' l,
      KeycloakConnectionReconciler_Reconcile ns name w = (Some r, w') ∧ trace w' = trace w2 ++ l ∧
      r = after connectionRetry ∧ probe_reports ns name false ReasonConnectionUnavailable l
  | (Some (inr kc), w2) => ∃ r w' l,
      KeycloakConnectionReconciler_Reconcile ns name w = (Some r, w') ∧ trace w' = trace w2 ++ l ∧
      token_report ns name (Token kc w2).1 r l
  | (None, _) => False
  end.
Proof.
  intros Hget. unfold KeycloakConnectionReconciler_Reconcile.
  rewrite (bind_eq _ _ _ _ _ Hget).
  assert (safe (λ _, True) (For (St := St) ns name)) as Hfor by by apply For_safe.
  destruct (For ns name w1) as [[[err|kc]|] w2] eqn:E.
  - rewrite (bind_eq _ _ _ _ _ E).
    destruct (connection_down_wp conn ns name ReasonConnectionUnavailable (Error err) w2)
      as (l & Hl & _ & Ho & Hr).
    eexists _, _, l. split; [by apply run_eq|done].
  - rewrite (bind_eq _ _ _ _ _ E).
    destruct (token_report_wp conn ns name kc w2) as (l & Hl & _ & r & Ho & Hr).
    eexists r, _, l. split; [by apply run_eq|done].
  - destruct (Hfor w1) as (l & _ & _ & [r Hr] & _). by rewrite E in Hr.
Qed.

Lemma connection_ready_iff_token_witness :
  let w := sim_world [ok_token; status 403; ok_token; status 403] in
  let w1 := (kube_get_connection "team" "kc" w).2 in
  match For "team" "kc" w1 with
  | (Some (inl err), w2) => ∃ r w' l,
      KeycloakConnectionReconciler_Reconcile "team" "kc" w = (Some r, w') ∧
      trace w' = trace w2 ++ l ∧
      r = after connectionRetry ∧ probe_reports "team" "kc" false ReasonConnectionUnavailable l
  | (Some (inr kc), w2) => ∃ r w' l,
      KeycloakConnectionReconciler_Reconcile "team" "kc" w = (Some r, w') ∧
      trace w' = trace w2 ++ l ∧ token_report "team" "kc" (Token kc w2).1 r l
  | (None, _) => False
  end.
Proof.
  intros w w1. apply (connection_ready_iff_token "team" "kc" sim_connection w w1).
  vm_compute. reflexivity.
Defined.
