(* ===== verification/Flags.v ===== *)
(** * Command lines (packages flag, strconv, time and strings of the Go library)

    What cmd/main.go uses of the standard library: [flag.Parse] over a set of flags,
    [strconv.ParseBool], [time.ParseDuration] with its overflow checks and its float64
    fractions (computed with the binary64 operations of SpecFloat), and [strings.TrimSpace]. *)

From Stdlib Require Import Ascii String ZArith SpecFloat Lia.
From stdpp Require Import base gmap strings list.
From S2P Require Import Prelude Json JsonText GoError World Url HttpClient.

Local Open Scope string_scope.
Local Open Scope list_scope.

(** ** Values *)

(** [strconv.ParseBool]. *)
Definition ParseBool (s : string) : option bool :=
  if decide (s ∈ ["1"; "t"; "T"; "true"; "TRUE"; "True"]) then Some true
  else if decide (s ∈ ["0"; "f"; "F"; "false"; "FALSE"; "False"]) then Some false
  else None.

Definition digit (c : ascii) : option Z :=
  let n := nat_of_ascii c in
  if between 48 57 n then Some (Z.of_nat n - 48)%Z else None.

(** [leadingInt]: the value is a uint64 below the bound, so nothing wraps. *)
Fixpoint leadingInt (s : string) (x : Z) : option (Z * string) :=
  match s with
  | String c s' =>
      match digit c with
      | Some d =>
          if (2 ^ 63 / 10 <? x)%Z then None
          else if (2 ^ 63 <? x * 10 + d)%Z then None
          else leadingInt s' (x * 10 + d)
      | None => Some (x, s)
      end
  | "" => Some (x, "")
  end.

(** [leadingFraction]: digits beyond the range of the numerator are skipped.  The scale is a
    power of ten below 2^64, which float64 represents exactly. *)
Fixpoint leadingFraction (s : string) (x scale : Z) (overflow : bool) : Z * Z * string :=
  match s with
  | String c s' =>
      match digit c with
      | Some d =>
          if overflow then leadingFraction s' x scale true
          else if ((2 ^ 63 - 1) / 10 <? x)%Z then leadingFraction s' x scale true
          else if (2 ^ 63 <? x * 10 + d)%Z then leadingFraction s' x scale true
          else leadingFraction s' (x * 10 + d) (scale * 10) false
      | None => (x, scale, s)
      end
  | "" => (x, scale, "")
  end.

Definition float64 (z : Z) : spec_float := binary_normalize 53 1024 z 0 false.

(** [uint64(x)] of a finite non-negative float64. *)
Definition truncate_float (x : spec_float) : Z :=
  match x with S754_finite _ m e => Z.shiftl (Z.pos m) e | _ => 0 end.

(** [uint64(float64(f) * (float64(unit) / scale))]. *)
Definition fraction (f unit scale : Z) : Z :=
  truncate_float (SFmul 53 1024 (float64 f) (SFdiv 53 1024 (float64 unit) (float64 scale))).

(** The unit: everything up to the next digit or period. *)
Fixpoint span_unit (s : string) : string * string :=
  match s with
  | String c s' =>
      if Ascii.eqb c "." || (if digit c is Some _ then true else false) then ("", s)
      else let '(u, rest) := span_unit s' in (String c u, rest)
  | "" => ("", "")
  end.

Definition unit_of (u : string) : option Z :=
  if String.eqb u "ns" then Some 1%Z
  else if String.eqb u "us" || String.eqb u "µs" || String.eqb u "μs" then Some 1000%Z
  else if String.eqb u "ms" then Some 1000000%Z
  else if String.eqb u "s" then Some Second
  else if String.eqb u "m" then Some Minute
  else if String.eqb u "h" then Some Hour
  else None.

(** One number with its unit. *)
Definition duration_term (s : string) : option (Z * string) :=
  match s with
  | "" => None
  | String c _ =>
      if negb (Ascii.eqb c "." || (if digit c is Some _ then true else false)) then None else
      '(v, s1) ← leadingInt s 0;
      let pre := negb (Nat.eqb (String.length s1) (String.length s)) in
      let '(f, scale, s2, post) :=
        match s1 with
        | String "." s1' =>
            let '(f, scale, s2) := leadingFraction s1' 0 1 false in
            (f, scale, s2, negb (Nat.eqb (String.length s2) (String.length s1')))
        | _ => (0%Z, 1%Z, s1, false)
        end in
      if negb pre && negb post then None else
      let '(u, s3) := span_unit s2 in
      unit ← unit_of u;
      if (2 ^ 63 / unit <? v)%Z then None else
      let v := (v * unit)%Z in
      let v := if (0 <? f)%Z then (v + fraction f unit scale)%Z else v in
      if (2 ^ 63 <? v)%Z then None else Some (v, s3)
  end.

(** The terms add up; [n] bounds their number, each takes at least one byte. *)
Fixpoint duration_terms (n : nat) (s : string) (d : Z) : option Z :=
  match s, n with
  | "", _ => Some d
  | _, O => None
  | _, S n =>
      '(v, s') ← duration_term s;
      if (2 ^ 63 <? d + v)%Z then None else duration_terms n s' (d + v)
  end.

Definition ParseDuration (s : string) : option Z :=
  let '(neg, s) :=
    match s with
    | String c s' => if Ascii.eqb c "-" then (true, s') else if Ascii.eqb c "+" then (false, s') else (false, s)
    | "" => (false, s)
    end in
  if String.eqb s "0" then Some 0%Z
  else if String.eqb s "" then None
  else
    d ← duration_terms (String.length s) s 0;
    if neg then Some (wrap64 (- d))
    else if (2 ^ 63 - 1 <? d)%Z then None else Some d.

(** ** Flags *)

(** A command-line argument, as [FlagSet.parseOne] looks at it. *)
Inductive Arg :=
  | NotFlag
  | Terminator
  | BadSyntax
  | FlagArg (name : string) (value : option string).

(** The name ends at the first equals sign, if there is one. *)
Fixpoint cut_value (s : string) : string * option string :=
  match s with
  | "" => ("", None)
  | String c s' =>
      if Ascii.eqb c "=" then ("", Some s')
      else let '(name, value) := cut_value s' in (String c name, value)
  end.

Definition classify (s : string) : Arg :=
  match s with
  | String "-" (String "-" "") => Terminator
  | String "-" (String c s') =>
      match (if Ascii.eqb c "-" then s' else String c s') with
      | "" => BadSyntax
      | String d name =>
          if Ascii.eqb d "-" || Ascii.eqb d "=" then BadSyntax
          else let '(n, value) := cut_value name in FlagArg (String d n) value
      end
  | _ => NotFlag
  end.

Section FlagSet.
Context {V : Type}.

(** The flags that are defined, with whether they are boolean, and how a value is set. *)
Context (is_bool : string → option bool) (set : string → string → V → string + V).

Inductive ParseResult :=
  | Parsed (v : V) (rest : list string)
  | Help
  | Failed (msg : string).

Definition invalid_value (name value : string) (b : bool) (err : string) : string :=
  if b then "invalid boolean value " +:+ q value +:+ " for -" +:+ name +:+ ": " +:+ err
  else "invalid value " +:+ q value +:+ " for flag -" +:+ name +:+ ": " +:+ err.

(** [FlagSet.Parse]: flags are set from left to right, up to the first argument that is not
    one. *)
Fixpoint Parse (args : list string) (v : V) : ParseResult :=
  match args with
  | [] => Parsed v []
  | s :: rest =>
      match classify s with
      | NotFlag => Parsed v args
      | Terminator => Parsed v rest
      | BadSyntax => Failed ("bad flag syntax: " +:+ s)
      | FlagArg name value =>
          match is_bool name, value with
          | None, _ =>
              if String.eqb name "help" || String.eqb name "h" then Help
              else Failed ("flag provided but not defined: -" +:+ name)
          | Some true, _ =>
              match set name (default "true" value) v with
              | inl err => Failed (invalid_value name (default "true" value) true err)
              | inr v => Parse rest v
              end
          | Some false, Some x =>
              match set name x v with
              | inl err => Failed (invalid_value name x false err)
              | inr v => Parse rest v
              end
          | Some false, None =>
              match rest with
              | [] => Failed ("flag needs an argument: -" +:+ name)
              | x :: rest =>
                  match set name x v with
                  | inl err => Failed (invalid_value name x false err)
                  | inr v => Parse rest v
                  end
              end
          end
      end
  end.

(** A flag written out. *)
Definition flag_arg (p : string * string) : string := "--" +:+ p.1 +:+ "=" +:+ p.2.

(** The names that can be written: not empty, without an equals sign, and not starting with
    a dash. *)
Definition flag_name (name : string) : bool :=
  match name with
  | "" => false
  | String c _ => negb (Ascii.eqb c "-") && str_all (λ d, negb (Ascii.eqb d "=")) name
  end.

Lemma cut_value_app (name value : string) :
  str_all (λ d, negb (Ascii.eqb d "=")) name = true →
  cut_value (name +:+ String "=" value) = (name, Some value).
Proof.
  #[local] Arguments String.append !_ _ / : simpl nomatch.
  induction name as [|c name IH]; simpl; [done|]. intros [Hc Hs]%andb_true_iff.
  apply negb_true_iff in Hc. rewrite Hc. by rewrite IH.
Qed.

Lemma classify_flag (name value : string) :
  flag_name name = true → classify (flag_arg (name, value)) = FlagArg name (Some value).
Proof.
  intros Hn. destruct name as [|c name]; [done|]. cbn [flag_name str_all] in Hn.
  apply andb_true_iff in Hn as [Hd [He Hs]%andb_true_iff].
  apply negb_true_iff in Hd, He. unfold flag_arg. simpl.
  change ("=" +:+ value) with (String "=" value).
  by rewrite Hd, He, cut_value_app.
Qed.

(** What the flags are set to, in order. *)
Fixpoint set_all (l : list (string * string)) (v : V) : option V :=
  match l with
  | [] => Some v
  | (name, value) :: l => match set name value v with inl _ => None | inr v => set_all l v end
  end.

(** A command line written out is read back: each flag is set to its value, in order. *)
Lemma Parse_flags (l : list (string * string)) (v v' : V) (rest : list string) :
  Forall (λ p, flag_name p.1 = true ∧ is_Some (is_bool p.1)) l → set_all l v = Some v' →
  Parse ((flag_arg <$> l) ++ rest) v = Parse rest v'.
Proof.
  intros Hl. revert v. induction Hl as [|[name value] l [Hn [b Hb]] _ IH]; intros v E; simpl in E.
  { by simplify_eq. }
  rewrite fmap_cons. cbn [app Parse]. rewrite classify_flag by done. simpl in Hb. rewrite Hb.
  destruct (set name value v) as [err|w] eqn:Hs; [done|].
  destruct b; simpl; rewrite ?Hs; by apply IH.
Qed.
End FlagSet.
Arguments Parsed {V}.
Arguments Help {V}.
Arguments Failed {V}.

(** ** Space *)

(** The encodings of the runes that [unicode.IsSpace] accepts. *)
Definition space_runes : list string :=
  ((λ n, utf8 n) <$> [9; 10; 11; 12; 13; 32; 133; 160])
  ++ ((λ n, utf8 (N.to_nat n)) <$>
        [5760; 8192; 8193; 8194; 8195; 8196; 8197; 8198; 8199; 8200; 8201; 8202; 8232; 8233;
         8239; 8287; 12288]%N).

Fixpoint reverse_onto (s acc : string) : string :=
  match s with "" => acc | String c s' => reverse_onto s' (String c acc) end.
Definition reverse (s : string) : string := reverse_onto s "".

Fixpoint strip_any (runes : list string) (s : string) : option string :=
  match runes with
  | [] => None
  | r :: runes => match strip_prefix r s with Some s' => Some s' | None => strip_any runes s end
  end.

Fixpoint trim (runes : list string) (n : nat) (s : string) : string :=
  match n with
  | O => s
  | S n => match strip_any runes s with Some s' => trim runes n s' | None => s end
  end.

(** [strings.TrimSpace]: one step per byte is enough. *)
Definition TrimSpace (s : string) : string :=
  let s := trim space_runes (String.length s) s in
  reverse (trim (reverse <$> space_runes) (String.length s) (reverse s)).

(** A visible ASCII character. *)
Definition visible (c : ascii) : bool := between 33 126 (nat_of_ascii c).

(** No rune of the list begins like a string of visible characters. *)
Definition no_visible_start (runes : list string) : bool :=
  forallb (λ r, match r with "" => false | String d _ => negb (visible d) end) runes.

Lemma strip_any_visible (runes : list string) (s : string) :
  no_visible_start runes = true → str_all visible s = true → strip_any runes s = None.
Proof.
  intros Hr Hs. induction runes as [|r runes IH]; simpl in *; [done|].
  apply andb_true_iff in Hr as [Hd Hr]. rewrite IH by done.
  destruct r as [|d r]; [done|]. destruct s as [|c s]; simpl; [done|].
  simpl in Hs. apply andb_true_iff in Hs as [Hc _].
  destruct (ascii_dec d c) as [->|]; [|done]. by rewrite Hc in Hd.
Qed.

Lemma trim_visible (runes : list string) (n : nat) (s : string) :
  no_visible_start runes = true → str_all visible s = true → trim runes n s = s.
Proof. intros Hr Hs. destruct n; simpl; [done|]. by rewrite strip_any_visible. Qed.

Lemma str_all_reverse_onto (P : ascii → bool) (s acc : string) :
  str_all P (reverse_onto s acc) = str_all P s && str_all P acc.
Proof.
  revert acc. induction s as [|c s IH]; intros acc; simpl; [done|]. rewrite IH. simpl.
  rewrite andb_assoc. f_equal. apply andb_comm.
Qed.

Lemma reverse_onto_twice (s acc t : string) :
  reverse_onto (reverse_onto s acc) t = reverse_onto acc (s +:+ t).
Proof.
  #[local] Arguments String.append !_ _ / : simpl nomatch.
  revert acc. induction s as [|c s IH]; intros acc; simpl; [done|]. by rewrite IH.
Qed.

Lemma TrimSpace_visible (s : string) : str_all visible s = true → TrimSpace s = s.
Proof.
  intros Hs. unfold TrimSpace. rewrite (trim_visible space_runes _ s); [|reflexivity|done].
  rewrite trim_visible; [|reflexivity|].
  - unfold reverse. rewrite reverse_onto_twice. simpl.
    clear Hs. induction s as [|c s IH]; simpl; [done|by rewrite IH].
  - unfold reverse. rewrite str_all_reverse_onto, Hs. done.
Qed.
