(* ===== verification/Main.v ===== *)
(** * The entry point (cmd/main.go)

    The process from its first instruction: the initialisers of the packages (metrics.go,
    groupversion_info.go and the types files, [init] of main.go), [main] with its flags, the
    options it builds, and the order in which it sets everything up, with an exit on the
    first error.  internal/version/version.go and the [SetupWithManager] of the seven
    controllers belong to it.

    What controller-runtime and Prometheus do is the class [Runtime]: each call may fail,
    depending on everything done before; [RuntimeLaws] is what their documentation promises.
    Logging is left out, but for the message of a fatal error. *)

From Stdlib Require Import Ascii String ZArith Lia.
From stdpp Require Import base gmap strings list sets.
From S2P Require Import Prelude Json JsonText GoError ApiTypes World Url HttpClient Engine Flags.

Local Open Scope string_scope.
Local Open Scope list_scope.

(** ** Version (internal/version/version.go) *)

Definition Version : string := "dev".
Definition Commit : string := "unknown".
Definition Date : string := "unknown".

(** The banner of [--version], from the version of Go. *)
Definition version_String (go_version : string) : string :=
  "keycloak-operator " +:+ Version +:+ " (commit " +:+ Commit +:+ ", built " +:+ Date
  +:+ ", " +:+ go_version +:+ ")".

(** ** Scheme *)

Record GroupVersion := mkGroupVersion { Group : string; GV_Version : string }.
Definition SchemeGroupVersion : GroupVersion :=
  mkGroupVersion "keycloak.ctn-solutions.io" "v1alpha1".

#[export] Instance GroupVersion_eq_dec : EqDecision GroupVersion.
Proof. solve_decision. Defined.
#[export] Instance GroupVersion_countable : Countable GroupVersion.
Proof.
  refine (inj_countable' (λ g, (Group g, GV_Version g)) (λ p, mkGroupVersion p.1 p.2) _).
  by intros [].
Defined.

(** The types known to a scheme. *)
Definition Scheme : Type := gset (GroupVersion * string).

(** [SchemeBuilder.Register] in the [init] of each types file. *)
Definition client_types_init : list string := ["Client"; "ClientList"].
Definition clientscope_types_init : list string := ["ClientScope"; "ClientScopeList"].
Definition group_types_init : list string := ["Group"; "GroupList"].
Definition identityprovider_types_init : list string :=
  ["IdentityProvider"; "IdentityProviderList"].
Definition keycloakconnection_types_init : list string :=
  ["KeycloakConnection"; "KeycloakConnectionList"].
Definition realm_types_init : list string := ["Realm"; "RealmList"].
Definition realmrole_types_init : list string := ["RealmRole"; "RealmRoleList"].

(** The builder after all of them, in the order of the files. *)
Definition SchemeBuilder : list string :=
  client_types_init ++ clientscope_types_init ++ group_types_init
  ++ identityprovider_types_init ++ keycloakconnection_types_init ++ realm_types_init
  ++ realmrole_types_init.

Definition AddToScheme (s : Scheme) : Scheme :=
  s ∪ list_to_set ((λ kind, (SchemeGroupVersion, kind)) <$> SchemeBuilder).

(** ** Controllers *)

(** What [ctrl.NewControllerManagedBy(mgr).For(...).Named(...).Complete(r)] is given. *)
Record ControllerSpec := mkControllerSpec { For_kind : string; Named : string }.

Definition KeycloakConnectionReconciler_SetupWithManager : ControllerSpec :=
  mkControllerSpec "KeycloakConnection" "keycloakconnection".
Definition RealmReconciler_SetupWithManager : ControllerSpec := mkControllerSpec "Realm" "realm".
Definition ClientReconciler_SetupWithManager : ControllerSpec :=
  mkControllerSpec "Client" "client".
Definition ClientScopeReconciler_SetupWithManager : ControllerSpec :=
  mkControllerSpec "ClientScope" "clientscope".
Definition RealmRoleReconciler_SetupWithManager : ControllerSpec :=
  mkControllerSpec "RealmRole" "realmrole".
Definition IdentityProviderReconciler_SetupWithManager : ControllerSpec :=
  mkControllerSpec "IdentityProvider" "identityprovider".
Definition GroupReconciler_SetupWithManager : ControllerSpec := mkControllerSpec "Group" "group".

(** ** Options *)

(** [tls.Config], the part that is set here. *)
Record tls_Config := mkTlsConfig { NextProtos : list string }.

Definition disableHTTP2 (c : tls_Config) : tls_Config := mkTlsConfig ["http/1.1"].

(** The options of a server that serves certificates. *)
Record WebhookOptions := mkWebhookOptions {
  wh_TLSOpts : list (tls_Config → tls_Config);
  wh_CertDir : string;
  wh_CertName : string;
  wh_KeyName : string;
}.

Inductive FilterProvider := WithAuthenticationAndAuthorization.

Record MetricsOptions := mkMetricsOptions {
  BindAddress : string;
  SecureServing : bool;
  ms_TLSOpts : list (tls_Config → tls_Config);
  ms_FilterProvider : option FilterProvider;
  ms_CertDir : string;
  ms_CertName : string;
  ms_KeyName : string;
}.

Record ManagerOptions := mkManagerOptions {
  mo_Scheme : Scheme;
  mo_Metrics : MetricsOptions;
  mo_WebhookServer : WebhookOptions;
  HealthProbeBindAddress : string;
  LeaderElection : bool;
  LeaderElectionID : string;
  (** [Cache.DefaultNamespaces]; nil watches every namespace. *)
  DefaultNamespaces : option (gset string);
}.

(** ** Flags *)

(** The variables of [main], and the values of the flags that other packages define. *)
Record MainFlags := mkMainFlags {
  metricsAddr : string;
  metricsCertPath : string;
  metricsCertName : string;
  metricsCertKey : string;
  webhookCertPath : string;
  webhookCertName : string;
  webhookCertKey : string;
  enableLeaderElection : bool;
  probeAddr : string;
  secureMetrics : bool;
  enableHTTP2 : bool;
  resyncPeriod : Z;
  watchNamespaceList : string;
  showVersion : bool;
  otherFlags : list (string * string);
}.
Definition set_metricsAddr (x : string) (f : MainFlags) : MainFlags :=
  mkMainFlags x (metricsCertPath f) (metricsCertName f) (metricsCertKey f) (webhookCertPath
    f) (webhookCertName f) (webhookCertKey f) (enableLeaderElection f) (probeAddr f)
    (secureMetrics f) (enableHTTP2 f) (resyncPeriod f) (watchNamespaceList f) (showVersion
    f) (otherFlags f).
Definition set_metricsCertPath (x : string) (f : MainFlags) : MainFlags :=
  mkMainFlags (metricsAddr f) x (metricsCertName f) (metricsCertKey f) (webhookCertPath f)
    (webhookCertName f) (webhookCertKey f) (enableLeaderElection f) (probeAddr f)
    (secureMetrics f) (enableHTTP2 f) (resyncPeriod f) (watchNamespaceList f) (showVersion
    f) (otherFlags f).
Definition set_metricsCertName (x : string) (f : MainFlags) : MainFlags :=
  mkMainFlags (metricsAddr f) (metricsCertPath f) x (metricsCertKey f) (webhookCertPath f)
    (webhookCertName f) (webhookCertKey f) (enableLeaderElection f) (probeAddr f)
    (secureMetrics f) (enableHTTP2 f) (resyncPeriod f) (watchNamespaceList f) (showVersion
    f) (otherFlags f).
Definition set_metricsCertKey (x : string) (f : MainFlags) : MainFlags :=
  mkMainFlags (metricsAddr f) (metricsCertPath f) (metricsCertName f) x (webhookCertPath f)
    (webhookCertName f) (webhookCertKey f) (enableLeaderElection f) (probeAddr f)
    (secureMetrics f) (enableHTTP2 f) (resyncPeriod f) (watchNamespaceList f) (showVersion
    f) (otherFlags f).
Definition set_webhookCertPath (x : string) (f : MainFlags) : MainFlags :=
  mkMainFlags (metricsAddr f) (metricsCertPath f) (metricsCertName f) (metricsCertKey f) x
    (webhookCertName f) (webhookCertKey f) (enableLeaderElection f) (probeAddr f)
    (secureMetrics f) (enableHTTP2 f) (resyncPeriod f) (watchNamespaceList f) (showVersion
    f) (otherFlags f).
Definition set_webhookCertName (x : string) (f : MainFlags) : MainFlags :=
  mkMainFlags (metricsAddr f) (metricsCertPath f) (metricsCertName f) (metricsCertKey f)
    (webhookCertPath f) x (webhookCertKey f) (enableLeaderElection f) (probeAddr f)
    (secureMetrics f) (enableHTTP2 f) (resyncPeriod f) (watchNamespaceList f) (showVersion
    f) (otherFlags f).
Definition set_webhookCertKey (x : string) (f : MainFlags) : MainFlags :=
  mkMainFlags (metricsAddr f) (metricsCertPath f) (metricsCertName f) (metricsCertKey f)
    (webhookCertPath f) (webhookCertName f) x (enableLeaderElection f) (probeAddr f)
    (secureMetrics f) (enableHTTP2 f) (resyncPeriod f) (watchNamespaceList f) (showVersion
    f) (otherFlags f).
Definition set_enableLeaderElection (x : bool) (f : MainFlags) : MainFlags :=
  mkMainFlags (metricsAddr f) (metricsCertPath f) (metricsCertName f) (metricsCertKey f)
    (webhookCertPath f) (webhookCertName f) (webhookCertKey f) x (probeAddr f)
    (secureMetrics f) (enableHTTP2 f) (resyncPeriod f) (watchNamespaceList f) (showVersion
    f) (otherFlags f).
Definition set_probeAddr (x : string) (f : MainFlags) : MainFlags :=
  mkMainFlags (metricsAddr f) (metricsCertPath f) (metricsCertName f) (metricsCertKey f)
    (webhookCertPath f) (webhookCertName f) (webhookCertKey f) (enableLeaderElection f) x
    (secureMetrics f) (enableHTTP2 f) (resyncPeriod f) (watchNamespaceList f) (showVersion
    f) (otherFlags f).
Definition set_secureMetrics (x : bool) (f : MainFlags) : MainFlags :=
  mkMainFlags (metricsAddr f) (metricsCertPath f) (metricsCertName f) (metricsCertKey f)
    (webhookCertPath f) (webhookCertName f) (webhookCertKey f) (enableLeaderElection f)
    (probeAddr f) x (enableHTTP2 f) (resyncPeriod f) (watchNamespaceList f) (showVersion f)
    (otherFlags f).
Definition set_enableHTTP2 (x : bool) (f : MainFlags) : MainFlags :=
  mkMainFlags (metricsAddr f) (metricsCertPath f) (metricsCertName f) (metricsCertKey f)
    (webhookCertPath f) (webhookCertName f) (webhookCertKey f) (enableLeaderElection f)
    (probeAddr f) (secureMetrics f) x (resyncPeriod f) (watchNamespaceList f) (showVersion
    f) (otherFlags f).
Definition set_resyncPeriod (x : Z) (f : MainFlags) : MainFlags :=
  mkMainFlags (metricsAddr f) (metricsCertPath f) (metricsCertName f) (metricsCertKey f)
    (webhookCertPath f) (webhookCertName f) (webhookCertKey f) (enableLeaderElection f)
    (probeAddr f) (secureMetrics f) (enableHTTP2 f) x (watchNamespaceList f) (showVersion f)
    (otherFlags f).
Definition set_watchNamespaceList (x : string) (f : MainFlags) : MainFlags :=
  mkMainFlags (metricsAddr f) (metricsCertPath f) (metricsCertName f) (metricsCertKey f)
    (webhookCertPath f) (webhookCertName f) (webhookCertKey f) (enableLeaderElection f)
    (probeAddr f) (secureMetrics f) (enableHTTP2 f) (resyncPeriod f) x (showVersion f)
    (otherFlags f).
Definition set_showVersion (x : bool) (f : MainFlags) : MainFlags :=
  mkMainFlags (metricsAddr f) (metricsCertPath f) (metricsCertName f) (metricsCertKey f)
    (webhookCertPath f) (webhookCertName f) (webhookCertKey f) (enableLeaderElection f)
    (probeAddr f) (secureMetrics f) (enableHTTP2 f) (resyncPeriod f) (watchNamespaceList f)
    x (otherFlags f).
Definition set_otherFlags (x : list (string * string)) (f : MainFlags) : MainFlags :=
  mkMainFlags (metricsAddr f) (metricsCertPath f) (metricsCertName f) (metricsCertKey f)
    (webhookCertPath f) (webhookCertName f) (webhookCertKey f) (enableLeaderElection f)
    (probeAddr f) (secureMetrics f) (enableHTTP2 f) (resyncPeriod f) (watchNamespaceList f)
    (showVersion f) x.

Definition default_flags : MainFlags :=
  mkMainFlags "0" "" "tls.crt" "tls.key" "" "tls.crt" "tls.key" false ":8081" true false
    DefaultResync "" false [].

Inductive FlagVar :=
  | StringVar (set : string → MainFlags → MainFlags)
  | BoolVar (set : bool → MainFlags → MainFlags)
  | DurationVar (set : Z → MainFlags → MainFlags).

(** The flags [main] defines. *)
Definition main_flags : list (string * FlagVar) := [
  ("metrics-bind-address", StringVar set_metricsAddr);
  ("health-probe-bind-address", StringVar set_probeAddr);
  ("leader-elect", BoolVar set_enableLeaderElection);
  ("metrics-secure", BoolVar set_secureMetrics);
  ("webhook-cert-path", StringVar set_webhookCertPath);
  ("webhook-cert-name", StringVar set_webhookCertName);
  ("webhook-cert-key", StringVar set_webhookCertKey);
  ("metrics-cert-path", StringVar set_metricsCertPath);
  ("metrics-cert-name", StringVar set_metricsCertName);
  ("metrics-cert-key", StringVar set_metricsCertKey);
  ("enable-http2", BoolVar set_enableHTTP2);
  ("resync-period", DurationVar set_resyncPeriod);
  ("watch-namespace", StringVar set_watchNamespaceList);
  ("version", BoolVar set_showVersion)
].

Fixpoint find_flag (name : string) (l : list (string * FlagVar)) : option FlagVar :=
  match l with
  | [] => None
  | (n, v) :: l => if String.eqb n name then Some v else find_flag name l
  end.

(** [Value.Set] of a flag. *)
Definition set_var (var : FlagVar) (value : string) (f : MainFlags) : string + MainFlags :=
  match var with
  | StringVar set => inr (set value f)
  | BoolVar set => match ParseBool value with Some b => inr (set b f) | None => inl "parse error" end
  | DurationVar set =>
      match ParseDuration value with Some d => inr (set d f) | None => inl "parse error" end
  end.

(** ** The runtime *)

(** What the process does that can be seen from outside. *)
Inductive Effect :=
  | Register (v : MetricVec)
  | Println (s : string)
  | NewManager (o : ManagerOptions)
  | MakeEngine (e : Engine)
  | Complete (c : ControllerSpec)
  | AddHealthzCheck (name : string)
  | AddReadyzCheck (name : string)
  | StartManager
  | LogError (msg err : string).

Class Runtime := {
  go_version : string;
  (** [clientgoscheme.AddToScheme] of the empty scheme. *)
  clientgo_scheme : Scheme;
  (** The flags of other packages (zap, kubeconfig): whether they are boolean, and what
      their [Set] says of a value. *)
  other_is_bool : string → option bool;
  other_set : string → string → option string;
  (** The error of each call, if it has one, after the given effects. *)
  register : list Effect → MetricVec → option string;
  get_config : list Effect → option string;
  new_manager : list Effect → ManagerOptions → option string;
  complete : list Effect → ControllerSpec → option string;
  add_healthz_check : list Effect → string → option string;
  add_readyz_check : list Effect → string → option string;
  start_manager : list Effect → option string;
}.

(** A process: what it has done, and its exit code when it is over. *)
Definition Proc (A : Type) : Type := list Effect → (nat + A) * list Effect.
#[export] Instance Proc_ret : MRet Proc := λ A a l, (inr a, l).
#[export] Instance Proc_bind : MBind Proc := λ A B f m l,
  match m l with
  | (inl code, l) => (inl code, l)
  | (inr a, l) => f a l
  end.

Definition os_Exit {A} (code : nat) : Proc A := λ l, (inl code, l).
Definition effect (e : Effect) : Proc () := λ l, (inr (), l ++ [e]).
Definition asks (f : list Effect → option string) : Proc (option string) := λ l, (inr (f l), l).

(** [if err := ...; err != nil { setupLog.Error(err, msg); os.Exit(1) }]. *)
Definition fatal (msg : string) (err : option string) : Proc () :=
  match err with
  | None => mret ()
  | Some err => _ ← effect (LogError msg err); os_Exit 1
  end.

Definition step_or_exit (msg : string) (e : Effect) (f : list Effect → option string) : Proc () :=
  err ← asks f;
  _ ← effect e;
  fatal msg err.

Section Main.
Context `{Runtime}.

Definition flag_is_bool (name : string) : option bool :=
  match find_flag name main_flags with
  | Some (BoolVar _) => Some true
  | Some _ => Some false
  | None => other_is_bool name
  end.

Definition flag_set (name value : string) (f : MainFlags) : string + MainFlags :=
  match find_flag name main_flags with
  | Some var => set_var var value f
  | None =>
      match other_set name value with
      | Some err => inl err
      | None => inr (set_otherFlags (otherFlags f ++ [(name, value)]) f)
      end
  end.

(** [flag.Parse]: help exits with 0, an error with 2. *)
Definition flag_Parse (args : list string) : Proc MainFlags :=
  match Parse flag_is_bool flag_set args default_flags with
  | Parsed f _ => mret f
  | Help => os_Exit 0
  | Failed msg => _ ← effect (Println msg); os_Exit 2
  end.

(** The TLS options of both servers. *)
Definition tls_opts (f : MainFlags) : list (tls_Config → tls_Config) :=
  if negb (enableHTTP2 f) then [disableHTTP2] else [].

Definition webhook_options (f : MainFlags) : WebhookOptions :=
  if negb (String.eqb (webhookCertPath f) "")
  then mkWebhookOptions (tls_opts f) (webhookCertPath f) (webhookCertName f) (webhookCertKey f)
  else mkWebhookOptions (tls_opts f) "" "" "".

Definition metrics_options (f : MainFlags) : MetricsOptions :=
  let filter := if secureMetrics f then Some WithAuthenticationAndAuthorization else None in
  if negb (String.eqb (metricsCertPath f) "")
  then mkMetricsOptions (metricsAddr f) (secureMetrics f) (tls_opts f) filter
         (metricsCertPath f) (metricsCertName f) (metricsCertKey f)
  else mkMetricsOptions (metricsAddr f) (secureMetrics f) (tls_opts f) filter "" "" "".

(** The namespaces of a list: the pieces that are not blank. *)
Definition add_namespace (ns : string) (namespaces : gset string) : gset string :=
  let ns := TrimSpace ns in
  if negb (String.eqb ns "") then {[ns]} ∪ namespaces else namespaces.

Definition watch_namespaces (l : string) : option (gset string) :=
  if String.eqb l "" then None
  else
    let namespaces := foldr add_namespace ∅ (split_on "," l) in
    if decide (namespaces = ∅) then None else Some namespaces.

(** [init] of main.go. *)
Definition main_scheme : Scheme := AddToScheme clientgo_scheme.

Definition manager_options (f : MainFlags) : ManagerOptions :=
  mkManagerOptions main_scheme (metrics_options f) (webhook_options f) (probeAddr f)
    (enableLeaderElection f) "44c9846b.ctn-solutions.io"
    (watch_namespaces (watchNamespaceList f)).

(** [(&controller.XReconciler{...}).SetupWithManager(mgr)]. *)
Definition setup (name : string) (c : ControllerSpec) : Proc () :=
  step_or_exit ("Failed to create controller " +:+ name) (Complete c) (λ l, complete l c).

(** [main] once it has a manager. *)
Definition run_manager (f : MainFlags) : Proc () :=
  _ ← effect (MakeEngine (NewEngine true (resyncPeriod f)));
  _ ← setup "keycloakconnection" KeycloakConnectionReconciler_SetupWithManager;
  _ ← setup "realm" RealmReconciler_SetupWithManager;
  _ ← setup "client" ClientReconciler_SetupWithManager;
  _ ← setup "clientscope" ClientScopeReconciler_SetupWithManager;
  _ ← setup "realmrole" RealmRoleReconciler_SetupWithManager;
  _ ← setup "identityprovider" IdentityProviderReconciler_SetupWithManager;
  _ ← setup "group" GroupReconciler_SetupWithManager;
  _ ← step_or_exit "Failed to set up health check" (AddHealthzCheck "healthz")
        (λ l, add_healthz_check l "healthz");
  _ ← step_or_exit "Failed to set up ready check" (AddReadyzCheck "readyz")
        (λ l, add_readyz_check l "readyz");
  step_or_exit "Failed to run manager" StartManager start_manager.

Definition main (args : list string) : Proc () :=
  f ← flag_Parse args;
  if showVersion f then effect (Println (version_String go_version))
  else
    err ← asks get_config;
    _ ← fatal "unable to get kubeconfig" err;
    let o := manager_options f in
    _ ← step_or_exit "Failed to start manager" (NewManager o) (λ l, new_manager l o);
    run_manager f.

(** [init] of metrics.go: [MustRegister] panics on the first error, which exits with 2. *)
Definition registered_metrics : list MetricVec :=
  [ReconciliationsTotal; ReconcileDuration; DriftCorrectionsTotal; ConnectionUp;
   metrics_ServerInfo; AdminRequestsTotal; AdminRequestDuration].

Fixpoint MustRegister (l : list MetricVec) : Proc () :=
  match l with
  | [] => mret ()
  | v :: l =>
      err ← asks (λ tr, register tr v);
      match err with
      | Some _ => os_Exit 2
      | None => _ ← effect (Register v); MustRegister l
      end
  end.

(** The whole process: the initialisers, then [main]. *)
Definition program (args : list string) : Proc () :=
  _ ← MustRegister registered_metrics;
  main args.
End Main.
