(* ===== verification/MainTheorems.v ===== *)
(** * The guarantees of the entry point

    The order of start-up and its errors, the start of the whole operator under a runtime
    that keeps its documentation, the options of the servers, the namespaces that are
    watched, and the command line. *)

From Stdlib Require Import Ascii String ZArith Lia.
From stdpp Require Import base gmap strings list sets.
From S2P Require Import Prelude Json JsonText GoError ApiTypes World Url HttpClient Engine Flags Main.

Local Open Scope string_scope.
Local Open Scope list_scope.

(** ** Start-up *)

Section Startup.
Context `{Runtime}.

(** What the runtime says to an effect. *)
Definition fails (e : Effect) (l : list Effect) : option string :=
  match e with
  | NewManager o => new_manager l o
  | Complete c => complete l c
  | AddHealthzCheck name => add_healthz_check l name
  | AddReadyzCheck name => add_readyz_check l name
  | StartManager => start_manager l
  | _ => None
  end.

(** Steps that each may end the process. *)
Fixpoint run_steps (steps : list (string * Effect)) : Proc () :=
  match steps with
  | [] => mret ()
  | (msg, e) :: steps => _ ← step_or_exit msg e (fails e); run_steps steps
  end.

Definition controllers : list ControllerSpec :=
  [KeycloakConnectionReconciler_SetupWithManager; RealmReconciler_SetupWithManager;
   ClientReconciler_SetupWithManager; ClientScopeReconciler_SetupWithManager;
   RealmRoleReconciler_SetupWithManager; IdentityProviderReconciler_SetupWithManager;
   GroupReconciler_SetupWithManager].

(** The effects of a start without errors. *)
Definition startup (f : MainFlags) : list Effect :=
  [NewManager (manager_options f); MakeEngine (NewEngine true (resyncPeriod f))]
  ++ (Complete <$> controllers)
  ++ [AddHealthzCheck "healthz"; AddReadyzCheck "readyz"; StartManager].

(** The steps of [main], with the messages of their errors. *)
Definition main_steps (f : MainFlags) : list (string * Effect) :=
  zip (["Failed to start manager"; ""]
       ++ ((λ c, "Failed to create controller " +:+ Named c) <$> controllers)
       ++ ["Failed to set up health check"; "Failed to set up ready check";
           "Failed to run manager"]) (startup f).

Lemma step_or_exit_eq (msg : string) (e : Effect) (l : list Effect) :
  step_or_exit msg e (fails e) l =
    match fails e l with
    | None => (inr (), l ++ [e])
    | Some err => (inl 1, (l ++ [e]) ++ [LogError msg err])
    end.
Proof. unfold step_or_exit, mbind, Proc_bind, asks, effect, fatal. by destruct (fails e l). Qed.

Lemma bind_ext {A B} (m m' : Proc A) (f f' : A → Proc B) (l : list Effect) :
  m l = m' l → (∀ a l', f a l' = f' a l') → (m ≫= f) l = (m' ≫= f') l.
Proof. intros Hm Hf. unfold mbind, Proc_bind. rewrite Hm. by destruct (m' l) as [[]]. Qed.

Lemma bind_unit (m : Proc ()) (l : list Effect) : m l = (m ≫= (λ _, mret ())) l.
Proof. unfold mbind, Proc_bind. by destruct (m l) as [[|[]]]. Qed.

Lemma run_steps_last (msg : string) (e : Effect) (l : list Effect) :
  run_steps [(msg, e)] l = step_or_exit msg e (fails e) l.
Proof. symmetry. apply bind_unit. Qed.

(** [main], after its flags, is a run of its steps. *)
Lemma main_run (args : list string) (f : MainFlags) (rest : list string) (l : list Effect) :
  Parse flag_is_bool flag_set args default_flags = Parsed f rest → showVersion f = false →
  get_config l = None → main args l = run_steps (main_steps f) l.
Proof.
  intros Hp Hv Hc. unfold main, flag_Parse. rewrite Hp.
  unfold mbind at 1, Proc_bind at 1, mret at 1, Proc_ret at 1. rewrite Hv.
  unfold mbind at 1, Proc_bind at 1, asks at 1. rewrite Hc.
  unfold mbind at 1, Proc_bind at 1, fatal at 1, mret at 1, Proc_ret at 1. cbv zeta.
  unfold main_steps, startup, controllers. simpl zip. cbn [run_steps fails].
  apply bind_ext; [reflexivity|intros _ l1]. unfold run_manager.
  repeat (apply bind_ext; [reflexivity|intros _ ?l]).
  apply bind_unit.
Qed.

(** A run of steps does them all, or stops at the first that fails. *)
Lemma run_steps_spec (steps : list (string * Effect)) (l : list Effect) :
  (run_steps steps l = (inr (), l ++ (snd <$> steps)) ∧
   ∀ pre e post, (snd <$> steps) = pre ++ e :: post → fails e (l ++ pre) = None) ∨
  ∃ pre e post msg err, (snd <$> steps) = pre ++ e :: post ∧
    run_steps steps l = (inl 1, l ++ pre ++ [e; LogError msg err]) ∧
    fails e (l ++ pre) = Some err.
Proof.
  revert l. induction steps as [|[msg e] steps IH]; intros l.
  { left. simpl. rewrite app_nil_r. split; [done|]. by intros [] ? ?. }
  cbn [run_steps]. unfold mbind, Proc_bind. rewrite step_or_exit_eq, fmap_cons. simpl.
  destruct (fails e l) as [err|] eqn:He.
  { right. exists [], e, (snd <$> steps), msg, err. rewrite app_nil_r. simpl.
    by rewrite <- app_assoc. }
  destruct (IH (l ++ [e])) as [[Hr Hn]|(pre & e' & post & m & err & Hs & Hr & Hf)]; rewrite Hr.
  - left. rewrite <- app_assoc. split; [done|]. intros [|x pre] e' post E;
      simpl in E; injection E as <- E.
    + by rewrite app_nil_r.
    + specialize (Hn pre e' post E). by rewrite <- app_assoc in Hn.
  - right. exists (e :: pre), e', post, m, err. rewrite Hs. rewrite <- app_assoc in Hf.
    rewrite <- app_assoc. done.
Qed.

Lemma main_steps_effects (f : MainFlags) : snd <$> main_steps f = startup f.
Proof. reflexivity. Qed.
End Startup.

(** ** Laws of the runtime *)

(** A name Prometheus accepts. *)
Definition metric_char (c : ascii) : bool :=
  let n := nat_of_ascii c in between 97 122 n || between 65 90 n || Nat.eqb n 95.
Definition metric_name (s : string) : bool := negb (String.eqb s "") && str_all metric_char s.

(** What the documentation of the libraries promises: a metric with valid and new names is
    registered, a controller for a type of the manager's scheme is completed when its name
    is not taken, and a check is added when its name is not taken. *)
Class RuntimeLaws `{Runtime} := {
  register_ok (l : list Effect) (v : MetricVec) :
    metric_name (mv_name v) = true → Forall (λ x, metric_name x = true) (mv_labels v) →
    NoDup (mv_labels v) → (∀ v', Register v' ∈ l → mv_name v' ≠ mv_name v) →
    register l v = None;
  complete_ok (l : list Effect) (o : ManagerOptions) (c : ControllerSpec) :
    NewManager o ∈ l → (SchemeGroupVersion, For_kind c) ∈ mo_Scheme o →
    (∀ c', Complete c' ∈ l → Named c' ≠ Named c) → complete l c = None;
  add_healthz_ok (l : list Effect) (name : string) :
    AddHealthzCheck name ∉ l → StartManager ∉ l → add_healthz_check l name = None;
  add_readyz_ok (l : list Effect) (name : string) :
    AddReadyzCheck name ∉ l → StartManager ∉ l → add_readyz_check l name = None;
}.

(** A runtime that keeps them. *)
#[export] Instance Sim_Runtime : Runtime := {|
  go_version := "go1.26";
  clientgo_scheme := ∅;
  other_is_bool := λ name, if String.eqb name "zap-devel" then Some true
    else if String.eqb name "kubeconfig" then Some false else None;
  other_set := λ _ _, None;
  register := λ l v, if decide (mv_name v ∈ omap (λ e, if e is Register v' then Some (mv_name v') else None) l)
    then Some "duplicate metrics collector registration attempted" else None;
  get_config := λ _, None;
  new_manager := λ _ _, None;
  complete := λ l c, if decide (Named c ∈ omap (λ e, if e is Complete c' then Some (Named c') else None) l)
    then Some "controller with name already exists" else None;
  add_healthz_check := λ _ _, None;
  add_readyz_check := λ _ _, None;
  start_manager := λ _, None;
|}.

#[export] Instance Sim_RuntimeLaws : RuntimeLaws.
Proof.
  split; simpl; [| |done..].
  - intros l v _ _ _ Hn. rewrite decide_False; [done|].
    intros (e & He & E)%list_elem_of_omap. destruct e; simplify_eq. by destruct (Hn _ He).
  - intros l o c _ _ Hn. rewrite decide_False; [done|].
    intros (e & He & E)%list_elem_of_omap. destruct e; simplify_eq. by destruct (Hn _ He).
Qed.

Section Start.
Context `{RuntimeLaws}.

(** The names in use. *)
Definition metrics_in (l : list Effect) : list string :=
  omap (λ e, if e is Register v then Some (mv_name v) else None) l.
Definition names_in (l : list Effect) : list string :=
  omap (λ e, if e is Complete c then Some (Named c) else None) l.

Lemma MustRegister_ok (vs : list MetricVec) (l : list Effect) :
  Forall (λ v, metric_name (mv_name v) = true ∧ Forall (λ x, metric_name x = true) (mv_labels v) ∧
    NoDup (mv_labels v)) vs →
  NoDup (metrics_in l ++ (mv_name <$> vs)) →
  MustRegister vs l = (inr (), l ++ (Register <$> vs)).
Proof.
  intros Hv. revert l. induction Hv as [|v vs (Hn & Hl & Hd) _ IH]; intros l Hnd.
  { simpl. by rewrite app_nil_r. }
  cbn [MustRegister]. unfold mbind, Proc_bind, asks. rewrite register_ok; [|done..|].
  - unfold effect. rewrite IH; [by rewrite <- app_assoc|].
    unfold metrics_in. rewrite omap_app. simpl. by rewrite <- app_assoc.
  - intros v' Hv' E. apply NoDup_app in Hnd as (_ & Hnd & _).
    apply (Hnd (mv_name v)); [|left]. rewrite <- E. apply list_elem_of_omap. eauto.
Qed.

(** Every kind that is reconciled is registered. *)
Lemma kinds_registered (c : ControllerSpec) :
  c ∈ controllers → (SchemeGroupVersion, For_kind c) ∈ main_scheme.
Proof.
  intros Hc. apply elem_of_union_r, elem_of_list_to_set, list_elem_of_fmap.
  exists (For_kind c). split; [done|]. revert c Hc. apply Forall_forall. unfold SchemeBuilder. repeat constructor; set_solver.
Qed.

Lemma complete_next (l : list Effect) (c : ControllerSpec) (f : MainFlags) :
  NewManager (manager_options f) ∈ l → c ∈ controllers → Named c ∉ names_in l →
  fails (Complete c) l = None.
Proof.
  intros Hl Hc Hn. apply complete_ok with (manager_options f); [done|by apply kinds_registered|].
  intros c' Hc' E. apply Hn. rewrite <- E. apply list_elem_of_omap. eauto.
Qed.

Lemma run_steps_next (msg : string) (e : Effect) (steps : list (string * Effect))
    (l : list Effect) :
  fails e l = None → run_steps ((msg, e) :: steps) l = run_steps steps (l ++ [e]).
Proof. intros He. cbn [run_steps]. unfold mbind, Proc_bind. by rewrite step_or_exit_eq, He. Qed.

(** Controllers with names of their own are all set up. *)
Lemma run_controllers (msg : ControllerSpec → string) (cs : list ControllerSpec)
    (steps : list (string * Effect)) (f : MainFlags) (l : list Effect) :
  NewManager (manager_options f) ∈ l → (∀ c, c ∈ cs → c ∈ controllers) →
  NoDup (names_in l ++ (Named <$> cs)) →
  run_steps (((λ c, (msg c, Complete c)) <$> cs) ++ steps) l
  = run_steps steps (l ++ (Complete <$> cs)).
Proof.
  intros Hl. revert l Hl. induction cs as [|c cs IH]; intros l Hl Hc Hnd; simpl.
  { by rewrite app_nil_r. }
  rewrite fmap_cons in Hnd. unfold mbind, Proc_bind. rewrite step_or_exit_eq.
  rewrite (complete_next l c f); [|done|set_solver|].
  - rewrite IH; [by rewrite <- app_assoc|set_solver|set_solver|].
    unfold names_in. rewrite omap_app. simpl. by rewrite <- app_assoc.
  - intros Hin. apply NoDup_app in Hnd as (_ & Hnd & _). apply (Hnd _ Hin). left.
Qed.
End Start.

(** ** Theorems *)

(** C18.  Start-up is all or nothing.  With flags that parse, [main] does the steps of
    [startup] in order (the manager, the engine, the seven controllers, the two checks,
    the start); it stops at the first one the runtime refuses, with the error logged and
    exit code 1, and it starts the manager only when every step before was accepted. *)
Theorem main_starts_in_order `{Runtime} (args : list string) (f : MainFlags)
    (rest : list string) (l : list Effect) :
  Parse flag_is_bool flag_set args default_flags = Parsed f rest → showVersion f = false →
  get_config l = None →
  (main args l = (inr (), l ++ startup f) ∧
   ∀ pre e post, startup f = pre ++ e :: post → fails e (l ++ pre) = None) ∨
  ∃ pre e post msg err, startup f = pre ++ e :: post ∧
    main args l = (inl 1, l ++ pre ++ [e; LogError msg err]) ∧ fails e (l ++ pre) = Some err.
Proof.
  intros Hp Hv Hc. rewrite (main_run _ _ _ _ Hp Hv Hc), <- (main_steps_effects f).
  apply run_steps_spec.
Qed.

Lemma main_starts_in_order_witness :
  main ["--watch-namespace=team"; "--resync-period=10m"] []
  = (inr (), startup (set_resyncPeriod (10 * Minute) (set_watchNamespaceList "team" default_flags))).
Proof.
  destruct (main_starts_in_order ["--watch-namespace=team"; "--resync-period=10m"]
    (set_resyncPeriod (10 * Minute) (set_watchNamespaceList "team" default_flags)) [] [])
    as [[Hm _]|(pre & e & post & msg & err & _ & Hm & _)].
  1-3: reflexivity.
  - exact Hm.
  - exfalso. assert ((main ["--watch-namespace=team"; "--resync-period=10m"] []).1 = inr ())
      as E by (vm_compute; reflexivity). rewrite Hm in E. done.
Defined.

(** C19.  The operator starts.  Under a runtime that keeps its documentation the initialisers
    register all metrics without a panic, and once the manager is made, the controllers of
    all seven kinds are accepted: each kind is registered in the scheme and each controller
    has a name of its own.  The process then is what the start of the manager makes of it. *)
Theorem program_starts `{RuntimeLaws} (args : list string) (f : MainFlags) (rest : list string) :
  let l := Register <$> registered_metrics in
  let before := l ++ [NewManager (manager_options f); MakeEngine (NewEngine true (resyncPeriod f))]
    ++ (Complete <$> controllers) ++ [AddHealthzCheck "healthz"; AddReadyzCheck "readyz"] in
  Parse flag_is_bool flag_set args default_flags = Parsed f rest → showVersion f = false →
  get_config l = None → new_manager l (manager_options f) = None →
  program args [] =
    match start_manager before with
    | None => (inr (), before ++ [StartManager])
    | Some err => (inl 1, (before ++ [StartManager]) ++ [LogError "Failed to run manager" err])
    end.
Proof.
  intros l before Hp Hv Hc Hm. unfold program, mbind, Proc_bind.
  rewrite MustRegister_ok; [|repeat constructor; set_solver|].
  2: { apply (bool_decide_unpack _). vm_compute. exact I. }
  transitivity (main args l); [reflexivity|]. rewrite (main_run _ _ _ _ Hp Hv Hc).
  change (main_steps f) with (("Failed to start manager", NewManager (manager_options f))
    :: ("", MakeEngine (NewEngine true (resyncPeriod f)))
    :: ((λ c, ("Failed to create controller " +:+ Named c, Complete c)) <$> controllers)
    ++ [("Failed to set up health check", AddHealthzCheck "healthz");
        ("Failed to set up ready check", AddReadyzCheck "readyz");
        ("Failed to run manager", StartManager)]).
  rewrite run_steps_next by exact Hm. rewrite run_steps_next by reflexivity.
  rewrite (run_controllers _ _ _ f); [|set_solver|done|apply (bool_decide_unpack _); reflexivity].
  rewrite run_steps_next by (apply add_healthz_ok; set_solver).
  rewrite run_steps_next by (apply add_readyz_ok; set_solver).
  rewrite run_steps_last, step_or_exit_eq, <- !app_assoc. reflexivity.
Qed.

Lemma program_starts_witness :
  (program ["--leader-elect"] []).1 = inr () ∧
  StartManager ∈ (program ["--leader-elect"] []).2.
Proof.
  rewrite (program_starts ["--leader-elect"] (set_enableLeaderElection true default_flags) []);
    [|reflexivity..]. split; [reflexivity|]. simpl. set_solver.
Defined.

(** The configuration of a server after its options. *)
Definition apply_opts (opts : list (tls_Config → tls_Config)) (c : tls_Config) : tls_Config :=
  foldl (λ c opt, opt c) c opts.

(** The servers.  Whatever the flags, the metrics endpoint is served over TLS exactly
    when it is protected by authentication and authorization; unless HTTP/2 is asked for,
    the metrics and the webhook server speak HTTP/1.1 only, whatever their configuration
    was before; and a certificate is named exactly when its directory is given. *)
Lemma servers_protected (f : MainFlags) (c : tls_Config) :
  (SecureServing (metrics_options f) = true ↔
   ms_FilterProvider (metrics_options f) = Some WithAuthenticationAndAuthorization) ∧
  (let c1 := apply_opts (ms_TLSOpts (metrics_options f)) c in
   let c2 := apply_opts (wh_TLSOpts (webhook_options f)) c in
   if enableHTTP2 f then c1 = c ∧ c2 = c
   else NextProtos c1 = ["http/1.1"] ∧ NextProtos c2 = ["http/1.1"]) ∧
  (ms_CertDir (metrics_options f) = metricsCertPath f ∧
   wh_CertDir (webhook_options f) = webhookCertPath f) ∧
  (ms_CertName (metrics_options f) = if decide (metricsCertPath f = "") then "" else metricsCertName f) ∧
  (wh_KeyName (webhook_options f) = if decide (webhookCertPath f = "") then "" else webhookCertKey f).
Proof.
  unfold metrics_options, webhook_options, tls_opts.
  destruct (String.eqb_spec (metricsCertPath f) "") as [Hm|Hm],
    (String.eqb_spec (webhookCertPath f) "") as [Hw|Hw];
    destruct (secureMetrics f), (enableHTTP2 f); simpl; rewrite ?Hm, ?Hw;
    repeat case_decide; repeat split; congruence.
Qed.

(** A namespace as it can be listed: visible characters, no comma. *)
Definition listable (ns : string) : bool :=
  negb (String.eqb ns "") && str_all (λ c, visible c && negb (Ascii.eqb c ",")) ns.

Lemma str_all_impl (P Q : ascii → bool) (s : string) :
  (∀ c, P c = true → Q c = true) → str_all P s = true → str_all Q s = true.
Proof.
  intros HPQ. induction s as [|c s IH]; simpl; [done|].
  intros [Hc Hs]%andb_true_iff. apply andb_true_iff. eauto.
Qed.

Lemma add_namespaces_elem (l : list string) (ns : string) :
  ns ∈ foldr add_namespace ∅ l ↔ ns ≠ "" ∧ ∃ piece, piece ∈ l ∧ TrimSpace piece = ns.
Proof.
  induction l as [|x l IH]; simpl; [set_solver|]. unfold add_namespace at 1.
  destruct (String.eqb_spec (TrimSpace x) "") as [He|He]; simpl.
  - rewrite IH. set_solver.
  - rewrite elem_of_union, elem_of_singleton, IH. set_solver.
Qed.

(** C36.  The namespaces that are watched.  A restriction holds exactly the pieces of the
    list that are not blank, without the space around them, and there is one exactly when
    the list has such a piece: a list of blanks watches every namespace, as the empty list
    does.  A list of namespaces, separated by commas, restricts the operator to them. *)
Theorem watched_namespaces_exact (l : string) (names : list string) :
  match watch_namespaces l with
  | Some s => s ≠ ∅ ∧
      ∀ ns, ns ∈ s ↔ ns ≠ "" ∧ ∃ piece, piece ∈ split_on "," l ∧ TrimSpace piece = ns
  | None => l = "" ∨ ∀ piece, piece ∈ split_on "," l → TrimSpace piece = ""
  end ∧
  (names ≠ [] → Forall (λ ns, listable ns = true) names →
   watch_namespaces (join_with "," names) = Some (list_to_set names)).
Proof.
  split.
  - unfold watch_namespaces. destruct (String.eqb_spec l "") as [->|Hl]; [by left|].
    case_decide as He; [right|by split; [|apply add_namespaces_elem]].
    intros piece Hp. destruct (decide (TrimSpace piece = "")) as [|Hn]; [done|].
    assert (TrimSpace piece ∈ foldr add_namespace ∅ (split_on "," l)) as Hin
      by (apply add_namespaces_elem; eauto). set_solver.
  - intros Hne Hl. unfold watch_namespaces. rewrite split_names; [|done|].
    2: { eapply Forall_impl; [exact Hl|]. simpl. intros ns [_ Hs]%andb_true_iff.
         eapply str_all_impl; [|exact Hs]. simpl. by intros c [_ Hc]%andb_true_iff. }
    assert (foldr add_namespace ∅ names = list_to_set names) as E.
    { clear Hne. induction Hl as [|ns names [Hn Hs]%andb_true_iff _ IH]; simpl; [done|].
      rewrite IH. unfold add_namespace. rewrite TrimSpace_visible.
      - by rewrite Hn.
      - eapply str_all_impl; [|exact Hs]. simpl. by intros c [Hc _]%andb_true_iff. }
    rewrite E. destruct names as [|n names]; [done|].
    inversion_clear Hl as [|? ? [Hn _]%andb_true_iff Hl']. apply negb_true_iff, String.eqb_neq in Hn.
    rewrite (proj2 (String.eqb_neq _ _)), decide_False; [done|set_solver|].
    destruct n as [|c n]; [done|]. by destruct names.
Qed.

Lemma watched_namespaces_exact_witness :
  watch_namespaces (join_with "," ["team-a"; "team-b"]) = Some {["team-a"; "team-b"]} ∧
  watch_namespaces " , " = None.
Proof.
  split; [|vm_compute; reflexivity].
  rewrite (proj2 (watched_namespaces_exact "" ["team-a"; "team-b"])); [|done|by repeat constructor].
  reflexivity.
Defined.




