(* ===== verification/TestUtils.v ===== *)
(** * Helpers of the end-to-end tests (test/utils/utils.go)

    Commands are run in the project directory with their output captured; files are edited by
    [UncommentCode].  The operating system is the class [OS]: it may answer every call with
    an error.  The lemmas say what [UncommentCode] leaves in the file and when cert-manager is
    found.  Errors of the system are [PlainError]s with the text it gave. *)

From Stdlib Require Import Ascii String ZArith Lia.
From stdpp Require Import base gmap strings list.
From S2P Require Import Prelude Json JsonText GoError Url.

Local Open Scope string_scope.
Local Open Scope list_scope.
Local Open Scope nat_scope.

(** ** The operating system *)

Record Cmd := mkCmd { cmd_Args : list string; cmd_Dir : string; cmd_Env : list string }.

Class OS (Σ : Type) := {
  (** [strconv.Quote], the verb %q: which characters print is a table of Unicode. *)
  os_quote : string → string;
  os_getwd : Σ → string * option string;
  os_chdir : string → Σ → option string * Σ;
  os_environ : Σ → list string;
  os_lookup : string → Σ → option string;
  os_combined_output : Cmd → Σ → (string * option string) * Σ;
  os_read : string → Σ → string + string;
  os_write : string → string → Σ → option string * Σ;
  (** Text written to GinkgoWriter. *)
  os_report : string → Σ → Σ
}.

(** State passing. *)
Definition U (Σ A : Type) : Type := Σ → A * Σ.
#[export] Instance U_ret {Σ} : MRet (U Σ) := λ A a σ, (a, σ).
#[export] Instance U_bind {Σ} : MBind (U Σ) := λ A B f m σ, let '(a, σ') := m σ in f a σ'.

(** ** Strings *)

Definition line_feed : ascii := "010".
Definition carriage_return : ascii := "013".
Definition end_of_line : string := String line_feed "".

(** [strings.Index], [-1] being [None]. *)
Fixpoint Index (s target : string) : option nat :=
  match strip_prefix target s with
  | Some _ => Some 0%nat
  | None => match s with "" => None | String _ s' => S <$> Index s' target end
  end.
Definition Contains (s target : string) : bool := bool_decide (is_Some (Index s target)).

(** [strings.ReplaceAll] for a text that is not empty; [skip] characters of a match remain. *)
Fixpoint ReplaceAll (s old new : string) (skip : nat) : string :=
  match s with
  | "" => ""
  | String c s' =>
      match skip with
      | S k => ReplaceAll s' old new k
      | O => if strip_prefix old s is Some _
             then new +:+ ReplaceAll s' old new (String.length old - 1)
             else String c (ReplaceAll s' old new 0)
      end
  end.

(** [s[:n]] and [s[n:]]. *)
Definition slice_to (n : nat) (s : string) : string := substring 0 n s.
Definition slice_from (n : nat) (s : string) : string := substring n (String.length s - n) s.

(** A line without the carriage return at its end. *)
Fixpoint dropCR (s : string) : string :=
  match s with
  | "" => ""
  | String c "" => if Ascii.eqb c carriage_return then "" else s
  | String c s' => String c (dropCR s')
  end.

(** [bufio.MaxScanTokenSize]. *)
Definition MaxScanTokenSize : N := 65536.

(** The tokens of a [bufio.Scanner] over lines: nothing after the last newline is no line, and
    the scanner stops at a line that does not fit into its buffer. *)
Fixpoint scan_lines (pieces : list string) : list string :=
  match pieces with
  | [] | [""] => []
  | p :: pieces' =>
      if (MaxScanTokenSize <=? N.of_nat (String.length p))%N then [] else dropCR p :: scan_lines pieces'
  end.
Definition Scan (s : string) : list string := scan_lines (split_on line_feed s).

(** ** The helpers *)

Definition certmanagerVersion : string := "v1.20.2".
Definition certmanagerURL : string :=
  "https://github.com/cert-manager/cert-manager/releases/download/" +:+ certmanagerVersion
    +:+ "/cert-manager.yaml".
Definition defaultKindBinary : string := "kind".
Definition defaultKindCluster : string := "kind".

Definition GetNonEmptyLines (output : string) : list string :=
  filter (λ element, element ≠ "") (split_on line_feed output).

Definition certManagerCRDs : list string := [
  "certificates.cert-manager.io"; "issuers.cert-manager.io"; "clusterissuers.cert-manager.io";
  "certificaterequests.cert-manager.io"; "orders.acme.cert-manager.io";
  "challenges.acme.cert-manager.io"].

Section Helpers.
Context {Σ : Type} `{OS Σ}.

Definition report (text : string) : U Σ () := λ σ, ((), os_report text σ).
Definition warnError (err : GoError) : U Σ () :=
  report ("warning: " +:+ Error err +:+ end_of_line).

Definition GetProjectDir : U Σ (string * option GoError) := λ σ,
  match os_getwd σ with
  | (wd, Some err) =>
      ((wd, Some (Wrapped "failed to get current working directory: " (PlainError err) "")), σ)
  | (wd, None) => ((ReplaceAll wd "/test/e2e" "" 0, None), σ)
  end.

(** [exec.Command]. *)
Definition Command (args : list string) : Cmd := mkCmd args "" [].

Definition Run (cmd : Cmd) : U Σ (string * option GoError) :=
  dir ← GetProjectDir;
  moved ← os_chdir dir.1;
  _ ← (if moved is Some err
       then report ("chdir dir: " +:+ os_quote err +:+ end_of_line) else mret ());
  env ← (λ σ, (os_environ σ, σ));
  let command := join_with " " (cmd_Args cmd) in
  _ ← report ("running: " +:+ os_quote command +:+ end_of_line);
  ran ← os_combined_output (mkCmd (cmd_Args cmd) dir.1 (env ++ ["GO111MODULE=on"]));
  let '(output, err) := ran in
  mret (output, (λ e, Wrapped (os_quote command +:+ " failed with error " +:+ os_quote output
                        +:+ ": ") (PlainError e) "") <$> err).

(** [if _, err := Run(cmd); err != nil { warnError(err) }]. *)
Definition run_or_warn (args : list string) : U Σ () :=
  r ← Run (Command args);
  if r.2 is Some err then warnError err else mret ().

Fixpoint each_lease (leases : list string) : U Σ () :=
  match leases with
  | [] => mret ()
  | lease :: leases' =>
      _ ← run_or_warn ["kubectl"; "delete"; "lease"; lease; "-n"; "kube-system";
                       "--ignore-not-found"; "--force"; "--grace-period=0"];
      each_lease leases'
  end.

Definition UninstallCertManager : U Σ () :=
  _ ← run_or_warn ["kubectl"; "delete"; "-f"; certmanagerURL];
  each_lease ["cert-manager-cainjector-leader-election"; "cert-manager-controller"].

Definition InstallCertManager : U Σ (option GoError) :=
  r ← Run (Command ["kubectl"; "apply"; "-f"; certmanagerURL]);
  match r.2 with
  | Some err => mret (Some err)
  | None =>
      r ← Run (Command ["kubectl"; "wait"; "deployment.apps/cert-manager-webhook"; "--for";
                        "condition=Available"; "--namespace"; "cert-manager"; "--timeout"; "5m"]);
      mret r.2
  end.

Definition IsCertManagerCRDsInstalled : U Σ bool :=
  r ← Run (Command ["kubectl"; "get"; "crds"]);
  let '(output, err) := r in
  match err with
  | Some _ => mret false
  | None =>
      let crdList := GetNonEmptyLines output in
      mret (existsb (λ crd, existsb (λ line, Contains line crd) crdList) certManagerCRDs)
  end.

Definition LoadImageToKindClusterWithName (name : string) : U Σ (option GoError) :=
  cluster ← (λ σ, (default defaultKindCluster (os_lookup "KIND_CLUSTER" σ), σ));
  kindBinary ← (λ σ, (default defaultKindBinary (os_lookup "KIND" σ), σ));
  r ← Run (Command (kindBinary :: ["load"; "docker-image"; name; "--name"; cluster]));
  mret r.2.

Definition UncommentCode (filename target prefix : string) : U Σ (option GoError) := λ σ,
  match os_read filename σ with
  | inl err => (Some (Wrapped ("failed to read file " +:+ os_quote filename +:+ ": ") (PlainError err) ""), σ)
  | inr content =>
      match Index content target with
      | None =>
          (Some (PlainError ("unable to find the code " +:+ os_quote target +:+ " to be uncommented")), σ)
      | Some idx =>
          match Scan target with
          | [] => (None, σ)
          | tokens =>
              let out := slice_to idx content
                +:+ join_with end_of_line ((λ t, TrimPrefix t prefix) <$> tokens)
                +:+ slice_from (idx + String.length target) content in
              let '(err, σ') := os_write filename out σ in
              ((λ e, Wrapped ("failed to write file " +:+ os_quote filename +:+ ": ")
                       (PlainError e) "") <$> err, σ')
          end
      end
  end.
End Helpers.

(** ** Strings, lemmas *)

Lemma strip_prefix_eq (p s r : string) : strip_prefix p s = Some r → s = p +:+ r.
Proof.
  revert s. induction p as [|a p IH]; intros s; simpl; [by intros [= ->]|].
  destruct s as [|b s]; [done|]. destruct (ascii_dec a b) as [->|]; [|done].
  intros ->%IH. done.
Qed.

(** [Index] is the start of the first occurrence. *)
Lemma Index_found (s target : string) (n : nat) :
  Index s target = Some n → ∃ before after,
    s = before +:+ target +:+ after ∧ String.length before = n.
Proof.
  revert n. induction s as [|c s IH]; intros n; cbn [Index];
    destruct (strip_prefix target _) as [r|] eqn:Hr.
  1,3: intros [= <-]; exists "", r; split; [by apply strip_prefix_eq in Hr|done].
  - done.
  - destruct (Index s target) as [k|]; [|done]. intros [= <-].
    destruct (IH k eq_refl) as (before & after & -> & <-). by exists (String c before), after.
Qed.

Lemma Index_first (before target after : string) :
  ∃ n, Index (before +:+ target +:+ after) target = Some n ∧ n ≤ String.length before.
Proof.
  induction before as [|c before (n & IH & Hn)].
  - exists 0. split; [|done]. change ("" +:+ ?x) with x.
    assert (strip_prefix target (target +:+ after) = Some after) as Hp by apply strip_prefix_app.
    destruct (target +:+ after); cbn [Index]; by rewrite Hp.
  - change (String c before +:+ ?x) with (String c (before +:+ x)). cbn [Index].
    destruct (strip_prefix _ _); [by exists 0; split; [|lia]|]. rewrite IH. exists (S n). simpl. split; [done|lia].
Qed.

Lemma Contains_iff (s target : string) :
  Contains s target = true ↔ ∃ before after, s = before +:+ target +:+ after.
Proof.
  unfold Contains. rewrite bool_decide_eq_true. split.
  - intros [n (before & after & Hs & _)%Index_found]. by exists before, after.
  - intros (before & after & ->). destruct (Index_first before target after) as (n & -> & _). done.
Qed.

Lemma slice_to_app (a b : string) : slice_to (String.length a) (a +:+ b) = a.
Proof. unfold slice_to. induction a as [|c a IH]; simpl; [by destruct b|]. by f_equal. Qed.

Lemma slice_from_app (a b : string) : slice_from (String.length a) (a +:+ b) = b.
Proof.
  unfold slice_from. rewrite length_append.
  replace (_ + _ - _) with (String.length b) by lia.
  induction a as [|c a IH]; simpl; [|done].
  induction b as [|c b IH]; simpl; [done|]. by f_equal.
Qed.

(** ** Scanning *)

(** A line that the scanner hands out as it is. *)
Definition plain_line (l : string) : Prop :=
  str_all (λ d, negb (Ascii.eqb d line_feed)) l = true ∧ dropCR l = l ∧
  (N.of_nat (String.length l) < MaxScanTokenSize)%N.

Lemma scan_line (l : string) (ls : list string) :
  plain_line l → l :: ls ≠ [""] → scan_lines (l :: ls) = l :: scan_lines ls.
Proof.
  intros (_ & Hcr & Hlen%N.leb_gt) Hne.
  assert (scan_lines (l :: ls) = if (MaxScanTokenSize <=? N.of_nat (String.length l))%N
    then [] else dropCR l :: scan_lines ls) as -> by (destruct ls, l; done).
  by rewrite Hlen, Hcr.
Qed.

Lemma scan_lines_plain (ls : list string) :
  Forall plain_line ls → last ls ≠ Some "" → scan_lines ls = ls.
Proof.
  induction 1 as [|l ls Hl Hls IH]; intros Hlast; [done|].
  rewrite scan_line by (done || by intros [= -> ->]). destruct ls; [done|]. by rewrite IH.
Qed.

(** The lines of a block are scanned back, where the last one is not empty. *)
Lemma Scan_lines (ls : list string) :
  ls ≠ [] → Forall plain_line ls → last ls ≠ Some "" → Scan (join_with end_of_line ls) = ls.
Proof.
  intros Hne Hls Hlast. unfold Scan, end_of_line.
  rewrite split_names; [by apply scan_lines_plain|done|].
  eapply Forall_impl; [exact Hls|]. by intros l [??].
Qed.

Lemma join_with_snoc (sep : string) (ls : list string) :
  ls ≠ [] → join_with sep ls +:+ sep = join_with sep (ls ++ [""]).
Proof.
  induction ls as [|l [|l' ls] IH]; intros Hne; [done| |].
  - cbn. by rewrite append_nil_r.
  - change (join_with sep (l :: l' :: ls)) with (l +:+ sep +:+ join_with sep (l' :: ls)).
    change (join_with sep ((l :: l' :: ls) ++ [""]))
      with (l +:+ sep +:+ join_with sep ((l' :: ls) ++ [""])).
    rewrite <- IH by done. by rewrite !append_assoc.
Qed.

(** A newline at the end of the text is not seen. *)
Lemma Scan_final_newline (ls : list string) :
  ls ≠ [] → Forall plain_line ls → Scan (join_with end_of_line ls +:+ end_of_line) = ls.
Proof.
  intros Hne Hls. unfold Scan. rewrite join_with_snoc by done.
  unfold end_of_line. rewrite split_names; [|by destruct ls|].
  - clear Hne. induction Hls as [|l ls Hl Hls IH]; [done|].
    change ((l :: ls) ++ [""]) with (l :: (ls ++ [""])). rewrite scan_line; [by rewrite IH|done|].
    by destruct ls.
  - apply Forall_app. split; [|by constructor]. eapply Forall_impl; [exact Hls|]. by intros l [??].
Qed.

Section Laws.
Context {Σ : Type} `{OS Σ}.

(** What [UncommentCode] writes around the first occurrence of its target. *)
Lemma UncommentCode_found (filename target prefix content : string) (idx : nat) (σ : Σ) :
  os_read filename σ = inr content → Index content target = Some idx → Scan target ≠ [] →
  ∃ before after, content = before +:+ target +:+ after ∧ String.length before = idx ∧
    (UncommentCode filename target prefix σ).2 =
    (os_write filename (before +:+ join_with end_of_line ((λ t, TrimPrefix t prefix) <$> Scan target)
                        +:+ after) σ).2.
Proof.
  intros Hr Hi Hs. destruct (Index_found _ _ _ Hi) as (before & after & Hc & Hl).
  exists before, after. split_and!; [done..|]. unfold UncommentCode. rewrite Hr, Hi.
  destruct (Scan target) as [|t ts]; [done|].
  assert (slice_to idx content = before) as -> by (subst; apply slice_to_app).
  assert (slice_from (idx + String.length target) content = after) as ->.
  { subst. rewrite <- length_append, <- append_assoc. apply slice_from_app. }
  by destruct (os_write _ _ _).
Qed.

(** A block of commented lines that occurs in a file is replaced by its lines without the
    comment, and nothing else of the file changes. *)
Lemma UncommentCode_restores (filename prefix before after : string) (code : list string) (σ : Σ) :
  let target := join_with end_of_line ((λ l, prefix +:+ l) <$> code) in
  code ≠ [] → prefix ≠ "" → Forall (λ l, plain_line (prefix +:+ l)) code →
  Index (before +:+ target +:+ after) target = Some (String.length before) →
  os_read filename σ = inr (before +:+ target +:+ after) →
  (UncommentCode filename target prefix σ).2 =
  (os_write filename (before +:+ join_with end_of_line code +:+ after) σ).2.
Proof.
  intros target Hne Hpre Hplain Hi Hr.
  assert (Scan target = (λ l, prefix +:+ l) <$> code) as Hscan.
  { apply Scan_lines; [by destruct code|by apply Forall_fmap|].
    rewrite fmap_last. destruct (last code); [|done]. intros [= Hp]. by destruct prefix. }
  destruct (UncommentCode_found filename target prefix _ _ σ Hr Hi) as (b & a & Hc & Hlen & ->).
  { rewrite Hscan. by destruct code. }
  assert (b = before ∧ a = after) as [-> ->].
  { assert (b = before) as ->.
    { rewrite <- (slice_to_app b (target +:+ a)), <- Hc, Hlen. apply slice_to_app. }
    split; [done|]. apply append_inj_l, append_inj_l in Hc. done. }
  rewrite Hscan, <- list_fmap_compose. do 5 f_equal.
  rewrite <- (list_fmap_id code) at 2. apply list_fmap_ext. intros i l _. unfold compose, TrimPrefix.
  by rewrite strip_prefix_app.
Qed.

(** Where the target does not occur or cannot be read, an error is returned and nothing is
    written. *)
Lemma UncommentCode_absent (filename target prefix : string) (σ : Σ) :
  (∀ content, os_read filename σ = inr content → Contains content target = false) →
  ∃ err, UncommentCode filename target prefix σ = (Some err, σ).
Proof.
  intros Hno. unfold UncommentCode. destruct (os_read filename σ) as [err|content]; [by eexists|].
  specialize (Hno content eq_refl). unfold Contains in Hno. apply bool_decide_eq_false in Hno.
  destruct (Index content target); [by destruct Hno|by eexists].
Qed.

(** The check for cert-manager answers yes exactly if the command succeeds and a line of its
    output names one of the definitions. *)
Lemma IsCertManagerCRDsInstalled_iff (σ : Σ) :
  (IsCertManagerCRDsInstalled σ).1 = true ↔
  ∃ output crd line, (Run (Command ["kubectl"; "get"; "crds"]) σ).1 = (output, None) ∧
    crd ∈ certManagerCRDs ∧ line ∈ split_on line_feed output ∧
    ∃ before after, line = before +:+ crd +:+ after.
Proof.
  unfold IsCertManagerCRDsInstalled. cbv [mbind U_bind mret U_ret].
  destruct (Run _ σ) as [[output [err|]] σ']; cbn [fst].
  { split; [done|]. by intros (?&?&?&?&_). }
  rewrite existsb_exists. split.
  - intros (crd & Hcrd & (line & Hline & Hc)%existsb_exists).
    exists output, crd, line. rewrite <- Contains_iff, list_elem_of_In.
    apply list_elem_of_In in Hline. unfold GetNonEmptyLines in Hline.
    apply list_elem_of_filter in Hline as [_ ?]. done.
  - intros (output' & crd & line & [= ->] & Hcrd & Hline & Hc). exists crd.
    rewrite <- list_elem_of_In. split; [done|]. apply existsb_exists. exists line.
    rewrite <- list_elem_of_In, Contains_iff. split; [|done].
    apply list_elem_of_filter. split; [|done]. intros ->. destruct Hc as (before & after & Hc).
    unfold certManagerCRDs in Hcrd. repeat (apply elem_of_cons in Hcrd as [->|Hcrd]; [by destruct before|]).
    by apply elem_of_nil in Hcrd.
Qed.
End Laws.

(** ** A concrete system: files in memory, commands that print nothing *)

Definition Files : Type := gmap string string.
Definition Files_OS : OS Files := {|
  os_quote := q;
  os_getwd _ := ("/src/test/e2e", None);
  os_chdir _ σ := (None, σ);
  os_environ _ := [];
  os_lookup _ _ := None;
  os_combined_output _ σ := (("", None), σ);
  os_read f σ := if σ !! f is Some content then inr content else inl ("open " +:+ f);
  os_write f content σ := (None, <[f := content]> σ);
  os_report _ σ := σ
|}.
#[local] Existing Instance Files_OS.

Definition one_file (content : string) : Files := {["kustomization.yaml" := content]}.

Example uncomment_block :
  (UncommentCode "kustomization.yaml" ("#- ../webhook" +:+ end_of_line +:+ "#- ../cert") "#"
     (one_file ("resources:" +:+ end_of_line +:+ "#- ../webhook" +:+ end_of_line +:+ "#- ../cert"
                +:+ end_of_line +:+ "#- ../rbac"))).2 !! "kustomization.yaml" =
  Some ("resources:" +:+ end_of_line +:+ "- ../webhook" +:+ end_of_line +:+ "- ../cert"
        +:+ end_of_line +:+ "#- ../rbac").
Proof. by vm_compute. Qed.

(** A target that ends in a newline loses it, and two lines become one. *)
Example uncomment_joins_lines :
  (UncommentCode "kustomization.yaml" ("#- ../cert" +:+ end_of_line) "#"
     (one_file ("#- ../cert" +:+ end_of_line +:+ "- ../rbac"))).2 !! "kustomization.yaml" =
  Some "- ../cert- ../rbac".
Proof. by vm_compute. Qed.
